(* ===== verification/_CoqProject ===== *)
-Q . S2P
Prelude.v
Memory.v
Double.v
Buffer.v
Crc32.v
Io.v
EsDecode.v
EsEncode.v
EsRpc.v
Object.v
Map.v
Canonical.v
Visit.v
ObjectOps.v
Arena.v
Vector.v
Base64.v
JsonEncode.v
JsonParse.v
JsonGrammar.v
JsonAccept.v
JsonDecode.v
JsonValue.v
JsonUnescape.v
JsonStored.v
JsonContainers.v
JsonMaps.v
Claim.v
ObjectCompare.v
JsonDecodeSpec.v
JsonRoundtrip.v
File.v
Socket.v
Descriptors.v
Util.v
Streams.v
Client.v
Wp.v
Registry.v
Receiving.v
Delivery.v
IpcCalls.v
Events.v
Subscriptions.v
Configuration.v
Sending.v
Requests.v
Api.v
