(* ===== verification/Prelude.v ===== *)
(** A verification library for the AWS IoT Greengrass component SDK.

    * The program

    The SDK ([src/], C) lets a component of an AWS IoT Greengrass device talk
    to the nucleus over a Unix socket. Its layers, from the bottom:
    buffers, machine integers and error codes; a packed representation of
    JSON-like objects, with maps, visits and canonical forms; arenas and
    vectors of fixed capacity; the Base64, JSON and EventStream codecs; files
    and sockets over the system calls; and the IPC client, which multiplexes
    calls and subscriptions over the streams of one connection, with a thread
    that receives packets and answers the calls that wait.

    * Files, and the code they model (paths under [src/])

    - [Prelude]: machine integers and byte strings, error codes, the monads of
      results, tactics and hint databases. [Memory]: the byte-addressed store.
    - [Double]: doubles by their bits, with the rounded operations that comparing
      objects and timestamps use.
    - [Buffer] ([src/buffer.c]), [Crc32] ([src/crc32.c]), [Io]
      ([priv_include/gg/io.h]): buffers; the CRC; readers and writers, with the
      classes [AppendWriter] and [StreamReader] that state what
      their clients rely on.
    - [EsDecode], [EsEncode], [EsRpc] ([src/eventstream/]): the packets of the
      protocol, on the CRC, buffers, readers and writers.
    - [Object], [Map], [Canonical], [Visit], [ObjectOps] ([src/object.c],
      [src/map.c], [src/map_canonical.c], [src/object_visit.c],
      [src/object_canonical.c], [src/list.c]): packed objects in memory, their
      look-up, validation, canonical form and traversal.
    - [Arena] ([src/arena.c]), [Vector] ([src/vector.c]), [Base64]
      ([src/base64.c]). [Claim]: the copy that claiming an object for an arena
      makes.
    - [JsonEncode] ([src/json_encode.c]), [JsonParse] and [JsonDecode]
      ([src/json_decode.c]): the encoder is a visit with a writer; the decoder
      runs a grammar of parser combinators and unescapes strings in place.
      Their specification and proofs: [JsonGrammar] is a reference parser to
      syntax trees, which [JsonAccept] shows the combinators to implement;
      [JsonValue] is the value of a syntax tree, with its errors and the space
      it takes; [JsonUnescape], [JsonStored], [JsonContainers] and
      [JsonDecodeSpec] show that the second pass computes it (strings, what an
      object in memory represents, arrays and maps, the whole decoder);
      [JsonMaps] looks up and validates JSON objects that are in memory;
      [JsonRoundtrip] composes the decoder with the encoder.
    - [ObjectCompare] ([unity/gg_test/object_compare.c]): the comparison of two
      objects.
    - [File] ([src/file.c]), [Socket] ([src/socket.c], [src/socket_epoll.c]),
      over the system calls as the parameters [Os] and [SockOs];
      [Descriptors]: what they leave open.
    - [Util]: [src/error.c], [src/math.c], [src/alloc.c], [src/init.c],
      [src/rand.c], [src/sleep.c], [src/backoff.c].
    - [Streams], [Client] ([src/ipc/client.c]): the table of streams and the
      client over all of the above; [Registry]: its steps, the invariant of its
      state and the abstract registry of streams that it refines. [Wp] is a
      logic of weakest preconditions for the client's computations, in which
      [Receiving] shows that receiving is safe on any bytes and [Delivery] what
      the application's callbacks are called with. [IpcCalls]
      ([src/ipc/client/]): the operations of the interface, with the library's
      own callbacks. [Events] shows what its callbacks for events do with a JSON
      object, and [Subscriptions] composes this with the delivery of events up
      to the callback of the application; [Configuration] does the same for
      responses, up to the arena of the caller. [Sending] composes the codecs,
      the registration of a call and writing to a socket;
      [Requests] gives, per operation, the JSON text of the parameters that it
      builds in its local arrays; [Api] is the specification of the interface
      as relations ([op_sends], [op_refuses]) and its refinement.

    * How state and effects correspond

    Definitions have the names of the functions. A byte is a [Z] in [0, 256), a
    machine integer is a [Z] whose wrap-around is written out ([uwrap],
    [swrap]); the platform is the 64-bit little-endian one. A buffer that is
    only read is its contents; where the code computes with pointers or writes
    through them, it is a [BufPtr] into a [mem], a finite map from the addresses
    of live objects to bytes, so that aliasing is that of the code. A load or
    store outside of it, a failed assertion (assertions are enabled) and
    undefined behaviour are [None] or [Stuck], never a value; an error code is
    a value. Functions that only compute return an [outcome]; functions on
    memory or on a writer return an [option] of the error code and the new
    state; functions that make system calls, and the client, are in the state
    monad [sysm]. A local variable lives in memory where its address is used.

    The client's concurrency is that of its mutex: a step is a stretch of code
    that runs while the mutex is held ([ggipc_subscribe_begin],
    [subscribe_finish], [subscribe_timed_out], [handle_packet],
    [ggipc_close_subscription]), and [client_steps] interleaves them freely.

    * What the theorems show

    - The interface: every request of [client.h] writes to the connection exactly
      the packet that its specification gives, with the JSON text of its arguments
      ([op_sends_packet]), or refuses invalid arguments without sending
      ([op_refuses_call]).
    - Receiving: whatever the connection gives, dispatching a packet does not
      get stuck and keeps the client's invariant, with any callbacks that keep
      their memory ([receiving_safe]); a JSON object in a response or an event
      reaches, as a map of exactly its members, the callback of the call or the
      subscription of its stream and no other ([response_delivered],
      [event_delivered]). The library's handlers of events accept exactly the
      objects of the expected form ([event_handlers_exact]), and an event on the
      connection calls the application's callback with the topic and the
      decoded payload ([event_reaches_application]). The response to a request
      for a configuration value leaves a deep copy of the value in the caller's
      arena, or the error that says why not ([config_value_delivered]); a string
      goes to the caller's buffer ([config_string_exact]).
    - The client: its steps refine the registry of streams, from any
      interleaving and any packets ([client_refines_registry]), with the
      invariant that a waiting stream refers to a live call
      ([client_invariant]); handles are valid until their slot is cleared
      ([handle_validity]); a timeout removes whatever stream the slot of its call
      holds, even when the call was answered and the slot is another call's by
      now, whose response is then dropped ([late_timeout_drops_response]).
    - EventStream: the decoder accepts exactly the encodings, is safe on
      arbitrary bytes and rejects corrupted packets; encoding and decoding are
      inverse; packets are framed on any stream, whatever its contents.
    - JSON: the encoder writes exactly the text of an object through any
      writer ([json_encode_exact], numbers that are too long for its array
      included, which it cuts); the grammar terminates on every text with linear fuel, in bounds;
      the decoder refines its specification on every text, errors and
      allocation included ([json_decode_exact]); decoding what the encoder
      wrote gives the value back ([json_roundtrip]).
    - Objects and maps: packing round trips, look-up, validation, the visitor
      as a refinement of a recursive traversal with any handlers, also ones that
      change the object ([visit_events]), canonical forms, memory usage;
      comparing two objects always reaches the decision whether their values are
      equal, within the limits; what may fail is the report of a difference, which
      is kept apart from the decision ([obj_eq_exact]).
    - Allocation: disjointness, exact success conditions, resizing; claiming an
      object makes a deep copy, with the errors for what does not fit or is beyond
      the limits ([arena_claim_obj_exact]).
    - Buffers, integers, CRC, Base64: functional correctness with the exact
      conditions of every error, and equivalence of the table-driven CRC.
    - Files, sockets, retries: whole reads and writes over partial and
      interrupted ones, no leak of descriptors on any path, retries that end.

    A theorem whose hypotheses could be vacuous has a witness at a concrete
    input.

    * Fuel and bounds

    [VISIT_FUEL] = 767 is three iterations per object of the largest visit (255
    subobjects), and [visit_events] shows that it is never used up. A parser
    runs with [parser_fuel n], linear in the length [n] of the text
    ([json_value_parses]). [take_json_val] has one unit per level of nesting
    and each level consumes a character, so [decode_fuel] is the length, which
    [json_decode_exact] shows to be enough on every text. Loops
    that repeat interrupted system calls have [retries] as a bound on
    consecutive interruptions, an assumption about the system; the loops of the
    receiving thread and of the wait for a response are driven by the
    environment and take fuel.

    * What is a parameter

    System calls, [strtod] (its theorems suppose that it reads the longest
    number at its argument, [strtod_reads], of which [scan_strtod] is an
    instance), [snprintf] of a double, [pthread_cond_timedwait]
    (its effect is a choice between [subscribe_finish] and
    [subscribe_timed_out]), the callbacks of the application (they return nothing,
    so that an error of theirs ends with them, [void]), and the addresses
    the linker and the stack give. Logging has no effect. The arithmetic on
    doubles is that of IEEE 754 to nearest, each operation rounded: a compiler
    that contracts a product and a sum may give another last bit of a timestamp.

    * Not modelled

    [src/log.c] (output only); the initialization of mutexes by constructors,
    and the ignoring of SIGPIPE (no state that the program reads); the variant of the CRC on a
    compiler builtin (other platforms); attributes and contracts for other
    tools; the C++ and Rust bindings, the mock server, tests and samples (not
    the program's core).

    * Plan

    Left: the decoder with a null pointer for the object, which only checks a
    text; several requests for configuration values at once, which
    [copy_config_obj_safe] treats for one. *)

From Stdlib Require Import ZArith Lia.
From stdpp Require Export base tactics numbers list option strings gmap.

#[export] Set Default Goal Selector "!".

Open Scope Z_scope.

(** * Machine integers

    A C integer is a [Z]; the conversions the code performs are written out.
    The modelled platform is the 64-bit little-endian one. *)

Definition UINT8_MAX : Z := 255.
Definition UINT16_MAX : Z := 65535.
Definition UINT32_MAX : Z := 4294967295.
Definition SIZE_MAX : Z := 18446744073709551615.
Definition INT32_MIN : Z := -2147483648.
Definition INT64_MIN : Z := -9223372036854775808.
Definition INT64_MAX : Z := 9223372036854775807.
Definition PTRDIFF_MAX : Z := 9223372036854775807.

(** Conversion to an unsigned type of [w] bits, and to a signed one. *)
Definition uwrap (w z : Z) : Z := z mod 2 ^ w.
Definition swrap (w z : Z) : Z := (z + 2 ^ (w - 1)) mod 2 ^ w - 2 ^ (w - 1).

Definition is_byte (b : Z) : Prop := 0 <= b < 256.
Definition is_byteb (b : Z) : bool := (0 <=? b) && (b <? 256).
Definition in_int64 (z : Z) : Prop := INT64_MIN <= z <= INT64_MAX.

(** * Byte strings *)

Abbreviation bytes := (list Z).

Definition bytes_ok (bs : bytes) : Prop := Forall is_byte bs.

(** [GG_STR("...")]: the bytes of a string literal. *)
Definition GG_STR (s : string) : bytes :=
  (fun c => Z.of_N (Ascii.N_of_ascii c)) <$> String.list_ascii_of_string s.

(** A character literal. *)
Definition chr (c : Ascii.ascii) : Z := Z.of_N (Ascii.N_of_ascii c).

Definition zlen {A} (l : list A) : Z := Z.of_nat (length l).

(** Checked access to an array: [None] is an access outside of it. *)
Definition rd {A} (l : list A) (i : Z) : option A :=
  if i <? 0 then None else l !! Z.to_nat i.

Definition ztake {A} (n : Z) (l : list A) : list A := take (Z.to_nat n) l.
Definition zdrop {A} (n : Z) (l : list A) : list A := drop (Z.to_nat n) l.

(** * Error codes ([include/gg/error.h]) *)

Inductive GgError : Type :=
  | GG_ERR_OK
  | GG_ERR_FAILURE
  | GG_ERR_RETRY
  | GG_ERR_BUSY
  | GG_ERR_FATAL
  | GG_ERR_INVALID
  | GG_ERR_UNSUPPORTED
  | GG_ERR_PARSE
  | GG_ERR_RANGE
  | GG_ERR_NOMEM
  | GG_ERR_NOCONN
  | GG_ERR_NODATA
  | GG_ERR_NOENTRY
  | GG_ERR_CONFIG
  | GG_ERR_REMOTE
  | GG_ERR_EXPECTED
  | GG_ERR_TIMEOUT.

#[export] Instance GgError_eq_dec : EqDecision GgError.
Proof. solve_decision. Defined.

(** * Outcomes

    [Ok a]: the function returns [GG_ERR_OK] and its outputs are [a].
    [Fail e]: it returns the error [e].
    [Stuck]: an assertion fails, memory outside of every object is accessed,
    or the fuel of a loop runs out. *)

Inductive outcome (A : Type) : Type :=
  | Ok (a : A)
  | Fail (e : GgError)
  | Stuck.
Arguments Ok {A} a.
Arguments Fail {A} e.
Arguments Stuck {A}.

#[export] Instance outcome_ret : MRet outcome := @Ok.
#[export] Instance outcome_bind : MBind outcome := fun A B k c =>
  match c with
  | Ok a => k a
  | Fail e => Fail e
  | Stuck => Stuck
  end.

#[export] Instance outcome_eq_dec `{EqDecision A} : EqDecision (outcome A).
Proof. solve_decision. Defined.

(** An access that must be in bounds. *)
Definition get {A} (o : option A) : outcome A :=
  match o with Some a => Ok a | None => Stuck end.

(** [assert(c)], assertions being enabled. *)
Definition gg_assert (c : bool) : outcome unit := if c then Ok tt else Stuck.
Definition gg_asserts (c : bool) : option unit := if c then Some tt else None.

(** * Tactics *)

(** Turn boolean comparisons in hypotheses and goal into propositions. *)
Ltac zify_bool :=
  repeat match goal with
  | H : _ && _ = true |- _ => apply andb_true_iff in H as [? ?]
  | H : _ || _ = false |- _ => apply orb_false_iff in H as [? ?]
  | H : negb _ = true |- _ => apply negb_true_iff in H
  | H : negb _ = false |- _ => apply negb_false_iff in H
  | H : (_ =? _)%Z = true |- _ => apply Z.eqb_eq in H
  | H : (_ =? _)%Z = false |- _ => apply Z.eqb_neq in H
  | H : (_ <? _)%Z = true |- _ => apply Z.ltb_lt in H
  | H : (_ <? _)%Z = false |- _ => apply Z.ltb_ge in H
  | H : (_ <=? _)%Z = true |- _ => apply Z.leb_le in H
  | H : (_ <=? _)%Z = false |- _ => apply Z.leb_gt in H
  end.

(** Linear arithmetic with quotients and remainders by constants. *)
Ltac dlia := Z.to_euclidean_division_equations; lia.

(** Destruct the tests of [if]s, remembering their outcome. *)
Ltac case_if_on b :=
  lazymatch type of b with
  | bool =>
      lazymatch b with
      | context [if _ then _ else _] => fail
      | _ => let E := fresh "E" in destruct b eqn:E; zify_bool
      end
  end.
Ltac case_if :=
  match goal with
  | |- context [if ?b then _ else _] => case_if_on b
  end.
Ltac case_if_in H :=
  match type of H with
  | context [if ?b then _ else _] => case_if_on b
  end.

(** Step through a monadic hypothesis. *)
Ltac bind_in H :=
  match type of H with
  | context [mbind _ ?c] => let E := fresh "E" in destruct c eqn:E; simplify_eq/=
  end.

(** The same for a sequence of outcomes known to succeed: names the result of
    the first call and its equation. *)
Ltac obind_in H E :=
  match type of H with
  | mbind _ ?c = Ok _ =>
      let a := fresh "a" in
      destruct c as [a| |] eqn:E; cbn [mbind outcome_bind] in H;
        [| discriminate H | discriminate H]
  end.

(** * Generic lemmas *)

Lemma is_byteb_spec b : is_byteb b = true <-> is_byte b.
Proof. unfold is_byteb, is_byte. rewrite andb_true_iff, Z.leb_le, Z.ltb_lt. lia. Qed.

#[export] Instance is_byte_dec b : Decision (is_byte b).
Proof. unfold is_byte. apply _. Defined.

#[export] Instance bytes_ok_dec bs : Decision (bytes_ok bs).
Proof. unfold bytes_ok. apply _. Defined.

Section lists.
Context {A : Type}.
Implicit Types (l k : list A) (n i : Z).

Lemma zlen_nonneg l : 0 <= zlen l.
Proof. unfold zlen. lia. Qed.

Lemma to_nat_zlen l : Z.to_nat (zlen l) = length l.
Proof. apply Nat2Z.id. Qed.

Lemma zlen_nil : zlen (@nil A) = 0.
Proof. done. Qed.

Lemma zlen_cons x l : zlen (x :: l) = 1 + zlen l.
Proof. unfold zlen. simpl. lia. Qed.

Lemma zlen_app l k : zlen (l ++ k) = zlen l + zlen k.
Proof. unfold zlen. rewrite length_app. lia. Qed.

Lemma zlen_zero l : zlen l = 0 -> l = [].
Proof. unfold zlen. destruct l; [done|]. simpl. lia. Qed.

Lemma zlen_take n l : zlen (ztake n l) = Z.min (Z.max 0 n) (zlen l).
Proof. unfold zlen, ztake. rewrite length_take. lia. Qed.

Lemma zlen_drop n l : zlen (zdrop n l) = Z.max 0 (zlen l - Z.max 0 n).
Proof. unfold zlen, zdrop. rewrite length_drop. lia. Qed.

Lemma ztake_zdrop n l : ztake n l ++ zdrop n l = l.
Proof. apply take_drop. Qed.

Lemma ztake_all n l : zlen l <= n -> ztake n l = l.
Proof. unfold zlen, ztake. intros. apply take_ge. lia. Qed.

Lemma zdrop_all n l : zlen l <= n -> zdrop n l = [].
Proof. unfold zlen, zdrop. intros. apply drop_ge. lia. Qed.

Lemma zdrop_0 l : zdrop 0 l = l.
Proof. done. Qed.

Lemma ztake_app_exact n l k : zlen l = n -> ztake n (l ++ k) = l.
Proof. unfold zlen, ztake. intros <-. rewrite Nat2Z.id. apply take_app_length. Qed.

Lemma zdrop_app_exact n l k : zlen l = n -> zdrop n (l ++ k) = k.
Proof. unfold zlen, zdrop. intros <-. rewrite Nat2Z.id. apply drop_app_length. Qed.

Lemma ztake_app_le n l k : 0 <= n <= zlen l -> ztake n (l ++ k) = ztake n l.
Proof. unfold zlen, ztake. intros. apply take_app_le. lia. Qed.

Lemma zdrop_app_le n l k : 0 <= n <= zlen l -> zdrop n (l ++ k) = zdrop n l ++ k.
Proof. unfold zlen, zdrop. intros. apply drop_app_le. lia. Qed.

Lemma ztake_app_r n l k : zlen l <= n -> ztake n (l ++ k) = l ++ ztake (n - zlen l) k.
Proof.
  intros Hl. unfold ztake, zlen in *. rewrite take_app. f_equal; [apply take_ge; lia|f_equal; lia].
Qed.

Lemma zdrop_app_r n l k : zlen l <= n -> zdrop n (l ++ k) = zdrop (n - zlen l) k.
Proof.
  intros Hl. unfold zdrop, zlen in *. rewrite drop_app, (drop_ge l) by lia. simpl. f_equal. lia.
Qed.

Lemma ztake_nil n : ztake n (@nil A) = [].
Proof. apply take_nil. Qed.

Lemma zdrop_nil n : zdrop n (@nil A) = [].
Proof. apply drop_nil. Qed.

Lemma zdrop_zdrop n i l : 0 <= n -> 0 <= i -> zdrop n (zdrop i l) = zdrop (i + n) l.
Proof. unfold zdrop. intros. rewrite drop_drop. f_equal. lia. Qed.

Lemma rd_Some l i x : rd l i = Some x -> 0 <= i < zlen l.
Proof.
  unfold rd, zlen. case_if; [done|]. intros H%lookup_lt_Some. lia.
Qed.

Lemma rd_is_Some l i : 0 <= i < zlen l -> is_Some (rd l i).
Proof.
  unfold rd, zlen. intros. case_if; [lia|]. apply lookup_lt_is_Some. lia.
Qed.

Lemma rd_app_l l k i : i < zlen l -> rd (l ++ k) i = rd l i.
Proof. unfold rd, zlen. intros. case_if; [done|]. apply lookup_app_l. lia. Qed.

Lemma rd_app_r l k i : zlen l <= i -> rd (l ++ k) i = rd k (i - zlen l).
Proof.
  unfold rd, zlen. intros. case_if; [lia|]. case_if; [lia|].
  rewrite lookup_app_r by lia. f_equal. lia.
Qed.

Lemma rd_cons x l i : 0 < i -> rd (x :: l) i = rd l (i - 1).
Proof.
  intros. change (x :: l) with ([x] ++ l). rewrite rd_app_r; [done|]. done || (unfold zlen; simpl; lia).
Qed.

Lemma rd_split l i x : rd l i = Some x -> zdrop i l = x :: zdrop (i + 1) l.
Proof.
  intros H. pose proof (rd_Some _ _ _ H) as Hi. unfold rd, zdrop in *. case_if_in H; [done|].
  rewrite (drop_S _ _ _ H). do 2 f_equal. lia.
Qed.

Lemma zdrop_split l i n :
  0 <= i -> 0 <= n -> zdrop i l = ztake n (zdrop i l) ++ zdrop (i + n) l.
Proof. intros. rewrite <- zdrop_zdrop by done. by rewrite ztake_zdrop. Qed.

Lemma rd_0_cons x l : rd (x :: l) 0 = Some x.
Proof. done. Qed.

Lemma zdrop_cons x l n : 0 < n -> zdrop n (x :: l) = zdrop (n - 1) l.
Proof.
  intros. unfold zdrop. replace (Z.to_nat n) with (S (Z.to_nat (n - 1))) by lia. done.
Qed.

Lemma rd_zdrop l n i : 0 <= n -> 0 <= i -> rd (zdrop n l) i = rd l (n + i).
Proof.
  unfold rd, zdrop. intros. repeat case_if; try lia. rewrite lookup_drop. f_equal. lia.
Qed.

Lemma rd_ztake l n i : i < n -> rd (ztake n l) i = rd l i.
Proof.
  unfold rd, ztake. intros. case_if; [done|]. rewrite lookup_take.
  case_decide; [done|lia].
Qed.
End lists.

Create HintDb gg discriminated.
Create Rewrite HintDb zlen.
#[export] Hint Resolve zlen_nonneg : gg.
#[export] Hint Rewrite @zlen_nil @zlen_cons @zlen_app @zlen_take @zlen_drop : zlen.

(** Arithmetic on lengths. *)
Ltac zlen_lia :=
  autorewrite with zlen in *;
  repeat match goal with
  | |- context [zlen ?l] => lazymatch goal with
      | _ : 0 <= zlen l |- _ => fail
      | _ => pose proof (zlen_nonneg l) end
  | _ : context [zlen ?l] |- _ => lazymatch goal with
      | _ : 0 <= zlen l |- _ => fail
      | _ => pose proof (zlen_nonneg l) end
  end; lia.

Lemma bytes_ok_app xs ys : bytes_ok (xs ++ ys) <-> bytes_ok xs /\ bytes_ok ys.
Proof. apply Forall_app. Qed.

Lemma bytes_ok_take n xs : bytes_ok xs -> bytes_ok (ztake n xs).
Proof. apply Forall_take. Qed.

Lemma bytes_ok_drop n xs : bytes_ok xs -> bytes_ok (zdrop n xs).
Proof. apply Forall_drop. Qed.

Lemma bytes_ok_rd xs i b : bytes_ok xs -> rd xs i = Some b -> is_byte b.
Proof.
  unfold rd. intros Hok. case_if; [done|]. intros Hl.
  eapply Forall_lookup_1 in Hok; eauto.
Qed.

Lemma lor_mul a b n : 0 <= n -> 0 <= b < 2 ^ n -> Z.lor (a * 2 ^ n) b = a * 2 ^ n + b.
Proof.
  intros Hn Hb. rewrite <- Z.shiftl_mul_pow2 by done. symmetry. apply Z.add_nocarry_lor.
  apply Z.bits_inj'. intros i Hi. rewrite Z.land_spec, Z.bits_0.
  destruct (Z_lt_dec i n); [by rewrite Z.shiftl_spec_low by done|].
  assert (Z.testbit b i = false) as ->; [|apply andb_false_r].
  destruct (decide (b = 0)) as [->|]; [apply Z.bits_0|].
  apply Z.bits_above_log2; [lia|]. apply Z.lt_le_trans with n; [|lia].
  apply Z.log2_lt_pow2; [lia|apply Hb].
Qed.

Lemma uwrap_small w z : 0 <= z < 2 ^ w -> uwrap w z = z.
Proof. apply Z.mod_small. Qed.

Lemma uwrap_range w z : 0 <= w -> 0 <= uwrap w z < 2 ^ w.
Proof. intros. apply Z.mod_pos_bound. lia. Qed.

Lemma swrap_small w z : 0 < w -> - 2 ^ (w - 1) <= z < 2 ^ (w - 1) -> swrap w z = z.
Proof.
  unfold swrap. intros Hw Hz.
  assert (2 ^ w = 2 * 2 ^ (w - 1)) by (rewrite <- Z.pow_succ_r by lia; f_equal; lia).
  rewrite Z.mod_small; lia.
Qed.

#[export] Hint Resolve bytes_ok_take bytes_ok_drop : gg.
