(* ===== verification/Memory.v ===== *)
(** Memory: the byte-addressed store the pointer-level definitions run on.

    A [mem] maps the addresses of the live objects to their bytes. A load or
    a store outside of it is an error ([None]), so a definition that returns
    [Some _] performs only accesses to mapped memory. *)

From S2P Require Import Prelude.

Abbreviation mem := (gmap Z Z).

(** The null pointer is the address 0. *)
Definition NULL : Z := 0.

(** The [n] bytes at address [a]. *)
Fixpoint load (m : mem) (a : Z) (n : nat) : option bytes :=
  match n with
  | O => Some []
  | S n' =>
      b ← m !! a;
      bs ← load m (a + 1) n';
      Some (b :: bs)
  end.

(** Overwrite the bytes at address [a] with [bs]. *)
Fixpoint store (m : mem) (a : Z) (bs : bytes) : option mem :=
  match bs with
  | [] => Some m
  | b :: bs' =>
      match m !! a with
      | Some _ => store (<[a := b]> m) (a + 1) bs'
      | None => None
      end
  end.

Definition loadz (m : mem) (a n : Z) : option bytes := load m a (Z.to_nat n).

(** All the addresses of [[a, a + n)] are mapped. *)
Definition mapped (m : mem) (a n : Z) : Prop :=
  forall x, a <= x < a + n -> is_Some (m !! x).

(** Two address ranges do not overlap. *)
Definition disj (a n b k : Z) : Prop := a + n <= b \/ b + k <= a.

(** The bytes written by [store]. *)
Definition over (m : mem) (a : Z) (bs : bytes) (x : Z) : option Z :=
  if decide (a <= x < a + zlen bs) then rd bs (x - a) else m !! x.

(** Lay out a byte string at an address: used to build concrete memories. *)
Fixpoint put (m : mem) (a : Z) (bs : bytes) : mem :=
  match bs with
  | [] => m
  | b :: bs' => <[a := b]> (put m (a + 1) bs')
  end.

(** ** Loads *)

Lemma load_length m a n bs : load m a n = Some bs -> length bs = n.
Proof.
  revert a bs. induction n as [|n IH]; simpl; intros a bs H; simplify_option_eq; [done|].
  simpl. f_equal. eauto.
Qed.

Lemma loadz_zlen m a n bs : loadz m a n = Some bs -> zlen bs = Z.max 0 n.
Proof. unfold loadz, zlen. intros ->%load_length. lia. Qed.

Lemma load_Some m a n bs :
  load m a n = Some bs <->
  length bs = n /\ forall i : nat, (i < n)%nat -> bs !! i = m !! (a + Z.of_nat i).
Proof.
  revert a bs. induction n as [|n IH]; intros a bs; simpl.
  - split; [intros [= <-]; split; [done|lia]|]. intros [Hl _].
    by destruct bs.
  - split.
    + intros H. destruct (m !! a) as [b|] eqn:Hb; simplify_eq/=.
      destruct (load m (a + 1) n) as [bs'|] eqn:Hbs; simplify_eq/=.
      apply IH in Hbs as [Hl Hi]. split; [lia|]. intros [|i] ?; simpl.
      * by rewrite Z.add_0_r.
      * rewrite Hi by lia. f_equal. lia.
    + intros [Hl Hi]. destruct bs as [|b bs]; [done|]. simpl in Hl.
      assert (m !! a = Some b) as ->.
      { specialize (Hi 0%nat ltac:(lia)). rewrite Z.add_0_r in Hi. done. }
      simpl. assert (load m (a + 1) n = Some bs) as ->; [|done].
      apply IH. split; [lia|]. intros i ?. specialize (Hi (S i) ltac:(lia)).
      simpl in Hi. rewrite Hi. f_equal. lia.
Qed.

Lemma loadz_Some m a n bs :
  0 <= n ->
  loadz m a n = Some bs <->
  zlen bs = n /\ forall i, 0 <= i < n -> rd bs i = m !! (a + i).
Proof.
  intros Hn. unfold loadz, zlen. rewrite load_Some. split; intros [Hl Hi]; split.
  - lia.
  - intros i ?. unfold rd. case_if; [lia|]. rewrite Hi by lia. f_equal. lia.
  - lia.
  - intros i ?. specialize (Hi (Z.of_nat i) ltac:(lia)). unfold rd in Hi.
    case_if_in Hi; [lia|]. by rewrite Nat2Z.id in Hi.
Qed.

Lemma loadz_mapped m a n : mapped m a n -> exists bs, loadz m a n = Some bs.
Proof.
  unfold loadz, mapped. intros Hm.
  assert (forall x, a <= x < a + Z.of_nat (Z.to_nat n) -> is_Some (m !! x)) as Hm'.
  { intros. apply Hm. lia. }
  clear Hm. revert a Hm'. induction (Z.to_nat n) as [|k IH]; simpl; intros a Hm; [eauto|].
  destruct (Hm a ltac:(lia)) as [b ->]. simpl.
  destruct (IH (a + 1)) as [bs ->]; [intros; apply Hm; lia|]. simpl. eauto.
Qed.

Lemma loadz_is_mapped m a n bs : loadz m a n = Some bs -> mapped m a n.
Proof.
  intros H x Hx. apply loadz_Some in H as [Hl Hi]; [|lia].
  specialize (Hi (x - a) ltac:(lia)). replace (a + (x - a)) with x in Hi by lia.
  rewrite <- Hi. apply rd_is_Some. lia.
Qed.

Lemma loadz_ext m m' a n :
  (forall x, a <= x < a + n -> m' !! x = m !! x) -> loadz m' a n = loadz m a n.
Proof.
  unfold loadz. intros He.
  assert (forall x, a <= x < a + Z.of_nat (Z.to_nat n) -> m' !! x = m !! x) as He'.
  { intros. apply He. lia. }
  clear He. revert a He'. induction (Z.to_nat n) as [|k IH]; simpl; intros a He; [done|].
  rewrite He by lia. destruct (m !! a); [|done]. simpl. rewrite IH; [done|].
  intros. apply He. lia.
Qed.

Lemma loadz_app m a n k bs cs :
  0 <= n -> 0 <= k ->
  loadz m a n = Some bs -> loadz m (a + n) k = Some cs ->
  loadz m a (n + k) = Some (bs ++ cs).
Proof.
  intros ?? [Hl1 H1]%loadz_Some [Hl2 H2]%loadz_Some; [|lia..].
  apply loadz_Some; [lia|]. split; [zlen_lia|]. intros i ?.
  destruct (Z_lt_dec i n).
  - rewrite rd_app_l by lia. apply H1. lia.
  - rewrite rd_app_r by lia. rewrite H2 by lia. f_equal. lia.
Qed.

Lemma loadz_sub m a n bs i k :
  loadz m a n = Some bs -> 0 <= i -> 0 <= k -> i + k <= n ->
  loadz m (a + i) k = Some (ztake k (zdrop i bs)).
Proof.
  intros H ???. apply loadz_Some in H as [Hl Hr]; [|lia].
  apply loadz_Some; [lia|]. split; [zlen_lia|]. intros j ?.
  rewrite rd_ztake, rd_zdrop by lia. rewrite Hr by lia. f_equal. lia.
Qed.

(** ** Stores *)

Lemma store_spec m a bs m' :
  store m a bs = Some m' <-> mapped m a (zlen bs) /\ forall x, m' !! x = over m a bs x.
Proof.
  revert m a. induction bs as [|b bs IH]; intros m a; simpl.
  - split.
    + intros [= <-]. split; [intros x; zlen_lia|]. intros x. unfold over.
      case_decide; [zlen_lia|done].
    + intros [_ H]. f_equal. apply map_eq. intros x. rewrite H. unfold over.
      case_decide; [zlen_lia|done].
  - assert (forall x, over (<[a := b]> m) (a + 1) bs x = over m a (b :: bs) x) as Hov.
    { intros x. unfold over. rewrite zlen_cons.
      destruct (decide (x = a)) as [->|].
      - rewrite !decide_False by lia. rewrite decide_True by zlen_lia.
        rewrite lookup_insert_eq, Z.sub_diag. done.
      - case_decide.
        + rewrite decide_True by lia. rewrite rd_cons by lia. f_equal. lia.
        + rewrite decide_False by lia. by rewrite lookup_insert_ne. }
    destruct (m !! a) as [b0|] eqn:Hb.
    + rewrite IH. split.
      * intros [Hm Hx]. split.
        -- intros x Hx'. rewrite zlen_cons in Hx'. destruct (decide (x = a)) as [->|]; [eauto|].
           specialize (Hm x ltac:(lia)). by rewrite lookup_insert_ne in Hm.
        -- intros x. by rewrite Hx.
      * intros [Hm Hx]. split.
        -- intros x Hx'. destruct (decide (x = a)) as [->|]; [lia|].
           rewrite lookup_insert_ne by done. apply Hm. zlen_lia.
        -- intros x. by rewrite Hx.
    + split; [done|]. intros [Hm _]. destruct (Hm a) as [? ?]; [zlen_lia|congruence].
Qed.

Lemma store_Some m a bs : mapped m a (zlen bs) -> exists m', store m a bs = Some m'.
Proof.
  revert m a. induction bs as [|b bs IH]; intros m a Hm; simpl; [eauto|].
  destruct (Hm a) as [c ->]; [zlen_lia|]. apply IH. intros x Hx.
  destruct (decide (x = a)) as [->|]; [rewrite lookup_insert_eq; eauto|].
  rewrite lookup_insert_ne by done. apply Hm. zlen_lia.
Qed.

Lemma store_out m a bs m' x :
  store m a bs = Some m' -> ~ (a <= x < a + zlen bs) -> m' !! x = m !! x.
Proof. intros [_ H]%store_spec ?. rewrite H. unfold over. by rewrite decide_False. Qed.

Lemma store_in m a bs m' x :
  store m a bs = Some m' -> a <= x < a + zlen bs -> m' !! x = rd bs (x - a).
Proof. intros [_ H]%store_spec ?. rewrite H. unfold over. by rewrite decide_True. Qed.

Lemma store_mapped m a bs m' b n :
  store m a bs = Some m' -> mapped m' b n <-> mapped m b n.
Proof.
  intros H. unfold mapped. split; intros Hm x Hx.
  - destruct (decide (a <= x < a + zlen bs)).
    + apply store_spec in H as [Hm' _]. by apply Hm'.
    + erewrite <- store_out; eauto.
  - destruct (decide (a <= x < a + zlen bs)).
    + erewrite store_in by eauto. apply rd_is_Some. lia.
    + erewrite store_out; eauto.
Qed.

Lemma loadz_store_same m a bs m' :
  store m a bs = Some m' -> loadz m' a (zlen bs) = Some bs.
Proof.
  intros H. apply loadz_Some; [zlen_lia|]. split; [done|]. intros i ?.
  erewrite store_in by (eauto; lia). f_equal. lia.
Qed.

Lemma loadz_store_disj m a bs m' b n :
  store m a bs = Some m' -> disj a (zlen bs) b n -> loadz m' b n = loadz m b n.
Proof.
  intros H Hd. apply loadz_ext. intros x ?. eapply store_out; eauto.
  unfold disj in Hd. lia.
Qed.

Lemma put_lookup m a bs x : put m a bs !! x = over m a bs x.
Proof.
  revert a. induction bs as [|b bs IH]; intros a; simpl; unfold over.
  - rewrite decide_False by zlen_lia. done.
  - rewrite zlen_cons. destruct (decide (x = a)) as [->|].
    + rewrite decide_True by zlen_lia. rewrite lookup_insert_eq, Z.sub_diag. done.
    + rewrite lookup_insert_ne, IH by done. unfold over. case_decide.
      * rewrite decide_True by lia. rewrite rd_cons by lia. f_equal. lia.
      * rewrite decide_False by lia. done.
Qed.

Lemma loadz_put m a bs : loadz (put m a bs) a (zlen bs) = Some bs.
Proof.
  apply loadz_Some; [zlen_lia|]. split; [done|]. intros i ?.
  rewrite put_lookup. unfold over. rewrite decide_True by lia. f_equal. lia.
Qed.

#[export] Hint Resolve loadz_store_same loadz_store_disj loadz_is_mapped : gg.

(** Storing a concatenation is storing its parts one after the other. *)
Lemma store_app m a xs ys :
  store m a (xs ++ ys) = m1 ← store m a xs; store m1 (a + zlen xs) ys.
Proof.
  revert m a. induction xs as [|x xs IH]; intros m a; simpl.
  - by rewrite zlen_nil, Z.add_0_r.
  - destruct (m !! a); [|done]. rewrite IH, zlen_cons.
    by replace (a + 1 + zlen xs) with (a + (1 + zlen xs)) by lia.
Qed.

Lemma store_nil m a : store m a [] = Some m.
Proof. done. Qed.

Arguments load : simpl never.
Arguments store : simpl never.

Lemma load_S m a n :
  load m a (S n) = b ← m !! a; bs ← load m (a + 1) n; Some (b :: bs).
Proof. done. Qed.

(** Loads from a larger memory. *)
Lemma load_mono m m' a n bs : m ⊆ m' -> load m a n = Some bs -> load m' a n = Some bs.
Proof.
  intros Hm. revert a bs. induction n as [|n IH]; intros a bs; [done|]. rewrite !load_S.
  destruct (m !! a) as [b|] eqn:Hb; [|done]. cbn [mbind option_bind].
  rewrite (lookup_weaken _ _ _ _ Hb Hm). cbn [mbind option_bind].
  destruct (load m (a + 1) n) as [bs'|] eqn:Hl; [|done]. by rewrite (IH _ _ Hl).
Qed.

Lemma loadz_mono m m' a n bs : m ⊆ m' -> loadz m a n = Some bs -> loadz m' a n = Some bs.
Proof. apply load_mono. Qed.

(** ** Changes

    [changes m m' W]: only the addresses in [W] may differ, and nothing is
    freed. *)

Definition zrange (a b : Z) : Z -> Prop := fun x => a <= x < b.

Definition changes (W : Z -> Prop) (m m' : mem) : Prop :=
  (forall x, ~ W x -> m' !! x = m !! x) /\ (forall x, is_Some (m !! x) -> is_Some (m' !! x)).

Lemma changes_refl W m : changes W m m.
Proof. done. Qed.

Lemma changes_trans W m1 m2 m3 : changes W m1 m2 -> changes W m2 m3 -> changes W m1 m3.
Proof. intros [H1 H1'] [H2 H2']. split; [|by auto]. intros x Hx. by rewrite H2, H1. Qed.

Lemma changes_sub (W W' : Z -> Prop) m m' : changes W m m' -> (forall x, W x -> W' x) -> changes W' m m'.
Proof. intros [H H'] Hs. split; [|done]. intros x Hx. apply H. by intros ?%Hs. Qed.

Lemma changes_mapped W m m' a n : changes W m m' -> mapped m a n -> mapped m' a n.
Proof. intros [_ H] Hm x Hx. by apply H, Hm. Qed.

Lemma changes_loadz W m m' a n :
  changes W m m' -> (forall x, a <= x < a + n -> ~ W x) -> loadz m' a n = loadz m a n.
Proof. intros [H _] Hd. apply loadz_ext. intros x Hx. by apply H, Hd. Qed.

Lemma store_changes m a bs m' : store m a bs = Some m' -> changes (zrange a (a + zlen bs)) m m'.
Proof.
  intros H. split.
  - intros x Hx. by eapply store_out.
  - intros x Hx. assert (mapped m x 1) as Hm by (intros y Hy; by replace y with x by lia).
    apply (store_mapped _ _ _ _ _ _ H) in Hm. apply Hm. lia.
Qed.

Lemma mapped_mono m a n b k : mapped m a n -> a <= b -> b + k <= a + n -> mapped m b k.
Proof. intros Hm ?? x Hx. apply Hm. lia. Qed.
