(* ===== verification/Double.v ===== *)
(** Doubles by their bits: the values that IEEE 754 gives them, the bits of a
    value, and the operations that the program uses, rounded to nearest, ties to
    even, each one separately (no contraction of a product and a sum). *)

From Stdlib Require Import SpecFloat.
From S2P Require Import Prelude.

(** The double with the given bits. *)
Definition double_of (bits : Z) : spec_float :=
  let sign := Z.testbit bits 63 in
  let e := Z.land (Z.shiftr bits 52) 0x7ff in
  let f := Z.land bits (2 ^ 52 - 1) in
  if e =? 0x7ff then (if f =? 0 then S754_infinity sign else S754_nan)
  else if e =? 0 then
    match f with Zpos m => S754_finite sign m (-1074) | _ => S754_zero sign end
  else
    match f + 2 ^ 52 with Zpos m => S754_finite sign m (e - 1075) | _ => S754_zero sign end.

(** The fields of a double: sign, biased exponent, fraction. *)
Definition fields (sign : bool) (e f : Z) : Z := Z.b2z sign * 2 ^ 63 + e mod 2 ^ 11 * 2 ^ 52 + f mod 2 ^ 52.

(** The bits of a double; of NaN, one of its representations. *)
Definition bits_of (x : spec_float) : Z :=
  match x with
  | S754_zero sign => fields sign 0 0
  | S754_infinity sign => fields sign 0x7ff 0
  | S754_nan => fields false 0x7ff (2 ^ 51)
  | S754_finite sign m e => if Zpos m <? 2 ^ 52 then fields sign 0 (Zpos m) else fields sign (e + 1075) (Zpos m)
  end.

Definition isnan (f : spec_float) : bool := match f with S754_nan => true | _ => false end.

Definition fadd : spec_float -> spec_float -> spec_float := SFadd 53 1024.
Definition fsub : spec_float -> spec_float -> spec_float := SFsub 53 1024.
Definition fmul : spec_float -> spec_float -> spec_float := SFmul 53 1024.

(** The conversion of an integer. *)
Definition of_int (z : Z) : spec_float := binary_normalize 53 1024 z 0 false.

Lemma fields_range sign e f : 0 <= fields sign e f < 2 ^ 64.
Proof.
  unfold fields. pose proof (Z.mod_pos_bound e (2 ^ 11) ltac:(lia)). pose proof (Z.mod_pos_bound f (2 ^ 52) ltac:(lia)).
  destruct sign; cbn [Z.b2z]; lia.
Qed.

Lemma bits_of_range x : 0 <= bits_of x < 2 ^ 64.
Proof. destruct x as [sign|sign| |sign m e]; cbn [bits_of]; [..|case_if]; apply fields_range. Qed.

(** The fields of 64 bits. *)
Lemma fields_of bits : 0 <= bits < 2 ^ 64 ->
  bits = fields (Z.testbit bits 63) (Z.land (Z.shiftr bits 52) 0x7ff) (Z.land bits (2 ^ 52 - 1)).
Proof.
  intros Hb. unfold fields. change 0x7ff with (Z.ones 11). change (2 ^ 52 - 1) with (Z.ones 52).
  rewrite !Z.land_ones, Z.shiftr_div_pow2, !Z.mod_mod by lia.
  assert (Z.b2z (Z.testbit bits 63) = bits / 2 ^ 63) as ->.
  { rewrite Z.testbit_spec' by lia. apply Z.mod_small. split; [apply Z.div_pos; lia|]. apply Z.div_lt_upper_bound; lia. }
  assert (bits / 2 ^ 63 = bits / 2 ^ 52 / 2 ^ 11) as -> by (rewrite Z.div_div by lia; f_equal; lia).
  pose proof (Z.div_mod bits (2 ^ 52) ltac:(lia)). pose proof (Z.div_mod (bits / 2 ^ 52) (2 ^ 11) ltac:(lia)). lia.
Qed.

(** The bits determine the double, and it its bits. *)
Lemma bits_of_double_of bits : 0 <= bits < 2 ^ 64 -> isnan (double_of bits) = false -> bits_of (double_of bits) = bits.
Proof.
  intros Hb Hnan. pose proof (fields_of bits Hb) as Hf. unfold double_of in *.
  set (sign := Z.testbit bits 63) in *. set (e := Z.land _ 0x7ff) in *. set (f := Z.land bits _) in *.
  assert (0 <= f < 2 ^ 52) as Hfr.
  { unfold f. change (2 ^ 52 - 1) with (Z.ones 52). rewrite Z.land_ones by lia. by apply Z.mod_pos_bound. }
  assert (0 <= e < 2 ^ 11) as Her.
  { unfold e. change 0x7ff with (Z.ones 11). rewrite Z.land_ones by lia. by apply Z.mod_pos_bound. }
  rewrite Hf. destruct (e =? 0x7ff) eqn:E1; zify_bool.
  - destruct (f =? 0) eqn:E2; [|done]. zify_bool. by rewrite E1, E2.
  - destruct (e =? 0) eqn:E2; zify_bool.
    + destruct f as [|m|m] eqn:E3; [by rewrite E2| |lia]. cbn [bits_of].
      rewrite (proj2 (Z.ltb_lt _ _)) by lia. by rewrite E2.
    + destruct (f + 2 ^ 52) as [|m|m] eqn:E3; [lia| |lia]. cbn [bits_of].
      rewrite (proj2 (Z.ltb_ge _ _)) by lia. replace (e - 1075 + 1075) with e by lia. rewrite <- E3. unfold fields.
      f_equal. rewrite <- (Z.mod_add f 1 (2 ^ 52)) by lia. f_equal; lia.
Qed.

(** One, a half, and the rounding of 2^63 - 1. *)
Example of_int_1 : bits_of (of_int 1) = 0x3ff0000000000000.
Proof. by vm_compute. Qed.
Example half : bits_of (fmul (of_int 500000000) (double_of 0x3e112e0be826d695)) = 0x3fe0000000000000.
Proof. by vm_compute. Qed.
Example of_int_max : bits_of (of_int (2 ^ 63 - 1)) = 0x43e0000000000000.
Proof. by vm_compute. Qed.
