(* ===== verification/Buffer.v ===== *)
(** Buffers ([src/buffer.c], [include/gg/buffer.h]).

    A buffer that is only read is modelled by its contents, a byte string;
    where the code computes with the [data] pointer of a buffer, or writes
    through it, it is a [BufPtr] into a memory. *)

From S2P Require Import Prelude Memory.

(** [GgBuffer] *)
Record BufPtr := mkBuf { data : Z; len : Z }.

(** The contents of a buffer. *)
Definition buf_bytes (m : mem) (b : BufPtr) : option bytes := loadz m (data b) (len b).

(** libc: [memcmp(a, b, n) == 0] *)
Definition memcmp_eq (a b : bytes) (n : Z) : bool := bool_decide (ztake n a = ztake n b).

Definition gg_buffer_eq (buf1 buf2 : bytes) : bool :=
  if zlen buf1 =? zlen buf2 then
    if zlen buf1 =? 0 then true else memcmp_eq buf1 buf2 (zlen buf1)
  else false.

Definition gg_buffer_has_prefix (buf prefix : bytes) : bool :=
  if zlen prefix <=? zlen buf then memcmp_eq buf prefix (zlen prefix) else false.

Definition gg_buffer_has_suffix (buf suffix : bytes) : bool :=
  if zlen suffix <=? zlen buf
  then memcmp_eq (zdrop (zlen buf - zlen suffix) buf) suffix (zlen suffix)
  else false.

(** [gg_buffer_substr] on a buffer's pointer and length, and on its contents. *)
Definition substr_bounds (blen start fin : Z) : Z * Z :=
  let start_trunc := if start <? blen then start else blen in
  let end_trunc := if fin <? blen then fin else blen in
  (start_trunc, if start_trunc <=? end_trunc then end_trunc - start_trunc else 0).

Definition gg_buffer_substr_ptr (buf : BufPtr) (start fin : Z) : BufPtr :=
  let '(off, n) := substr_bounds (len buf) start fin in mkBuf (data buf + off) n.

Definition gg_buffer_substr (buf : bytes) (start fin : Z) : bytes :=
  let '(off, n) := substr_bounds (zlen buf) start fin in ztake n (zdrop off buf).

Arguments gg_buffer_substr_ptr : simpl never.
Arguments gg_buffer_substr : simpl never.

Definition gg_buffer_remove_prefix (buf prefix : bytes) : bool * bytes :=
  if gg_buffer_has_prefix buf prefix
  then (true, gg_buffer_substr buf (zlen prefix) SIZE_MAX)
  else (false, buf).

Definition gg_buffer_remove_suffix (buf suffix : bytes) : bool * bytes :=
  if gg_buffer_has_suffix buf suffix
  then (true, gg_buffer_substr buf 0 (zlen buf - zlen suffix))
  else (false, buf).

(** libc: the offset of the first occurrence of [needle] in [hay]. *)
Fixpoint memmem (hay needle : bytes) : option Z :=
  if bool_decide (take (length needle) hay = needle) then Some 0
  else match hay with
       | [] => None
       | _ :: hay' => Z.succ <$> memmem hay' needle
       end.

(** The offset stored in [*start] when the result is [true]. *)
Definition gg_buffer_contains (buf substring : bytes) : bool * option Z :=
  if zlen substring =? 0 then (true, Some 0)
  else match memmem buf substring with
       | None => (false, None)
       | Some p => (true, Some p)
       end.

(** [gg_buffer_from_null_term]: the bytes of [str] before the first NUL
    ([strlen]); [None] when there is none. *)
Fixpoint gg_buffer_from_null_term (str : bytes) : option bytes :=
  match str with
  | [] => None
  | c :: str' => if c =? 0 then Some [] else cons c <$> gg_buffer_from_null_term str'
  end.

(** ** Parsing integers *)

Definition mult_overflow_int64 (a b : Z) : bool :=
  if b =? 0 then false
  else if 0 <? b
       then (Z.quot INT64_MAX b <? a) || (a <? Z.quot INT64_MIN b)
       else (a <? Z.quot INT64_MAX b) || (Z.quot INT64_MIN b <? a).

Definition add_overflow_int64 (a b : Z) : bool :=
  if 0 <? b then INT64_MAX - b <? a else a <? INT64_MIN - b.

(** The loop of [gg_str_to_int64] on the characters from index [i] on. *)
Fixpoint str_to_int64_loop (sign ret : Z) (cs : bytes) : outcome Z :=
  match cs with
  | [] => Ok ret
  | c :: cs' =>
      if (c <? 48) || (57 <? c) then Fail GG_ERR_INVALID
      else if mult_overflow_int64 ret 10 then Fail GG_ERR_RANGE
      else
        let ret := ret * 10 in
        if add_overflow_int64 ret (sign * (c - 48)) then Fail GG_ERR_RANGE
        else str_to_int64_loop sign (ret + sign * (c - 48)) cs'
  end.

Definition gg_str_to_int64 (str : bytes) : outcome Z :=
  let neg := match rd str 0 with Some c => (1 <=? zlen str) && (c =? 45) | None => false end in
  let i := if neg then 1 else 0 in
  let sign := if neg then -1 else 1 in
  if i =? zlen str then Fail GG_ERR_INVALID
  else str_to_int64_loop sign 0 (zdrop i str).

(** ** Writing into a buffer *)

(** [gg_buf_copy]: [source] is the contents of the source buffer. *)
Definition gg_buf_copy (m : mem) (source : bytes) (target : BufPtr)
    : option (GgError * mem * BufPtr) :=
  if zlen source =? 0 then Some (GG_ERR_OK, m, mkBuf (data target) 0)
  else if len target <? zlen source then Some (GG_ERR_NOMEM, m, target)
  else
    m' ← store m (data target) source;
    Some (GG_ERR_OK, m', mkBuf (data target) (zlen source)).

(** The writer of [gg_buf_writer]: appends to a buffer, consuming it. *)
Definition buf_write (m : mem) (target : BufPtr) (buf : bytes)
    : option (GgError * mem * BufPtr) :=
  '(ret, m', _) ← gg_buf_copy m buf target;
  if bool_decide (ret = GG_ERR_OK)
  then Some (GG_ERR_OK, m', gg_buffer_substr_ptr target (zlen buf) SIZE_MAX)
  else Some (ret, m', target).

(** ** Specifications *)

(** The number a string of decimal digits denotes. *)
Definition is_digit (c : Z) : Prop := 48 <= c <= 57.
Definition dec_from (acc : Z) (ds : bytes) : Z := foldl (fun a c => 10 * a + (c - 48)) acc ds.
Definition dec_value (ds : bytes) : Z := dec_from 0 ds.

(** [str] is the decimal notation of [v]. *)
Definition denotes (str : bytes) (v : Z) : Prop :=
  exists ds, ds <> [] /\ Forall is_digit ds /\
    ((str = ds /\ v = dec_value ds) \/ (str = 45 :: ds /\ v = - dec_value ds)).

#[export] Instance is_digit_dec c : Decision (is_digit c).
Proof. unfold is_digit. apply _. Defined.

(** ** Comparisons *)

Lemma memcmp_eq_true a b n : memcmp_eq a b n = true <-> ztake n a = ztake n b.
Proof. apply bool_decide_eq_true. Qed.

Lemma gg_buffer_eq_spec a b : gg_buffer_eq a b = true <-> a = b.
Proof.
  unfold gg_buffer_eq. repeat case_if.
  - apply zlen_zero in E0 as ->. split; [|done]. intros _.
    symmetry. apply zlen_zero. done.
  - rewrite memcmp_eq_true, !ztake_all by lia. done.
  - split; [done|]. by intros ->.
Qed.

Lemma gg_buffer_eq_refl a : gg_buffer_eq a a = true.
Proof. by apply gg_buffer_eq_spec. Qed.

Lemma gg_buffer_eq_false a b : gg_buffer_eq a b = false <-> a <> b.
Proof. rewrite <- not_true_iff_false, gg_buffer_eq_spec. done. Qed.

Lemma has_prefix_spec buf p : gg_buffer_has_prefix buf p = true <-> exists r, buf = p ++ r.
Proof.
  unfold gg_buffer_has_prefix. case_if.
  - rewrite memcmp_eq_true, (ztake_all (zlen p) p) by lia. split.
    + intros H. exists (zdrop (zlen p) buf). rewrite <- H at 1. by rewrite ztake_zdrop.
    + intros [r ->]. by rewrite ztake_app_exact.
  - split; [done|]. intros [r ->]. zlen_lia.
Qed.

Lemma has_suffix_spec buf s : gg_buffer_has_suffix buf s = true <-> exists r, buf = r ++ s.
Proof.
  unfold gg_buffer_has_suffix. case_if.
  - rewrite memcmp_eq_true, !ztake_all by zlen_lia. split.
    + intros H. exists (ztake (zlen buf - zlen s) buf). 
      rewrite <- (ztake_zdrop (zlen buf - zlen s) buf) at 1. by rewrite H.
    + intros [r ->]. rewrite zdrop_app_exact; [done|zlen_lia].
  - split; [done|]. intros [r ->]. zlen_lia.
Qed.

(** ** Substrings *)

Lemma substr_bounds_eq n s e :
  0 <= n -> 0 <= s -> substr_bounds n s e = (Z.min s n, Z.max 0 (Z.min e n - Z.min s n)).
Proof. intros. unfold substr_bounds. cbv zeta. repeat case_if; f_equal; lia. Qed.

(** Slices of a buffer in memory: its first bytes, and the rest. *)
Lemma substr_ptr_prefix b n :
  0 <= n <= len b -> gg_buffer_substr_ptr b 0 n = mkBuf (data b) n.
Proof.
  intros. unfold gg_buffer_substr_ptr. rewrite substr_bounds_eq by lia.
  f_equal; lia.
Qed.

Lemma substr_ptr_rest b s :
  0 <= s <= len b -> len b <= SIZE_MAX ->
  gg_buffer_substr_ptr b s SIZE_MAX = mkBuf (data b + s) (len b - s).
Proof.
  intros. unfold gg_buffer_substr_ptr. rewrite substr_bounds_eq by lia.
  by rewrite Z.min_l, Z.min_r, Z.max_r by lia.
Qed.

Lemma gg_buffer_substr_spec buf s e :
  0 <= s -> gg_buffer_substr buf s e = ztake (e - s) (zdrop s buf).
Proof.
  intros Hs. unfold gg_buffer_substr. rewrite substr_bounds_eq by zlen_lia.
  destruct (Z_le_dec s (zlen buf)).
  - rewrite (Z.min_l s) by lia. destruct (Z_le_dec e (zlen buf)).
    + rewrite (Z.min_l e) by lia. destruct (Z_le_dec s e); [by rewrite Z.max_r by lia|].
      rewrite Z.max_l by lia. unfold ztake. by replace (Z.to_nat (e - s)) with 0%nat by lia.
    + rewrite !ztake_all by zlen_lia. done.
  - rewrite (zdrop_all s), (zdrop_all (Z.min s _)) by lia. unfold ztake. by rewrite !take_nil.
Qed.

Lemma gg_buffer_substr_rest buf s :
  0 <= s <= zlen buf -> zlen buf <= SIZE_MAX -> gg_buffer_substr buf s SIZE_MAX = zdrop s buf.
Proof. intros. rewrite gg_buffer_substr_spec by lia. apply ztake_all. zlen_lia. Qed.

(** The pointer version selects the contents the list version computes. *)
Lemma gg_buffer_substr_ptr_bytes m b bs s e :
  0 <= s -> 0 <= len b -> buf_bytes m b = Some bs ->
  buf_bytes m (gg_buffer_substr_ptr b s e) = Some (gg_buffer_substr bs s e).
Proof.
  unfold buf_bytes. intros Hs Hb H. pose proof H as Hz%loadz_zlen.
  unfold gg_buffer_substr_ptr, gg_buffer_substr. replace (zlen bs) with (len b) by lia.
  rewrite substr_bounds_eq by lia. simpl. apply loadz_sub with (n := len b); [done|lia..].
Qed.

(** ** Searching *)

Lemma memmem_Some hay needle p :
  memmem hay needle = Some p ->
  0 <= p /\ (exists post, hay = ztake p hay ++ needle ++ post) /\
  forall q pre post, hay = pre ++ needle ++ post -> zlen pre = q -> p <= q.
Proof.
  revert p. induction hay as [|c hay IH]; intros p; simpl; case_bool_decide as Hd.
  - intros [= <-]. split; [lia|]. split; [|intros; zlen_lia].
    exists []. rewrite take_nil in Hd. by subst needle.
  - done.
  - intros [= <-]. split; [lia|]. split; [|intros; zlen_lia].
    exists (drop (length needle) (c :: hay)).
    transitivity (take (length needle) (c :: hay) ++ drop (length needle) (c :: hay));
      [by rewrite take_drop|by rewrite Hd].
  - destruct (memmem hay needle) as [q|] eqn:Hm; [|done]. simpl. intros [= <-].
    destruct (IH q eq_refl) as (Hq & [post Hpost] & Hfirst).
    split; [lia|]. split.
    + exists post. unfold ztake. replace (Z.to_nat (Z.succ q)) with (S (Z.to_nat q)) by lia.
      simpl. f_equal. done.
    + intros r pre post' Heq Hr. destruct pre as [|c' pre]; simpl in Heq.
      * exfalso. apply Hd. rewrite Heq. apply take_app_length.
      * injection Heq as -> Heq. specialize (Hfirst _ _ _ Heq eq_refl). zlen_lia.
Qed.

Lemma memmem_None hay needle :
  memmem hay needle = None -> forall pre post, hay <> pre ++ needle ++ post.
Proof.
  induction hay as [|c hay IH]; simpl; case_bool_decide as Hd; try done.
  - intros _ pre post Heq. apply Hd. rewrite take_nil.
    destruct pre, needle; by simplify_eq/=.
  - destruct (memmem hay needle) eqn:Hm; [done|]. intros _ pre post Heq.
    destruct pre as [|c' pre]; simpl in Heq.
    + apply Hd. rewrite Heq. apply take_app_length.
    + injection Heq as -> Heq. by apply (IH eq_refl pre post).
Qed.

(** ** Integers *)

Lemma mult_overflow_10 a : mult_overflow_int64 a 10 = false <-> in_int64 (a * 10).
Proof.
  unfold mult_overflow_int64, in_int64, INT64_MAX, INT64_MIN. simpl.
  change (Z.quot 9223372036854775807 10) with 922337203685477580.
  change (Z.quot (-9223372036854775808) 10) with (-922337203685477580).
  rewrite orb_false_iff, !Z.ltb_ge. lia.
Qed.

Lemma add_overflow_spec a b :
  in_int64 a -> in_int64 b -> add_overflow_int64 a b = false <-> in_int64 (a + b).
Proof.
  unfold add_overflow_int64, in_int64, INT64_MAX, INT64_MIN. intros.
  case_if; rewrite Z.ltb_ge; lia.
Qed.

Lemma dec_from_mono acc ds : 0 <= acc -> Forall is_digit ds -> acc <= dec_from acc ds.
Proof.
  intros Ha Hds. revert acc Ha. unfold dec_from.
  induction Hds as [|d ds Hd _ IH]; intros acc Ha; simpl; [lia|].
  unfold is_digit in Hd. etransitivity; [|apply IH; lia]. lia.
Qed.

Lemma dec_from_cons acc d ds : dec_from acc (d :: ds) = dec_from (10 * acc + (d - 48)) ds.
Proof. done. Qed.

Lemma dec_value_nonneg ds : Forall is_digit ds -> 0 <= dec_value ds.
Proof. intros. by apply dec_from_mono. Qed.

(** The loop computes [sign * dec_from acc ds], and reports a range error
    exactly when this does not fit. *)
Lemma str_to_int64_loop_digits sign acc ds :
  sign = 1 \/ sign = -1 -> 0 <= acc -> in_int64 (sign * acc) -> Forall is_digit ds ->
  str_to_int64_loop sign (sign * acc) ds =
    if bool_decide (in_int64 (sign * dec_from acc ds))
    then Ok (sign * dec_from acc ds) else Fail GG_ERR_RANGE.
Proof.
  intros Hs Ha Hin Hds. revert acc Ha Hin.
  induction Hds as [|d ds Hd Hds IH]; intros acc Ha Hin.
  - simpl. by rewrite bool_decide_true.
  - rewrite dec_from_cons. pose proof Hd as Hd'. unfold is_digit in Hd. simpl.
    assert ((d <? 48) || (57 <? d) = false) as ->.
    { apply orb_false_iff. rewrite !Z.ltb_ge. lia. }
    pose proof (dec_from_mono (10 * acc + (d - 48)) ds ltac:(lia) Hds) as Hmono.
    assert (sign * acc * 10 + sign * (d - 48) = sign * (10 * acc + (d - 48))) as Heq by lia.
    destruct (mult_overflow_int64 (sign * acc) 10) eqn:Hmul.
    { rewrite bool_decide_false; [done|]. rewrite <- not_false_iff_true, mult_overflow_10 in Hmul.
      unfold in_int64 in *. unfold INT64_MIN, INT64_MAX in *. nia. }
    rewrite mult_overflow_10 in Hmul.
    assert (in_int64 (sign * (d - 48))).
    { unfold in_int64, INT64_MIN, INT64_MAX. lia. }
    destruct (add_overflow_int64 (sign * acc * 10) (sign * (d - 48))) eqn:Hadd.
    { rewrite bool_decide_false; [done|].
      rewrite <- not_false_iff_true, add_overflow_spec, Heq in Hadd by done.
      unfold in_int64 in *. unfold INT64_MIN, INT64_MAX in *. nia. }
    rewrite add_overflow_spec, Heq in Hadd by done.
    rewrite Heq. apply IH; [lia|done].
Qed.

(** A successful run has only seen digits. *)
Lemma str_to_int64_loop_Ok sign acc cs v :
  str_to_int64_loop sign acc cs = Ok v -> Forall is_digit cs.
Proof.
  revert acc. induction cs as [|c cs IH]; intros acc; simpl; [constructor|].
  repeat case_if; try done. intros ?. constructor; [unfold is_digit; lia|eauto].
Qed.

Lemma gg_str_to_int64_eq str :
  gg_str_to_int64 str =
    match str with
    | [] => Fail GG_ERR_INVALID
    | c :: str' =>
        if c =? 45 then
          if bool_decide (str' = []) then Fail GG_ERR_INVALID else str_to_int64_loop (-1) 0 str'
        else str_to_int64_loop 1 0 str
    end.
Proof.
  unfold gg_str_to_int64. destruct str as [|c str]; [done|].
  change (rd (c :: str) 0) with (Some c). cbv beta iota. rewrite zlen_cons.
  assert (1 <=? 1 + zlen str = true) as -> by (apply Z.leb_le; zlen_lia).
  cbn [andb]. destruct (c =? 45).
  - destruct str as [|d str]; [done|]. rewrite bool_decide_false by done.
    assert (1 =? 1 + zlen (d :: str) = false) as -> by (apply Z.eqb_neq; zlen_lia). done.
  - assert (0 =? 1 + zlen str = false) as -> by (apply Z.eqb_neq; zlen_lia). done.
Qed.

Lemma gg_str_to_int64_digits sgn ds :
  ds <> [] -> Forall is_digit ds ->
  gg_str_to_int64 (if sgn : bool then 45 :: ds else ds) =
    let v := (if sgn then -1 else 1) * dec_value ds in
    if bool_decide (in_int64 v) then Ok v else Fail GG_ERR_RANGE.
Proof.
  intros Hne Hds. rewrite gg_str_to_int64_eq. destruct sgn.
  - simpl. rewrite bool_decide_false by done.
    apply (str_to_int64_loop_digits (-1) 0 ds); [lia|lia|done|done].
  - destruct ds as [|d ds]; [done|].
    assert (d =? 45 = false) as ->.
    { apply Forall_cons in Hds as [Hd _]. unfold is_digit in Hd. apply Z.eqb_neq. lia. }
    apply (str_to_int64_loop_digits 1 0 (d :: ds)); [lia|lia|done|done].
Qed.

Lemma gg_str_to_int64_Ok_inv str v :
  gg_str_to_int64 str = Ok v -> denotes str v /\ in_int64 v.
Proof.
  intros H.
  assert (exists (sgn : bool) ds, ds <> [] /\ Forall is_digit ds /\
    str = if sgn then 45 :: ds else ds) as (sgn & ds & Hne & Hds & ->).
  { rewrite gg_str_to_int64_eq in H. destruct str as [|c str]; [done|]. case_if_in H.
    - case_bool_decide; [done|]. exists true, str. subst c. eauto using str_to_int64_loop_Ok.
    - exists false, (c :: str). split; [done|]. eauto using str_to_int64_loop_Ok. }
  rewrite gg_str_to_int64_digits in H by done. simpl in H. case_bool_decide; [|done].
  injection H as <-. split; [|done]. exists ds. split; [done|]. split; [done|].
  destruct sgn; [right|left]; (split; [done|lia]).
Qed.

Lemma str_to_int64_loop_not_stuck sign acc cs : str_to_int64_loop sign acc cs <> Stuck.
Proof. revert acc. induction cs; intros acc; simpl; repeat case_if; eauto. Qed.

(** ** Writing *)

Lemma gg_buf_copy_fit m src t :
  zlen src <= len t -> mapped m (data t) (len t) ->
  exists m', gg_buf_copy m src t = Some (GG_ERR_OK, m', mkBuf (data t) (zlen src)) /\
    store m (data t) src = Some m'.
Proof.
  intros Hl Hm. unfold gg_buf_copy. case_if.
  - apply zlen_zero in E as ->. exists m. done.
  - case_if; [lia|]. destruct (store_Some m (data t) src) as [m' ->]; [|by exists m'].
    intros x ?. apply Hm. lia.
Qed.

Lemma buf_write_fit m bs t :
  zlen bs <= len t -> len t <= SIZE_MAX -> mapped m (data t) (len t) ->
  exists m', buf_write m t bs = Some (GG_ERR_OK, m', mkBuf (data t + zlen bs) (len t - zlen bs)) /\
    store m (data t) bs = Some m'.
Proof.
  intros Hl Hmax Hm. destruct (gg_buf_copy_fit m bs t Hl Hm) as (m' & Hc & Hs).
  exists m'. split; [|done]. unfold buf_write. rewrite Hc. simpl.
  unfold gg_buffer_substr_ptr. rewrite substr_bounds_eq by zlen_lia.
  rewrite Z.min_l, Z.min_r, Z.max_r by lia. done.
Qed.

Lemma buf_write_full m bs t :
  0 <= len t < zlen bs -> buf_write m t bs = Some (GG_ERR_NOMEM, m, t).
Proof.
  intros ?. unfold buf_write, gg_buf_copy. case_if; [lia|]. case_if; [done|lia].
Qed.

Lemma gg_str_to_int64_denotes str v :
  denotes str v -> gg_str_to_int64 str = if bool_decide (in_int64 v) then Ok v else Fail GG_ERR_RANGE.
Proof.
  intros (ds & Hne & Hds & [[-> ->]|[-> ->]]).
  - rewrite (gg_str_to_int64_digits false) by done. cbv zeta. by rewrite Z.mul_1_l.
  - rewrite (gg_str_to_int64_digits true) by done. cbv zeta.
    by replace (-1 * dec_value ds) with (- dec_value ds) by lia.
Qed.

Lemma gg_str_to_int64_not_stuck str : gg_str_to_int64 str <> Stuck.
Proof.
  rewrite gg_str_to_int64_eq. destruct str as [|c str]; [done|].
  repeat case_if; try done; apply str_to_int64_loop_not_stuck.
Qed.

Lemma gg_str_to_int64_fails str : gg_str_to_int64 str <> Fail GG_ERR_OK.
Proof.
  assert (forall sign acc cs, str_to_int64_loop sign acc cs <> Fail GG_ERR_OK) as H.
  { intros sign acc cs. revert acc. induction cs; intros acc; simpl; repeat case_if; eauto. }
  rewrite gg_str_to_int64_eq. destruct str as [|c str]; [done|]. repeat case_if; try done; apply H.
Qed.

(** * Properties *)

(** C27: [gg_str_to_int64] accepts exactly the decimal notations (an optional
    [-], then one or more digits) of the values of [int64_t], and returns the
    value denoted; a notation out of range is reported as [GG_ERR_RANGE], and
    the function never performs an overflowing operation or a stray read. *)
Theorem str_to_int64_exact (str : bytes) :
  (forall v, gg_str_to_int64 str = Ok v <-> denotes str v /\ in_int64 v) /\
  (forall v, denotes str v -> ~ in_int64 v -> gg_str_to_int64 str = Fail GG_ERR_RANGE) /\
  gg_str_to_int64 str <> Stuck.
Proof.
  split; [|split].
  - intros v. split; [apply gg_str_to_int64_Ok_inv|]. intros [H Hin].
    rewrite (gg_str_to_int64_denotes _ _ H). by rewrite bool_decide_true.
  - intros v H Hout. rewrite (gg_str_to_int64_denotes _ _ H). by rewrite bool_decide_false.
  - apply gg_str_to_int64_not_stuck.
Qed.

(** [gg_buffer_contains] reports the offset of the first occurrence of
    the substring, and [false] exactly when there is none. *)
Theorem buffer_contains_first (buf sub : bytes) :
  match gg_buffer_contains buf sub with
  | (true, Some p) =>
      (exists pre post, buf = pre ++ sub ++ post /\ zlen pre = p) /\
      (forall pre post, buf = pre ++ sub ++ post -> p <= zlen pre)
  | (false, None) => forall pre post, buf <> pre ++ sub ++ post
  | _ => False
  end.
Proof.
  unfold gg_buffer_contains. case_if.
  - apply zlen_zero in E as ->. split; [by exists [], buf|]. intros. zlen_lia.
  - destruct (memmem buf sub) as [p|] eqn:Hm; [|by apply memmem_None].
    apply memmem_Some in Hm as (Hp & [post Hpost] & Hfirst). split; [|eauto].
    exists (ztake p buf), post. split; [done|].
    assert (zlen buf = zlen (ztake p buf) + zlen sub + zlen post) by
      (rewrite Hpost at 1; zlen_lia).
    rewrite zlen_take in *. zlen_lia.
Qed.

(** removing a prefix (a suffix) succeeds exactly on the buffers that
    start (end) with it, and leaves the rest of the buffer; otherwise the
    buffer is left unchanged. *)
Theorem buffer_remove_affix (buf affix rest : bytes) :
  zlen buf <= SIZE_MAX ->
  (gg_buffer_remove_prefix buf affix = (true, rest) <-> buf = affix ++ rest) /\
  (gg_buffer_remove_suffix buf affix = (true, rest) <-> buf = rest ++ affix) /\
  (gg_buffer_remove_prefix buf affix = (false, rest) ->
     rest = buf /\ forall r, buf <> affix ++ r) /\
  (gg_buffer_remove_suffix buf affix = (false, rest) ->
     rest = buf /\ forall r, buf <> r ++ affix).
Proof.
  intros Hmax. unfold gg_buffer_remove_prefix, gg_buffer_remove_suffix.
  pose proof (has_prefix_spec buf affix) as Hp.
  pose proof (has_suffix_spec buf affix) as Hs.
  split; [|split; [|split]].
  - destruct (gg_buffer_has_prefix buf affix).
    + destruct (proj1 Hp eq_refl) as [r ->].
      rewrite gg_buffer_substr_rest by zlen_lia. rewrite zdrop_app_exact by done.
      split; [by intros [= ->]|]. by intros ->%app_inv_head.
    + split; [done|]. intros H. discriminate (proj2 Hp). eauto.
  - destruct (gg_buffer_has_suffix buf affix).
    + destruct (proj1 Hs eq_refl) as [r ->]. rewrite gg_buffer_substr_spec by lia.
      rewrite zdrop_0, ztake_app_exact by zlen_lia.
      split; [by intros [= ->]|]. by intros ->%app_inv_tail.
    + split; [done|]. intros H. discriminate (proj2 Hs). eauto.
  - destruct (gg_buffer_has_prefix buf affix); [done|]. intros [= <-]. split; [done|].
    intros r Hr. discriminate (proj2 Hp). eauto.
  - destruct (gg_buffer_has_suffix buf affix); [done|]. intros [= <-]. split; [done|].
    intros r Hr. discriminate (proj2 Hs). eauto.
Qed.

Lemma buffer_remove_affix_witness :
  gg_buffer_remove_prefix (GG_STR "gg/ab") (GG_STR "gg/") = (true, GG_STR "ab") <->
  GG_STR "gg/ab" = GG_STR "gg/" ++ GG_STR "ab".
Proof. apply (buffer_remove_affix (GG_STR "gg/ab") (GG_STR "gg/") (GG_STR "ab")). by vm_compute. Defined.

(** [gg_buffer_substr] meets the contract its header declares: the result
    lies inside of the buffer whatever the bounds, starts at [start] and has
    length [end - start] when these are within the buffer, and its contents
    are the selected part of the buffer's contents. *)
Theorem buffer_substr_contract (m : mem) (buf : BufPtr) (start fin : Z) :
  0 <= len buf -> 0 <= start < fin ->
  let r := gg_buffer_substr_ptr buf start fin in
  data buf <= data r /\ 0 <= len r /\ data r + len r <= data buf + len buf /\
  (start <= len buf -> data r = data buf + start) /\
  (fin <= len buf -> len r = fin - start) /\
  (forall bs, buf_bytes m buf = Some bs ->
    buf_bytes m r = Some (ztake (fin - start) (zdrop start bs))).
Proof.
  intros Hlen Hb r. subst r.
  assert (gg_buffer_substr_ptr buf start fin =
    mkBuf (data buf + Z.min start (len buf))
      (Z.max 0 (Z.min fin (len buf) - Z.min start (len buf)))) as Heq.
  { unfold gg_buffer_substr_ptr. by rewrite substr_bounds_eq by lia. }
  rewrite Heq. simpl. repeat split; try lia. intros bs Hbs.
  rewrite <- Heq, <- gg_buffer_substr_spec by lia. apply gg_buffer_substr_ptr_bytes; [lia..|done].
Qed.

Lemma buffer_substr_contract_witness :
  buf_bytes (put ∅ 100 (GG_STR "abcdef")) (gg_buffer_substr_ptr (mkBuf 100 6) 2 4)
  = Some (ztake 2 (zdrop 2 (GG_STR "abcdef"))).
Proof. apply (buffer_substr_contract _ (mkBuf 100 6) 2 4); [done|done|by vm_compute]. Defined.
