(* ===== verification/Crc32.v ===== *)
(** The CRC-32 of the EventStream framing ([src/crc32.c]): the table-driven
    implementation, the bit-serial reference it is equal to, and the error
    detection the packet decoder relies on. *)

From S2P Require Import Prelude.

(** One round of the inner loop of [make_crc_table]. *)
Definition crc_bit (c : Z) : Z :=
  if negb (Z.land c 1 =? 0) then Z.lxor 0xEDB88320 (Z.shiftr c 1) else Z.shiftr c 1.

(** [crc_table[n]]: eight rounds starting from [n]. *)
Definition crc_table_entry (n : Z) : Z := Nat.iter 8 crc_bit n.

(** [make_crc_table] *)
Definition crc_table : list Z := crc_table_entry <$> seqZ 0 256.

Definition crc_step (crc byte : Z) : Z :=
  Z.lxor (default 0 (rd crc_table (Z.land (Z.lxor crc byte) 0xFF))) (Z.shiftr crc 8).

(** [~crc] at 32 bits. *)
Definition not32 (c : Z) : Z := Z.lxor c UINT32_MAX.

Definition gg_update_crc (crc : Z) (buf : bytes) : Z :=
  not32 (foldl crc_step (not32 crc) buf).

(** ** Reference: the bit-serial CRC of RFC 1952 (reflected, polynomial
    0xEDB88320): feed each byte into the register, then eight rounds. *)

Definition crc_ref_byte (c b : Z) : Z := Nat.iter 8 crc_bit (Z.lxor c b).
Definition crc_ref (crc : Z) (buf : bytes) : Z := not32 (foldl crc_ref_byte (not32 crc) buf).

Definition is_u32 (c : Z) : Prop := 0 <= c < 2 ^ 32.

#[export] Instance is_u32_dec c : Decision (is_u32 c).
Proof. unfold is_u32. apply _. Defined.

(** ** Linearity of a round *)

Lemma crc_bit_alt c :
  crc_bit c = Z.lxor (if Z.odd c then 0xEDB88320 else 0) (Z.shiftr c 1).
Proof.
  unfold crc_bit. change 1 with (Z.ones 1) at 1. rewrite Z.land_ones by lia.
  change (2 ^ 1) with 2. rewrite Zmod_odd. destruct (Z.odd c); [done|].
  by rewrite Z.lxor_0_l.
Qed.

Lemma odd_lxor a b : Z.odd (Z.lxor a b) = xorb (Z.odd a) (Z.odd b).
Proof. rewrite <- !Z.bit0_odd. apply Z.lxor_spec. Qed.

Lemma crc_bit_lxor a b : crc_bit (Z.lxor a b) = Z.lxor (crc_bit a) (crc_bit b).
Proof.
  rewrite !crc_bit_alt, odd_lxor, Z.shiftr_lxor. apply Z.bits_inj'. intros n _.
  rewrite !Z.lxor_spec. destruct (Z.odd a), (Z.odd b); simpl xorb; cbv iota;
    rewrite ?Z.bits_0; repeat case_match; try done;
    by destruct (Z.testbit 3988292384 n), (Z.testbit (Z.shiftr a 1) n),
      (Z.testbit (Z.shiftr b 1) n).
Qed.

Lemma crc_iter_lxor n a b :
  Nat.iter n crc_bit (Z.lxor a b) = Z.lxor (Nat.iter n crc_bit a) (Nat.iter n crc_bit b).
Proof. induction n as [|n IH]; simpl; [done|]. by rewrite IH, crc_bit_lxor. Qed.

Lemma crc_bit_shiftl a n : 0 <= n -> crc_bit (Z.shiftl a (n + 1)) = Z.shiftl a n.
Proof.
  intros. rewrite crc_bit_alt. rewrite <- Z.bit0_odd, Z.shiftl_spec_low by lia.
  rewrite Z.lxor_0_l, Z.shiftr_shiftl_l by lia. f_equal. lia.
Qed.

Lemma crc_iter_shiftl a n : Nat.iter n crc_bit (Z.shiftl a (Z.of_nat n)) = a.
Proof.
  induction n as [|n IH]; [apply Z.shiftl_0_r|]. rewrite Nat.iter_succ_r.
  rewrite Nat2Z.inj_succ, <- Z.add_1_r, crc_bit_shiftl by lia. done.
Qed.

(** The low [w] bits and the rest. *)
Lemma split_low w a : 0 <= w -> a = Z.lxor (Z.land a (Z.ones w)) (Z.shiftl (Z.shiftr a w) w).
Proof.
  intros. apply Z.bits_inj'. intros n Hn.
  rewrite Z.lxor_spec, Z.land_spec, Z.shiftl_spec by done.
  destruct (Z_lt_dec n w).
  - rewrite Z.ones_spec_low by lia. rewrite (Z.testbit_neg_r _ (n - w)) by lia.
    by destruct (Z.testbit a n).
  - rewrite Z.ones_spec_high, Z.shiftr_spec by lia. replace (n - w + w) with n by lia.
    by destruct (Z.testbit a n).
Qed.

Lemma crc8_split a : Nat.iter 8 crc_bit a = Z.lxor (crc_table_entry (Z.land a 255)) (Z.shiftr a 8).
Proof.
  rewrite (split_low 8 a) at 1 by lia. rewrite crc_iter_lxor.
  change (Z.ones 8) with 255. f_equal. apply (crc_iter_shiftl _ 8).
Qed.

Lemma crc_table_lookup i : 0 <= i < 256 -> rd crc_table i = Some (crc_table_entry i).
Proof.
  intros. unfold rd, crc_table. case_if; [lia|].
  rewrite list_lookup_fmap, (lookup_seqZ_lt 0 256) by lia. simpl. f_equal. f_equal. lia.
Qed.

Lemma land_255_range a : 0 <= Z.land a 255 < 256.
Proof. change 255 with (Z.ones 8). rewrite Z.land_ones by lia. apply Z.mod_pos_bound. lia. Qed.

Lemma byte_shiftr_8 b : is_byte b -> Z.shiftr b 8 = 0.
Proof. intros. rewrite Z.shiftr_div_pow2 by lia. by apply Z.div_small. Qed.

Lemma crc_step_ref c b : is_byte b -> crc_step c b = crc_ref_byte c b.
Proof.
  intros Hb. unfold crc_step, crc_ref_byte.
  rewrite crc_table_lookup by apply land_255_range. simpl default.
  rewrite (crc8_split (Z.lxor c b)), Z.shiftr_lxor, (byte_shiftr_8 b Hb). by rewrite Z.lxor_0_r.
Qed.

(** ** Ranges *)

Lemma lxor_u32 a b : is_u32 a -> is_u32 b -> is_u32 (Z.lxor a b).
Proof.
  unfold is_u32. intros Ha Hb.
  assert (forall x, 0 <= x < 2 ^ 32 -> x = Z.land x (Z.ones 32)) as Hl.
  { intros. rewrite Z.land_ones by lia. symmetry. by apply Z.mod_small. }
  assert (Z.lxor a b = Z.land (Z.lxor a b) (Z.ones 32)) as ->.
  { rewrite (Hl a Ha), (Hl b Hb). apply Z.bits_inj'. intros n _.
    rewrite !Z.land_spec, !Z.lxor_spec, !Z.land_spec.
    by destruct (Z.testbit a n), (Z.testbit b n), (Z.testbit (Z.ones 32) n). }
  rewrite Z.land_ones by lia. by apply Z.mod_pos_bound.
Qed.

Lemma shiftr_u32 a n : 0 <= n -> is_u32 a -> is_u32 (Z.shiftr a n).
Proof.
  unfold is_u32. intros. rewrite Z.shiftr_div_pow2 by done. split.
  - apply Z.div_pos; lia.
  - apply Z.div_lt_upper_bound; [lia|]. pose proof (Z.pow_pos_nonneg 2 n). nia.
Qed.

Lemma crc_bit_u32 c : is_u32 c -> is_u32 (crc_bit c).
Proof.
  intros. rewrite crc_bit_alt. apply lxor_u32; [|by apply shiftr_u32].
  unfold is_u32. destruct (Z.odd c); lia.
Qed.

Lemma crc_iter_u32 n c : is_u32 c -> is_u32 (Nat.iter n crc_bit c).
Proof. intros. induction n; simpl; auto using crc_bit_u32. Qed.

Lemma byte_u32 b : is_byte b -> is_u32 b.
Proof. unfold is_byte, is_u32. lia. Qed.

Lemma not32_u32 c : is_u32 c -> is_u32 (not32 c).
Proof. intros. apply lxor_u32; [done|]. unfold is_u32, UINT32_MAX. lia. Qed.

Lemma not32_invol c : not32 (not32 c) = c.
Proof. unfold not32. by rewrite Z.lxor_assoc, Z.lxor_nilpotent, Z.lxor_0_r. Qed.

Lemma not32_inj a b : not32 a = not32 b -> a = b.
Proof. intros H. by rewrite <- (not32_invol a), H, not32_invol. Qed.

Lemma crc_ref_byte_u32 c b : is_u32 c -> is_byte b -> is_u32 (crc_ref_byte c b).
Proof. intros. apply crc_iter_u32, lxor_u32; auto using byte_u32. Qed.

Lemma foldl_crc_ref c bs :
  bytes_ok bs -> foldl crc_step c bs = foldl crc_ref_byte c bs.
Proof.
  intros H. revert c. induction H as [|b bs Hb _ IH]; intros c; simpl; [done|].
  by rewrite crc_step_ref.
Qed.

Lemma foldl_crc_u32 c bs : is_u32 c -> bytes_ok bs -> is_u32 (foldl crc_ref_byte c bs).
Proof.
  intros Hc H. revert c Hc. induction H; intros; simpl; auto using crc_ref_byte_u32.
Qed.

Lemma gg_update_crc_u32 c bs : is_u32 c -> bytes_ok bs -> is_u32 (gg_update_crc c bs).
Proof.
  intros. unfold gg_update_crc. rewrite foldl_crc_ref by done.
  auto using not32_u32, foldl_crc_u32.
Qed.

(** ** Running CRCs compose *)

Lemma gg_update_crc_app c xs ys :
  gg_update_crc c (xs ++ ys) = gg_update_crc (gg_update_crc c xs) ys.
Proof. unfold gg_update_crc. by rewrite foldl_app, not32_invol. Qed.

(** ** A round is injective *)

Lemma crc_bit_inj a b : is_u32 a -> is_u32 b -> crc_bit a = crc_bit b -> a = b.
Proof.
  unfold is_u32. intros Ha Hb H.
  assert (forall c, 0 <= c < 2 ^ 32 -> Z.testbit (crc_bit c) 31 = Z.odd c) as Htop.
  { intros c Hc. rewrite crc_bit_alt, Z.lxor_spec, Z.shiftr_spec by lia.
    rewrite (Z.bits_above_log2 c (31 + 1)).
    - by destruct (Z.odd c).
    - lia.
    - destruct (decide (c = 0)) as [->|]; [done|]. apply Z.log2_lt_pow2; lia. }
  assert (Z.odd a = Z.odd b) as Hodd by (by rewrite <- !Htop, H).
  rewrite !crc_bit_alt, Hodd in H. apply (f_equal (Z.lxor (if Z.odd b then 0xEDB88320 else 0))) in H.
  rewrite <- !Z.lxor_assoc, !Z.lxor_nilpotent, !Z.lxor_0_l in H.
  rewrite !Z.shiftr_div_pow2 in H by lia. change (2 ^ 1) with 2 in H.
  rewrite (Z.div_mod a 2), (Z.div_mod b 2), H, !Zmod_odd, Hodd by lia. done.
Qed.

Lemma crc_iter_inj n a b :
  is_u32 a -> is_u32 b -> Nat.iter n crc_bit a = Nat.iter n crc_bit b -> a = b.
Proof.
  intros Ha Hb. induction n as [|n IH]; simpl; [done|].
  intros H%crc_bit_inj; auto using crc_iter_u32.
Qed.

Lemma lxor_cancel_l a b c : Z.lxor a b = Z.lxor a c -> b = c.
Proof.
  intros H%(f_equal (Z.lxor a)).
  by rewrite <- !Z.lxor_assoc, Z.lxor_nilpotent, !Z.lxor_0_l in H.
Qed.

Lemma crc_ref_byte_inj_byte c b b' :
  is_u32 c -> is_byte b -> is_byte b' -> crc_ref_byte c b = crc_ref_byte c b' -> b = b'.
Proof.
  intros Hc Hb Hb' H%crc_iter_inj; auto using lxor_u32, byte_u32.
  by apply lxor_cancel_l in H.
Qed.

Lemma foldl_crc_inj c c' bs :
  is_u32 c -> is_u32 c' -> bytes_ok bs ->
  foldl crc_ref_byte c bs = foldl crc_ref_byte c' bs -> c = c'.
Proof.
  intros Hc Hc' Hbs. revert c c' Hc Hc'.
  induction Hbs as [|b bs Hb _ IH]; intros c c' Hc Hc'; simpl; [done|].
  intros H%IH; auto using crc_ref_byte_u32.
  apply crc_iter_inj in H; auto using lxor_u32, byte_u32.
  rewrite !(Z.lxor_comm _ b) in H. by apply lxor_cancel_l in H.
Qed.

Lemma gg_update_crc_byte_change c pre b b' post :
  is_u32 c -> bytes_ok pre -> is_byte b -> is_byte b' -> bytes_ok post ->
  gg_update_crc c (pre ++ b :: post) = gg_update_crc c (pre ++ b' :: post) -> b = b'.
Proof.
  intros Hc Hpre Hb Hb' Hpost H%not32_inj.
  rewrite !foldl_crc_ref in H by (apply Forall_app; auto).
  rewrite !foldl_app in H. simpl in H.
  assert (is_u32 (foldl crc_ref_byte (not32 c) pre)) by auto using foldl_crc_u32, not32_u32.
  apply foldl_crc_inj in H; auto using crc_ref_byte_u32.
  by apply crc_ref_byte_inj_byte in H.
Qed.

(** * Properties *)

(** C28: the table-driven CRC computes the bit-serial CRC-32 of RFC 1952, for
    every running value and every byte string; running CRCs compose. *)
Theorem crc_table_driven_correct (crc : Z) (xs ys : bytes) :
  bytes_ok xs ->
  gg_update_crc crc xs = crc_ref crc xs /\
  gg_update_crc crc (xs ++ ys) = gg_update_crc (gg_update_crc crc xs) ys.
Proof.
  intros. split; [|apply gg_update_crc_app].
  unfold gg_update_crc, crc_ref. by rewrite foldl_crc_ref.
Qed.

(** The standard check value: CRC-32("123456789"). *)
Lemma crc_table_driven_correct_witness :
  gg_update_crc 0 (GG_STR "123456789") = 0xCBF43926 /\
  gg_update_crc 0 (GG_STR "123456789") = crc_ref 0 (GG_STR "123456789").
Proof.
  split; [by vm_compute|].
  apply (crc_table_driven_correct 0 (GG_STR "123456789") []).
  apply (bool_decide_unpack _). by vm_compute.
Defined.

(** replacing any one byte of a message changes its CRC. *)
Theorem crc_detects_byte_change (crc : Z) (pre post : bytes) (b b' : Z) :
  is_u32 crc -> bytes_ok pre -> bytes_ok post -> is_byte b -> is_byte b' -> b <> b' ->
  gg_update_crc crc (pre ++ b :: post) <> gg_update_crc crc (pre ++ b' :: post).
Proof. intros ?????? H. by apply gg_update_crc_byte_change in H. Qed.

Lemma crc_detects_byte_change_witness :
  gg_update_crc 0 (GG_STR "abc" ++ 1 :: GG_STR "xyz") <>
  gg_update_crc 0 (GG_STR "abc" ++ 2 :: GG_STR "xyz").
Proof.
  apply (crc_detects_byte_change 0 (GG_STR "abc") (GG_STR "xyz") 1 2);
    apply (bool_decide_unpack _); by vm_compute.
Defined.
