(* ===== verification/Io.v ===== *)
(** Readers and writers ([priv_include/gg/io.h]).

    A writer is an optional function on its context ([None] is a null
    function pointer); the class [AppendWriter] states what a client may rely
    on: writes append to an output of bounded size and a write that does not
    fit changes nothing. Encoders are proved against this interface, once,
    and [gg_buf_writer] and the byte vectors' writer implement it. *)

From S2P Require Import Prelude Memory Buffer.

(** ** Status-returning calls on a state

    [s <~ c ;; k] is [ret = c; if (ret != GG_ERR_OK) return ret; k]. *)

Definition and_then {S} (c : option (GgError * S)) (k : S -> option (GgError * S))
    : option (GgError * S) :=
  '(e, s) ← c;
  if bool_decide (e = GG_ERR_OK) then k s else Some (e, s).

Declare Scope gg_scope.
Delimit Scope gg_scope with gg.
Notation "s <~ c ;; k" := (and_then c (fun s => k))
  (at level 100, c at next level, right associativity) : gg_scope.
Open Scope gg_scope.

(** ** Definitions *)

(** [GgWriter], over contexts of type [S]. *)
Definition GgWriter (S : Type) : Type := option (S -> bytes -> option (GgError * S)).

Definition gg_writer_call {S} (writer : GgWriter S) (ctx : S) (buf : bytes)
    : option (GgError * S) :=
  match writer with
  | None => Some (if zlen buf =? 0 then GG_ERR_OK else GG_ERR_FAILURE, ctx)
  | Some write => write ctx buf
  end.

(** [GgReader], over contexts of type [W]: fills the buffer from its context,
    and returns the buffer with the length read. *)
Definition GgReader (W : Type) : Type :=
  option (W -> mem -> BufPtr -> option (GgError * W * mem * BufPtr)).

Definition gg_reader_call {W} (reader : GgReader W) (ctx : W) (m : mem) (buf : BufPtr)
    : option (GgError * W * mem * BufPtr) :=
  match reader with
  | None => Some (GG_ERR_OK, ctx, m, mkBuf (data buf) 0)
  | Some read => read ctx m buf
  end.

Definition gg_reader_call_exact {W} (reader : GgReader W) (ctx : W) (m : mem) (buf : BufPtr)
    : option (GgError * W * mem) :=
  '(ret, ctx', m', copy) ← gg_reader_call reader ctx m buf;
  if bool_decide (ret = GG_ERR_OK)
  then Some (if len copy =? len buf then GG_ERR_OK else GG_ERR_FAILURE, ctx', m')
  else Some (ret, ctx', m').

(** [gg_buf_writer]: the context is the memory and the remaining buffer. *)
Definition gg_buf_writer : GgWriter (mem * BufPtr) :=
  Some (fun s buf =>
    '(e, m', b') ← buf_write s.1 s.2 buf; Some (e, (m', b'))).

(** ** The interface *)

Class AppendWriter {S} (w : GgWriter S) := {
  (** [aw_rel s0 s out room]: from [s0], [out] was written; [room] bytes
      are left. *)
  aw_rel : S -> S -> bytes -> Z -> Prop;
  aw_room : forall s0 s out room, aw_rel s0 s out room -> 0 <= room;
  aw_fit : forall s0 s out room bs,
    aw_rel s0 s out room -> zlen bs <= room ->
    exists s', gg_writer_call w s bs = Some (GG_ERR_OK, s') /\
      aw_rel s0 s' (out ++ bs) (room - zlen bs);
  aw_full : forall s0 s out room bs,
    aw_rel s0 s out room -> room < zlen bs ->
    gg_writer_call w s bs = Some (GG_ERR_NOMEM, s);
}.

(** [prints w s0 f bs]: from a state reached by writing from [s0], the routine
    [f] writes [bs] when it fits, and otherwise writes a prefix of it and
    reports [GG_ERR_NOMEM]. *)
Definition prints {S} (w : GgWriter S) `{AppendWriter S w} (s0 : S)
    (f : S -> option (GgError * S)) (bs : bytes) : Prop :=
  forall s out room, aw_rel s0 s out room ->
    (zlen bs <= room ->
      exists s', f s = Some (GG_ERR_OK, s') /\ aw_rel s0 s' (out ++ bs) (room - zlen bs)) /\
    (room < zlen bs ->
      exists s' out' room', f s = Some (GG_ERR_NOMEM, s') /\
        aw_rel s0 s' (out ++ out') room' /\ out' `prefix_of` bs).

Section prints.
Context {S} (w : GgWriter S) `{!AppendWriter w} (s0 : S).

Lemma prints_call bs : prints w s0 (fun s => gg_writer_call w s bs) bs.
Proof.
  intros s out room Hr. split; intros Hl; [by apply aw_fit|].
  exists s, [], room. rewrite (aw_full _ _ _ _ _ Hr Hl), app_nil_r.
  split; [done|]. split; [done|]. apply prefix_nil.
Qed.

Lemma prints_ret : prints w s0 (fun s => Some (GG_ERR_OK, s)) [].
Proof.
  intros s out room Hr. split; intros Hl.
  - exists s. by rewrite app_nil_r, zlen_nil, Z.sub_0_r.
  - apply aw_room in Hr. zlen_lia.
Qed.

Lemma prints_seq f g xs ys :
  prints w s0 f xs -> prints w s0 g ys -> prints w s0 (fun s => s' <~ f s ;; g s') (xs ++ ys).
Proof.
  intros Hf Hg s out room Hr. destruct (Hf _ _ _ Hr) as [Hf1 Hf2].
  split; intros Hl; rewrite zlen_app in Hl.
  - destruct Hf1 as (s1 & Hs1 & Hr1); [zlen_lia|].
    destruct (Hg _ _ _ Hr1) as [(s2 & Hs2 & Hr2) _]; [lia|].
    exists s2. unfold and_then. rewrite Hs1. simpl. rewrite Hs2. split; [done|].
    rewrite app_assoc, zlen_app. by replace (room - (zlen xs + zlen ys))
      with (room - zlen xs - zlen ys) by lia.
  - destruct (Z_le_dec (zlen xs) room) as [Hxs|Hxs].
    + destruct Hf1 as (s1 & Hs1 & Hr1); [done|].
      destruct (Hg _ _ _ Hr1) as [_ Hg2].
      destruct Hg2 as (s2 & out2 & room2 & Hs2 & Hr2 & Hp); [lia|].
      exists s2, (xs ++ out2), room2. unfold and_then. rewrite Hs1. simpl. rewrite Hs2.
      split; [done|]. split; [by rewrite app_assoc|]. by apply prefix_app.
    + destruct Hf2 as (s1 & out1 & room1 & Hs1 & Hr1 & Hp); [lia|].
      exists s1, out1, room1. unfold and_then. rewrite Hs1. simpl.
      split; [done|]. split; [done|]. by apply prefix_app_r.
Qed.

Lemma prints_ext_rel f g bs :
  (forall s out room, aw_rel s0 s out room -> f s = g s) -> prints w s0 f bs -> prints w s0 g bs.
Proof. intros He Hf s out room Hr. erewrite <- He by done. by apply Hf. Qed.

Lemma prints_ext f g bs : (forall s, f s = g s) -> prints w s0 f bs -> prints w s0 g bs.
Proof. intros He. apply prints_ext_rel. intros. apply He. Qed.
End prints.

#[export] Hint Resolve prints_call prints_ret prints_seq : gg.

(** ** [gg_buf_writer] implements the interface *)

Definition buf_rel (s0 s : mem * BufPtr) (out : bytes) (room : Z) : Prop :=
  let '(m0, b0) := s0 in
  let '(m, b) := s in
  len b0 <= SIZE_MAX /\ mapped m0 (data b0) (len b0) /\
  store m0 (data b0) out = Some m /\
  room = len b0 - zlen out /\ 0 <= room /\
  b = mkBuf (data b0 + zlen out) room.

#[export] Program Instance buf_writer_append : AppendWriter gg_buf_writer := {
  aw_rel := buf_rel;
}.
Next Obligation. intros [m0 b0] [m b] out room. simpl. intuition. Qed.
Next Obligation.
  intros [m0 b0] [m b] out room bs (Hmax & Hmap & Hst & -> & Hroom & ->) Hl.
  unfold gg_writer_call, gg_buf_writer. simpl.
  destruct (buf_write_fit m bs (mkBuf (data b0 + zlen out) (len b0 - zlen out)))
    as (m' & -> & Hst'); simpl in *.
  - done.
  - zlen_lia.
  - eapply store_mapped; [done|]. intros x ?. apply Hmap. zlen_lia.
  - eexists. split; [done|]. simpl. repeat split; try done.
    + rewrite store_app, Hst. done.
    + zlen_lia.
    + lia.
    + f_equal; zlen_lia.
Qed.
Next Obligation.
  intros [m0 b0] [m b] out room bs (Hmax & Hmap & Hst & -> & Hroom & ->) Hl.
  unfold gg_writer_call, gg_buf_writer. simpl.
  by rewrite buf_write_full by (simpl; lia).
Qed.

Lemma buf_rel_init m b :
  0 <= len b <= SIZE_MAX -> mapped m (data b) (len b) -> buf_rel (m, b) (m, b) [] (len b).
Proof.
  intros ??. simpl. repeat split; try done.
  - zlen_lia.
  - zlen_lia.
  - zlen_lia.
  - destruct b. simpl. f_equal; zlen_lia.
Qed.

(** ** Readers that produce a given byte string *)

(** Asked to fill a part of [area] when the memory satisfies [P], the reader
    writes [bs] there if they fit and fails with [e] otherwise. It writes
    nothing else than the buffer and the addresses [F], which are outside of
    the area; what it needs of the memory does not depend on the area. *)
Record yields {W} (area : BufPtr) (F : Z -> Prop) (P : mem -> Prop) (r : GgReader W)
    (w : W) (bs : bytes) (w' : W) (e : GgError) : Prop := {
  yields_error : e <> GG_ERR_OK;
  yields_apart : forall x, F x -> ~ zrange (data area) (data area + len area) x;
  yields_stable : forall m m', P m -> changes (zrange (data area) (data area + len area)) m m' -> P m';
  yields_fill : forall m b, P m -> 0 <= len b <= SIZE_MAX -> mapped m (data b) (len b) ->
    data area <= data b -> data b + len b <= data area + len area ->
    if zlen bs <=? len b then
      exists m', gg_reader_call r w m b = Some (GG_ERR_OK, w', m', mkBuf (data b) (zlen bs)) /\
        changes (fun x => F x \/ zrange (data b) (data b + zlen bs) x) m m' /\
        loadz m' (data b) (zlen bs) = Some bs
    else
      exists w'' m' b', gg_reader_call r w m b = Some (e, w'', m', b') /\
        changes (fun x => F x \/ zrange (data b) (data b + len b) x) m m';
}.

(** A reader that provides a fixed byte string. *)
Definition bytes_reader (bs : bytes) : GgReader unit :=
  Some (fun w m b =>
    if zlen bs <=? len b then
      m' ← store m (data b) bs; Some (GG_ERR_OK, w, m', mkBuf (data b) (zlen bs))
    else Some (GG_ERR_NOMEM, w, m, b)).

Section yields.
Context {W : Type} (area : BufPtr).

(** A reader that touches no other memory. *)
Abbreviation pure_yields := (yields area (fun _ => False) (fun _ => True)).

Lemma null_reader_yields (w : W) : pure_yields None w [] w GG_ERR_NOMEM.
Proof.
  split; [done|done|done|]. intros m b _ ????. rewrite zlen_nil, (proj2 (Z.leb_le _ _)) by lia.
  exists m. split_and!; [done|apply changes_refl|by vm_compute].
Qed.

Lemma bytes_reader_yields bs (w : unit) :
  yields area (fun _ => False) (fun _ => True) (bytes_reader bs) w bs w GG_ERR_NOMEM.
Proof.
  split; [done|done|done|]. intros m b _ Hb Hmap _ _. simpl. case_if.
  - destruct (store_Some m (data b) bs) as [m' Hs]; [intros x ?; apply Hmap; lia|]. rewrite Hs.
    exists m'. split_and!; [done| |by eapply loadz_store_same].
    eapply changes_sub; [by apply store_changes|]. by right.
  - eexists _, _, _. split; [done|]. apply changes_refl.
Qed.
End yields.

(** A block of [n] zero bytes at [a]. *)
Definition zeroed (a n : Z) : mem := put ∅ a (repeat 0 (Z.to_nat n)).

Lemma zeroed_mapped a n : mapped (zeroed a n) a n.
Proof.
  intros x Hx. unfold zeroed. rewrite put_lookup. unfold over.
  assert (zlen (repeat 0 (Z.to_nat n)) = n) as -> by (unfold zlen; rewrite repeat_length; lia).
  rewrite decide_True by lia. apply rd_is_Some. unfold zlen. rewrite repeat_length. lia.
Qed.

(** ** Readers of a stream

    The contract [io.h] states for [read]: it fills the buffer as much as
    possible; when less is read, the data is complete. *)

Class StreamReader {W} (r : GgReader W) := {
  (** [sr_rel w bs]: the bytes still to be read from [w]. *)
  sr_rel : W -> bytes -> Prop;
  sr_fill : forall w bs m b,
    sr_rel w bs -> 0 <= len b <= SIZE_MAX -> mapped m (data b) (len b) ->
    exists w' m',
      gg_reader_call r w m b =
        Some (GG_ERR_OK, w', m', mkBuf (data b) (Z.min (len b) (zlen bs))) /\
      store m (data b) (ztake (len b) bs) = Some m' /\ sr_rel w' (zdrop (len b) bs);
}.

Section stream_reader.
Context {W} (r : GgReader W) `{!StreamReader r}.

Lemma reader_call_exact_fit w xs ys m b :
  sr_rel w (xs ++ ys) -> len b = zlen xs -> len b <= SIZE_MAX -> mapped m (data b) (len b) ->
  exists w' m', gg_reader_call_exact r w m b = Some (GG_ERR_OK, w', m') /\
    store m (data b) xs = Some m' /\ sr_rel w' ys.
Proof.
  intros Hr Hl Hmax Hm. pose proof (zlen_nonneg xs).
  destruct (sr_fill _ _ _ b Hr ltac:(lia) Hm) as (w' & m' & Hc & Hs & Hw).
  exists w', m'. rewrite ztake_app_exact in Hs by done. rewrite zdrop_app_exact in Hw by done.
  split; [|done]. unfold gg_reader_call_exact. rewrite Hc. cbn [mbind option_bind len].
  rewrite bool_decide_true by done. case_if; [done|zlen_lia].
Qed.

Lemma reader_call_exact_short w bs m b :
  sr_rel w bs -> zlen bs < len b -> len b <= SIZE_MAX -> mapped m (data b) (len b) ->
  exists w' m', gg_reader_call_exact r w m b = Some (GG_ERR_FAILURE, w', m') /\
    store m (data b) bs = Some m' /\ sr_rel w' [].
Proof.
  intros Hr Hl Hmax Hm. pose proof (zlen_nonneg bs).
  destruct (sr_fill _ _ _ b Hr ltac:(lia) Hm) as (w' & m' & Hc & Hs & Hw).
  exists w', m'. rewrite ztake_all in Hs by lia. rewrite zdrop_all in Hw by lia.
  split; [|done]. unfold gg_reader_call_exact. rewrite Hc. cbn [mbind option_bind len].
  rewrite bool_decide_true by done. case_if; [lia|done].
Qed.
End stream_reader.

(** A reader of the bytes of a list: the simplest stream. *)
Definition list_reader : GgReader bytes :=
  Some (fun w m b =>
    m' ← store m (data b) (ztake (len b) w);
    Some (GG_ERR_OK, zdrop (len b) w, m', mkBuf (data b) (Z.min (len b) (zlen w)))).

#[export] Program Instance list_reader_stream : StreamReader list_reader := {
  sr_rel := eq;
}.
Next Obligation.
  intros w bs m b -> Hl Hm. simpl.
  destruct (store_Some m (data b) (ztake (len b) bs)) as [m' ->].
  { intros x Hx. apply Hm. zlen_lia. }
  by exists (zdrop (len b) bs), m'.
Qed.
