(* ===== verification/EsDecode.v ===== *)
(** EventStream messages and their decoder ([src/eventstream/decode.c],
    [priv_include/gg/eventstream/]).

    The decoder only reads its input, so a buffer is its contents; the
    unbounded [pos] pointer of a header iterator is the part of the packet it
    points at, and reading past the packet's end is [Stuck]. *)

From S2P Require Import Prelude Buffer Crc32.

(** ** Data ([types.h], [decode.h]) *)

(** [EVENTSTREAM_OTHER t]: a header value whose type tag is neither. *)
Inductive EventStreamHeaderValue :=
  | EVENTSTREAM_INT32 (int32 : Z)
  | EVENTSTREAM_STRING (string : bytes)
  | EVENTSTREAM_OTHER (type : Z).

(** The numeric value of the type tag. *)
Definition hv_type (v : EventStreamHeaderValue) : Z :=
  match v with
  | EVENTSTREAM_INT32 _ => 4
  | EVENTSTREAM_STRING _ => 7
  | EVENTSTREAM_OTHER t => t
  end.

Record EventStreamHeader := mkHeader { name : bytes; value : EventStreamHeaderValue }.

Record EventStreamHeaderIter := mkIter { count : Z; pos : bytes }.

Record EventStreamPrelude := mkPrelude { data_len : Z; headers_len : Z; crc : Z }.

Record EventStreamMessage := mkMessage { headers : EventStreamHeaderIter; payload : bytes }.

#[export] Instance EventStreamHeaderValue_eq_dec : EqDecision EventStreamHeaderValue.
Proof. solve_decision. Defined.
#[export] Instance EventStreamHeader_eq_dec : EqDecision EventStreamHeader.
Proof. solve_decision. Defined.

(** ** Reading *)

Definition read_be_uint32 (buf : bytes) : outcome Z :=
  _ ← gg_assert (zlen buf =? 4);
  b0 ← get (rd buf 0);
  b1 ← get (rd buf 1);
  b2 ← get (rd buf 2);
  b3 ← get (rd buf 3);
  Ok (Z.lor (Z.lor (Z.lor (Z.shiftl b0 24) (Z.shiftl b1 16)) (Z.shiftl b2 8)) b3).

Definition read_be_int32 (buf : bytes) : outcome Z :=
  _ ← gg_assert (zlen buf =? 4);
  v ← read_be_uint32 buf;
  Ok (swrap 32 v).

(** [(uint16_t) (buf[i] << 8) + buf[i + 1]], stored in a [uint16_t]. *)
Definition read_len16 (b0 b1 : Z) : Z := uwrap 16 (uwrap 16 (Z.shiftl b0 8) + b1).

(** A subtraction of [size_t]s. *)
Definition size_sub (a b : Z) : Z := uwrap 64 (a - b).

(** The buffer [{ .data = pos, .len = n }], whose bytes must exist. *)
Definition get_sub (n : Z) (pos : bytes) : outcome bytes :=
  if zlen pos <? n then Stuck else Ok (ztake n pos).

Definition eventstream_decode_prelude (buf : bytes) : outcome EventStreamPrelude :=
  if zlen buf <? 12 then Fail GG_ERR_RANGE else
  let crc := gg_update_crc 0 (gg_buffer_substr buf 0 8) in
  prelude_crc ← read_be_uint32 (gg_buffer_substr buf 8 12);
  if negb (crc =? prelude_crc) then Fail GG_ERR_PARSE else
  message_len ← read_be_uint32 (gg_buffer_substr buf 0 4);
  headers_len ← read_be_uint32 (gg_buffer_substr buf 4 8);
  if message_len <? 16 then Fail GG_ERR_PARSE else
  if message_len - 16 <? headers_len then Fail GG_ERR_PARSE else
  Ok (mkPrelude (message_len - 12) headers_len
        (gg_update_crc prelude_crc (gg_buffer_substr buf 8 12))).

(** Removes the next header from the buffer; returns the rest. *)
Definition take_header (headers_buf : bytes) : outcome bytes :=
  let len := zlen headers_buf in
  let pos := 0 in
  if size_sub len pos <? 1 then Fail GG_ERR_PARSE else
  header_name_len ← get (rd headers_buf pos);
  let pos := pos + 1 in
  if size_sub len pos <? header_name_len then Fail GG_ERR_PARSE else
  let pos := pos + header_name_len in
  if size_sub len pos <? 1 then Fail GG_ERR_PARSE else
  header_value_type ← get (rd headers_buf pos);
  let pos := pos + 1 in
  if header_value_type =? 4 then
    if size_sub len pos <? 4 then Fail GG_ERR_PARSE else
    Ok (gg_buffer_substr headers_buf (pos + 4) SIZE_MAX)
  else if header_value_type =? 7 then
    if size_sub len pos <? 2 then Fail GG_ERR_PARSE else
    b0 ← get (rd headers_buf pos);
    b1 ← get (rd headers_buf (pos + 1));
    let value_len := read_len16 b0 b1 in
    let pos := pos + 2 in
    if size_sub len pos <? value_len then Fail GG_ERR_PARSE else
    Ok (gg_buffer_substr headers_buf (pos + value_len) SIZE_MAX)
  else Fail GG_ERR_PARSE.

(** The loop of [count_headers]. *)
Fixpoint count_headers_loop (fuel : nat) (headers : bytes) (headers_count : Z) : outcome Z :=
  if 0 <? zlen headers then
    match fuel with
    | O => Stuck
    | S fuel =>
        headers ← take_header headers;
        count_headers_loop fuel headers (uwrap 32 (headers_count + 1))
    end
  else Ok headers_count.

Definition count_headers (headers_buf : bytes) : outcome Z :=
  count_headers_loop (length headers_buf) headers_buf 0.

(** [eventstream_header_next]: the advanced iterator and the header. *)
Definition eventstream_header_next (headers : EventStreamHeaderIter)
    : outcome (EventStreamHeaderIter * EventStreamHeader) :=
  if count headers <? 1 then Fail GG_ERR_RANGE else
  let pos := pos headers in
  header_name_len ← get (rd pos 0);
  let pos := zdrop 1 pos in
  header_name ← get_sub header_name_len pos;
  let pos := zdrop header_name_len pos in
  header_value_type ← get (rd pos 0);
  let pos := zdrop 1 pos in
  '(value, pos) ←
    (if header_value_type =? 4 then
       buf ← get_sub 4 pos;
       v ← read_be_int32 buf;
       Ok (EVENTSTREAM_INT32 v, zdrop 4 pos)
     else if header_value_type =? 7 then
       b0 ← get (rd pos 0);
       b1 ← get (rd pos 1);
       let str_len := read_len16 b0 b1 in
       let pos := zdrop 2 pos in
       s ← get_sub str_len pos;
       Ok (EVENTSTREAM_STRING s, zdrop str_len pos)
     else Stuck (* assert(false) *));
  Ok (mkIter (uwrap 32 (count headers - 1)) pos, mkHeader header_name value).

(** [while (eventstream_header_next(&iter, &header) == GG_ERR_OK)]: the
    headers the loop goes through. *)
Fixpoint header_list_loop (fuel : nat) (it : EventStreamHeaderIter)
    : outcome (list EventStreamHeader) :=
  match eventstream_header_next it with
  | Stuck => Stuck
  | Fail _ => Ok []
  | Ok (it', h) =>
      match fuel with
      | O => Stuck
      | S fuel => hs ← header_list_loop fuel it'; Ok (h :: hs)
      end
  end.

Definition header_list (it : EventStreamHeaderIter) : outcome (list EventStreamHeader) :=
  header_list_loop (Z.to_nat (count it)) it.

Definition eventstream_decode (prelude : EventStreamPrelude) (data_section : bytes)
    : outcome EventStreamMessage :=
  _ ← gg_assert (4 <=? zlen data_section);
  let len := zlen data_section in
  let crc := gg_update_crc (crc prelude) (gg_buffer_substr data_section 0 (len - 4)) in
  message_crc ← read_be_uint32 (gg_buffer_substr data_section (len - 4) len);
  if negb (crc =? message_crc) then Fail GG_ERR_PARSE else
  let headers_buf := gg_buffer_substr data_section 0 (headers_len prelude) in
  let payload := gg_buffer_substr data_section (headers_len prelude) (len - 4) in
  _ ← gg_assert (zlen headers_buf =? headers_len prelude);
  headers_count ← count_headers headers_buf;
  let header_iter := mkIter headers_count data_section in
  (* the loop that logs the headers *)
  _ ← header_list header_iter;
  Ok (mkMessage header_iter payload).

(** ** Specification: the wire format *)

Definition be32 (v : Z) : bytes :=
  [uwrap 8 (Z.shiftr v 24); uwrap 8 (Z.land (Z.shiftr v 16) 0xFF);
   uwrap 8 (Z.land (Z.shiftr v 8) 0xFF); uwrap 8 (Z.land v 0xFF)].

Definition be16 (v : Z) : bytes := [uwrap 8 (Z.shiftr v 8); uwrap 8 (Z.land v 0xFF)].

Arguments be32 : simpl never.
Arguments be16 : simpl never.

Definition value_bytes (v : EventStreamHeaderValue) : bytes :=
  match v with
  | EVENTSTREAM_INT32 z => be32 (uwrap 32 z)
  | EVENTSTREAM_STRING s => be16 (zlen s) ++ s
  | EVENTSTREAM_OTHER _ => []
  end.

Definition header_bytes (h : EventStreamHeader) : bytes :=
  [zlen (name h)] ++ name h ++ [hv_type (value h)] ++ value_bytes (value h).

(** The headers the format can represent. *)
Definition valid_value (v : EventStreamHeaderValue) : Prop :=
  match v with
  | EVENTSTREAM_INT32 z => - 2 ^ 31 <= z < 2 ^ 31
  | EVENTSTREAM_STRING s => zlen s <= UINT16_MAX /\ bytes_ok s
  | EVENTSTREAM_OTHER _ => False
  end.

Definition valid_header (h : EventStreamHeader) : Prop :=
  zlen (name h) <= UINT8_MAX /\ bytes_ok (name h) /\ valid_value (value h).

#[export] Instance valid_value_dec v : Decision (valid_value v).
Proof. destruct v; simpl; apply _. Defined.
#[export] Instance valid_header_dec h : Decision (valid_header h).
Proof. unfold valid_header. apply _. Defined.

Definition headers_bytes (hs : list EventStreamHeader) : bytes := concat (header_bytes <$> hs).

(** The first eight bytes, whose CRC ends the prelude. *)
Definition prelude_bytes (hs : list EventStreamHeader) (payload : bytes) : bytes :=
  be32 (16 + zlen (headers_bytes hs) + zlen payload) ++ be32 (zlen (headers_bytes hs)).

Definition prelude_crc (hs : list EventStreamHeader) (payload : bytes) : Z :=
  gg_update_crc 0 (prelude_bytes hs payload).

Definition message_crc (hs : list EventStreamHeader) (payload : bytes) : Z :=
  gg_update_crc (prelude_crc hs payload)
    (be32 (prelude_crc hs payload) ++ headers_bytes hs ++ payload).

(** The packet with the given headers and payload: prelude, data section. *)
Definition packet_prelude hs payload : bytes :=
  prelude_bytes hs payload ++ be32 (prelude_crc hs payload).
Definition packet_data hs payload : bytes :=
  headers_bytes hs ++ payload ++ be32 (message_crc hs payload).
Definition packet hs payload : bytes := packet_prelude hs payload ++ packet_data hs payload.

(** The CRC is only reasoned about through its lemmas. *)
#[global] Opaque gg_update_crc.

(** ** Big-endian integers *)

Definition be_val (b0 b1 b2 b3 : Z) : Z := ((b0 * 256 + b1) * 256 + b2) * 256 + b3.

Lemma be_val_lor b0 b1 b2 b3 :
  is_byte b0 -> is_byte b1 -> is_byte b2 -> is_byte b3 ->
  Z.lor (Z.lor (Z.lor (Z.shiftl b0 24) (Z.shiftl b1 16)) (Z.shiftl b2 8)) b3
  = be_val b0 b1 b2 b3.
Proof.
  unfold is_byte, be_val. intros.
  rewrite !Z.shiftl_mul_pow2 by lia.
  rewrite (lor_mul b0) by lia.
  replace (b0 * 2 ^ 24 + b1 * 2 ^ 16) with ((b0 * 256 + b1) * 2 ^ 16) by lia.
  rewrite lor_mul by lia.
  replace ((b0 * 256 + b1) * 2 ^ 16 + b2 * 2 ^ 8)
    with (((b0 * 256 + b1) * 256 + b2) * 2 ^ 8) by lia.
  rewrite lor_mul by lia. lia.
Qed.

Lemma land_ff v : Z.land v 0xFF = v mod 256.
Proof. change 0xFF with (Z.ones 8). by rewrite Z.land_ones. Qed.

Lemma be32_eq v :
  is_u32 v ->
  be32 v = [v / 16777216; (v / 65536) mod 256; (v / 256) mod 256; v mod 256].
Proof.
  unfold is_u32, be32. intros. rewrite !land_ff, !Z.shiftr_div_pow2 by lia.
  unfold uwrap. simpl (2 ^ _). rewrite !Z.mod_mod by lia.
  by rewrite (Z.mod_small (v / 16777216)) by dlia.
Qed.

Lemma zlen_be32 v : zlen (be32 v) = 4.
Proof. done. Qed.

Lemma zlen_be16 v : zlen (be16 v) = 2.
Proof. done. Qed.

#[export] Hint Rewrite zlen_be32 zlen_be16 : zlen.

Lemma be32_ok v : bytes_ok (be32 v).
Proof.
  unfold be32, bytes_ok. repeat constructor; apply (uwrap_range 8); lia.
Qed.

Lemma be16_ok v : bytes_ok (be16 v).
Proof. unfold be16, bytes_ok. repeat constructor; apply (uwrap_range 8); lia. Qed.

Lemma read_be32 v : is_u32 v -> read_be_uint32 (be32 v) = Ok v.
Proof.
  intros Hv. pose proof (be32_ok v) as Hok. rewrite be32_eq in * by done.
  unfold read_be_uint32. simpl. unfold is_u32 in Hv.
  apply Forall_cons in Hok as [H0 [H1 [H2 [H3 _]%Forall_cons]%Forall_cons]%Forall_cons].
  rewrite be_val_lor by done. f_equal. unfold be_val. dlia.
Qed.

Lemma read_be32_inv bs v :
  bytes_ok bs -> read_be_uint32 bs = Ok v -> bs = be32 v /\ is_u32 v.
Proof.
  intros Hok. unfold read_be_uint32, gg_assert.
  destruct bs as [|b0 [|b1 [|b2 [|b3 [|]]]]]; try done; [|].
  - apply Forall_cons in Hok as [H0 [H1 [H2 [H3 _]%Forall_cons]%Forall_cons]%Forall_cons].
    simpl. rewrite be_val_lor by done. intros [= <-]. unfold is_byte in *.
    assert (is_u32 (be_val b0 b1 b2 b3)) by (unfold is_u32, be_val; lia).
    split; [|done]. rewrite be32_eq by done. unfold be_val in *. repeat f_equal; dlia.
  - assert (zlen (b0 :: b1 :: b2 :: b3 :: z :: l) =? 4 = false) as ->; [|done].
    apply Z.eqb_neq. zlen_lia.
Qed.

Lemma read_be_uint32_ok bs : bytes_ok bs -> zlen bs = 4 -> exists v, read_be_uint32 bs = Ok v.
Proof.
  intros _ Hl. unfold read_be_uint32. rewrite Hl. simpl.
  destruct (rd_is_Some bs 0) as [? ->]; [lia|]. destruct (rd_is_Some bs 1) as [? ->]; [lia|].
  destruct (rd_is_Some bs 2) as [? ->]; [lia|]. destruct (rd_is_Some bs 3) as [? ->]; [lia|].
  simpl. eauto.
Qed.

Lemma read_len16_be16 n : 0 <= n <= UINT16_MAX ->
  read_len16 (uwrap 8 (Z.shiftr n 8)) (uwrap 8 (Z.land n 0xFF)) = n.
Proof.
  unfold UINT16_MAX, read_len16, uwrap. intros.
  rewrite land_ff, Z.shiftr_div_pow2, Z.shiftl_mul_pow2 by lia. simpl (2 ^ _). dlia.
Qed.

Lemma be16_read_len16 b0 b1 : is_byte b0 -> is_byte b1 ->
  be16 (read_len16 b0 b1) = [b0; b1] /\ 0 <= read_len16 b0 b1 <= UINT16_MAX.
Proof.
  unfold is_byte, be16, read_len16, UINT16_MAX. intros.
  assert (uwrap 16 (uwrap 16 (Z.shiftl b0 8) + b1) = b0 * 256 + b1) as ->.
  { rewrite Z.shiftl_mul_pow2 by lia. unfold uwrap. simpl (2 ^ _). dlia. }
  split; [|lia]. unfold uwrap. rewrite land_ff, Z.shiftr_div_pow2 by lia. simpl (2 ^ _).
  repeat f_equal; dlia.
Qed.

Lemma swrap_uwrap_32 z : - 2 ^ 31 <= z < 2 ^ 31 -> swrap 32 (uwrap 32 z) = z.
Proof. intros. unfold swrap, uwrap. change (32 - 1) with 31. simpl (2 ^ _). dlia. Qed.

Lemma uwrap_swrap_32 v : is_u32 v ->
  uwrap 32 (swrap 32 v) = v /\ - 2 ^ 31 <= swrap 32 v < 2 ^ 31.
Proof. unfold is_u32, swrap, uwrap. change (32 - 1) with 31. simpl (2 ^ _). dlia. Qed.

Lemma size_sub_eq a b : 0 <= b <= a -> a <= SIZE_MAX -> size_sub a b = a - b.
Proof. unfold SIZE_MAX. intros. apply uwrap_small. lia. Qed.

(** ** Headers *)

Lemma get_sub_app n xs ys : zlen xs = n -> get_sub n (xs ++ ys) = Ok xs.
Proof.
  intros Hn. unfold get_sub. case_if; [zlen_lia|]. by rewrite ztake_app_exact.
Qed.

Lemma hv_type_byte v : valid_value v -> hv_type v = 4 \/ hv_type v = 7.
Proof. destruct v; simpl; [by left|by right|done]. Qed.

Lemma bytes_ok_header h : valid_header h -> bytes_ok (header_bytes h).
Proof.
  intros (Hn & Hok & Hv). unfold header_bytes. rewrite !bytes_ok_app.
  split; [|split; [done|split]].
  - constructor; [|constructor]. unfold is_byte, UINT8_MAX in *. zlen_lia.
  - constructor; [|constructor]. unfold is_byte. destruct (hv_type_byte _ Hv); lia.
  - destruct (value h) as [z|s|t]; unfold value_bytes; simpl in Hv; [apply be32_ok| |done].
    apply bytes_ok_app. split; [apply be16_ok|]. tauto.
Qed.

Lemma zlen_value_bytes v :
  valid_value v ->
  zlen (value_bytes v) = match v with EVENTSTREAM_STRING s => 2 + zlen s | _ => 4 end.
Proof. destruct v; simpl; try done. intros. by rewrite !zlen_cons, Z.add_assoc. Qed.

Lemma zlen_header_bytes h : zlen (header_bytes h) = zlen (name h) + 2 + zlen (value_bytes (value h)).
Proof. unfold header_bytes. rewrite !zlen_app. unfold zlen; simpl. lia. Qed.

Lemma header_next_bytes h rest c :
  valid_header h -> 1 <= c <= UINT32_MAX ->
  eventstream_header_next (mkIter c (header_bytes h ++ rest)) = Ok (mkIter (c - 1) rest, h).
Proof.
  intros (Hn & Hok & Hv) Hc. unfold eventstream_header_next, header_bytes. simpl count.
  assert (c <? 1 = false) as -> by (apply Z.ltb_ge; lia). simpl pos.
  change (([zlen (name h)] ++ name h ++ [hv_type (value h)] ++ value_bytes (value h)) ++ rest)
    with (zlen (name h) :: ((name h ++ [hv_type (value h)] ++ value_bytes (value h)) ++ rest)).
  rewrite rd_0_cons. cbn [get mbind outcome_bind].
  rewrite (zdrop_cons _ _ 1), Z.sub_diag, zdrop_0 by lia.
  rewrite <- !app_assoc, get_sub_app by done. cbn [mbind outcome_bind].
  rewrite zdrop_app_exact by done. simpl app. rewrite rd_0_cons. cbn [get mbind outcome_bind].
  rewrite (zdrop_cons _ _ 1), Z.sub_diag, zdrop_0 by lia.
  rewrite (uwrap_small 32 (c - 1)) by (unfold UINT32_MAX in Hc; lia).
  destruct h as [nm v]. simpl in *. destruct v as [z|s|t]; simpl hv_type; simpl value_bytes.
  - simpl Z.eqb. cbv iota. rewrite get_sub_app by done. cbn [mbind outcome_bind].
    unfold read_be_int32. rewrite zlen_be32. cbn -[be32 zdrop app].
    rewrite read_be32 by (unfold is_u32; apply uwrap_range; lia). cbn -[be32 zdrop app swrap].
    by rewrite swrap_uwrap_32, zdrop_app_exact.
  - destruct Hv as [Hs _]. change (7 =? 4) with false. change (7 =? 7) with true. cbv iota.
    unfold be16. simpl app.
    rewrite rd_0_cons, rd_cons, rd_0_cons by lia. cbn [get mbind outcome_bind]. cbv zeta.
    rewrite read_len16_be16 by zlen_lia.
    rewrite (zdrop_cons _ _ 2), (zdrop_cons _ _ (2 - 1)) by lia. rewrite zdrop_0.
    rewrite get_sub_app by done. cbn [mbind outcome_bind]. by rewrite zdrop_app_exact.
  - done.
Qed.

Lemma take_header_cases hb :
  bytes_ok hb -> zlen hb <= SIZE_MAX ->
  take_header hb = Fail GG_ERR_PARSE \/
  exists h rest, valid_header h /\ hb = header_bytes h ++ rest /\ take_header hb = Ok rest.
Proof.
  intros Hok Hmax. unfold take_header. cbv zeta.
  rewrite size_sub_eq by zlen_lia. case_if; [by left|].
  destruct (rd_is_Some hb 0) as [n Hn]; [lia|]. rewrite Hn. cbn [get mbind outcome_bind].
  pose proof (bytes_ok_rd _ _ _ Hok Hn) as Hnb. unfold is_byte in Hnb.
  rewrite (size_sub_eq _ (0 + 1)) by lia. case_if; [by left|].
  rewrite (size_sub_eq _ (0 + 1 + n)) by lia. case_if; [by left|].
  destruct (rd_is_Some hb (0 + 1 + n)) as [t Ht]; [lia|]. rewrite Ht. cbn [get mbind outcome_bind].
  assert (hb = [n] ++ ztake n (zdrop 1 hb) ++ [t] ++ zdrop (n + 2) hb) as Hsplit.
  { rewrite <- (zdrop_0 hb) at 1. rewrite (rd_split _ _ _ Hn). simpl. f_equal.
    rewrite (zdrop_split hb (0 + 1) n) by lia. simpl. f_equal.
    rewrite (rd_split _ _ _ Ht). do 2 f_equal. lia. }
  assert (zlen (ztake n (zdrop 1 hb)) = n) as Hnm by zlen_lia.
  assert (bytes_ok (ztake n (zdrop 1 hb))) as Hnmok by auto with gg.
  assert (forall v rest, valid_value v -> hv_type v = t -> zdrop (n + 2) hb = value_bytes v ++ rest ->
    hb = header_bytes (mkHeader (ztake n (zdrop 1 hb)) v) ++ rest /\
    valid_header (mkHeader (ztake n (zdrop 1 hb)) v)) as Hmk.
  { intros v rest Hv Htv Hd. split.
    - rewrite Hsplit at 1. unfold header_bytes. simpl name. simpl value.
      rewrite Hnm, Htv, Hd. by rewrite <- !app_assoc.
    - unfold valid_header, UINT8_MAX. simpl. rewrite Hnm. split; [lia|done]. }
  case_if; [|case_if; [|by left]]; subst t.
  - rewrite (size_sub_eq _ (0 + 1 + n + 1)) by lia. case_if; [by left|].
    right. destruct (read_be_uint32_ok (ztake 4 (zdrop (n + 2) hb))) as [v Hv];
      [auto with gg|zlen_lia|].
    apply read_be32_inv in Hv as [Hbe Hu]; [|auto with gg].
    destruct (uwrap_swrap_32 v Hu) as [Hw Hr].
    destruct (Hmk (EVENTSTREAM_INT32 (swrap 32 v)) (zdrop (n + 2 + 4) hb)) as [H1 H2]; [done..| |].
    { unfold value_bytes. rewrite Hw, <- Hbe. apply zdrop_split; lia. }
    eexists _, _. split; [exact H2|]. split; [exact H1|].
    rewrite gg_buffer_substr_rest by lia. do 2 f_equal. lia.
  - rewrite (size_sub_eq _ (0 + 1 + n + 1)) by lia. case_if; [by left|].
    destruct (rd_is_Some hb (0 + 1 + n + 1)) as [b0 Hb0]; [lia|]. rewrite Hb0.
    destruct (rd_is_Some hb (0 + 1 + n + 1 + 1)) as [b1 Hb1]; [lia|]. rewrite Hb1.
    cbn [get mbind outcome_bind].
    destruct (be16_read_len16 b0 b1) as [Hbe Hl]; [eauto using bytes_ok_rd..|].
    rewrite (size_sub_eq _ (0 + 1 + n + 1 + 2)) by lia. case_if; [by left|]. right.
    set (l := read_len16 b0 b1) in *.
    destruct (Hmk (EVENTSTREAM_STRING (ztake l (zdrop (n + 4) hb))) (zdrop (n + 4 + l) hb))
      as [H1 H2]; [| |  |].
    + simpl. rewrite zlen_take, zlen_drop. split; [lia|]. auto with gg.
    + done.
    + unfold value_bytes. replace (zlen (ztake l (zdrop (n + 4) hb))) with l by zlen_lia. rewrite Hbe.
      replace (n + 2) with (0 + 1 + n + 1) by lia. rewrite (rd_split _ _ _ Hb0).
      rewrite (rd_split _ _ _ Hb1). simpl. do 2 f_equal.
      replace (0 + 1 + n + 1 + 1 + 1) with (n + 4) by lia. apply zdrop_split; lia.
    + eexists _, _. split; [exact H2|]. split; [exact H1|].
      rewrite gg_buffer_substr_rest by lia. do 2 f_equal. lia.
Qed.

Lemma take_header_bytes h rest :
  valid_header h -> zlen (header_bytes h ++ rest) <= SIZE_MAX ->
  take_header (header_bytes h ++ rest) = Ok rest.
Proof.
  intros (Hn & Hok & Hv) Hmax. pose proof (zlen_value_bytes _ Hv) as Hvl.
  pose proof (zlen_header_bytes h) as Hhl. rewrite zlen_app in Hmax.
  pose proof (zlen_nonneg rest) as Hr. pose proof (zlen_nonneg (name h)) as Hn0.
  pose proof (zlen_nonneg (value_bytes (value h))) as Hv0.
  assert (header_bytes h ++ rest = [zlen (name h)] ++ name h ++ [hv_type (value h)] ++
    value_bytes (value h) ++ rest) as Heq by (unfold header_bytes; by rewrite <- !app_assoc).
  unfold take_header. cbv zeta. rewrite zlen_app, Hhl in *.
  rewrite size_sub_eq by lia. case_if; [lia|].
  rewrite Heq, rd_app_l by done. change (rd [zlen (name h)] 0) with (Some (zlen (name h))).
  cbn [get mbind outcome_bind].
  rewrite (size_sub_eq _ (0 + 1)) by lia. case_if; [lia|].
  rewrite (size_sub_eq _ (0 + 1 + zlen (name h))) by lia. case_if; [lia|].
  assert (forall k, 0 <= k -> rd ([zlen (name h)] ++ name h ++ [hv_type (value h)] ++
    value_bytes (value h) ++ rest) (0 + 1 + zlen (name h) + k) =
    rd ([hv_type (value h)] ++ value_bytes (value h) ++ rest) k) as Hrd.
  { intros k Hk. rewrite rd_app_r by zlen_lia. rewrite rd_app_r by zlen_lia.
    f_equal. zlen_lia. }
  pose proof (Hrd 0 ltac:(lia)) as Hrd0. rewrite Z.add_0_r in Hrd0. rewrite Hrd0. change (rd ([hv_type (value h)] ++ value_bytes (value h) ++ rest) 0)
    with (Some (hv_type (value h))). cbn [get mbind outcome_bind].
  assert (forall k, k = zlen (name h) + 2 + zlen (value_bytes (value h)) ->
    gg_buffer_substr ([zlen (name h)] ++ name h ++ [hv_type (value h)] ++
      value_bytes (value h) ++ rest) k SIZE_MAX = rest) as Hsub.
  { intros k ->. rewrite <- Heq. rewrite gg_buffer_substr_rest by (rewrite zlen_app; lia).
    by apply zdrop_app_exact. }
  destruct (value h) as [z|s|t]; [| |done];
    unfold hv_type; simpl Z.eqb; cbv iota; cbv iota in Hvl.
  - rewrite (size_sub_eq _ (0 + 1 + zlen (name h) + 1)) by lia. case_if; [lia|].
    rewrite Hsub; [done|lia].
  - destruct Hv as [Hs Hsok]. pose proof (zlen_nonneg s) as Hs0.
    rewrite (size_sub_eq _ (0 + 1 + zlen (name h) + 1)) by lia. case_if; [lia|].
    rewrite Hrd by lia. replace (0 + 1 + zlen (name h) + 1 + 1)
      with (0 + 1 + zlen (name h) + 2) by lia. rewrite Hrd by lia.
    unfold value_bytes in *. unfold be16. simpl app.
    rewrite (rd_cons _ _ 1), (rd_cons _ _ 2), (rd_cons _ _ (2 - 1)) by lia.
    change (1 - 1) with 0. change (2 - 1 - 1) with 0. rewrite !rd_0_cons.
    cbn [get mbind outcome_bind].
    rewrite read_len16_be16 by lia.
    rewrite (size_sub_eq _ (0 + 1 + zlen (name h) + 1 + 2)) by zlen_lia.
    case_if; [zlen_lia|]. f_equal. apply Hsub. zlen_lia.
Qed.

(** ** Header sections *)

Lemma headers_bytes_cons h hs : headers_bytes (h :: hs) = header_bytes h ++ headers_bytes hs.
Proof. done. Qed.

Lemma zlen_header_pos h : 2 <= zlen (header_bytes h).
Proof. rewrite zlen_header_bytes. zlen_lia. Qed.

Lemma zlen_headers_bytes hs : 2 * zlen hs <= zlen (headers_bytes hs).
Proof.
  induction hs as [|h hs IH]; [done|].
  rewrite headers_bytes_cons, zlen_app, zlen_cons. pose proof (zlen_header_pos h). lia.
Qed.

Lemma bytes_ok_headers hs : Forall valid_header hs -> bytes_ok (headers_bytes hs).
Proof.
  induction 1; [constructor|]. rewrite headers_bytes_cons. apply bytes_ok_app.
  auto using bytes_ok_header.
Qed.

Lemma count_headers_loop_bytes fuel hs c :
  Forall valid_header hs -> zlen (headers_bytes hs) <= SIZE_MAX ->
  (length (headers_bytes hs) <= fuel)%nat -> 0 <= c -> c + zlen hs <= UINT32_MAX ->
  count_headers_loop fuel (headers_bytes hs) c = Ok (c + zlen hs).
Proof.
  intros Hv. revert fuel c. induction Hv as [|h hs Hh Hv IH]; intros fuel c Hmax Hf Hc Hcm.
  - destruct fuel; simpl; f_equal; zlen_lia.
  - rewrite headers_bytes_cons in *. pose proof (zlen_header_pos h).
    assert (0 <? zlen (header_bytes h ++ headers_bytes hs) = true) as Hpos.
    { apply Z.ltb_lt. zlen_lia. }
    rewrite length_app in Hf. unfold zlen in H.
    destruct fuel as [|fuel]; [lia|]. cbn [count_headers_loop]. rewrite Hpos.
    rewrite take_header_bytes by done. cbn [mbind outcome_bind].
    rewrite zlen_cons in Hcm. pose proof (zlen_nonneg hs).
    rewrite uwrap_small by (unfold UINT32_MAX in Hcm; lia).
    rewrite IH; [rewrite zlen_cons; f_equal; lia|zlen_lia|lia..].
Qed.

Lemma count_headers_loop_cases fuel hb c :
  bytes_ok hb -> zlen hb <= SIZE_MAX -> (length hb <= fuel)%nat ->
  count_headers_loop fuel hb c = Fail GG_ERR_PARSE \/
  exists hs, Forall valid_header hs /\ hb = headers_bytes hs.
Proof.
  revert hb c. induction fuel as [|fuel IH]; intros hb c Hok Hmax Hf.
  - destruct hb; [|simpl in Hf; lia]. right. by exists [].
  - cbn [count_headers_loop]. destruct (0 <? zlen hb) eqn:E; zify_bool.
    2:{ right. exists []. split; [done|]. apply zlen_zero. zlen_lia. }
    destruct (take_header_cases hb Hok Hmax) as [->|(h & rest & Hh & -> & ->)]; [by left|].
    cbn [mbind outcome_bind]. apply bytes_ok_app in Hok as [_ Hok].
    pose proof (zlen_header_pos h) as Hhp.
    destruct (IH rest (uwrap 32 (c + 1))) as [->|(hs & Hhs & ->)].
    + done.
    + zlen_lia.
    + rewrite length_app in Hf. unfold zlen in Hhp. lia.
    + by left.
    + right. exists (h :: hs). split; [by constructor|done].
Qed.

Lemma count_headers_bytes hs :
  Forall valid_header hs -> zlen (headers_bytes hs) <= UINT32_MAX ->
  count_headers (headers_bytes hs) = Ok (zlen hs).
Proof.
  intros Hv Hm. pose proof (zlen_headers_bytes hs). unfold count_headers.
  rewrite count_headers_loop_bytes; try done; unfold SIZE_MAX, UINT32_MAX in *; zlen_lia.
Qed.

Lemma count_headers_cases hb :
  bytes_ok hb -> zlen hb <= UINT32_MAX ->
  count_headers hb = Fail GG_ERR_PARSE \/
  exists hs, Forall valid_header hs /\ hb = headers_bytes hs /\ count_headers hb = Ok (zlen hs).
Proof.
  intros Hok Hm. destruct (count_headers_loop_cases (length hb) hb 0) as [?|(hs & Hv & ->)];
    [done|unfold SIZE_MAX, UINT32_MAX in *; lia|lia|by left|].
  right. exists hs. eauto using count_headers_bytes.
Qed.

Lemma header_list_loop_bytes hs rest :
  Forall valid_header hs -> zlen hs <= UINT32_MAX ->
  header_list_loop (length hs) (mkIter (zlen hs) (headers_bytes hs ++ rest)) = Ok hs.
Proof.
  intros Hv. induction Hv as [|h hs Hh Hv IH]; intros Hl.
  - simpl. done.
  - rewrite zlen_cons in *. pose proof (zlen_nonneg hs).
    cbn [length header_list_loop]. rewrite headers_bytes_cons, <- app_assoc.
    rewrite header_next_bytes by (done || lia).
    replace (1 + zlen hs - 1) with (zlen hs) by lia. rewrite IH by lia. done.
Qed.

Lemma header_list_bytes hs rest :
  Forall valid_header hs -> zlen hs <= UINT32_MAX ->
  header_list (mkIter (zlen hs) (headers_bytes hs ++ rest)) = Ok hs.
Proof.
  intros. unfold header_list. simpl count. unfold zlen at 1. rewrite Nat2Z.id.
  by apply header_list_loop_bytes.
Qed.

(** ** Preludes *)

Lemma prelude_bytes_ok hs pl : bytes_ok (prelude_bytes hs pl).
Proof. apply bytes_ok_app. split; apply be32_ok. Qed.

Lemma prelude_crc_u32 hs pl : is_u32 (prelude_crc hs pl).
Proof. apply gg_update_crc_u32; [done|apply prelude_bytes_ok]. Qed.

Lemma message_crc_u32 hs pl :
  Forall valid_header hs -> bytes_ok pl -> is_u32 (message_crc hs pl).
Proof.
  intros. apply gg_update_crc_u32; [apply prelude_crc_u32|]. rewrite !bytes_ok_app.
  auto using be32_ok, bytes_ok_headers.
Qed.

(** The prelude carrying the two lengths. *)
Definition prelude_of (ml hl : Z) : bytes :=
  be32 ml ++ be32 hl ++ be32 (gg_update_crc 0 (be32 ml ++ be32 hl)).

Lemma packet_prelude_of hs pl :
  packet_prelude hs pl =
    prelude_of (16 + zlen (headers_bytes hs) + zlen pl) (zlen (headers_bytes hs)).
Proof. unfold packet_prelude, prelude_of, prelude_crc, prelude_bytes. by rewrite <- app_assoc. Qed.

Lemma decode_prelude_of ml hl :
  is_u32 ml -> is_u32 hl -> 16 <= ml -> hl <= ml - 16 ->
  let c := gg_update_crc 0 (be32 ml ++ be32 hl) in
  eventstream_decode_prelude (prelude_of ml hl) =
    Ok (mkPrelude (ml - 12) hl (gg_update_crc c (be32 c))).
Proof.
  intros Hml Hhl H16 Hle c. unfold eventstream_decode_prelude, prelude_of. cbv zeta. fold c.
  assert (is_u32 c) as Hc.
  { apply gg_update_crc_u32; [done|]. apply bytes_ok_app. split; apply be32_ok. }
  assert (zlen (be32 ml ++ be32 hl ++ be32 c) <? 12 = false) as -> by done.
  rewrite !gg_buffer_substr_spec by lia.
  change (ztake (8 - 0) (zdrop 0 (be32 ml ++ be32 hl ++ be32 c))) with (be32 ml ++ be32 hl).
  change (ztake (12 - 8) (zdrop 8 (be32 ml ++ be32 hl ++ be32 c))) with (be32 c).
  change (ztake (4 - 0) (zdrop 0 (be32 ml ++ be32 hl ++ be32 c))) with (be32 ml).
  change (ztake (8 - 4) (zdrop 4 (be32 ml ++ be32 hl ++ be32 c))) with (be32 hl).
  rewrite (read_be32 c), (read_be32 ml), (read_be32 hl) by done. cbn [mbind outcome_bind].
  fold c. case_if; [done|]. case_if; [lia|]. case_if; [lia|]. done.
Qed.

Lemma decode_prelude_cases pre :
  bytes_ok pre -> zlen pre = 12 ->
  eventstream_decode_prelude pre = Fail GG_ERR_PARSE \/
  exists ml hl, is_u32 ml /\ is_u32 hl /\ 16 <= ml /\ hl <= ml - 16 /\ pre = prelude_of ml hl.
Proof.
  intros Hok Hl. unfold eventstream_decode_prelude. cbv zeta. rewrite Hl. case_if; [lia|].
  rewrite !gg_buffer_substr_spec by lia. rewrite zdrop_0.
  change (8 - 0) with 8. change (12 - 8) with 4. change (8 - 4) with 4. change (4 - 0) with 4.
  assert (pre = ztake 4 pre ++ ztake 4 (zdrop 4 pre) ++ ztake 4 (zdrop 8 pre)) as Hsplit.
  { rewrite (ztake_all 4 (zdrop 8 pre)) by zlen_lia.
    rewrite <- (zdrop_zdrop 4 4) by lia. by rewrite !ztake_zdrop. }
  assert (ztake 8 pre = ztake 4 pre ++ ztake 4 (zdrop 4 pre)) as ->.
  { rewrite Hsplit at 1. rewrite app_assoc. apply ztake_app_exact. zlen_lia. }
  destruct (read_be_uint32_ok (ztake 4 pre)) as [ml Hml]; [auto with gg|zlen_lia|].
  destruct (read_be_uint32_ok (ztake 4 (zdrop 4 pre))) as [hl Hhl]; [auto with gg|zlen_lia|].
  destruct (read_be_uint32_ok (ztake 4 (zdrop 8 pre))) as [c Hc]; [auto with gg|zlen_lia|].
  rewrite Hml, Hhl, Hc. cbn [mbind outcome_bind].
  apply read_be32_inv in Hml as [Hml ?]; [|auto with gg].
  apply read_be32_inv in Hhl as [Hhl ?]; [|auto with gg].
  apply read_be32_inv in Hc as [Hc ?]; [|auto with gg].
  rewrite Hml, Hhl in *. case_if; [by left|]. case_if; [by left|]. case_if; [by left|].
  right. exists ml, hl. split; [done|]. split; [done|].
  split; [lia|]. split; [lia|]. rewrite Hsplit, Hc. unfold prelude_of. by subst c.
Qed.

(** ** Data sections *)

(** The prelude the decoder hands to [eventstream_decode]. *)
Definition prelude_val (ml hl : Z) : EventStreamPrelude :=
  let c := gg_update_crc 0 (be32 ml ++ be32 hl) in
  mkPrelude (ml - 12) hl (gg_update_crc c (be32 c)).

(** A data section with a correct CRC. *)
Definition data_of (ml hl : Z) (body : bytes) : bytes :=
  body ++ be32 (gg_update_crc (crc (prelude_val ml hl)) body).

Definition message_of (hs : list EventStreamHeader) (data pl : bytes) : EventStreamMessage :=
  mkMessage (mkIter (zlen hs) data) pl.

Lemma packet_data_of hs pl :
  packet_data hs pl =
    data_of (16 + zlen (headers_bytes hs) + zlen pl) (zlen (headers_bytes hs))
      (headers_bytes hs ++ pl).
Proof.
  unfold packet_data, data_of, message_crc, prelude_val, prelude_crc, prelude_bytes.
  cbv zeta. cbn [crc]. rewrite gg_update_crc_app. by rewrite <- app_assoc.
Qed.

Lemma eventstream_decode_data p hs pl :
  Forall valid_header hs -> bytes_ok pl -> is_u32 (crc p) ->
  headers_len p = zlen (headers_bytes hs) -> zlen (headers_bytes hs) <= UINT32_MAX ->
  let body := headers_bytes hs ++ pl in
  let data := body ++ be32 (gg_update_crc (crc p) body) in
  eventstream_decode p data = Ok (message_of hs data pl).
Proof.
  intros Hv Hpl Hc Hhl Hm body data. pose proof (zlen_headers_bytes hs).
  assert (zlen data = zlen body + 4) as Hd by (unfold data; zlen_lia).
  assert (bytes_ok body) as Hbok.
  { apply bytes_ok_app. split; [by apply bytes_ok_headers|done]. }
  pose proof (zlen_nonneg body). unfold eventstream_decode. cbv zeta. rewrite Hd.
  assert (4 <=? zlen body + 4 = true) as -> by (apply Z.leb_le; lia). cbn [gg_assert mbind outcome_bind].
  rewrite !gg_buffer_substr_spec by zlen_lia. rewrite !zdrop_0, !Z.sub_0_r.
  replace (zlen body + 4 - 4) with (zlen body) by lia.
  replace (zlen body + 4 - zlen body) with 4 by lia.
  assert (ztake (zlen body) data = body) as -> by by apply ztake_app_exact.
  assert (zdrop (zlen body) data = be32 (gg_update_crc (crc p) body)) as ->
    by by apply zdrop_app_exact.
  rewrite (ztake_all 4), read_be32 by (done || by apply gg_update_crc_u32).
  cbn [mbind outcome_bind]. rewrite Z.eqb_refl. cbn [negb].
  assert (data = headers_bytes hs ++ (pl ++ be32 (gg_update_crc (crc p) body))) as Hdata
    by (unfold data, body; by rewrite <- app_assoc).
  assert (ztake (headers_len p) data = headers_bytes hs) as ->
    by (rewrite Hdata, Hhl; by apply ztake_app_exact).
  rewrite Hhl, Z.eqb_refl. cbn [gg_assert mbind outcome_bind].
  rewrite count_headers_bytes by done. cbn [mbind outcome_bind].
  rewrite Hdata at 1. rewrite header_list_bytes by (done || zlen_lia). cbn [mbind outcome_bind].
  unfold message_of. do 2 f_equal. rewrite Hdata, zdrop_app_exact by done.
  apply ztake_app_exact. unfold body. zlen_lia.
Qed.

Lemma eventstream_decode_cases p data :
  bytes_ok data -> is_u32 (crc p) -> 0 <= headers_len p <= zlen data - 4 -> 4 <= zlen data ->
  zlen data <= UINT32_MAX ->
  eventstream_decode p data = Fail GG_ERR_PARSE \/
  exists hs pl, Forall valid_header hs /\ bytes_ok pl /\
    headers_len p = zlen (headers_bytes hs) /\
    data = (headers_bytes hs ++ pl) ++ be32 (gg_update_crc (crc p) (headers_bytes hs ++ pl)).
Proof.
  intros Hok Hc Hhl H4 Hmax. unfold eventstream_decode. cbv zeta.
  assert (4 <=? zlen data = true) as -> by (apply Z.leb_le; lia). cbn [gg_assert mbind outcome_bind].
  rewrite !gg_buffer_substr_spec by lia. rewrite !zdrop_0, !Z.sub_0_r.
  replace (zlen data - (zlen data - 4)) with 4 by lia.
  set (body := ztake (zlen data - 4) data).
  rewrite (ztake_all 4) by zlen_lia. set (tail := zdrop (zlen data - 4) data).
  assert (data = body ++ tail) as Hsplit by (unfold body, tail; by rewrite ztake_zdrop).
  destruct (read_be_uint32_ok tail) as [v Hv]; [unfold tail; auto with gg|unfold tail; zlen_lia|].
  rewrite Hv. cbn [mbind outcome_bind]. case_if; [by left|].
  apply read_be32_inv in Hv as [Htail _]; [|unfold tail; auto with gg].
  set (hb := ztake (headers_len p) data).
  assert (zlen hb = headers_len p) as Hhb by (unfold hb; zlen_lia).
  rewrite Hhb, Z.eqb_refl. cbn [gg_assert mbind outcome_bind].
  destruct (count_headers_cases hb) as [->|(hs & Hv & Hhs & _)];
    [unfold hb; auto with gg|lia|by left|].
  right. exists hs, (zdrop (headers_len p) body).
  assert (bytes_ok body) by (unfold body; auto with gg).
  assert (body = headers_bytes hs ++ zdrop (headers_len p) body) as Hbody.
  { rewrite <- Hhs. rewrite <- (ztake_zdrop (headers_len p) body) at 1. f_equal.
    unfold hb. rewrite Hsplit at 1. rewrite ztake_app_le; [done|]. unfold body. zlen_lia. }
  split; [done|]. split; [auto with gg|]. split; [by rewrite <- Hhs|].
  rewrite <- Hbody, Hsplit. by rewrite Htail, <- E.
Qed.

Lemma prelude_val_crc_u32 ml hl : is_u32 (crc (prelude_val ml hl)).
Proof.
  unfold prelude_val. cbv zeta. cbn [crc].
  assert (bytes_ok (be32 ml ++ be32 hl)) by (apply bytes_ok_app; split; apply be32_ok).
  apply gg_update_crc_u32; [by apply gg_update_crc_u32|apply be32_ok].
Qed.

(** What a successful prelude guarantees about the data section to read. *)
Lemma decode_prelude_Ok pre p :
  bytes_ok pre -> zlen pre = 12 -> eventstream_decode_prelude pre = Ok p ->
  exists ml hl, is_u32 ml /\ is_u32 hl /\ 16 <= ml /\ hl <= ml - 16 /\
    pre = prelude_of ml hl /\ p = prelude_val ml hl /\ is_u32 (crc p).
Proof.
  intros Hok Hl Hp. destruct (decode_prelude_cases pre Hok Hl) as [?|(ml & hl & ? & ? & ? & ? & ->)];
    [congruence|]. exists ml, hl. rewrite decode_prelude_of in Hp by done. injection Hp as <-.
  split_and!; try done.
  apply prelude_val_crc_u32.
Qed.

Lemma decode_accepted pre p data msg :
  bytes_ok pre -> bytes_ok data -> zlen pre = 12 ->
  eventstream_decode_prelude pre = Ok p -> data_len p = zlen data ->
  eventstream_decode p data = Ok msg ->
  exists hs pl, Forall valid_header hs /\ bytes_ok pl /\
    pre = packet_prelude hs pl /\ data = packet_data hs pl /\ msg = message_of hs data pl.
Proof.
  intros Hpok Hdok H12 Hp Hdl Hd.
  apply decode_prelude_Ok in Hp as (ml & hl & Hml & Hhl & H16 & Hle & -> & -> & Hc); [|done..].
  simpl in Hdl. unfold is_u32 in Hml, Hhl.
  destruct (eventstream_decode_cases (prelude_val ml hl) data)
    as [?|(hs & pl & Hv & Hpl & Hlen & Hdata)]; simpl; try (done || lia).
  { unfold UINT32_MAX. lia. }
  { congruence. }
  exists hs, pl. simpl in Hlen. pose proof (zlen_headers_bytes hs). pose proof (zlen_nonneg hs).
  assert (zlen data = zlen (headers_bytes hs) + zlen pl + 4) as Hzd by (rewrite Hdata; zlen_lia).
  assert (ml = 16 + zlen (headers_bytes hs) + zlen pl) as Hmle by lia.
  split; [done|]. split; [done|]. split; [|split].
  - rewrite packet_prelude_of. by rewrite <- Hmle, <- Hlen.
  - rewrite packet_data_of, <- Hmle, <- Hlen. exact Hdata.
  - rewrite Hdata in Hd at 1. rewrite eventstream_decode_data in Hd;
      [|done|done|done|done|unfold UINT32_MAX; lia].
    rewrite <- Hdata in Hd. by injection Hd.
Qed.

Lemma packet_decodes hs pl :
  Forall valid_header hs -> bytes_ok pl ->
  16 + zlen (headers_bytes hs) + zlen pl <= UINT32_MAX ->
  exists p, eventstream_decode_prelude (packet_prelude hs pl) = Ok p /\
    data_len p = zlen (packet_data hs pl) /\
    eventstream_decode p (packet_data hs pl) = Ok (message_of hs (packet_data hs pl) pl).
Proof.
  intros Hv Hpl Hm. pose proof (zlen_headers_bytes hs). pose proof (zlen_nonneg hs).
  pose proof (zlen_nonneg pl). unfold UINT32_MAX in Hm.
  set (ml := 16 + zlen (headers_bytes hs) + zlen pl). set (hl := zlen (headers_bytes hs)).
  exists (prelude_val ml hl).
  assert (eventstream_decode_prelude (packet_prelude hs pl) = Ok (prelude_val ml hl)) as Hp.
  { rewrite packet_prelude_of. apply decode_prelude_of; unfold is_u32, ml, hl; lia. }
  split; [done|]. rewrite packet_data_of. fold ml hl. split.
  - simpl. unfold data_of, ml. zlen_lia.
  - unfold data_of. apply eventstream_decode_data; try done.
    + apply decode_prelude_Ok in Hp as (? & ? & _ & _ & _ & _ & _ & _ & Hc); [done| |done].
      apply bytes_ok_app. split; [apply prelude_bytes_ok|apply be32_ok].
    + unfold UINT32_MAX. lia.
Qed.

Lemma app_cons_split {A} (l z t r : list A) d :
  l ++ d :: r = z ++ t -> zlen l < zlen z ->
  z = l ++ d :: ztake (zlen z - zlen l - 1) r /\ t = zdrop (zlen z - zlen l - 1) r.
Proof.
  intros Heq Hlt. assert (zlen l + 1 + zlen r = zlen z + zlen t).
  { apply (f_equal zlen) in Heq. zlen_lia. }
  assert ((l ++ d :: ztake (zlen z - zlen l - 1) r) ++ zdrop (zlen z - zlen l - 1) r = z ++ t) as He.
  { rewrite <- app_assoc, <- Heq. simpl. by rewrite ztake_zdrop. }
  apply app_inj_1 in He as [Hz Ht]; [by split|].
  apply Nat2Z.inj. change (zlen (l ++ d :: ztake (zlen z - zlen l - 1) r) = zlen z). zlen_lia.
Qed.

(** Two messages that end with their CRC do not differ in one byte only. *)
Lemma crc_trailer_change c l r b b' x y :
  is_u32 c -> bytes_ok (l ++ b :: r) -> bytes_ok (l ++ b' :: r) -> b <> b' ->
  l ++ b :: r = x ++ be32 (gg_update_crc c x) ->
  l ++ b' :: r = y ++ be32 (gg_update_crc c y) -> False.
Proof.
  intros Hc Hok Hok' Hne Hx Hy.
  assert (zlen x = zlen y) as Hxy.
  { apply (f_equal zlen) in Hx, Hy. zlen_lia. }
  assert (be32 (gg_update_crc c x) = be32 (gg_update_crc c y) -> gg_update_crc c x = gg_update_crc c y)
    as Hinj.
  { intros He. rewrite Hx in Hok. rewrite Hy in Hok'.
    apply bytes_ok_app in Hok as [Hok _], Hok' as [Hok' _].
    pose proof (read_be32 _ (gg_update_crc_u32 c x Hc Hok)) as H1.
    pose proof (read_be32 _ (gg_update_crc_u32 c y Hc Hok')) as H2. congruence. }
  destruct (Z_lt_dec (zlen l) (zlen x)) as [Hlt|Hge].
  - (* the change is in the message *)
    destruct (app_cons_split _ _ _ _ _ Hx Hlt) as [Hx1 Hx2].
    destruct (app_cons_split _ _ _ _ _ Hy ltac:(lia)) as [Hy1 Hy2].
    rewrite <- Hxy in Hy1, Hy2. rewrite <- Hx2 in Hy2. symmetry in Hy2. apply Hinj in Hy2.
    rewrite Hx in Hok. rewrite Hy in Hok'. rewrite Hx1, Hy1 in Hy2.
    rewrite Hx1 in Hok. rewrite Hy1 in Hok'. rewrite !bytes_ok_app in Hok, Hok'.
    destruct Hok as [[Hl [Hb Hr]%Forall_cons] _]. destruct Hok' as [[_ [Hb' _]%Forall_cons] _].
    by apply gg_update_crc_byte_change in Hy2.
  - (* the change is in the CRC *)
    assert (x = y) as ->.
    { assert (x = ztake (zlen x) l) as Hxl.
      { rewrite <- (ztake_app_le (zlen x) l (b :: r)) by zlen_lia. rewrite Hx.
        by rewrite ztake_app_exact. }
      assert (y = ztake (zlen x) l) as Hyl.
      { rewrite <- (ztake_app_le (zlen x) l (b' :: r)) by zlen_lia. rewrite Hy.
        by rewrite ztake_app_exact. }
      congruence. }
    rewrite <- Hy in Hx. apply app_inv_head in Hx. congruence.
Qed.

Lemma zlen_packet_prelude hs pl : zlen (packet_prelude hs pl) = 12.
Proof. done. Qed.

(** * Properties *)

(** C23: the decoder accepts exactly the well-formed packets. A prelude and
    the data section it announces are accepted with message [msg] if and only
    if together they are the encoding of some list of headers and payload
    within the format's limits, and [msg] is that list and payload. *)
Theorem eventstream_decode_exact (pre data : bytes) (msg : EventStreamMessage) :
  bytes_ok pre -> bytes_ok data -> zlen pre = 12 -> zlen data <= UINT32_MAX - 12 ->
  (exists p, eventstream_decode_prelude pre = Ok p /\ data_len p = zlen data /\
     eventstream_decode p data = Ok msg) <->
  (exists hs pl, Forall valid_header hs /\ bytes_ok pl /\
     pre ++ data = packet hs pl /\ msg = message_of hs data pl).
Proof.
  intros Hpok Hdok H12 Hmax. split.
  - intros (p & Hp & Hdl & Hd).
    destruct (decode_accepted pre p data msg) as (hs & pl & Hv & Hpl & -> & -> & ->); try done.
    exists hs, pl. done.
  - intros (hs & pl & Hv & Hpl & Heq & ->).
    apply app_inj_1 in Heq as [-> ->].
    2:{ pose proof (zlen_packet_prelude hs pl) as Hz. unfold zlen in *. lia. }
    apply packet_decodes; [done|done|].
    rewrite packet_data_of in Hmax. unfold data_of in Hmax. zlen_lia.
Qed.

Definition example_headers : list EventStreamHeader :=
  [mkHeader (GG_STR ":message-type") (EVENTSTREAM_INT32 5);
   mkHeader (GG_STR ":version") (EVENTSTREAM_STRING (GG_STR "0.1.0"))].

Lemma eventstream_decode_exact_witness :
  exists p, eventstream_decode_prelude (packet_prelude example_headers (GG_STR "{}")) = Ok p /\
    data_len p = zlen (packet_data example_headers (GG_STR "{}")) /\
    eventstream_decode p (packet_data example_headers (GG_STR "{}")) =
      Ok (message_of example_headers (packet_data example_headers (GG_STR "{}")) (GG_STR "{}")).
Proof.
  apply (eventstream_decode_exact (packet_prelude example_headers (GG_STR "{}"))
    (packet_data example_headers (GG_STR "{}"))).
  - apply (bool_decide_unpack _). by vm_compute.
  - apply (bool_decide_unpack _). by vm_compute.
  - by vm_compute.
  - by vm_compute.
  - exists example_headers, (GG_STR "{}"). split; [|split; [|by split]];
      apply (bool_decide_unpack _); by vm_compute.
Defined.

(** The decoder is memory safe on arbitrary input: on any twelve-byte
    prelude and any data section of the announced length no assertion fails
    and nothing outside of the packet is read, the only error is
    [GG_ERR_PARSE], and the header iterator of an accepted message goes
    through exactly the counted headers, staying inside of the packet. *)
Theorem eventstream_decode_safe (pre data : bytes) :
  bytes_ok pre -> bytes_ok data -> zlen pre = 12 ->
  eventstream_decode_prelude pre = Fail GG_ERR_PARSE \/
  exists p, eventstream_decode_prelude pre = Ok p /\ 4 <= data_len p /\
    (data_len p = zlen data ->
      eventstream_decode p data = Fail GG_ERR_PARSE \/
      exists msg hs, eventstream_decode p data = Ok msg /\
        header_list (headers msg) = Ok hs /\ count (headers msg) = zlen hs).
Proof.
  intros Hpok Hdok H12.
  destruct (decode_prelude_cases pre Hpok H12) as [?|(ml & hl & Hml & Hhl & ? & ? & ->)]; [by left|].
  right. exists (prelude_val ml hl).
  assert (eventstream_decode_prelude (prelude_of ml hl) = Ok (prelude_val ml hl)) as Hp
    by by apply decode_prelude_of.
  split; [done|]. simpl. split; [lia|]. intros Hdl. unfold is_u32 in *.
  destruct (decode_prelude_Ok _ _ Hpok H12 Hp) as (_ & _ & _ & _ & _ & _ & _ & _ & Hc).
  destruct (eventstream_decode_cases (prelude_val ml hl) data)
    as [?|(hs & pl & Hv & Hpl & Hlen & Hdata)]; simpl in *; try (done || lia).
  { unfold UINT32_MAX. lia. }
  { by left. }
  right. exists (message_of hs data pl), hs. split; [|split; [|done]].
  - rewrite Hdata at 1. rewrite eventstream_decode_data; simpl; try done.
    + by rewrite <- Hdata.
    + unfold UINT32_MAX. lia.
  - simpl. rewrite Hdata, <- app_assoc. apply header_list_bytes; [done|].
    pose proof (zlen_headers_bytes hs). unfold UINT32_MAX. zlen_lia.
Qed.

Lemma eventstream_decode_safe_witness :
  eventstream_decode_prelude (repeat 0 12) = Fail GG_ERR_PARSE \/
  exists p, eventstream_decode_prelude (repeat 0 12) = Ok p /\ 4 <= data_len p /\
    (data_len p = zlen (repeat 0 8) ->
      eventstream_decode p (repeat 0 8) = Fail GG_ERR_PARSE \/
      exists msg hs, eventstream_decode p (repeat 0 8) = Ok msg /\
        header_list (headers msg) = Ok hs /\ count (headers msg) = zlen hs).
Proof.
  apply eventstream_decode_safe; [..|done]; apply (bool_decide_unpack _); by vm_compute.
Defined.

(** C26: a packet whose data section was corrupted in one byte is rejected. *)
Theorem eventstream_decode_rejects_corruption (pre l r : bytes) (b b' : Z)
    (p : EventStreamPrelude) (msg : EventStreamMessage) :
  bytes_ok pre -> zlen pre = 12 -> bytes_ok (l ++ b :: r) -> is_byte b' -> b <> b' ->
  eventstream_decode_prelude pre = Ok p -> data_len p = zlen (l ++ b :: r) ->
  eventstream_decode p (l ++ b :: r) = Ok msg ->
  eventstream_decode p (l ++ b' :: r) = Fail GG_ERR_PARSE.
Proof.
  intros Hpok H12 Hok Hb' Hne Hp Hdl Hd.
  destruct (decode_prelude_Ok _ _ Hpok H12 Hp) as (ml & hl & Hml & Hhl & ? & ? & -> & -> & Hc).
  unfold is_u32 in Hml, Hhl. simpl in Hdl.
  apply bytes_ok_app in Hok as [Hl [Hb Hr]%Forall_cons].
  assert (zlen (l ++ b' :: r) = zlen (l ++ b :: r)) as Hlen by zlen_lia.
  assert (bytes_ok (l ++ b :: r)) as Hok1 by (apply bytes_ok_app; split; [done|by constructor]).
  assert (bytes_ok (l ++ b' :: r)) as Hok2 by (apply bytes_ok_app; split; [done|by constructor]).
  destruct (eventstream_decode_cases (prelude_val ml hl) (l ++ b' :: r))
    as [|(hs' & pl' & _ & _ & _ & Hdata')]; simpl; try (done || lia).
  { unfold UINT32_MAX. lia. }
  destruct (eventstream_decode_cases (prelude_val ml hl) (l ++ b :: r))
    as [|(hs & pl & _ & _ & _ & Hdata)]; simpl; try (done || lia || congruence).
  { unfold UINT32_MAX. lia. }
  exfalso. set (x := headers_bytes hs ++ pl) in *. set (y := headers_bytes hs' ++ pl') in *.
  by apply (crc_trailer_change (crc (prelude_val ml hl)) l r b b' x y).
Qed.

Lemma eventstream_decode_rejects_corruption_witness :
  let d := packet_data example_headers (GG_STR "{}") in
  eventstream_decode (prelude_val 54 36) (ztake 20 d ++ 0x21 :: zdrop 21 d) = Fail GG_ERR_PARSE.
Proof.
  apply (eventstream_decode_rejects_corruption
    (packet_prelude example_headers (GG_STR "{}"))
    (ztake 20 (packet_data example_headers (GG_STR "{}")))
    (zdrop 21 (packet_data example_headers (GG_STR "{}")))
    (default 0 (rd (packet_data example_headers (GG_STR "{}")) 20)) 0x21 _
    (message_of example_headers (packet_data example_headers (GG_STR "{}")) (GG_STR "{}")));
    first [by vm_compute | apply (bool_decide_unpack _); by vm_compute].
Defined.
