(* ===== verification/EsEncode.v ===== *)
(** The EventStream encoder ([src/eventstream/encode.c]): writes a packet
    into a caller-supplied buffer through a buffer writer, and refines the
    wire format that the decoder accepts. *)

From S2P Require Import Prelude Memory Buffer Crc32 Io EsDecode.

(** ** Definitions *)

(** [write_be_u32]: the four bytes stored at [dest]. *)
Definition write_be_u32 (m : mem) (val dest : Z) : option mem :=
  store m dest
    [uwrap 8 (Z.shiftr val 24); uwrap 8 (Z.land (Z.shiftr val 16) 0xFF);
     uwrap 8 (Z.land (Z.shiftr val 8) 0xFF); uwrap 8 (Z.land val 0xFF)].

Definition header_encode {S} (out : GgWriter S) (s : S) (header : EventStreamHeader)
    : option (GgError * S) :=
  if UINT8_MAX <? zlen (name header) then Some (GG_ERR_RANGE, s) else
  s <~ gg_writer_call out s [uwrap 8 (zlen (name header))];;
  s <~ gg_writer_call out s (name header);;
  s <~ gg_writer_call out s [uwrap 8 (hv_type (value header))];;
  match value header with
  | EVENTSTREAM_INT32 int32 =>
      let val := uwrap 32 int32 in
      s <~ gg_writer_call out s
        [uwrap 8 (Z.shiftr val 24); uwrap 8 (Z.land (Z.shiftr val 16) 0xFF);
         uwrap 8 (Z.land (Z.shiftr val 8) 0xFF); uwrap 8 (Z.land val 0xFF)];;
      Some (GG_ERR_OK, s)
  | EVENTSTREAM_STRING str =>
      if UINT16_MAX <? zlen str then Some (GG_ERR_RANGE, s) else
      let str_len := uwrap 16 (zlen str) in
      s <~ gg_writer_call out s [uwrap 8 (Z.shiftr str_len 8); uwrap 8 (Z.land str_len 0xFF)];;
      s <~ gg_writer_call out s str;;
      Some (GG_ERR_OK, s)
  | EVENTSTREAM_OTHER _ => Some (GG_ERR_PARSE, s)
  end.

(** The loop over the headers. *)
Fixpoint headers_encode {S} (out : GgWriter S) (s : S) (headers : list EventStreamHeader)
    : option (GgError * S) :=
  match headers with
  | [] => Some (GG_ERR_OK, s)
  | h :: headers => s <~ header_encode out s h;; headers_encode out s headers
  end.

(** [eventstream_encode]: [headers] is [None] for a null pointer. On success
    the returned buffer is the input with the length of the packet. *)
Definition eventstream_encode {W} (m : mem) (buf : BufPtr)
    (headers : option (list EventStreamHeader)) (payload : GgReader W) (w : W)
    : option (GgError * W * mem * BufPtr) :=
  let buf := if UINT32_MAX <? len buf then mkBuf (data buf) UINT32_MAX else buf in
  let buf_copy := buf in
  if len buf_copy <? 12 then Some (GG_ERR_NOMEM, w, m, buf) else
  let prelude := data buf_copy in
  let buf_copy := gg_buffer_substr_ptr buf_copy 12 SIZE_MAX in
  let message_len_p := prelude in
  let headers_len_p := prelude + 4 in
  let prelude_crc_p := prelude + 8 in
  '(err, (m, buf_copy), headers_len) ←
    match headers with
    | None => Some (GG_ERR_OK, (m, buf_copy), 0)
    | Some headers =>
        let headers_start := data buf_copy in
        '(err, (m, buf_copy)) ← headers_encode gg_buf_writer (m, buf_copy) headers;
        Some (err, (m, buf_copy), uwrap 32 (data buf_copy - headers_start))
    end;
  if negb (bool_decide (err = GG_ERR_OK)) then Some (err, w, m, buf) else
  m ← write_be_u32 m headers_len headers_len_p;
  '(err, w, m, payload_buf) ← gg_reader_call payload w m buf_copy;
  if negb (bool_decide (err = GG_ERR_OK)) then Some (err, w, m, buf) else
  let buf_copy := gg_buffer_substr_ptr buf_copy (len payload_buf) SIZE_MAX in
  let message_len := uwrap 32 (12 + headers_len + uwrap 32 (len payload_buf) + 4) in
  m ← write_be_u32 m message_len message_len_p;
  prelude_data ← loadz m prelude 8;
  let prelude_crc := gg_update_crc 0 prelude_data in
  m ← write_be_u32 m prelude_crc prelude_crc_p;
  message_data ← loadz m (prelude + 8) (uwrap 32 (message_len - 8 - 4));
  let message_crc := gg_update_crc prelude_crc message_data in
  if len buf_copy <? 4 then Some (GG_ERR_NOMEM, w, m, buf) else
  m ← write_be_u32 m message_crc (data buf_copy);
  Some (GG_ERR_OK, w, m, mkBuf (data buf) message_len).

(** ** Headers *)

Lemma write_be_u32_store m v a : write_be_u32 m v a = store m a (be32 v).
Proof. done. Qed.

Section headers.
Context {S} (out : GgWriter S) `{!AppendWriter out}.

Lemma header_encode_prints h :
  valid_header h -> forall s0, prints out s0 (fun s => header_encode out s h) (header_bytes h).
Proof.
  intros (Hn & Hok & Hv) s0. pose proof (zlen_nonneg (name h)). unfold UINT8_MAX in Hn.
  assert (header_bytes h = [uwrap 8 (zlen (name h))] ++ name h ++ [uwrap 8 (hv_type (value h))] ++
    value_bytes (value h)) as ->.
  { unfold header_bytes. rewrite !uwrap_small; [done| |lia].
    destruct (hv_type_byte _ Hv) as [-> | ->]; lia. }
  eapply prints_ext.
  { intros s. unfold header_encode.
    assert (UINT8_MAX <? zlen (name h) = false) as ->
      by (apply Z.ltb_ge; unfold UINT8_MAX; lia). reflexivity. }
  apply (prints_seq out _ _ _ _ _ (prints_call out _ _)).
  apply (prints_seq out _ _ _ _ _ (prints_call out _ _)).
  apply (prints_seq out _ _ _ _ _ (prints_call out _ _)).
  destruct (value h) as [z|str|t]; [| |done].
  - rewrite <- (app_nil_r (value_bytes _)).
    apply (prints_seq out _ _ _ _ _ (prints_call out _ _) (prints_ret out _)).
  - destruct Hv as [Hs _]. pose proof (zlen_nonneg str).
    assert (UINT16_MAX <? zlen str = false) as -> by (apply Z.ltb_ge; lia).
    unfold UINT16_MAX in Hs. rewrite (uwrap_small 16) by lia.
    unfold value_bytes. rewrite <- (app_nil_r str) at 2.
    apply (prints_seq out _ _ _ _ _ (prints_call out _ _)).
    apply (prints_seq out _ _ _ _ _ (prints_call out _ _) (prints_ret out _)).
Qed.

Lemma headers_encode_prints hs :
  Forall valid_header hs -> forall s0, prints out s0 (fun s => headers_encode out s hs) (headers_bytes hs).
Proof.
  induction 1 as [|h hs Hh _ IH]; intros s0; [apply prints_ret|].
  rewrite headers_bytes_cons. cbn [headers_encode].
  apply prints_seq; [by apply header_encode_prints|done].
Qed.
End headers.

(** ** The packet *)

(** Loads are not affected by stores elsewhere. *)
Ltac mem_frame :=
  repeat match goal with
  | H : store ?m ?a ?bs = Some ?m' |- context [loadz ?m' ?b ?n] =>
      rewrite (loadz_store_disj m a bs m' b n H) by (unfold disj; zlen_lia)
  end.

(** Extend what changes by the last store. *)
Ltac widen_store :=
  match goal with
  | H : store ?m0 _ _ = Some ?m |- changes _ ?m0 ?m =>
      apply (changes_sub _ _ _ _ (store_changes _ _ _ _ H)); unfold zrange; intros ??; zlen_lia
  | H : store ?m0 _ _ = Some ?m |- changes _ _ ?m =>
      apply (changes_trans _ _ m0 m); [|widen_store]
  end.

(** The stores that complete the packet once headers and payload are in
    place: both lengths and the prelude CRC, then the message CRC. *)
Lemma encode_finish m D ml hl body m1 :
  mapped m D (16 + zlen body) -> loadz m (D + 12) (zlen body) = Some body ->
  store m D (be32 ml) = Some m1 -> loadz m (D + 4) 4 = Some (be32 hl) ->
  let pcrc := gg_update_crc 0 (be32 ml ++ be32 hl) in
  let mcrc := gg_update_crc pcrc (be32 pcrc ++ body) in
  exists m2 m3,
    loadz m1 D 8 = Some (be32 ml ++ be32 hl) /\
    store m1 (D + 8) (be32 pcrc) = Some m2 /\
    loadz m2 (D + 8) (4 + zlen body) = Some (be32 pcrc ++ body) /\
    store m2 (D + 12 + zlen body) (be32 mcrc) = Some m3 /\
    loadz m3 D (16 + zlen body) = Some (prelude_of ml hl ++ body ++ be32 mcrc) /\
    changes (zrange D (D + 16 + zlen body)) m m3.
Proof.
  intros Hmap Hbody Hm1 Hhl pcrc mcrc. pose proof (zlen_nonneg body) as Hb.
  destruct (store_Some m1 (D + 8) (be32 pcrc)) as [m2 Hm2].
  { eapply store_mapped; [done|]. intros x ?. apply Hmap. zlen_lia. }
  destruct (store_Some m2 (D + 12 + zlen body) (be32 mcrc)) as [m3 Hm3].
  { do 2 (eapply store_mapped; [done|]). intros x ?. apply Hmap. zlen_lia. }
  assert (loadz m1 D 4 = Some (be32 ml)) as H0 by by apply (loadz_store_same m D (be32 ml)).
  assert (loadz m1 (D + 4) 4 = Some (be32 hl)) as H4 by (mem_frame; done).
  assert (loadz m2 (D + 8) 4 = Some (be32 pcrc)) as H8
    by by apply (loadz_store_same m1 (D + 8) (be32 pcrc)).
  assert (loadz m2 (D + 12) (zlen body) = Some body) as H12 by (mem_frame; done).
  exists m2, m3. split; [|split; [done|split; [|split; [done|split]]]].
  - by apply (loadz_app m1 D 4 4).
  - apply (loadz_app m2 (D + 8) 4 (zlen body)); [lia..|done|].
    by replace (D + 8 + 4) with (D + 12) by lia.
  - unfold prelude_of. fold pcrc. rewrite <- !app_assoc.
    replace (16 + zlen body) with (4 + (4 + (4 + (zlen body + 4)))) by lia.
    apply loadz_app; [lia|lia|mem_frame; done|].
    apply loadz_app; [lia|lia|mem_frame; done|].
    apply loadz_app; [lia|lia| |].
    { replace (D + 4 + 4) with (D + 8) by lia. mem_frame. done. }
    replace (D + 4 + 4 + 4) with (D + 12) by lia.
    apply loadz_app; [lia|lia|mem_frame; done|].
    by apply (loadz_store_same m2 _ (be32 mcrc)).
  - unfold zrange. by repeat widen_store.
Qed.

Section encode.
Context {W : Type} (payload : GgReader W) (w w' : W) (pl : bytes) (e : GgError).
Context (D L : Z) (F : Z -> Prop) (P : mem -> Prop).
Hypothesis Hpayload : yields (mkBuf D L) F P payload w pl w' e.

(** What the encoder may write. *)
Definition encode_frame (x : Z) : Prop := F x \/ zrange D (D + L) x.

(** The headers part: written after the room left for the prelude. *)
Lemma encode_headers_run m hs :
  Forall valid_header hs -> mapped m D L -> 12 <= L <= UINT32_MAX ->
  let h := zlen (headers_bytes hs) in
  if h <=? L - 12 then
    exists m1, headers_encode gg_buf_writer (m, mkBuf (D + 12) (L - 12)) hs =
        Some (GG_ERR_OK, (m1, mkBuf (D + 12 + h) (L - 12 - h))) /\
      store m (D + 12) (headers_bytes hs) = Some m1
  else
    exists m1 b1, headers_encode gg_buf_writer (m, mkBuf (D + 12) (L - 12)) hs =
        Some (GG_ERR_NOMEM, (m1, b1)) /\ changes encode_frame m m1.
Proof.
  intros Hv Hmap HL h. unfold UINT32_MAX in HL.
  destruct (headers_encode_prints gg_buf_writer hs Hv (m, mkBuf (D + 12) (L - 12))
    (m, mkBuf (D + 12) (L - 12)) [] (L - 12)) as [Hfit Hfull].
  { apply (buf_rel_init m (mkBuf (D + 12) (L - 12))); unfold SIZE_MAX; cbn [len data]; [lia|].
    by apply (mapped_mono _ _ _ _ _ Hmap); lia. }
  case_if.
  - destruct (Hfit E) as ([m1 b1] & He & (_ & _ & Hst & _ & _ & ->)). cbn [data len fst snd] in *.
    exists m1. by rewrite He.
  - destruct (Hfull E) as ([m1 b1] & out & room & He & (_ & _ & Hst & Hroom & H0 & _) & _).
    cbn [data len fst snd app] in *. exists m1, b1. split; [done|].
    eapply changes_sub; [by apply store_changes|]. unfold encode_frame, zrange. intros x Hx. right. lia.
Qed.

(** The end of the encoder: the lengths and the CRCs, the [n] bytes of payload
    being in place after the [h] bytes of headers. *)
Definition encode_tail (w : W) (m : mem) (h n : Z) : option (GgError * W * mem * BufPtr) :=
  m ← store m D (be32 (16 + h + n));
  prelude_data ← loadz m D 8;
  let prelude_crc := gg_update_crc 0 prelude_data in
  m ← store m (D + 8) (be32 prelude_crc);
  message_data ← loadz m (D + 8) (4 + h + n);
  let message_crc := gg_update_crc prelude_crc message_data in
  if L - 12 - h - n <? 4 then Some (GG_ERR_NOMEM, w, m, mkBuf D L) else
  m ← store m (D + 12 + h + n) (be32 message_crc);
  Some (GG_ERR_OK, w, m, mkBuf D (16 + h + n)).

Lemma encode_payload m hs :
  let h := zlen (headers_bytes hs) in
  Forall valid_header hs -> P m -> mapped m D L -> 12 + h <= L <= UINT32_MAX - 4 ->
  exists m2, P m2 /\ mapped m2 D L /\ changes encode_frame m m2 /\
    loadz m2 (D + 4) 4 = Some (be32 h) /\ loadz m2 (D + 12) h = Some (headers_bytes hs) /\
    forall err w2 m3 b, gg_reader_call payload w m2 (mkBuf (D + 12 + h) (L - 12 - h)) = Some (err, w2, m3, b) ->
      (err = GG_ERR_OK -> 0 <= len b <= L - 12 - h) ->
      eventstream_encode m (mkBuf D L) (Some hs) payload w =
        if bool_decide (err = GG_ERR_OK) then encode_tail w2 m3 h (len b) else Some (err, w2, m3, mkBuf D L).
Proof.
  intros h Hv HP Hmap HL. unfold UINT32_MAX in HL. assert (0 <= h) by apply zlen_nonneg.
  pose proof (encode_headers_run m hs Hv Hmap ltac:(unfold UINT32_MAX; lia)) as Hh. cbv zeta in Hh.
  fold h in Hh. rewrite (proj2 (Z.leb_le _ _)) in Hh by lia. destruct Hh as (m1 & He & Hm1).
  destruct (store_Some m1 (D + 4) (be32 h)) as [m2 Hm2].
  { eapply store_mapped; [done|]. intros x ?. apply Hmap. zlen_lia. }
  assert (changes (zrange D (D + L)) m m2) as Hc by (unfold zrange; repeat widen_store).
  exists m2. split_and!.
  - by apply (yields_stable _ _ _ _ _ _ _ _ Hpayload m).
  - by eapply changes_mapped.
  - eapply changes_sub; [exact Hc|]. by right.
  - by apply (loadz_store_same m1 _ (be32 h)).
  - mem_frame. by apply (loadz_store_same m _ (headers_bytes hs)).
  - intros err w2 m3 b Hcall Hb. unfold eventstream_encode. cbv zeta. cbn [data len].
    rewrite (proj2 (Z.ltb_ge _ L)) by (unfold UINT32_MAX; lia). cbn [data len].
    rewrite (proj2 (Z.ltb_ge L _)) by lia. rewrite substr_ptr_rest by (unfold SIZE_MAX; cbn [len]; lia).
    cbn [data len]. rewrite He. cbn [mbind option_bind]. cbv beta iota zeta. cbn [data len].
    replace (D + 12 + h - (D + 12)) with h by lia. rewrite (uwrap_small 32 h) by lia.
    rewrite (bool_decide_true (GG_ERR_OK = GG_ERR_OK)) by done. cbn [negb].
    rewrite write_be_u32_store, Hm2. cbn [mbind option_bind]. rewrite Hcall. cbn [mbind option_bind].
    destruct (bool_decide_reflect (err = GG_ERR_OK)) as [Herr|Herr]; [|done]. specialize (Hb Herr). cbn [negb].
    rewrite substr_ptr_rest by (unfold SIZE_MAX; cbn [len]; lia). cbn [data len].
    rewrite (uwrap_small 32 (len b)) by lia. rewrite (uwrap_small 32 (12 + h + len b + 4)) by lia.
    rewrite (uwrap_small 32 (_ - 8 - 4)) by lia.
    replace (12 + h + len b + 4) with (16 + h + len b) by lia.
    replace (16 + h + len b - 8 - 4) with (4 + h + len b) by lia. done.
Qed.

Lemma eventstream_encode_fit m hs :
  Forall valid_header hs -> P m -> mapped m D L -> L <= UINT32_MAX - 4 ->
  16 + zlen (headers_bytes hs) + zlen pl <= L ->
  exists m', eventstream_encode m (mkBuf D L) (Some hs) payload w =
      Some (GG_ERR_OK, w', m', mkBuf D (16 + zlen (headers_bytes hs) + zlen pl)) /\
    loadz m' D (16 + zlen (headers_bytes hs) + zlen pl) = Some (packet hs pl) /\
    changes encode_frame m m'.
Proof.
  intros Hv HP Hmap HL Hfit. pose proof (zlen_nonneg pl). pose proof (zlen_nonneg (headers_bytes hs)).
  destruct (encode_payload m hs Hv HP Hmap) as (m2 & HP2 & Hmap2 & Hc2 & Hh4 & Hh12 & Henc); [lia|].
  set (h := zlen (headers_bytes hs)) in *. set (b := mkBuf (D + 12 + h) (L - 12 - h)) in *.
  pose proof (yields_apart _ _ _ _ _ _ _ _ Hpayload) as Hapart. cbn [data len] in Hapart.
  pose proof (yields_fill _ _ _ _ _ _ _ _ Hpayload m2 b HP2) as Hy. cbn [b data len] in Hy.
  rewrite (proj2 (Z.leb_le (zlen pl) _)) in Hy by lia.
  destruct Hy as (m3 & Hcall & Hc3 & Hl3); [unfold UINT32_MAX, SIZE_MAX in *; lia| |lia|lia|].
  { by apply (mapped_mono _ _ _ _ _ Hmap2); lia. }
  rewrite (Henc _ _ _ _ Hcall) by (intros _; cbn [len]; lia). rewrite bool_decide_true by done.
  cbn [len]. unfold encode_tail.
  assert (mapped m3 D L) as Hmap3 by by eapply changes_mapped.
  assert (forall a k, D <= a -> a + k <= D + 12 + h -> loadz m3 a k = loadz m2 a k) as Hkeep.
  { intros a k Ha Hk. apply (changes_loadz _ _ _ _ _ Hc3). unfold zrange. intros x Hx [?%Hapart|?]; unfold zrange in *; lia. }
  destruct (store_Some m3 D (be32 (16 + h + zlen pl))) as [m4 Hm4]; [intros x ?; apply Hmap3; zlen_lia|].
  set (body := headers_bytes hs ++ pl). assert (zlen body = h + zlen pl) as Hbody by (unfold body, h; zlen_lia).
  destruct (encode_finish m3 D (16 + h + zlen pl) h body m4)
    as (m5 & m6 & Hl8 & Hm5 & Hlb & Hm6 & Hall & Hc6).
  { by apply (mapped_mono _ _ _ _ _ Hmap3); lia. }
  { rewrite Hbody. apply loadz_app; [lia|lia| |done]. by rewrite Hkeep by lia. }
  { done. }
  { by rewrite Hkeep by lia. }
  rewrite Hm4. cbn [mbind option_bind]. rewrite Hl8. cbn [mbind option_bind]. rewrite Hm5. cbn [mbind option_bind].
  replace (4 + h + zlen pl) with (4 + zlen body) by lia. rewrite Hlb. cbn [mbind option_bind].
  rewrite (proj2 (Z.ltb_ge _ _)) by lia. replace (D + 12 + h + zlen pl) with (D + 12 + zlen body) by lia.
  rewrite Hm6. cbn [mbind option_bind]. exists m6. split; [done|]. split.
  - replace (16 + h + zlen pl) with (16 + zlen body) at 1 by lia. rewrite Hall.
    unfold packet. rewrite packet_prelude_of. unfold packet_data, message_crc, prelude_crc, prelude_bytes.
    replace (12 + h + zlen pl + 4) with (16 + h + zlen pl) by lia. fold h. unfold body. by rewrite <- !app_assoc.
  - apply (changes_trans _ _ m2); [done|]. apply (changes_trans _ _ m3); [|].
    + eapply changes_sub; [exact Hc3|]. unfold encode_frame, zrange. intros x [?|?]; [by left|right; lia].
    + eapply changes_sub; [exact Hc6|]. unfold encode_frame, zrange. intros x ?. right. lia.
Qed.

(** Whatever does not fit, headers, payload or the packet's last four bytes. *)
Lemma eventstream_encode_small m hs :
  Forall valid_header hs -> P m -> mapped m D L ->
  0 <= L <= UINT32_MAX - 4 -> L < 16 + zlen (headers_bytes hs) + zlen pl ->
  exists err w'' m' b', eventstream_encode m (mkBuf D L) (Some hs) payload w = Some (err, w'', m', b') /\
    (err = GG_ERR_NOMEM \/ err = e) /\ changes encode_frame m m'.
Proof.
  intros Hv HP Hmap HL Hsmall. pose proof (zlen_nonneg pl). pose proof (zlen_nonneg (headers_bytes hs)).
  destruct (Z.leb_spec (12 + zlen (headers_bytes hs)) L) as [Hh|Hh].
  - destruct (encode_payload m hs Hv HP Hmap) as (m2 & HP2 & Hmap2 & Hc2 & Hh4 & Hh12 & Henc); [lia|].
    set (h := zlen (headers_bytes hs)) in *. set (b := mkBuf (D + 12 + h) (L - 12 - h)) in *.
    pose proof (yields_fill _ _ _ _ _ _ _ _ Hpayload m2 b HP2) as Hy. cbn [b data len] in Hy.
    assert (forall m3 n, changes (fun x => F x \/ zrange (D + 12 + h) (D + 12 + h + n) x) m2 m3 ->
      n <= L - 12 - h -> changes encode_frame m m3) as Hc.
    { intros m3 n Hc3 Hn. apply (changes_trans _ _ m2); [done|]. eapply changes_sub; [exact Hc3|].
      unfold encode_frame, zrange. intros x [?|?]; [by left|right; lia]. }
    assert (mapped m2 (D + 12 + h) (L - 12 - h)) as Hb by (apply (mapped_mono _ _ _ _ _ Hmap2); lia).
    specialize (Hy ltac:(unfold UINT32_MAX, SIZE_MAX in *; lia) Hb ltac:(lia) ltac:(lia)).
    destruct (Z.leb_spec (zlen pl) (L - 12 - h)) as [Hp|Hp].
    + destruct Hy as (m3 & Hcall & Hc3 & Hl3). rewrite (Henc _ _ _ _ Hcall) by (intros _; cbn [len]; lia).
      rewrite bool_decide_true by done. cbn [len]. unfold encode_tail.
      assert (mapped m3 D L) as Hmap3 by by eapply changes_mapped.
      destruct (store_Some m3 D (be32 (16 + h + zlen pl))) as [m4 Hm4]; [intros x ?; apply Hmap3; zlen_lia|].
      rewrite Hm4. cbn [mbind option_bind].
      assert (mapped m4 D L) as Hmap4 by by eapply store_mapped.
      destruct (loadz_mapped m4 D 8) as [d8 ->]; [by apply (mapped_mono _ _ _ _ _ Hmap4); lia|].
      cbn [mbind option_bind].
      destruct (store_Some m4 (D + 8) (be32 (gg_update_crc 0 d8))) as [m5 Hm5]; [intros x ?; apply Hmap4; zlen_lia|].
      rewrite Hm5. cbn [mbind option_bind].
      assert (mapped m5 D L) as Hmap5 by by eapply store_mapped.
      destruct (loadz_mapped m5 (D + 8) (4 + h + zlen pl)) as [dm ->]; [by apply (mapped_mono _ _ _ _ _ Hmap5); lia|].
      cbn [mbind option_bind]. rewrite (proj2 (Z.ltb_lt _ _)) by lia.
      exists GG_ERR_NOMEM, w', m5, (mkBuf D L). split_and!; [done|by left|].
      apply (changes_trans _ _ m3); [by apply (Hc _ (zlen pl))|]. unfold encode_frame.
      apply (changes_sub (zrange D (D + L))); [|by right]. unfold zrange. repeat widen_store.
    + destruct Hy as (w2 & m3 & b3 & Hcall & Hc3). pose proof (yields_error _ _ _ _ _ _ _ _ Hpayload) as He.
      rewrite (Henc _ _ _ _ Hcall) by done. rewrite bool_decide_false by done.
      exists e, w2, m3, (mkBuf D L). split_and!; [done|by right|]. by apply (Hc _ (L - 12 - h)).
  - unfold eventstream_encode. cbv zeta. cbn [data len].
    rewrite (proj2 (Z.ltb_ge _ L)) by (unfold UINT32_MAX in *; lia). cbn [data len].
    case_if; [eexists _, _, _, _; split_and!; [done|by left|apply changes_refl]|].
    rewrite substr_ptr_rest by (unfold UINT32_MAX, SIZE_MAX in *; cbn [len]; lia). cbn [data len].
    pose proof (encode_headers_run m hs Hv Hmap ltac:(unfold UINT32_MAX in *; lia)) as Hr. cbv zeta in Hr.
    rewrite (proj2 (Z.leb_gt _ _)) in Hr by lia. destruct Hr as (m1 & b1 & -> & Hc).
    cbn [mbind option_bind]. cbv beta iota zeta. rewrite bool_decide_false by done.
    eexists _, _, _, _. split_and!; [done|by left|done].
Qed.
End encode.

(** * Properties *)

(** C24: encoding then decoding is the identity. When the packet fits, the
    encoder succeeds, writes only inside of its buffer (and where the reader of
    the payload does), and the bytes it leaves there are accepted by the
    decoder, which gives back the very headers and payload. *)
Theorem eventstream_roundtrip {W} (r : GgReader W) (w w' : W) (pl : bytes) (e : GgError)
    (m : mem) (buf : BufPtr) (hs : list EventStreamHeader) (F : Z -> Prop) (P : mem -> Prop) :
  yields buf F P r w pl w' e -> P m -> Forall valid_header hs -> bytes_ok pl ->
  mapped m (data buf) (len buf) -> len buf <= UINT32_MAX - 4 ->
  16 + zlen (headers_bytes hs) + zlen pl <= len buf ->
  exists m' pre dat p msg,
    eventstream_encode m buf (Some hs) r w =
      Some (GG_ERR_OK, w', m', mkBuf (data buf) (12 + zlen dat)) /\
    loadz m' (data buf) (12 + zlen dat) = Some (pre ++ dat) /\
    changes (fun x => F x \/ zrange (data buf) (data buf + len buf) x) m m' /\
    zlen pre = 12 /\ eventstream_decode_prelude pre = Ok p /\ data_len p = zlen dat /\
    eventstream_decode p dat = Ok msg /\
    header_list (headers msg) = Ok hs /\ payload msg = pl.
Proof.
  intros Hr HP Hv Hpl Hmap HL Hfit. destruct buf as [D L]. cbn [data len] in *.
  destruct (eventstream_encode_fit r w w' pl e D L F P Hr m hs Hv HP Hmap HL Hfit) as (m' & He & Hl & Hout).
  destruct (packet_decodes hs pl Hv Hpl) as (p & Hp & Hdl & Hd); [unfold UINT32_MAX in *; lia|].
  assert (zlen (packet_data hs pl) = 4 + zlen (headers_bytes hs) + zlen pl) as Hz.
  { rewrite packet_data_of. unfold data_of. zlen_lia. }
  exists m', (packet_prelude hs pl), (packet_data hs pl), p, (message_of hs (packet_data hs pl) pl).
  rewrite Hz. replace (12 + (4 + zlen (headers_bytes hs) + zlen pl))
    with (16 + zlen (headers_bytes hs) + zlen pl) by lia.
  split_and!; try done; [congruence|].
  simpl. unfold packet_data. apply header_list_bytes; [done|].
  pose proof (zlen_headers_bytes hs). unfold UINT32_MAX in *. zlen_lia.
Qed.

Lemma eventstream_roundtrip_witness :
  exists m' pre dat p msg,
    eventstream_encode (zeroed 1000 100) (mkBuf 1000 100) (Some example_headers)
        (bytes_reader (GG_STR "{}")) tt =
      Some (GG_ERR_OK, tt, m', mkBuf 1000 (12 + zlen dat)) /\
    loadz m' 1000 (12 + zlen dat) = Some (pre ++ dat) /\
    changes (fun x => False \/ zrange 1000 (1000 + 100) x) (zeroed 1000 100) m' /\
    zlen pre = 12 /\ eventstream_decode_prelude pre = Ok p /\ data_len p = zlen dat /\
    eventstream_decode p dat = Ok msg /\
    header_list (headers msg) = Ok example_headers /\ payload msg = GG_STR "{}".
Proof.
  apply (eventstream_roundtrip (bytes_reader (GG_STR "{}")) tt tt (GG_STR "{}") GG_ERR_NOMEM
    (zeroed 1000 100) (mkBuf 1000 100) example_headers (fun _ => False) (fun _ => True)).
  - apply bytes_reader_yields.
  - done.
  - apply (bool_decide_unpack _). by vm_compute.
  - apply (bool_decide_unpack _). by vm_compute.
  - apply zeroed_mapped.
  - by vm_compute.
  - by vm_compute.
Defined.

(** A buffer that is too small for the packet is always reported, as
    [GG_ERR_NOMEM] or as the error of the payload reader, and nothing outside of
    the buffer is written. *)
Theorem eventstream_encode_too_small {W} (r : GgReader W) (w w' : W) (pl : bytes) (e : GgError)
    (m : mem) (buf : BufPtr) (hs : list EventStreamHeader) (F : Z -> Prop) (P : mem -> Prop) :
  yields buf F P r w pl w' e -> P m -> Forall valid_header hs -> mapped m (data buf) (len buf) ->
  0 <= len buf <= UINT32_MAX - 4 -> len buf < 16 + zlen (headers_bytes hs) + zlen pl ->
  exists err w'' m' b', eventstream_encode m buf (Some hs) r w = Some (err, w'', m', b') /\
    (err = GG_ERR_NOMEM \/ err = e) /\ err <> GG_ERR_OK /\
    changes (fun x => F x \/ zrange (data buf) (data buf + len buf) x) m m'.
Proof.
  intros Hr HP Hv Hmap HL Hsmall. destruct buf as [D L]. cbn [data len] in *.
  destruct (eventstream_encode_small r w w' pl e D L F P Hr m hs Hv HP Hmap HL Hsmall)
    as (err & w'' & m' & b' & -> & Herr & Hc). pose proof (yields_error _ _ _ _ _ _ _ _ Hr) as He.
  exists err, w'', m', b'. split_and!; [done|done|by destruct Herr as [-> | ->]|done].
Qed.

Lemma eventstream_encode_too_small_witness :
  exists err w'' m' b', eventstream_encode (zeroed 1000 53) (mkBuf 1000 53) (Some example_headers)
      (bytes_reader (GG_STR "{}")) tt = Some (err, w'', m', b') /\
    (err = GG_ERR_NOMEM \/ err = GG_ERR_NOMEM) /\ err <> GG_ERR_OK /\
    changes (fun x => False \/ zrange 1000 (1000 + 53) x) (zeroed 1000 53) m'.
Proof.
  apply (eventstream_encode_too_small (bytes_reader (GG_STR "{}")) tt tt (GG_STR "{}") _ _ (mkBuf 1000 53) _
    (fun _ => False) (fun _ => True)).
  - apply bytes_reader_yields.
  - done.
  - apply (bool_decide_unpack _). by vm_compute.
  - apply zeroed_mapped.
  - split; by vm_compute.
  - by vm_compute.
Defined.
