(* ===== verification/EsRpc.v ===== *)
(** EventStream RPC messages ([src/eventstream/rpc.c],
    [priv_include/gg/eventstream/rpc.h]): taking a packet off a stream, and
    the headers every message carries. *)

From S2P Require Import Prelude Memory Buffer Crc32 Io EsDecode.

(** ** Data *)

(** [EventStreamMessageType], [EventStreamMessageFlags]: header values. *)
Definition EVENTSTREAM_APPLICATION_MESSAGE : Z := 0.
Definition EVENTSTREAM_APPLICATION_ERROR : Z := 1.
Definition EVENTSTREAM_CONNECT : Z := 4.
Definition EVENTSTREAM_CONNECT_ACK : Z := 5.
Definition EVENTSTREAM_CONNECTION_ACCEPTED : Z := 1.
Definition EVENTSTREAM_TERMINATE_STREAM : Z := 2.
Definition EVENTSTREAM_FLAGS_MASK : Z := 3.

Record EventStreamCommonHeaders := mkCommon {
  stream_id : Z; message_type : Z; message_flags : Z }.

(** ** Operations *)

(** Returns the message, or the error; the reader's context; the memory. *)
Definition eventsteam_get_packet {W} (input : GgReader W) (w : W) (m : mem) (buffer : BufPtr)
    : option (outcome EventStreamMessage * W * mem) :=
  let prelude_buf := gg_buffer_substr_ptr buffer 0 12 in
  _ ← gg_asserts (len prelude_buf =? 12);
  '(ret, w, m) ← gg_reader_call_exact input w m prelude_buf;
  if negb (bool_decide (ret = GG_ERR_OK)) then Some (Fail ret, w, m) else
  prelude_bytes ← buf_bytes m prelude_buf;
  match eventstream_decode_prelude prelude_bytes with
  | Stuck => None
  | Fail ret => Some (Fail ret, w, m)
  | Ok prelude =>
      if len buffer <? data_len prelude then Some (Fail GG_ERR_NOMEM, w, m) else
      let data_section := gg_buffer_substr_ptr buffer 0 (data_len prelude) in
      '(ret, w, m) ← gg_reader_call_exact input w m data_section;
      if negb (bool_decide (ret = GG_ERR_OK)) then Some (Fail ret, w, m) else
      data_bytes ← buf_bytes m data_section;
      match eventstream_decode prelude data_bytes with
      | Stuck => None
      | Fail ret => Some (Fail ret, w, m)
      | Ok msg => Some (Ok msg, w, m)
      end
  end.

(** The value of an int32 header, [GG_ERR_INVALID] for another type. *)
Definition int32_value (header : EventStreamHeader) : outcome Z :=
  match value header with
  | EVENTSTREAM_INT32 int32 => Ok int32
  | _ => Fail GG_ERR_INVALID
  end.

Fixpoint common_headers_loop (fuel : nat) (iter : EventStreamHeaderIter)
    (out : EventStreamCommonHeaders) : outcome EventStreamCommonHeaders :=
  match eventstream_header_next iter with
  | Stuck => Stuck
  | Fail _ => Ok out
  | Ok (iter, header) =>
      match fuel with
      | O => Stuck
      | S fuel =>
          if gg_buffer_eq (name header) (GG_STR ":message-type") then
            v ← int32_value header;
            common_headers_loop fuel iter (mkCommon (stream_id out) v (message_flags out))
          else if gg_buffer_eq (name header) (GG_STR ":message-flags") then
            v ← int32_value header;
            common_headers_loop fuel iter (mkCommon (stream_id out) (message_type out) v)
          else if gg_buffer_eq (name header) (GG_STR ":stream-id") then
            v ← int32_value header;
            common_headers_loop fuel iter (mkCommon v (message_type out) (message_flags out))
          else common_headers_loop fuel iter out
      end
  end.

Definition eventstream_get_common_headers (msg : EventStreamMessage)
    : outcome EventStreamCommonHeaders :=
  common_headers_loop (Z.to_nat (count (headers msg))) (headers msg) (mkCommon 0 0 0).

(** ** Specification of the common headers *)

Definition common_names : list bytes :=
  [GG_STR ":message-type"; GG_STR ":message-flags"; GG_STR ":stream-id"].

(** A header with one of the common names that is not an int32. *)
Definition mistyped (h : EventStreamHeader) : bool :=
  bool_decide (name h ∈ common_names) && negb (hv_type (value h) =? 4).

(** The last int32 value under the name [n]. *)
Definition last_int32 (n : bytes) (dflt : Z) (hs : list EventStreamHeader) : Z :=
  foldl (fun acc h =>
    match value h with
    | EVENTSTREAM_INT32 z => if bool_decide (name h = n) then z else acc
    | _ => acc
    end) dflt hs.

Definition common_spec (hs : list EventStreamHeader) (out : EventStreamCommonHeaders)
    : outcome EventStreamCommonHeaders :=
  if existsb mistyped hs then Fail GG_ERR_INVALID
  else Ok (mkCommon (last_int32 (GG_STR ":stream-id") (stream_id out) hs)
             (last_int32 (GG_STR ":message-type") (message_type out) hs)
             (last_int32 (GG_STR ":message-flags") (message_flags out) hs)).

(** The iterator yields headers whose type tag is one of the two known. *)
Lemma header_next_type it it' h :
  eventstream_header_next it = Ok (it', h) -> forall t, value h <> EVENTSTREAM_OTHER t.
Proof.
  unfold eventstream_header_next. intros H t. case_if_in H; [done|].
  do 3 (let E := fresh in obind_in H E).
  obind_in H Hv. destruct a2 as [v p]. cbn [mbind outcome_bind] in H. simplify_eq/=.
  case_if_in Hv; [|case_if_in Hv; [|done]].
  - do 2 (let E := fresh in obind_in Hv E). by simplify_eq/=.
  - do 3 (let E := fresh in obind_in Hv E). by simplify_eq/=.
Qed.

Lemma gg_buffer_eq_decide a b : gg_buffer_eq a b = bool_decide (a = b).
Proof.
  case_bool_decide as H; [by apply gg_buffer_eq_spec|]. by apply gg_buffer_eq_false.
Qed.

Lemma common_headers_loop_spec fuel it hs out :
  header_list_loop fuel it = Ok hs -> common_headers_loop fuel it out = common_spec hs out.
Proof.
  revert it hs out. induction fuel as [|fuel IH]; intros it hs out H; simpl in *.
  - destruct (eventstream_header_next it) as [[it' h]| |]; simplify_eq. by destruct out.
  - destruct (eventstream_header_next it) as [[it' h]| |] eqn:Hn; simplify_eq; [|by destruct out].
    bind_in H. pose proof (header_next_type _ _ _ Hn) as Ht. specialize (IH it').
    rewrite !gg_buffer_eq_decide. unfold common_spec, mistyped, last_int32. simpl.
    destruct h as [n v]. simpl in *. unfold int32_value. simpl.
    destruct (decide (n = GG_STR ":message-type")) as [->|H1]; [|
    destruct (decide (n = GG_STR ":message-flags")) as [->|H2]; [|
    destruct (decide (n = GG_STR ":stream-id")) as [->|H3]]];
      destruct v as [z|s|t]; simpl; try (by specialize (Ht t)); try done;
      try (rewrite (IH _ _ E); done).
    all: rewrite (bool_decide_false (n = GG_STR ":message-type")) by done;
      rewrite (bool_decide_false (n = GG_STR ":message-flags")) by done;
      rewrite (bool_decide_false (n = GG_STR ":stream-id")) by done;
      rewrite (bool_decide_false (n ∈ common_names)) by (unfold common_names; set_solver);
      by rewrite (IH _ _ E).
Qed.

(** ** Packets *)

(** The outcome of decoding a data section of the announced length. *)
Lemma eventstream_decode_outcome ml hl dat :
  is_u32 ml -> is_u32 hl -> 16 <= ml -> hl <= ml - 16 -> bytes_ok dat -> zlen dat = ml - 12 ->
  eventstream_decode (prelude_val ml hl) dat = Fail GG_ERR_PARSE \/
  exists hs pl, Forall valid_header hs /\ bytes_ok pl /\
    prelude_of ml hl = packet_prelude hs pl /\ dat = packet_data hs pl /\
    eventstream_decode (prelude_val ml hl) dat = Ok (message_of hs dat pl).
Proof.
  intros Hml Hhl H16 Hle Hok Hl. unfold is_u32 in *.
  destruct (eventstream_decode_cases (prelude_val ml hl) dat)
    as [?|(hs & pl & Hv & Hpl & Hlen & Hdata)];
    simpl; try (done || lia || apply prelude_val_crc_u32 || by left).
  { unfold UINT32_MAX. lia. }
  right. exists hs, pl. simpl in Hlen. pose proof (zlen_headers_bytes hs).
  assert (zlen dat = zlen (headers_bytes hs) + zlen pl + 4) as Hzd by (rewrite Hdata; zlen_lia).
  assert (ml = 16 + zlen (headers_bytes hs) + zlen pl) as Hmle by lia.
  split_and!; try done.
  - rewrite packet_prelude_of. by rewrite <- Hmle, <- Hlen.
  - rewrite packet_data_of, <- Hmle, <- Hlen. exact Hdata.
  - rewrite Hdata at 1. rewrite eventstream_decode_data;
      [by rewrite <- Hdata|done|done|apply prelude_val_crc_u32|done|unfold UINT32_MAX; lia].
Qed.

Section get_packet.
Context {W} (r : GgReader W) `{!StreamReader r}.
Context (m : mem) (buf : BufPtr).
Hypothesis buf_mapped : mapped m (data buf) (len buf).
Hypothesis buf_len : 12 <= len buf.

(** The memory after the call differs from [m] inside of the buffer only. *)
Definition framed (m' : mem) : Prop := changes (zrange (data buf) (data buf + len buf)) m m'.

Lemma framed_store m1 bs m2 :
  framed m1 -> store m1 (data buf) bs = Some m2 -> zlen bs <= len buf -> framed m2.
Proof.
  intros Hf Hs Hl. eapply changes_trans; [exact Hf|]. eapply changes_sub; [by eapply store_changes|].
  unfold zrange. lia.
Qed.

Lemma store_keeps_mapped m1 bs m2 n :
  store m1 (data buf) bs = Some m2 -> mapped m1 (data buf) n -> mapped m2 (data buf) n.
Proof. intros Hs. by apply (store_mapped _ _ _ _ _ _ Hs). Qed.

(** What [eventsteam_get_packet] does once it holds the prelude. *)
Lemma get_packet_prelude w pre bs :
  sr_rel w (pre ++ bs) -> zlen pre = 12 ->
  exists w1 m1, sr_rel w1 bs /\ framed m1 /\ mapped m1 (data buf) (len buf) /\
    eventsteam_get_packet r w m buf =
    match eventstream_decode_prelude pre with
    | Stuck => None
    | Fail ret => Some (Fail ret, w1, m1)
    | Ok prelude =>
        if len buf <? data_len prelude then Some (Fail GG_ERR_NOMEM, w1, m1) else
        let data_section := gg_buffer_substr_ptr buf 0 (data_len prelude) in
        '(ret, w, m) ← gg_reader_call_exact r w1 m1 data_section;
        if negb (bool_decide (ret = GG_ERR_OK)) then Some (Fail ret, w, m) else
        data_bytes ← buf_bytes m data_section;
        match eventstream_decode prelude data_bytes with
        | Stuck => None
        | Fail ret => Some (Fail ret, w, m)
        | Ok msg => Some (Ok msg, w, m)
        end
    end.
Proof.
  intros Hw Hpre.
  destruct (reader_call_exact_fit r w pre bs m (mkBuf (data buf) 12) Hw) as (w1 & m1 & Hc & Hs & Hw1).
  { simpl. lia. }
  { done. }
  { intros x Hx. apply buf_mapped. simpl in Hx. lia. }
  simpl in Hs. exists w1, m1. split; [done|].
  split; [apply (framed_store m pre); [apply changes_refl|done|lia]|].
  split; [by eapply store_keeps_mapped|].
  unfold eventsteam_get_packet. rewrite substr_ptr_prefix by lia.
  change (len (mkBuf (data buf) 12) =? 12) with true. cbn [gg_asserts mbind option_bind].
  rewrite Hc. cbn [mbind option_bind]. rewrite bool_decide_true by done. cbn [negb].
  assert (buf_bytes m1 (mkBuf (data buf) 12) = Some pre) as ->; [|done].
  unfold buf_bytes. simpl. rewrite <- Hpre. by apply loadz_store_same in Hs.
Qed.

Lemma get_packet_data w1 m1 p dat bs :
  sr_rel w1 (dat ++ bs) -> framed m1 -> mapped m1 (data buf) (len buf) ->
  data_len p = zlen dat -> zlen dat <= len buf -> data_len p <= SIZE_MAX ->
  exists w2 m2, sr_rel w2 bs /\ framed m2 /\ loadz m2 (data buf) (zlen dat) = Some dat /\
    gg_reader_call_exact r w1 m1 (gg_buffer_substr_ptr buf 0 (data_len p)) =
      Some (GG_ERR_OK, w2, m2) /\
    buf_bytes m2 (gg_buffer_substr_ptr buf 0 (data_len p)) = Some dat.
Proof.
  intros Hw Hf Hm Hp Hl Hmax. rewrite substr_ptr_prefix by zlen_lia.
  destruct (reader_call_exact_fit r w1 dat bs m1 (mkBuf (data buf) (data_len p)) Hw)
    as (w2 & m2 & Hc & Hs & Hw2).
  { done. }
  { done. }
  { intros x Hx. apply Hm. simpl in Hx. lia. }
  simpl in Hs. exists w2, m2. split; [done|]. split; [by eapply framed_store|].
  apply loadz_store_same in Hs. split; [done|]. split; [done|].
  unfold buf_bytes. simpl. by rewrite Hp.
Qed.
End get_packet.

(** A packet at the front of the stream. *)
Lemma get_packet_run {W} (r : GgReader W) `{!StreamReader r} (w : W) (m : mem)
    (buf : BufPtr) (hs : list EventStreamHeader) (pl rest : bytes) :
  sr_rel w (packet hs pl ++ rest) -> Forall valid_header hs -> bytes_ok pl ->
  16 + zlen (headers_bytes hs) + zlen pl <= UINT32_MAX ->
  mapped m (data buf) (len buf) -> 12 <= len buf ->
  exists res w' m', eventsteam_get_packet r w m buf = Some (res, w', m') /\
    framed m buf m' /\
    if bool_decide (zlen (packet_data hs pl) <= len buf)
    then res = Ok (message_of hs (packet_data hs pl) pl) /\ sr_rel w' rest /\
         loadz m' (data buf) (zlen (packet_data hs pl)) = Some (packet_data hs pl)
    else res = Fail GG_ERR_NOMEM /\ sr_rel w' (packet_data hs pl ++ rest).
Proof.
  intros Hw Hv Hpl Hmax Hm H12. unfold packet in Hw. rewrite <- app_assoc in Hw.
  destruct (packet_decodes hs pl Hv Hpl Hmax) as (p & Hp & Hdl & Hd).
  destruct (get_packet_prelude r m buf Hm H12 w _ _ Hw eq_refl) as (w1 & m1 & Hw1 & Hf1 & Hm1 & ->).
  assert (data_len p <= SIZE_MAX) as Hsize.
  { rewrite Hdl. unfold packet_data, SIZE_MAX, UINT32_MAX in *. rewrite !zlen_app.
    change (zlen (be32 (message_crc hs pl))) with 4. lia. }
  rewrite Hp, Hdl. case_if.
  { exists (Fail GG_ERR_NOMEM), w1, m1. rewrite bool_decide_false by lia. done. }
  destruct (get_packet_data r m buf w1 m1 p _ _ Hw1 Hf1 Hm1 Hdl ltac:(lia) Hsize)
    as (w2 & m2 & Hw2 & Hf2 & Hl & Hc & Hb).
  rewrite Hdl in Hc, Hb. cbv zeta. rewrite Hc. cbn [mbind option_bind].
  rewrite bool_decide_true by done. cbn [negb].
  rewrite Hb. cbn [mbind option_bind]. rewrite Hd. exists (Ok (message_of hs (packet_data hs pl) pl)), w2, m2.
  by rewrite bool_decide_true by lia.
Qed.

(** Any stream. *)
Lemma get_packet_cases {W} (r : GgReader W) `{!StreamReader r} (w : W) (m : mem)
    (buf : BufPtr) (bs : bytes) :
  sr_rel w bs -> bytes_ok bs -> mapped m (data buf) (len buf) -> 12 <= len buf <= UINT32_MAX - 12 ->
  exists res w' m', eventsteam_get_packet r w m buf = Some (res, w', m') /\
    framed m buf m' /\
    (res = Fail GG_ERR_FAILURE \/ res = Fail GG_ERR_PARSE \/ res = Fail GG_ERR_NOMEM \/
     exists hs pl rest, Forall valid_header hs /\ bytes_ok pl /\ bs = packet hs pl ++ rest /\
       res = Ok (message_of hs (packet_data hs pl) pl) /\ sr_rel w' rest /\
       zlen (packet_data hs pl) <= len buf /\
       loadz m' (data buf) (zlen (packet_data hs pl)) = Some (packet_data hs pl)).
Proof.
  intros Hw Hok Hm [H12 HL]. destruct (Z_lt_dec (zlen bs) 12) as [Hlt|Hge].
  { (* not even a prelude *)
    destruct (reader_call_exact_short r w bs m (mkBuf (data buf) 12) Hw) as (w' & m' & Hc & Hs & _).
    { simpl. lia. }
    { done. }
    { intros x Hx. apply Hm. simpl in Hx. lia. }
    exists (Fail GG_ERR_FAILURE), w', m'. split.
    - unfold eventsteam_get_packet. rewrite substr_ptr_prefix by lia. cbv zeta.
      change (len (mkBuf (data buf) 12) =? 12) with true. cbn [gg_asserts mbind option_bind].
      rewrite Hc. done.
    - split; [|by left]. apply (framed_store m buf m bs); [apply changes_refl|done|lia]. }
  rewrite <- (ztake_zdrop 12 bs) in Hw. assert (zlen (ztake 12 bs) = 12) as Hpre by zlen_lia.
  destruct (get_packet_prelude r m buf Hm H12 w _ _ Hw Hpre) as (w1 & m1 & Hw1 & Hf1 & Hm1 & ->).
  destruct (decode_prelude_cases (ztake 12 bs)) as [->|(ml & hl & Hml & Hhl & Hml16 & Hle & Hpe)];
    [auto with gg|done|by eauto 10|].
  unfold is_u32 in Hml, Hhl.
  rewrite Hpe, decode_prelude_of by done. cbv zeta. fold (prelude_val ml hl).
  change (data_len (prelude_val ml hl)) with (ml - 12). case_if; [by eauto 10|].
  rewrite substr_ptr_prefix by lia. set (db := mkBuf (data buf) (ml - 12)).
  assert (len db <= SIZE_MAX) as Hsize by (unfold SIZE_MAX, UINT32_MAX in *; simpl; lia).
  assert (mapped m1 (data db) (len db)) as Hmd by (intros x Hx; apply Hm1; simpl in Hx; lia).
  destruct (Z_lt_dec (zlen (zdrop 12 bs)) (ml - 12)) as [Hs|Hs].
  { destruct (reader_call_exact_short r w1 _ m1 db Hw1 Hs Hsize Hmd) as (w2 & m2 & -> & Hst & _).
    exists (Fail GG_ERR_FAILURE), w2, m2. split; [done|]. split; [|by left].
    eapply framed_store; [done..|lia]. }
  assert (zdrop 12 bs = ztake (ml - 12) (zdrop 12 bs) ++ zdrop ml bs) as Hsp.
  { rewrite <- (ztake_zdrop (ml - 12) (zdrop 12 bs)) at 1. f_equal.
    rewrite zdrop_zdrop by lia. f_equal. lia. }
  rewrite Hsp in Hw1. set (dat := ztake (ml - 12) (zdrop 12 bs)) in *.
  assert (zlen dat = ml - 12) as Hdl by (unfold dat; rewrite zlen_take; pose proof (zlen_nonneg (zdrop 12 bs)); lia).
  destruct (reader_call_exact_fit r w1 dat _ m1 db Hw1 (eq_sym Hdl) Hsize Hmd) as (w2 & m2 & -> & Hst & Hw2).
  cbn [mbind option_bind]. rewrite bool_decide_true by done. cbn [negb].
  assert (buf_bytes m2 db = Some dat) as ->.
  { unfold buf_bytes. simpl. rewrite <- Hdl. by apply loadz_store_same in Hst. }
  cbn [mbind option_bind].
  assert (framed m buf m2) as Hf2 by (eapply framed_store; [done..|lia]).
  destruct (eventstream_decode_outcome ml hl dat) as [->|(hs & pl & Hv & Hpl & Hp & Hd & ->)];
    [done..|unfold dat; auto with gg|done|by eauto 10|].
  exists (Ok (message_of hs dat pl)), w2, m2. split; [done|]. split; [done|].
  do 3 right. exists hs, pl, (zdrop ml bs).
  split_and!; try done; [|by rewrite <- Hd|rewrite <- Hd; lia|rewrite <- Hd; by eapply loadz_store_same].
  transitivity (ztake 12 bs ++ zdrop 12 bs); [by rewrite ztake_zdrop|].
  unfold packet. by rewrite <- app_assoc, <- Hd, <- Hp, <- Hpe, <- Hsp.
Qed.

(** * Properties *)

(** C25: packets are taken off a stream one at a time. When a packet is next
    on the stream, the call returns its headers and payload, consumes exactly
    its bytes and leaves its data section in the buffer; if the data section
    does not fit, it returns [GG_ERR_NOMEM] after the prelude. Nothing outside
    of the buffer is written. *)
Theorem get_packet_framing {W} (r : GgReader W) `{!StreamReader r} (w : W) (m : mem)
    (buf : BufPtr) (hs : list EventStreamHeader) (pl rest : bytes) :
  sr_rel w (packet hs pl ++ rest) -> Forall valid_header hs -> bytes_ok pl ->
  16 + zlen (headers_bytes hs) + zlen pl <= UINT32_MAX ->
  mapped m (data buf) (len buf) -> 12 <= len buf ->
  exists res w' m', eventsteam_get_packet r w m buf = Some (res, w', m') /\
    framed m buf m' /\
    if bool_decide (zlen (packet_data hs pl) <= len buf)
    then res = Ok (message_of hs (packet_data hs pl) pl) /\ sr_rel w' rest /\
         loadz m' (data buf) (zlen (packet_data hs pl)) = Some (packet_data hs pl)
    else res = Fail GG_ERR_NOMEM /\ sr_rel w' (packet_data hs pl ++ rest).
Proof. apply get_packet_run. Qed.

Lemma get_packet_framing_witness :
  exists res w' m',
    eventsteam_get_packet list_reader (packet example_headers (GG_STR "{}") ++ [1; 2; 3])
      (zeroed 1000 64) (mkBuf 1000 64) = Some (res, w', m') /\
    framed (zeroed 1000 64) (mkBuf 1000 64) m' /\
    if bool_decide (zlen (packet_data example_headers (GG_STR "{}")) <= 64)
    then res = Ok (message_of example_headers (packet_data example_headers (GG_STR "{}"))
                     (GG_STR "{}")) /\ w' = [1; 2; 3] /\
         loadz m' 1000 (zlen (packet_data example_headers (GG_STR "{}"))) =
           Some (packet_data example_headers (GG_STR "{}"))
    else res = Fail GG_ERR_NOMEM /\
         w' = packet_data example_headers (GG_STR "{}") ++ [1; 2; 3].
Proof.
  refine (get_packet_framing list_reader
    (packet example_headers (GG_STR "{}") ++ [1; 2; 3]) (zeroed 1000 64) (mkBuf 1000 64)
    example_headers (GG_STR "{}") [1; 2; 3] _ _ _ _ _ _).
  - done.
  - apply (bool_decide_unpack _). by vm_compute.
  - apply (bool_decide_unpack _). by vm_compute.
  - by vm_compute.
  - apply zeroed_mapped.
  - by vm_compute.
Defined.

(** Whatever a stream holds, taking a packet off it never fails an
    assertion nor leaves the buffer, and a message is returned only for a
    well-formed packet at the front of the stream; otherwise the error is
    [GG_ERR_FAILURE] (the stream is too short), [GG_ERR_PARSE] or
    [GG_ERR_NOMEM]. *)
Theorem get_packet_safe {W} (r : GgReader W) `{!StreamReader r} (w : W) (m : mem)
    (buf : BufPtr) (bs : bytes) :
  sr_rel w bs -> bytes_ok bs -> mapped m (data buf) (len buf) -> 12 <= len buf <= UINT32_MAX - 12 ->
  exists res w' m', eventsteam_get_packet r w m buf = Some (res, w', m') /\
    framed m buf m' /\
    (res = Fail GG_ERR_FAILURE \/ res = Fail GG_ERR_PARSE \/ res = Fail GG_ERR_NOMEM \/
     exists hs pl rest, Forall valid_header hs /\ bytes_ok pl /\ bs = packet hs pl ++ rest /\
       res = Ok (message_of hs (packet_data hs pl) pl) /\ sr_rel w' rest /\
       zlen (packet_data hs pl) <= len buf /\
       loadz m' (data buf) (zlen (packet_data hs pl)) = Some (packet_data hs pl)).
Proof. apply get_packet_cases. Qed.

Lemma get_packet_safe_witness :
  exists res w' m',
    eventsteam_get_packet list_reader (repeat 7 20) (zeroed 1000 64) (mkBuf 1000 64) =
      Some (res, w', m') /\
    framed (zeroed 1000 64) (mkBuf 1000 64) m' /\
    (res = Fail GG_ERR_FAILURE \/ res = Fail GG_ERR_PARSE \/ res = Fail GG_ERR_NOMEM \/
     exists hs pl rest, Forall valid_header hs /\ bytes_ok pl /\
       repeat 7 20 = packet hs pl ++ rest /\
       res = Ok (message_of hs (packet_data hs pl) pl) /\ w' = rest /\
       zlen (packet_data hs pl) <= 64 /\
       loadz m' 1000 (zlen (packet_data hs pl)) = Some (packet_data hs pl)).
Proof.
  refine (get_packet_safe list_reader (repeat 7 20) (zeroed 1000 64) (mkBuf 1000 64) (repeat 7 20)
    _ _ _ _).
  - done.
  - apply (bool_decide_unpack _). by vm_compute.
  - apply zeroed_mapped.
  - split; by vm_compute.
Defined.

(** The common headers of a message are the last int32 headers of these
    names, 0 when there is none; a header with one of these names and
    another type makes the message invalid. *)
Theorem common_headers_exact (msg : EventStreamMessage) (hs : list EventStreamHeader) :
  header_list (headers msg) = Ok hs ->
  eventstream_get_common_headers msg =
    if existsb mistyped hs then Fail GG_ERR_INVALID
    else Ok (mkCommon (last_int32 (GG_STR ":stream-id") 0 hs)
               (last_int32 (GG_STR ":message-type") 0 hs)
               (last_int32 (GG_STR ":message-flags") 0 hs)).
Proof.
  intros H. unfold eventstream_get_common_headers.
  by rewrite (common_headers_loop_spec _ _ _ _ H).
Qed.

Lemma common_headers_exact_witness :
  eventstream_get_common_headers
    (message_of example_headers (packet_data example_headers (GG_STR "{}")) (GG_STR "{}")) =
  Ok (mkCommon 0 5 0).
Proof.
  rewrite (common_headers_exact _ example_headers); [by vm_compute|by vm_compute].
Defined.
