(* ===== verification/Object.v ===== *)
(** Objects and key-value pairs ([src/object.c], [src/map.c],
    [include/gg/object.h]): their packed representation.

    A [GgObject] is its eleven bytes, a [GgKV] its twenty-one bytes; both are
    built and read with copies of little-endian machine words, as in the
    source. A [double] is its 64-bit pattern. *)

From S2P Require Import Prelude Memory Buffer.

(** ** Little-endian words *)

(** The object representation of an [n]-byte unsigned integer. *)
Fixpoint le_bytes (n : nat) (v : Z) : bytes :=
  match n with
  | O => []
  | S n => uwrap 8 v :: le_bytes n (Z.shiftr v 8)
  end.

Fixpoint le_val (bs : bytes) : Z :=
  match bs with
  | [] => 0
  | b :: bs => b + 256 * le_val bs
  end.

Arguments le_bytes : simpl never.

(** ** Data *)

Inductive GgObjectType :=
  | GG_TYPE_NULL
  | GG_TYPE_BOOLEAN
  | GG_TYPE_I64
  | GG_TYPE_F64
  | GG_TYPE_BUF
  | GG_TYPE_LIST
  | GG_TYPE_MAP.

#[export] Instance GgObjectType_eq_dec : EqDecision GgObjectType.
Proof. solve_decision. Defined.

Definition type_tag (t : GgObjectType) : Z :=
  match t with
  | GG_TYPE_NULL => 0
  | GG_TYPE_BOOLEAN => 1
  | GG_TYPE_I64 => 2
  | GG_TYPE_F64 => 3
  | GG_TYPE_BUF => 4
  | GG_TYPE_LIST => 5
  | GG_TYPE_MAP => 6
  end.

Definition type_of_tag (z : Z) : option GgObjectType :=
  match z with
  | 0 => Some GG_TYPE_NULL
  | 1 => Some GG_TYPE_BOOLEAN
  | 2 => Some GG_TYPE_I64
  | 3 => Some GG_TYPE_F64
  | 4 => Some GG_TYPE_BUF
  | 5 => Some GG_TYPE_LIST
  | 6 => Some GG_TYPE_MAP
  | _ => None
  end.

(** [sizeof(GgObject)] and [sizeof(GgKV)] with 64-bit pointers. *)
Definition sizeof_GgObject : Z := 11.
Definition sizeof_GgKV : Z := 8 + 2 + 11.

Abbreviation GgObject := bytes.
Abbreviation GgKV := bytes.

Record GgList := mkList { items : Z; list_len : Z }.
Record GgMap := mkMap { pairs : Z; map_len : Z }.

Definition GG_OBJ_NULL : GgObject := repeat 0 11.

(** ** Operations: [None] is a failed assertion *)

Definition gg_obj_type (obj : GgObject) : option GgObjectType :=
  result ← rd obj (sizeof_GgObject - 1);
  _ ← gg_asserts (result <=? 6);
  type_of_tag result.

(** [memcpy(&result[off], src, ...)] *)
Definition patch (result : bytes) (off : Z) (src : bytes) : bytes :=
  ztake off result ++ src ++ zdrop (off + zlen src) result.

(** An object holding [src] from its first byte on, and a tag. *)
Definition tagged (src : bytes) (t : GgObjectType) : GgObject :=
  patch (patch GG_OBJ_NULL 0 src) (sizeof_GgObject - 1) [type_tag t].

Definition gg_obj_bool (value : bool) : GgObject :=
  tagged [if value then 1 else 0] GG_TYPE_BOOLEAN.

Definition assert_type (obj : GgObject) (t : GgObjectType) : option unit :=
  ty ← gg_obj_type obj; gg_asserts (bool_decide (ty = t)).

(** A byte other than 0 and 1 does not represent a [bool]. *)
Definition gg_obj_into_bool (boolean : GgObject) : option bool :=
  _ ← assert_type boolean GG_TYPE_BOOLEAN;
  match ztake 1 boolean with
  | [0] => Some false
  | [1] => Some true
  | _ => None
  end.

Definition gg_obj_i64 (value : Z) : GgObject := tagged (le_bytes 8 (uwrap 64 value)) GG_TYPE_I64.

Definition gg_obj_into_i64 (i64 : GgObject) : option Z :=
  _ ← assert_type i64 GG_TYPE_I64;
  Some (swrap 64 (le_val (ztake 8 i64))).

Definition gg_obj_f64 (value : Z) : GgObject := tagged (le_bytes 8 value) GG_TYPE_F64.

Definition gg_obj_into_f64 (f64 : GgObject) : option Z :=
  _ ← assert_type f64 GG_TYPE_F64;
  Some (le_val (ztake 8 f64)).

(** A pointer and a 16-bit length; a longer length fails the assertion of
    [length_err]. *)
Definition ptr_len (ptr len : Z) : option bytes :=
  _ ← gg_asserts (len <=? UINT16_MAX);
  Some (le_bytes 8 ptr ++ le_bytes 2 (uwrap 16 len)).

Definition gg_obj_buf (value : BufPtr) : option GgObject :=
  src ← ptr_len (data value) (len value); Some (tagged src GG_TYPE_BUF).

Definition gg_obj_into_buf (buf : GgObject) : option BufPtr :=
  _ ← assert_type buf GG_TYPE_BUF;
  Some (mkBuf (le_val (ztake 8 buf)) (le_val (ztake 2 (zdrop 8 buf)))).

Definition gg_obj_map (value : GgMap) : option GgObject :=
  src ← ptr_len (pairs value) (map_len value); Some (tagged src GG_TYPE_MAP).

Definition gg_obj_into_map (map : GgObject) : option GgMap :=
  _ ← assert_type map GG_TYPE_MAP;
  Some (mkMap (le_val (ztake 8 map)) (le_val (ztake 2 (zdrop 8 map)))).

Definition gg_obj_list (value : GgList) : option GgObject :=
  src ← ptr_len (items value) (list_len value); Some (tagged src GG_TYPE_LIST).

Definition gg_obj_into_list (list : GgObject) : option GgList :=
  _ ← assert_type list GG_TYPE_LIST;
  Some (mkList (le_val (ztake 8 list)) (le_val (ztake 2 (zdrop 8 list)))).

(** *** Key-value pairs *)

Definition gg_kv_key (kv : GgKV) : BufPtr :=
  mkBuf (le_val (ztake 8 kv)) (le_val (ztake 2 (zdrop 8 kv))).

(** On the value of a pair. *)
Definition gg_kv_set_key (kv : GgKV) (key : BufPtr) : option GgKV :=
  src ← ptr_len (data key) (len key); Some (patch kv 0 src).

Definition gg_kv (key : BufPtr) (val : GgObject) : option GgKV :=
  result ← gg_kv_set_key (repeat 0 21) key;
  Some (patch result 10 val).

(** The address of the value of the pair at [kv]. *)
Definition gg_kv_val (kv : Z) : Z := kv + 8 + 2.

(** ** Lemmas *)

Lemma le_bytes_S n v : le_bytes (S n) v = uwrap 8 v :: le_bytes n (Z.shiftr v 8).
Proof. done. Qed.

Lemma length_le_bytes n v : length (le_bytes n v) = n.
Proof. revert v. induction n as [|n IH]; intros v; [done|]. rewrite le_bytes_S. simpl. by rewrite IH. Qed.

Lemma zlen_le_bytes n v : zlen (le_bytes n v) = Z.of_nat n.
Proof. unfold zlen. by rewrite length_le_bytes. Qed.

Lemma le_bytes_ok n v : bytes_ok (le_bytes n v).
Proof.
  revert v. induction n as [|n IH]; intros v; [constructor|]. rewrite le_bytes_S.
  constructor; [|apply IH]. unfold is_byte. pose proof (uwrap_range 8 v). lia.
Qed.

Lemma le_val_bytes n v : 0 <= v < 2 ^ (8 * Z.of_nat n) -> le_val (le_bytes n v) = v.
Proof.
  revert v. induction n as [|n IH]; intros v Hv.
  - change (2 ^ (8 * Z.of_nat 0)) with 1 in Hv. change (le_bytes 0 v) with (@nil Z). simpl. lia.
  - rewrite le_bytes_S. simpl le_val. rewrite Z.shiftr_div_pow2 by lia.
    assert (2 ^ (8 * Z.of_nat (S n)) = 256 * 2 ^ (8 * Z.of_nat n)) as Hp.
    { replace (8 * Z.of_nat (S n)) with (8 + 8 * Z.of_nat n) by lia. by rewrite Z.pow_add_r by lia. }
    change (2 ^ 8) with 256. rewrite IH.
    + unfold uwrap. change (2 ^ 8) with 256. pose proof (Z.div_mod v 256). lia.
    + split; [apply Z.div_pos; lia|]. apply Z.div_lt_upper_bound; lia.
Qed.

Lemma le_val_range bs : bytes_ok bs -> 0 <= le_val bs < 2 ^ (8 * zlen bs).
Proof.
  induction bs as [|b bs IH]; intros Hok; [done|]. apply Forall_cons in Hok as [Hb Hok].
  simpl. rewrite zlen_cons. replace (8 * (1 + zlen bs)) with (8 + 8 * zlen bs) by lia.
  rewrite Z.pow_add_r by zlen_lia. change (2 ^ 8) with 256. specialize (IH Hok).
  unfold is_byte in Hb. lia.
Qed.

Lemma le_bytes_val bs : bytes_ok bs -> le_bytes (length bs) (le_val bs) = bs.
Proof.
  induction bs as [|b bs IH]; intros Hok; [done|]. apply Forall_cons in Hok as [Hb Hok].
  simpl length. rewrite le_bytes_S. simpl le_val. unfold is_byte in Hb. f_equal.
  - unfold uwrap. change (2 ^ 8) with 256. rewrite Z.mul_comm, Z.mod_add by lia. by apply Z.mod_small.
  - rewrite Z.shiftr_div_pow2 by lia. change (2 ^ 8) with 256.
    rewrite Z.mul_comm, Z.div_add by lia. rewrite Z.div_small by lia. by apply IH.
Qed.

(** Lay-outs: a word at the front, then a length, then the tag. *)
Lemma tagged_word w t :
  zlen w = 8 -> tagged w t = w ++ [0; 0] ++ [type_tag t].
Proof.
  unfold zlen. intros Hl.
  do 8 (destruct w as [|? w]; simpl in Hl; [lia|]). destruct w; [done|simpl in Hl; lia].
Qed.

Lemma tagged_ptr p l t :
  zlen p = 8 -> zlen l = 2 -> tagged (p ++ l) t = p ++ l ++ [type_tag t].
Proof.
  unfold zlen. intros Hp Hl.
  do 8 (destruct p as [|? p]; simpl in Hp; [lia|]). destruct p; [|simpl in Hp; lia].
  do 2 (destruct l as [|? l]; simpl in Hl; [lia|]). destruct l; [done|simpl in Hl; lia].
Qed.

Lemma gg_obj_type_last bs t :
  zlen bs = 10 -> gg_obj_type (bs ++ [type_tag t]) = Some t.
Proof.
  intros Hl. unfold gg_obj_type. rewrite rd_app_r by (rewrite Hl; done). rewrite Hl. by destruct t.
Qed.

Lemma assert_type_last bs t : zlen bs = 10 -> assert_type (bs ++ [type_tag t]) t = Some tt.
Proof.
  intros Hl. unfold assert_type. rewrite gg_obj_type_last by done. simpl.
  by rewrite bool_decide_true.
Qed.

(** The bytes of a pointer and a length. *)
Definition ptr_len_bytes (p l : Z) : bytes := le_bytes 8 p ++ le_bytes 2 l.

Lemma zlen_ptr_len_bytes p l : zlen (ptr_len_bytes p l) = 10.
Proof. done. Qed.

Lemma ptr_len_eq p l : 0 <= l <= UINT16_MAX -> ptr_len p l = Some (ptr_len_bytes p l).
Proof.
  intros Hl. unfold ptr_len, gg_asserts, UINT16_MAX in *. case_if; [|lia].
  cbn [mbind option_bind]. by rewrite uwrap_small by lia.
Qed.

Lemma ptr_len_read p l rest :
  0 <= p <= SIZE_MAX -> 0 <= l <= UINT16_MAX ->
  le_val (ztake 8 (ptr_len_bytes p l ++ rest)) = p /\
  le_val (ztake 2 (zdrop 8 (ptr_len_bytes p l ++ rest))) = l.
Proof.
  unfold SIZE_MAX, UINT16_MAX, ptr_len_bytes. intros Hp Hl. rewrite <- app_assoc.
  rewrite ztake_app_exact, zdrop_app_exact, ztake_app_exact by done.
  rewrite (le_val_bytes 8), (le_val_bytes 2) by (cbn; lia). done.
Qed.

(** What an object holds. *)
Inductive objval :=
  | VNull
  | VBool (b : bool)
  | VI64 (z : Z)
  | VF64 (bits : Z)
  | VBuf (b : BufPtr)
  | VList (l : GgList)
  | VMap (m : GgMap).

(** Pointers and lengths that fit the representation. *)
Definition objval_ok (v : objval) : Prop :=
  let fits p l := 0 <= p <= SIZE_MAX /\ 0 <= l <= UINT16_MAX in
  match v with
  | VNull | VBool _ => True
  | VI64 z => in_int64 z
  | VF64 bits => 0 <= bits < 2 ^ 64
  | VBuf b => fits (data b) (len b)
  | VList l => fits (items l) (list_len l)
  | VMap m => fits (pairs m) (map_len m)
  end.

(** Packing with the constructor of each type. *)
Definition pack (v : objval) : option GgObject :=
  match v with
  | VNull => Some GG_OBJ_NULL
  | VBool b => Some (gg_obj_bool b)
  | VI64 z => Some (gg_obj_i64 z)
  | VF64 bits => Some (gg_obj_f64 bits)
  | VBuf b => gg_obj_buf b
  | VList l => gg_obj_list l
  | VMap m => gg_obj_map m
  end.

(** Unpacking by cases on [gg_obj_type]. *)
Definition unpack (obj : GgObject) : option objval :=
  ty ← gg_obj_type obj;
  match ty with
  | GG_TYPE_NULL => Some VNull
  | GG_TYPE_BOOLEAN => VBool <$> gg_obj_into_bool obj
  | GG_TYPE_I64 => VI64 <$> gg_obj_into_i64 obj
  | GG_TYPE_F64 => VF64 <$> gg_obj_into_f64 obj
  | GG_TYPE_BUF => VBuf <$> gg_obj_into_buf obj
  | GG_TYPE_LIST => VList <$> gg_obj_into_list obj
  | GG_TYPE_MAP => VMap <$> gg_obj_into_map obj
  end.

Lemma type_tag_byte t : is_byte (type_tag t).
Proof. unfold is_byte. destruct t; simpl; lia. Qed.

Lemma swrap_uwrap_64 z : in_int64 z -> swrap 64 (uwrap 64 z) = z.
Proof. unfold in_int64, INT64_MIN, INT64_MAX, swrap, uwrap. dlia. Qed.

(** A packed object: ten bytes and the tag. *)
Lemma pack_layout v o :
  objval_ok v -> pack v = Some o -> exists bs t, zlen bs = 10 /\ o = bs ++ [type_tag t] /\ bytes_ok o.
Proof.
  intros Hv Ho. assert (forall w t, zlen w = 8 -> bytes_ok w -> exists bs t',
    zlen bs = 10 /\ tagged w t = bs ++ [type_tag t'] /\ bytes_ok (tagged w t)) as Hw.
  { intros w t Hl Hok. exists (w ++ [0; 0]), t. rewrite tagged_word by done.
    rewrite <- app_assoc. split; [zlen_lia|]. split; [done|].
    apply bytes_ok_app. split; [done|]. repeat constructor; try done; apply type_tag_byte. }
  assert (forall p l t, 0 <= l <= UINT16_MAX -> exists o',
    (src ← ptr_len p l; Some (tagged src t)) = Some o' /\
    exists bs t', zlen bs = 10 /\ o' = bs ++ [type_tag t'] /\ bytes_ok o') as Hp.
  { intros p l t Hl. rewrite ptr_len_eq by done. cbn [mbind option_bind]. eexists. split; [done|].
    exists (ptr_len_bytes p l), t. unfold ptr_len_bytes. rewrite tagged_ptr by done.
    rewrite <- app_assoc. split; [done|]. split; [done|]. rewrite !bytes_ok_app.
    split; [apply le_bytes_ok|]. split; [apply le_bytes_ok|]. repeat constructor; apply type_tag_byte. }
  destruct v as [|b|z|z|b|l|m]; simpl in Hv, Ho; simplify_eq.
  - exists (repeat 0 10), GG_TYPE_NULL. split_and!; [done|done|].
    apply (bool_decide_unpack _). by vm_compute.
  - exists ((if b then 1 else 0) :: repeat 0 9), GG_TYPE_BOOLEAN.
    split_and!; [done|done|]. destruct b; apply (bool_decide_unpack _); by vm_compute.
  - apply Hw; [done|apply le_bytes_ok].
  - apply Hw; [done|apply le_bytes_ok].
  - destruct (Hp (data b) (len b) GG_TYPE_BUF) as (o' & He & ?); [tauto|].
    unfold gg_obj_buf in Ho. rewrite He in Ho. by simplify_eq.
  - destruct (Hp (items l) (list_len l) GG_TYPE_LIST) as (o' & He & ?); [tauto|].
    unfold gg_obj_list in Ho. rewrite He in Ho. by simplify_eq.
  - destruct (Hp (pairs m) (map_len m) GG_TYPE_MAP) as (o' & He & ?); [tauto|].
    unfold gg_obj_map in Ho. rewrite He in Ho. by simplify_eq.
Qed.

Lemma pack_fits v : objval_ok v -> is_Some (pack v).
Proof.
  intros Hv. destruct v; simpl in *; eauto; unfold gg_obj_buf, gg_obj_list, gg_obj_map;
    rewrite ptr_len_eq by tauto; simpl; eauto.
Qed.

Lemma into_word w t :
  zlen w = 8 -> assert_type (tagged w t) t = Some tt /\ ztake 8 (tagged w t) = w /\
    gg_obj_type (tagged w t) = Some t.
Proof.
  intros Hl. rewrite tagged_word by done. rewrite app_assoc. split; [|split].
  - apply assert_type_last. zlen_lia.
  - rewrite <- app_assoc. by apply ztake_app_exact.
  - apply gg_obj_type_last. zlen_lia.
Qed.

Lemma into_ptr_len p l t :
  0 <= p <= SIZE_MAX -> 0 <= l <= UINT16_MAX ->
  let o := tagged (ptr_len_bytes p l) t in
  assert_type o t = Some tt /\ gg_obj_type o = Some t /\
  le_val (ztake 8 o) = p /\ le_val (ztake 2 (zdrop 8 o)) = l.
Proof.
  intros Hp Hl o. assert (o = ptr_len_bytes p l ++ [type_tag t]) as ->.
  { unfold o, ptr_len_bytes. by rewrite tagged_ptr, <- app_assoc by done. }
  split; [by apply assert_type_last|]. split; [by apply gg_obj_type_last|]. by apply ptr_len_read.
Qed.

Lemma unpack_pack v o : objval_ok v -> pack v = Some o -> unpack o = Some v.
Proof.
  intros Hv Ho. unfold unpack. destruct v as [|b|z|z|b|l|m]; simpl in Hv, Ho; simplify_eq.
  - done.
  - by destruct b.
  - unfold gg_obj_into_i64, gg_obj_i64.
    destruct (into_word (le_bytes 8 (uwrap 64 z)) GG_TYPE_I64 eq_refl) as (-> & -> & ->).
    cbn [mbind option_bind fmap option_fmap option_map]. rewrite le_val_bytes.
    + by rewrite swrap_uwrap_64.
    + by apply (uwrap_range 64).
  - unfold gg_obj_into_f64, gg_obj_f64.
    destruct (into_word (le_bytes 8 z) GG_TYPE_F64 eq_refl) as (-> & -> & ->).
    cbn [mbind option_bind fmap option_fmap option_map]. by rewrite le_val_bytes.
  - unfold gg_obj_buf in Ho. rewrite ptr_len_eq in Ho by tauto.
    cbn [mbind option_bind] in Ho. injection Ho as <-.
    destruct (into_ptr_len (data b) (len b) GG_TYPE_BUF) as (H1 & H2 & H3 & H4); [tauto..|].
    rewrite H2. cbn [mbind option_bind]. unfold gg_obj_into_buf.
    rewrite H1. cbn [mbind option_bind fmap option_fmap option_map]. rewrite H3, H4. by destruct b.
  - unfold gg_obj_list in Ho. rewrite ptr_len_eq in Ho by tauto.
    cbn [mbind option_bind] in Ho. injection Ho as <-.
    destruct (into_ptr_len (items l) (list_len l) GG_TYPE_LIST) as (H1 & H2 & H3 & H4); [tauto..|].
    rewrite H2. cbn [mbind option_bind]. unfold gg_obj_into_list.
    rewrite H1. cbn [mbind option_bind fmap option_fmap option_map]. rewrite H3, H4. by destruct l.
  - unfold gg_obj_map in Ho. rewrite ptr_len_eq in Ho by tauto.
    cbn [mbind option_bind] in Ho. injection Ho as <-.
    destruct (into_ptr_len (pairs m) (map_len m) GG_TYPE_MAP) as (H1 & H2 & H3 & H4); [tauto..|].
    rewrite H2. cbn [mbind option_bind]. unfold gg_obj_into_map.
    rewrite H1. cbn [mbind option_bind fmap option_fmap option_map]. rewrite H3, H4. by destruct m.
Qed.

(** Key-value pairs: the key's ten bytes, then the value. *)
Lemma gg_kv_layout key val :
  0 <= len key <= UINT16_MAX -> zlen val = 11 ->
  gg_kv key val = Some (ptr_len_bytes (data key) (len key) ++ val).
Proof.
  intros Hk Hv. unfold gg_kv, gg_kv_set_key. rewrite ptr_len_eq by done.
  cbn [mbind option_bind]. unfold patch at 1 2. rewrite zlen_ptr_len_bytes.
  change (ztake 0 (repeat 0 21)) with (@nil Z). change (zdrop (0 + 10) (repeat 0 21)) with (repeat 0 11).
  cbn [app]. rewrite ztake_app_exact by done. rewrite Hv.
  rewrite (zdrop_all (10 + 11)) by (unfold zlen; simpl; lia). by rewrite app_nil_r.
Qed.

Lemma gg_kv_set_key_layout key0 val key :
  zlen key0 = 10 -> 0 <= len key <= UINT16_MAX ->
  gg_kv_set_key (key0 ++ val) key = Some (ptr_len_bytes (data key) (len key) ++ val).
Proof.
  intros H0 Hk. unfold gg_kv_set_key. rewrite ptr_len_eq by done. cbn [mbind option_bind].
  unfold patch. rewrite zlen_ptr_len_bytes. by rewrite (zdrop_app_exact (0 + 10) key0 val) by (rewrite H0; done).
Qed.

Lemma gg_kv_key_layout key val :
  0 <= data key <= SIZE_MAX -> 0 <= len key <= UINT16_MAX ->
  gg_kv_key (ptr_len_bytes (data key) (len key) ++ val) = key.
Proof.
  intros Hd Hl. unfold gg_kv_key.
  destruct (ptr_len_read (data key) (len key) val Hd Hl) as [-> ->]. by destruct key.
Qed.

(** * Properties *)

(** Objects are packed without loss. Every value that fits (integers of
    64 bits, buffers, lists and maps of at most 65535 elements) is packed into
    eleven bytes, whose type and contents are read back; a longer length fails
    an assertion instead of being truncated. A pair gives back its key and
    value, also after its key is set. *)
Theorem object_pack_unpack (v : objval) (key key' : BufPtr) :
  objval_ok v -> objval_ok (VBuf key) -> objval_ok (VBuf key') ->
  exists o kv kv', pack v = Some o /\ zlen o = sizeof_GgObject /\ bytes_ok o /\ unpack o = Some v /\
    gg_kv key o = Some kv /\ zlen kv = sizeof_GgKV /\ gg_kv_key kv = key /\
    zdrop (gg_kv_val 0) kv = o /\
    gg_kv_set_key kv key' = Some kv' /\ gg_kv_key kv' = key' /\ zdrop (gg_kv_val 0) kv' = o /\
    (forall p n, UINT16_MAX < n -> gg_obj_buf (mkBuf p n) = None /\
      gg_obj_list (mkList p n) = None /\ gg_obj_map (mkMap p n) = None /\
      gg_kv_set_key kv (mkBuf p n) = None).
Proof.
  intros Hv Hk Hk'. simpl in Hk, Hk'. destruct Hk as [Hd Hl], Hk' as [Hd' Hl'].
  destruct (pack_fits v Hv) as [o Ho].
  destruct (pack_layout v o Hv Ho) as (bs & t & Hbs & Hlay & Hok).
  assert (zlen o = 11) as Hz by (rewrite Hlay; zlen_lia).
  exists o, (ptr_len_bytes (data key) (len key) ++ o), (ptr_len_bytes (data key') (len key') ++ o).
  split_and!; try done.
  - by eapply unpack_pack.
  - by apply gg_kv_layout.
  - rewrite zlen_app, Hz. done.
  - by apply gg_kv_key_layout.
  - by apply gg_kv_set_key_layout.
  - by apply gg_kv_key_layout.
  - intros p n Hn. unfold gg_obj_buf, gg_obj_list, gg_obj_map, gg_kv_set_key, ptr_len. simpl.
    assert (n <=? UINT16_MAX = false) as -> by (apply Z.leb_gt; lia). done.
Qed.

Lemma object_pack_unpack_witness :
  exists o kv kv', pack (VMap (mkMap 4096 7)) = Some o /\ zlen o = sizeof_GgObject /\ bytes_ok o /\
    unpack o = Some (VMap (mkMap 4096 7)) /\
    gg_kv (mkBuf 512 3) o = Some kv /\ zlen kv = sizeof_GgKV /\ gg_kv_key kv = mkBuf 512 3 /\
    zdrop (gg_kv_val 0) kv = o /\
    gg_kv_set_key kv (mkBuf 9 1) = Some kv' /\ gg_kv_key kv' = mkBuf 9 1 /\
    zdrop (gg_kv_val 0) kv' = o /\
    (forall p n, UINT16_MAX < n -> gg_obj_buf (mkBuf p n) = None /\
      gg_obj_list (mkList p n) = None /\ gg_obj_map (mkMap p n) = None /\
      gg_kv_set_key kv (mkBuf p n) = None).
Proof.
  apply object_pack_unpack; simpl; unfold SIZE_MAX, UINT16_MAX; lia.
Defined.
