(* ===== verification/Map.v ===== *)
(** Maps and lists in memory ([src/map.c], [src/list.c], [include/gg/map.h]):
    look-up, look-up along a path, validation against a schema. *)

From S2P Require Import Prelude Memory Buffer Object.

(** ** Definitions: [None] is a failed assertion or a bad access *)

(** [*obj] and [*kv] *)
Definition read_obj (m : mem) (obj : Z) : option GgObject := loadz m obj sizeof_GgObject.
Definition read_kv (m : mem) (kv : Z) : option GgKV := loadz m kv sizeof_GgKV.

(** [gg_buffer_eq], the second buffer being in memory. *)
Definition gg_buffer_eq_in (m : mem) (buf1 : bytes) (buf2 : BufPtr) : option bool :=
  if zlen buf1 =? len buf2 then
    if zlen buf1 =? 0 then Some true
    else bs ← buf_bytes m buf2; Some (memcmp_eq buf1 bs (zlen buf1))
  else Some false.

(** The loop of [gg_map_get] on the [n] pairs from [pair] on: the address of
    the value found. *)
Fixpoint map_get_loop (m : mem) (key : bytes) (n : nat) (pair : Z) : option (option Z) :=
  match n with
  | O => Some None
  | S n =>
      kv ← read_kv m pair;
      found ← gg_buffer_eq_in m key (gg_kv_key kv);
      if (found : bool) then Some (Some (gg_kv_val pair))
      else map_get_loop m key n (pair + sizeof_GgKV)
  end.

(** The result and the value stored in [*result]. *)
Definition gg_map_get (m : mem) (map : GgMap) (key : bytes) : option (bool * Z) :=
  found ← map_get_loop m key (Z.to_nat (map_len map)) (pairs map);
  match found with
  | Some val => Some (true, val)
  | None => Some (false, NULL)
  end.

(** [*result] is [None] when it is left unassigned. *)
Fixpoint map_get_path_loop (m : mem) (current : GgMap) (path : list bytes)
    : option (bool * option Z) :=
  match path with
  | [] => None
  | [key] => '(found, val) ← gg_map_get m current key; Some (found, Some val)
  | key :: path =>
      '(found, item) ← gg_map_get m current key;
      if negb found then Some (false, None) else
      obj ← read_obj m item;
      ty ← gg_obj_type obj;
      if negb (bool_decide (ty = GG_TYPE_MAP)) then Some (false, None) else
      current ← gg_obj_into_map obj;
      map_get_path_loop m current path
  end.

Definition gg_map_get_path (m : mem) (map : GgMap) (path : list bytes)
    : option (bool * option Z) :=
  _ ← gg_asserts (1 <=? zlen path);
  map_get_path_loop m map path.

(** *** Schemas *)

Inductive GgPresence := GG_REQUIRED | GG_OPTIONAL | GG_MISSING.

#[export] Instance GgPresence_eq_dec : EqDecision GgPresence.
Proof. solve_decision. Defined.

(** [se_value] is the address of the variable that receives the value, or
    [NULL]; the variables are a store of pointers. *)
Record GgMapSchemaEntry := mkEntry {
  se_key : bytes; se_required : GgPresence; se_type : GgObjectType; se_value : Z }.

Definition set_var (vars : gmap Z Z) (var val : Z) : gmap Z Z :=
  if var =? NULL then vars else <[var := val]> vars.

Fixpoint gg_map_validate (m : mem) (map : GgMap) (schema : list GgMapSchemaEntry)
    (vars : gmap Z Z) : option (GgError * gmap Z Z) :=
  match schema with
  | [] => Some (GG_ERR_OK, vars)
  | entry :: schema =>
      '(found, value) ← gg_map_get m map (se_key entry);
      if negb found then
        if bool_decide (se_required entry = GG_REQUIRED) then Some (GG_ERR_NOENTRY, vars)
        else gg_map_validate m map schema (set_var vars (se_value entry) NULL)
      else if bool_decide (se_required entry = GG_MISSING) then Some (GG_ERR_PARSE, vars)
      else if negb (bool_decide (se_type entry = GG_TYPE_NULL)) then
        obj ← read_obj m value;
        ty ← gg_obj_type obj;
        if negb (bool_decide (se_type entry = ty)) then Some (GG_ERR_PARSE, vars)
        else gg_map_validate m map schema (set_var vars (se_value entry) value)
      else gg_map_validate m map schema (set_var vars (se_value entry) value)
  end.

(** *** Lists *)

Fixpoint list_type_check_loop (m : mem) (type : GgObjectType) (n : nat) (elem : Z)
    : option GgError :=
  match n with
  | O => Some GG_ERR_OK
  | S n =>
      obj ← read_obj m elem;
      ty ← gg_obj_type obj;
      if negb (bool_decide (ty = type)) then Some GG_ERR_PARSE
      else list_type_check_loop m type n (elem + sizeof_GgObject)
  end.

Definition gg_list_type_check (m : mem) (list : GgList) (type : GgObjectType) : option GgError :=
  list_type_check_loop m type (Z.to_nat (list_len list)) (items list).

(** ** Specification: the entries of a map *)

(** [entries_at m a kvs]: the array at [a] holds pairs with the keys of [kvs]
    and, at the addresses and with the types of [kvs], their values. *)
Record entry := mkEnt { ekey : bytes; eval : Z; etype : GgObjectType }.

Fixpoint entries_at (m : mem) (a : Z) (kvs : list entry) : Prop :=
  match kvs with
  | [] => True
  | e :: kvs =>
      (exists kv, read_kv m a = Some kv /\ buf_bytes m (gg_kv_key kv) = Some (ekey e) /\
         0 <= len (gg_kv_key kv)) /\
      eval e = gg_kv_val a /\
      (exists obj, read_obj m (eval e) = Some obj /\ gg_obj_type obj = Some (etype e)) /\
      entries_at m (a + sizeof_GgKV) kvs
  end.

Definition map_at (m : mem) (map : GgMap) (kvs : list entry) : Prop :=
  0 <= map_len map /\ zlen kvs = map_len map /\ entries_at m (pairs map) kvs /\ 0 < pairs map.

(** The first entry with a key. *)
Definition lookup_first (key : bytes) (kvs : list entry) : option entry :=
  snd <$> list_find (fun e => ekey e = key) kvs.

(** What the schema requires of one entry: an error, or the value. *)
Definition check_entry (kvs : list entry) (s : GgMapSchemaEntry) : GgError + Z :=
  match lookup_first (se_key s) kvs, se_required s with
  | None, GG_REQUIRED => inl GG_ERR_NOENTRY
  | None, _ => inr NULL
  | Some e, GG_MISSING => inl GG_ERR_PARSE
  | Some e, _ =>
      if decide (se_type s = GG_TYPE_NULL \/ se_type s = etype e) then inr (eval e)
      else inl GG_ERR_PARSE
  end.

#[export] Instance check_fails_dec kvs s : Decision (exists e, check_entry kvs s = inl e).
Proof.
  destruct (check_entry kvs s) as [e|v]; [left; eauto|right; intros [? ?]; done].
Defined.

(** ** Lemmas *)

Lemma gg_buffer_eq_in_spec m key b bs :
  buf_bytes m b = Some bs -> 0 <= len b -> gg_buffer_eq_in m key b = Some (bool_decide (bs = key)).
Proof.
  intros Hb Hl. pose proof (loadz_zlen _ _ _ _ Hb) as Hz. unfold gg_buffer_eq_in.
  rewrite Hb. cbn [mbind option_bind]. case_if; [case_if|].
  - assert (bs = []) as -> by (apply zlen_zero; lia). symmetry in E. rewrite E0 in *.
    by rewrite (zlen_zero key) by lia.
  - unfold memcmp_eq. rewrite !ztake_all by lia. f_equal. apply bool_decide_ext. naive_solver.
  - f_equal. symmetry. apply bool_decide_eq_false. intros ->. lia.
Qed.

Lemma entries_at_app m a xs ys :
  entries_at m a (xs ++ ys) <->
  entries_at m a xs /\ entries_at m (a + sizeof_GgKV * zlen xs) ys.
Proof.
  revert a. induction xs as [|x xs IH]; intros a; simpl.
  - replace (a + sizeof_GgKV * zlen (@nil entry)) with a by (change (zlen (@nil entry)) with 0; lia). tauto.
  - rewrite IH. replace (a + sizeof_GgKV + sizeof_GgKV * zlen xs)
      with (a + sizeof_GgKV * zlen (x :: xs)) by (rewrite zlen_cons; lia). tauto.
Qed.


Lemma lookup_first_cons key e kvs :
  lookup_first key (e :: kvs) =
    if bool_decide (ekey e = key) then Some e else lookup_first key kvs.
Proof.
  unfold lookup_first. simpl. case_decide as H.
  - by rewrite bool_decide_true.
  - rewrite bool_decide_false by done. by destruct (list_find _ kvs) as [[i x]|].
Qed.

Lemma map_get_loop_spec m key kvs a :
  entries_at m a kvs ->
  map_get_loop m key (length kvs) a = Some (eval <$> lookup_first key kvs).
Proof.
  revert a. induction kvs as [|e kvs IH]; intros a H; [done|].
  destruct H as ((kv & Hkv & Hk & Hl) & Hv & _ & Hrest). simpl.
  rewrite Hkv. cbn [mbind option_bind]. erewrite gg_buffer_eq_in_spec by done.
  cbn [mbind option_bind]. rewrite lookup_first_cons. case_bool_decide; [simpl; by rewrite Hv|].
  by apply IH.
Qed.

Lemma gg_map_get_spec m map key kvs :
  map_at m map kvs ->
  gg_map_get m map key =
    Some (match lookup_first key kvs with
          | Some e => (true, eval e)
          | None => (false, NULL)
          end).
Proof.
  intros (Hl & Hlen & He & _). unfold gg_map_get.
  replace (Z.to_nat (map_len map)) with (length kvs) by (unfold zlen in *; lia).
  rewrite (map_get_loop_spec _ _ _ _ He). by destruct (lookup_first key kvs).
Qed.

Lemma lookup_first_elem key kvs e : lookup_first key kvs = Some e -> e ∈ kvs /\ ekey e = key.
Proof.
  unfold lookup_first. destruct (list_find _ kvs) as [[i x]|] eqn:Hf; [|done].
  intros [= <-]. apply list_find_Some in Hf as (Hl & Hk & _). split; [|done].
  by eapply list_elem_of_lookup_2.
Qed.

Lemma entries_at_elem m a kvs e :
  entries_at m a kvs -> e ∈ kvs ->
  exists obj, read_obj m (eval e) = Some obj /\ gg_obj_type obj = Some (etype e).
Proof.
  revert a. induction kvs as [|x kvs IH]; intros a H He; [by apply elem_of_nil in He|].
  destruct H as (_ & _ & Ho & Hr). apply elem_of_cons in He as [->|He]; [done|]. by eapply IH.
Qed.

(** Reading the value of a found entry. *)
Lemma read_found m map kvs key e :
  map_at m map kvs -> lookup_first key kvs = Some e ->
  exists obj, read_obj m (eval e) = Some obj /\ gg_obj_type obj = Some (etype e).
Proof.
  intros (_ & _ & He & _) [Hin _]%lookup_first_elem. by eapply entries_at_elem.
Qed.

Fixpoint validate_spec (kvs : list entry) (schema : list GgMapSchemaEntry) (vars : gmap Z Z)
    : GgError * gmap Z Z :=
  match schema with
  | [] => (GG_ERR_OK, vars)
  | s :: schema =>
      match check_entry kvs s with
      | inl e => (e, vars)
      | inr v => validate_spec kvs schema (set_var vars (se_value s) v)
      end
  end.

Lemma gg_map_validate_spec m map kvs schema vars :
  map_at m map kvs -> gg_map_validate m map schema vars = Some (validate_spec kvs schema vars).
Proof.
  intros Hm. revert vars. induction schema as [|s schema IH]; intros vars; [done|].
  simpl. rewrite (gg_map_get_spec _ _ _ _ Hm). unfold check_entry.
  destruct (lookup_first (se_key s) kvs) as [e|] eqn:Hf; cbn [mbind option_bind negb].
  - destruct (read_found _ _ _ _ _ Hm Hf) as (obj & Ho & Ht).
    destruct (se_required s); simpl; try done.
    all: rewrite Ho; cbn [mbind option_bind]; rewrite Ht; cbn [mbind option_bind].
    all: destruct (decide (se_type s = GG_TYPE_NULL)) as [Hn|Hn].
    all: try (rewrite (bool_decide_true (se_type s = GG_TYPE_NULL)) by done; cbn [negb];
      rewrite decide_True by tauto; apply IH).
    all: rewrite (bool_decide_false (se_type s = GG_TYPE_NULL)) by done; cbn [negb].
    all: case_bool_decide; cbn [negb]; [rewrite decide_True by (by right); apply IH|].
    all: rewrite decide_False by tauto; done.
  - destruct (se_required s); simpl; try done; apply IH.
Qed.

(** What a path leads to from a map: the value of its last key, through
    values that are maps. *)
Inductive path_at (m : mem) : GgMap -> list bytes -> option Z -> Prop :=
  | path_last map kvs key :
      map_at m map kvs -> path_at m map [key] (eval <$> lookup_first key kvs)
  | path_missing map kvs key key' path :
      map_at m map kvs -> lookup_first key kvs = None ->
      path_at m map (key :: key' :: path) None
  | path_not_map map kvs key key' path e :
      map_at m map kvs -> lookup_first key kvs = Some e -> etype e <> GG_TYPE_MAP ->
      path_at m map (key :: key' :: path) None
  | path_step map kvs key key' path e obj map' r :
      map_at m map kvs -> lookup_first key kvs = Some e ->
      read_obj m (eval e) = Some obj -> gg_obj_into_map obj = Some map' ->
      path_at m map' (key' :: path) r -> path_at m map (key :: key' :: path) r.

Lemma into_map_type obj map : gg_obj_into_map obj = Some map -> gg_obj_type obj = Some GG_TYPE_MAP.
Proof.
  unfold gg_obj_into_map, assert_type. destruct (gg_obj_type obj) as [ty|]; [|done].
  simpl. case_bool_decide; [by subst|done].
Qed.

(** * Properties *)

(** Looking a path up gives the value it leads to: the call returns [true]
    and stores the address of the value exactly when every key is present and
    every value before the last is a map. Otherwise it returns [false], and
    stores a null pointer only if the last key was looked up. *)
Theorem map_get_path_exact (m : mem) (map : GgMap) (path : list bytes) (r : option Z) :
  path_at m map path r ->
  match r with
  | Some val => gg_map_get_path m map path = Some (true, Some val)
  | None => exists unset, gg_map_get_path m map path = Some (false, unset) /\
      (unset = None \/ unset = Some NULL)
  end.
Proof.
  intros H. assert (gg_map_get_path m map path = map_get_path_loop m map path) as Hl.
  { destruct H; unfold gg_map_get_path, gg_asserts; (case_if; [done|zlen_lia]). }
  rewrite Hl. clear Hl.
  induction H as [map kvs key Hm|map kvs key key' path Hm Hf|map kvs key key' path e Hm Hf Ht
    |map kvs key key' path e obj map' r Hm Hf Ho Hi _ IH]; cbn [map_get_path_loop];
    rewrite (gg_map_get_spec _ _ _ _ Hm); cbn [mbind option_bind].
  - destruct (lookup_first key kvs) as [e|]; simpl; eauto.
  - rewrite Hf. simpl. eauto.
  - rewrite Hf. destruct (read_found _ _ _ _ _ Hm Hf) as (obj & -> & Hty).
    cbn [mbind option_bind negb]. rewrite Hty. cbn [mbind option_bind].
    rewrite bool_decide_false by done. simpl. eauto.
  - rewrite Hf. cbn [mbind option_bind negb]. rewrite Ho. cbn [mbind option_bind].
    rewrite (into_map_type _ _ Hi). cbn [mbind option_bind]. rewrite bool_decide_true by done.
    cbn [negb]. rewrite Hi. cbn [mbind option_bind]. done.
Qed.

(** A memory with the map [{"a": {"b": true}}]: the pair of [a] at 100, that
    of [b] at 200, the keys at 10 and 11. *)
Definition example_mem : mem :=
  put (put (put ∅ 10 (GG_STR "ab"))
    200 (default [] (gg_kv (mkBuf 11 1) (gg_obj_bool true))))
    100 (default [] (o ← gg_obj_map (mkMap 200 1); gg_kv (mkBuf 10 1) o)).

Lemma example_outer : map_at example_mem (mkMap 100 1) [mkEnt (GG_STR "a") 110 GG_TYPE_MAP].
Proof.
  split_and!; try done. simpl. split_and!; [|done| |done].
  - eexists. split; [by vm_compute|]. split; [by vm_compute|]. by vm_compute.
  - eexists. split; by vm_compute.
Qed.

Lemma example_inner : map_at example_mem (mkMap 200 1) [mkEnt (GG_STR "b") 210 GG_TYPE_BOOLEAN].
Proof.
  split_and!; try done. simpl. split_and!; [|done| |done].
  - eexists. split; [by vm_compute|]. split; [by vm_compute|]. by vm_compute.
  - eexists. split; by vm_compute.
Qed.

Lemma map_get_path_exact_witness :
  gg_map_get_path example_mem (mkMap 100 1) [GG_STR "a"; GG_STR "b"] = Some (true, Some 210).
Proof.
  apply (map_get_path_exact example_mem (mkMap 100 1) [GG_STR "a"; GG_STR "b"] (Some 210)).
  eapply (path_step _ _ _ _ _ _ (mkEnt (GG_STR "a") 110 GG_TYPE_MAP));
    [apply example_outer|done|by vm_compute|by vm_compute|].
  apply (path_last _ (mkMap 200 1) [mkEnt (GG_STR "b") 210 GG_TYPE_BOOLEAN]). apply example_inner.
Defined.

(** The result variable is left unassigned when an inner key is missing. *)
Lemma map_get_path_unassigned :
  gg_map_get_path example_mem (mkMap 100 1) [GG_STR "x"; GG_STR "b"] = Some (false, None).
Proof. by vm_compute. Qed.

(** C33: validation against a schema is exact. It succeeds if and only if every
    required key is present, no key declared missing is, and every present
    key has the type asked for; it then stores in each variable the address of
    the value, or a null pointer for an absent key. It fails with the error of
    the first entry that is not satisfied, [GG_ERR_NOENTRY] for a required key
    and [GG_ERR_PARSE] otherwise. *)
Theorem map_validate_exact (m : mem) (map : GgMap) (kvs : list entry)
    (schema : list GgMapSchemaEntry) (vars : gmap Z Z) :
  map_at m map kvs ->
  match list_find (fun s => exists e, check_entry kvs s = inl e) schema with
  | Some (_, s) => exists e vars', check_entry kvs s = inl e /\
      gg_map_validate m map schema vars = Some (e, vars')
  | None => exists vars', gg_map_validate m map schema vars = Some (GG_ERR_OK, vars') /\
      forall v, vars' !! v = foldl (fun acc s =>
        match check_entry kvs s with
        | inr val => if bool_decide (se_value s = v /\ v <> NULL) then Some val else acc
        | inl _ => acc
        end) (vars !! v) schema
  end.
Proof.
  intros Hm. rewrite (gg_map_validate_spec _ _ _ _ _ Hm). revert vars.
  induction schema as [|s schema IH]; intros vars; simpl; [by eauto|].
  destruct (decide (exists e, check_entry kvs s = inl e)) as [[e He]|Hn].
  - rewrite He. eauto.
  - destruct (check_entry kvs s) as [e|val] eqn:Hc; [by destruct Hn; eauto|].
    specialize (IH (set_var vars (se_value s) val)).
    destruct (list_find _ schema) as [[i s']|]; simpl; [done|].
    destruct IH as (vars' & Hv & Hl). exists vars'. split; [done|]. intros v. rewrite Hl. f_equal.
    unfold set_var. case_bool_decide as Hd; case_if.
    + destruct Hd as [<- ?]. done.
    + destruct Hd as [<- ?]. by rewrite lookup_insert_eq.
    + done.
    + rewrite lookup_insert_ne; [done|]. intros <-. tauto.
Qed.

Lemma map_validate_exact_witness :
  exists vars', gg_map_validate example_mem (mkMap 100 1)
      [mkEntry (GG_STR "a") GG_REQUIRED GG_TYPE_MAP 1; mkEntry (GG_STR "x") GG_OPTIONAL GG_TYPE_BUF 2]
      ∅ = Some (GG_ERR_OK, vars') /\
    forall v, vars' !! v = foldl (fun acc s =>
        match check_entry [mkEnt (GG_STR "a") 110 GG_TYPE_MAP] s with
        | inr val => if bool_decide (se_value s = v /\ v <> NULL) then Some val else acc
        | inl _ => acc
        end) ((∅ : gmap Z Z) !! v)
      [mkEntry (GG_STR "a") GG_REQUIRED GG_TYPE_MAP 1; mkEntry (GG_STR "x") GG_OPTIONAL GG_TYPE_BUF 2].
Proof.
  apply (map_validate_exact example_mem (mkMap 100 1) [mkEnt (GG_STR "a") 110 GG_TYPE_MAP]
    [mkEntry (GG_STR "a") GG_REQUIRED GG_TYPE_MAP 1; mkEntry (GG_STR "x") GG_OPTIONAL GG_TYPE_BUF 2] ∅).
  apply example_outer.
Defined.
