(* ===== verification/Canonical.v ===== *)
(** Canonical maps ([src/map_canonical.c]): removal of duplicate keys and
    sorting, in place on the array of pairs.

    The definitions of the first part run on memory, as the code does. The
    second part is their specification on lists of pairs, and the refinement
    between the two. *)

From Stdlib Require Import Sorted.
From S2P Require Import Prelude Memory Buffer Object Map.

(** ** Definitions *)

(** [&map.pairs[i]] *)
Definition pair_addr (val : GgMap) (i : Z) : Z := pairs val + sizeof_GgKV * i.

Definition swap_pairs (m : mem) (lhs rhs : Z) : option mem :=
  temp ← read_kv m lhs;
  r ← read_kv m rhs;
  m ← store m lhs r;
  store m rhs temp.

(** The loop over the first [n] bytes of two keys. *)
Fixpoint key_less_loop (m : mem) (lhs rhs : Z) (n : nat) (dflt : bool) : option bool :=
  match n with
  | O => Some dflt
  | S n =>
      l ← m !! lhs;
      r ← m !! rhs;
      if l <? r then Some true
      else if r <? l then Some false
      else key_less_loop m (lhs + 1) (rhs + 1) n dflt
  end.

Definition is_key_less (m : mem) (lhs rhs : GgKV) : option bool :=
  let lhs_buf := gg_kv_key lhs in
  let rhs_buf := gg_kv_key rhs in
  let n := if len rhs_buf <? len lhs_buf then len rhs_buf else len lhs_buf in
  key_less_loop m (data lhs_buf) (data rhs_buf) (Z.to_nat n) (len lhs_buf <? len rhs_buf).

Section prune.
(** [GG_STR("<pruned>")]: where the literal lies. *)
Context (pruned : BufPtr).

(** Overwrite the last pair and forget it. *)
Definition drop_last (m : mem) (val : GgMap) : option (mem * GgMap) :=
  let last := pair_addr val (map_len val - 1) in
  kv ← read_kv m last;
  kv ← gg_kv_set_key kv pruned;
  m ← store m last kv;
  m ← store m (gg_kv_val last) GG_OBJ_NULL;
  Some (m, mkMap (pairs val) (map_len val - 1)).

Fixpoint prune_duplicates (m : mem) (val : GgMap) (i : nat) : option (mem * GgMap) :=
  match i with
  | O => Some (m, val)
  | S i' =>
      let pair := pair_addr val (Z.of_nat i') in
      let last := gg_kv_val pair in
      kv ← read_kv m pair;
      key ← buf_bytes m (gg_kv_key kv);
      '(_, first) ← gg_map_get m val key;
      if first =? last then prune_duplicates m val i'
      else
        m ← (if Z.of_nat i =? map_len val then Some m
             else r ← read_kv m (pair_addr val (map_len val - 1)); store m pair r);
        '(m, val) ← drop_last m val;
        prune_duplicates m val i'
  end.

(** The inner loop of [sort_keys]. *)
Fixpoint sort_down (m : mem) (val : GgMap) (j : nat) : option mem :=
  match j with
  | O => Some m
  | S j' =>
      kj ← read_kv m (pair_addr val (Z.of_nat j));
      kj' ← read_kv m (pair_addr val (Z.of_nat j'));
      less ← is_key_less m kj kj';
      if (less : bool) then
        m ← swap_pairs m (pair_addr val (Z.of_nat j)) (pair_addr val (Z.of_nat j'));
        sort_down m val j'
      else Some m
  end.

(** The outer loop, with [n] iterations left. *)
Fixpoint sort_keys_loop (m : mem) (val : GgMap) (i n : nat) : option mem :=
  match n with
  | O => Some m
  | S n => m ← sort_down m val i; sort_keys_loop m val (S i) n
  end.

Definition sort_keys (m : mem) (val : GgMap) : option mem :=
  sort_keys_loop m val 0 (Z.to_nat (map_len val)).

Definition gg_map_canonicalize_shallow (m : mem) (map : GgMap) : option (mem * GgMap) :=
  '(m, map) ← prune_duplicates m map (Z.to_nat (map_len map));
  m ← sort_keys m map;
  Some (m, map).

End prune.

(** The loop of [gg_map_is_canonical] from index [i], [n] iterations left. *)
Fixpoint is_canonical_loop (m : mem) (map : GgMap) (i : Z) (n : nat) : option bool :=
  match n with
  | O => Some true
  | S n =>
      lesser ← read_kv m (pair_addr map (i - 1));
      greater ← read_kv m (pair_addr map i);
      less ← is_key_less m lesser greater;
      if negb less then Some false else is_canonical_loop m map (i + 1) n
  end.

Definition gg_map_is_canonical (m : mem) (map : GgMap) : option bool :=
  is_canonical_loop m map 1 (Z.to_nat (map_len map) - 1).

(** ** Specification *)

(** The order of keys: lexicographic on their bytes. *)
Fixpoint lex_lt (a b : bytes) : bool :=
  match a, b with
  | [], [] => false
  | [], _ :: _ => true
  | _ :: _, [] => false
  | x :: a, y :: b => (x <? y) || (x =? y) && lex_lt a b
  end.

(** A pair as it lies in the array: its bytes, and its key. *)
Record slot := mkSlot { raw : GgKV; skey : bytes }.

#[export] Instance slot_eq_dec : EqDecision slot.
Proof. solve_decision. Defined.

(** The pairs whose key does not occur before. *)
Fixpoint first_occs (seen : list bytes) (l : list slot) : list slot :=
  match l with
  | [] => []
  | s :: l =>
      if decide (skey s ∈ seen) then first_occs seen l
      else s :: first_occs (skey s :: seen) l
  end.

Definition key_sorted (l : list slot) : Prop :=
  StronglySorted (fun a b => lex_lt (skey a) (skey b) = true) l.

(** *** The operations on lists *)

Definition first_index (k : bytes) (l : list slot) : option nat :=
  fst <$> list_find (fun s => skey s = k) l.

Definition remove_slot (l : list slot) (i : nat) : list slot :=
  match last l with
  | None => l
  | Some y => if decide (S i = length l) then take i l
              else <[i := y]> (take (length l - 1) l)
  end.

Fixpoint prune_list (l : list slot) (i : nat) : list slot :=
  match i with
  | O => l
  | S i' =>
      match l !! i' with
      | None => l
      | Some s =>
          if decide (first_index (skey s) l = Some i') then prune_list l i'
          else prune_list (remove_slot l i') i'
      end
  end.

(** Insertion from the end of a sorted list, given in reverse. *)
Fixpoint ins_rev (x : slot) (rp : list slot) : list slot :=
  match rp with
  | [] => [x]
  | b :: rp' => if lex_lt (skey x) (skey b) then b :: ins_rev x rp' else x :: rp
  end.

Definition sort_list (l : list slot) : list slot := rev (foldl (fun rp x => ins_rev x rp) [] l).

Definition canonical_list (l : list slot) : list slot := sort_list (prune_list l (length l)).

(** *** The order *)

Lemma lex_lt_irrefl a : lex_lt a a = false.
Proof. induction a as [|x a IH]; simpl; [done|]. by rewrite Z.ltb_irrefl, Z.eqb_refl, IH. Qed.

Lemma lex_lt_trans a b c : lex_lt a b = true -> lex_lt b c = true -> lex_lt a c = true.
Proof.
  revert b c. induction a as [|x a IH]; intros [|y b] [|z c]; simpl; try done.
  rewrite !orb_true_iff, !andb_true_iff, !Z.ltb_lt, !Z.eqb_eq.
  intros [?|[-> ?]] [?|[-> ?]]; [left; lia|left; lia|left; lia|right].
  split; [done|]. by eapply IH.
Qed.

Lemma lex_lt_total a b : lex_lt a b = false -> lex_lt b a = false -> a = b.
Proof.
  revert b. induction a as [|x a IH]; intros [|y b]; simpl; try done.
  rewrite !orb_false_iff, !andb_false_iff, !Z.ltb_ge, !Z.eqb_neq.
  intros [? Ha] [? Hb]. assert (x = y) as -> by lia. f_equal.
  apply IH; [by destruct Ha|by destruct Hb].
Qed.

Lemma lex_lt_asym a b : lex_lt a b = true -> lex_lt b a = false.
Proof.
  intros H. destruct (lex_lt b a) eqn:E; [|done].
  pose proof (lex_lt_trans _ _ _ H E). by rewrite lex_lt_irrefl in *.
Qed.

(** *** Sorting *)

Definition keys (l : list slot) : list bytes := skey <$> l.

Lemma ins_rev_perm x rp : ins_rev x rp ≡ₚ x :: rp.
Proof.
  induction rp as [|b rp IH]; simpl; [done|]. case_if; [|done]. rewrite IH. apply Permutation_swap.
Qed.

Lemma foldl_ins_perm l rp : foldl (fun rp x => ins_rev x rp) rp l ≡ₚ l ++ rp.
Proof.
  revert rp. induction l as [|x l IH]; intros rp; simpl; [done|].
  rewrite IH, ins_rev_perm. by rewrite Permutation_middle.
Qed.

Lemma sort_list_perm l : sort_list l ≡ₚ l.
Proof. unfold sort_list. by rewrite <- Permutation_rev, foldl_ins_perm, app_nil_r. Qed.

(** Descending: the reverse of a sorted list. *)
Definition key_desc (l : list slot) : Prop :=
  StronglySorted (fun a b => lex_lt (skey b) (skey a) = true) l.

Lemma ins_rev_desc x rp :
  key_desc rp -> skey x ∉ keys rp -> key_desc (ins_rev x rp).
Proof.
  induction rp as [|b rp IH]; simpl; intros Hs Hn.
  - constructor; constructor.
  - apply StronglySorted_inv in Hs as [Hs Hf]. rewrite not_elem_of_cons in Hn.
    destruct Hn as [Hb Hn]. case_if.
    + constructor; [by apply IH|]. rewrite ins_rev_perm. by constructor.
    + assert (lex_lt (skey b) (skey x) = true) as Hlt.
      { destruct (lex_lt (skey b) (skey x)) eqn:Hlt; [done|]. by destruct Hb; apply lex_lt_total. }
      constructor; [by constructor|]. constructor; [done|].
      eapply Forall_impl; [exact Hf|]. simpl. intros y Hy. by eapply lex_lt_trans.
Qed.

Lemma foldl_ins_desc l rp :
  key_desc rp -> NoDup (keys l ++ keys rp) ->
  key_desc (foldl (fun rp x => ins_rev x rp) rp l).
Proof.
  revert rp. induction l as [|x l IH]; intros rp Hs Hn; simpl; [done|].
  simpl in Hn. apply NoDup_cons in Hn as [Hx Hn]. rewrite not_elem_of_app in Hx.
  apply IH; [apply ins_rev_desc; tauto|].
  assert (keys (ins_rev x rp) ≡ₚ skey x :: keys rp) as -> by (unfold keys; by rewrite ins_rev_perm).
  rewrite <- Permutation_middle. constructor; [|done]. rewrite not_elem_of_app. tauto.
Qed.

Lemma StronglySorted_snoc {A} (R : A -> A -> Prop) l x :
  StronglySorted R l -> Forall (fun y => R y x) l -> StronglySorted R (l ++ [x]).
Proof.
  induction l as [|y l IH]; simpl; intros Hs Hf; [by constructor; constructor|].
  apply StronglySorted_inv in Hs as [Hs Hy]. apply Forall_cons in Hf as [? Hf].
  constructor; [by apply IH|]. apply Forall_app. split; [done|by constructor].
Qed.

Lemma key_desc_rev l : key_desc l -> key_sorted (rev l).
Proof.
  induction l as [|x l IH]; simpl; intros Hs; [constructor|].
  apply StronglySorted_inv in Hs as [Hs Hf]. apply StronglySorted_snoc; [by apply IH|].
  by rewrite <- Permutation_rev.
Qed.

Lemma sort_list_sorted l : NoDup (keys l) -> key_sorted (sort_list l).
Proof.
  intros Hn. apply key_desc_rev, foldl_ins_desc; [constructor|]. by rewrite app_nil_r.
Qed.

Lemma key_sorted_inv s l :
  key_sorted (s :: l) -> key_sorted l /\ Forall (fun b => lex_lt (skey s) (skey b) = true) l.
Proof. apply StronglySorted_inv. Qed.

Lemma key_sorted_nodup l : key_sorted l -> NoDup (keys l).
Proof.
  induction l as [|s l IH]; intros H; [constructor|]. apply key_sorted_inv in H as [H Hf].
  constructor; [|by apply IH]. intros Hin. apply list_elem_of_fmap in Hin as (b & Hb & Hin).
  eapply Forall_forall in Hf; [|done]. rewrite Hb in Hf. by rewrite lex_lt_irrefl in Hf.
Qed.

(** A sorted list is determined by its elements. *)
Lemma key_sorted_unique l k : key_sorted l -> key_sorted k -> l ≡ₚ k -> l = k.
Proof.
  revert k. induction l as [|x l IH]; intros k Hl Hk Hp.
  - by apply Permutation_nil_l in Hp.
  - destruct k as [|y k]; [by apply Permutation_nil_r in Hp|].
    apply key_sorted_inv in Hl as [Hl Hx], Hk as [Hk Hy].
    assert (x = y) as ->.
    { assert (x ∈ y :: k) as H1 by (rewrite <- Hp; left).
      assert (y ∈ x :: l) as H2 by (rewrite Hp; left).
      apply elem_of_cons in H1 as [|H1], H2 as [|H2]; try done.
      eapply Forall_forall in Hx; [|done]. eapply Forall_forall in Hy; [|done].
      apply lex_lt_asym in Hx. congruence. }
    f_equal. apply IH; [done..|]. by apply Permutation_cons_inv in Hp.
Qed.

Lemma sort_list_id l : key_sorted l -> sort_list l = l.
Proof.
  intros H. apply key_sorted_unique; [|done|apply sort_list_perm].
  by apply sort_list_sorted, key_sorted_nodup.
Qed.

(** *** Pruning *)

Lemma first_occs_ext s1 s2 l :
  (forall k, k ∈ s1 <-> k ∈ s2) -> first_occs s1 l = first_occs s2 l.
Proof.
  revert s1 s2. induction l as [|x l IH]; intros s1 s2 He; simpl; [done|].
  rewrite (decide_ext (skey x ∈ s1) (skey x ∈ s2)) by apply He.
  case_decide; [by apply IH|]. f_equal. apply IH. set_solver.
Qed.

Lemma first_occs_app s l k :
  first_occs s (l ++ k) = first_occs s l ++ first_occs (keys l ++ s) k.
Proof.
  revert s. induction l as [|x l IH]; intros s; simpl; [done|]. case_decide as Hx.
  - rewrite IH. f_equal. apply first_occs_ext. intros k'. set_solver.
  - simpl. rewrite IH. f_equal. f_equal. apply first_occs_ext. set_solver.
Qed.

Lemma first_occs_fresh s l x :
  x ∉ keys l -> first_occs (x :: s) l = first_occs s l.
Proof.
  revert s. induction l as [|y l IH]; intros s Hn; simpl; [done|].
  simpl in Hn. apply not_elem_of_cons in Hn as [Hy Hn].
  rewrite (decide_ext (skey y ∈ x :: s) (skey y ∈ s)) by set_solver.
  case_decide; [by apply IH|]. f_equal. rewrite <- (IH (skey y :: s)) by done.
  apply first_occs_ext. set_solver.
Qed.

(** Removing a duplicate by moving the last pair into its place. *)
Lemma first_occs_move l1 x l2 y :
  skey x ∈ keys l1 -> skey y ∉ keys (l1 ++ x :: l2) ->
  first_occs [] (l1 ++ y :: l2) ≡ₚ first_occs [] (l1 ++ x :: l2 ++ [y]).
Proof.
  intros Hx Hy. unfold keys in Hy. rewrite fmap_app, fmap_cons in Hy.
  apply not_elem_of_app in Hy as [Hy1 Hy2]. apply not_elem_of_cons in Hy2 as [Hyx Hy2].
  rewrite !first_occs_app, !app_nil_r. apply Permutation_app_head. simpl.
  rewrite decide_False by done. rewrite decide_True by done.
  rewrite first_occs_fresh by done. rewrite first_occs_app. simpl.
  rewrite decide_False by (rewrite not_elem_of_app; done).
  by rewrite <- Permutation_cons_append.
Qed.

Lemma first_occs_drop_last l1 x :
  skey x ∈ keys l1 -> first_occs [] (l1 ++ [x]) = first_occs [] l1.
Proof.
  intros Hx. rewrite first_occs_app. simpl. rewrite decide_True by (by rewrite app_nil_r).
  by rewrite app_nil_r.
Qed.

Lemma first_occs_nodup l : NoDup (keys l) -> first_occs [] l = l.
Proof.
  assert (forall s, NoDup (keys l) -> (forall k, k ∈ s -> k ∉ keys l) -> first_occs s l = l) as H.
  { induction l as [|x l IH]; intros s Hn Hs; simpl; [done|]. apply NoDup_cons in Hn as [Hx Hn].
    rewrite decide_False by (intros Hin; eapply Hs; [done|left]). f_equal.
    apply IH; [done|]. intros k Hk. apply elem_of_cons in Hk as [->|Hk]; [done|].
    intros Hin. eapply Hs; [done|by right]. }
  intros Hn. apply H; [done|]. intros k Hk. by apply elem_of_nil in Hk.
Qed.

Lemma first_index_Some k l i :
  first_index k l = Some i <->
  (exists s, l !! i = Some s /\ skey s = k) /\ forall j s, l !! j = Some s -> (j < i)%nat -> skey s <> k.
Proof.
  unfold first_index. rewrite fmap_Some. split.
  - intros ([i' s] & Hf & ->). apply list_find_Some in Hf as (Hs & Hk & Hj). simpl.
    split; [eauto|]. intros j s' Hj' Hlt. by eapply Hj.
  - intros [(s & Hs & Hk) Hj]. exists (i, s). split; [|done]. apply list_find_Some.
    split_and!; [done|done|]. intros j s' Hs' Hlt. by eapply Hj.
Qed.

Lemma first_index_elem k l s i :
  l !! i = Some s -> skey s = k -> exists j, first_index k l = Some j /\ (j <= i)%nat.
Proof.
  intros Hs Hk. unfold first_index.
  destruct (list_find (fun s => skey s = k) l) as [[j s']|] eqn:Hf.
  - exists j. split; [done|]. apply list_find_Some in Hf as (_ & _ & Hj).
    destruct (decide (j <= i)%nat) as [|Hlt]; [done|]. exfalso. eapply Hj; [done|lia|done].
  - apply list_find_None in Hf. eapply Forall_lookup_1 in Hf; [|done]. done.
Qed.

(** From index [i] on, every pair is the first with its key. *)
Definition tail_firsts (l : list slot) (i : nat) : Prop :=
  forall j s, (i <= j)%nat -> l !! j = Some s -> first_index (skey s) l = Some j.

(** What removing the duplicate at [i] amounts to. *)
Lemma remove_slot_cases l i s j :
  l !! i = Some s -> first_index (skey s) l = Some j -> (j < i)%nat -> tail_firsts l (S i) ->
  exists l1, length l1 = i /\ skey s ∈ keys l1 /\
    ((l = l1 ++ [s] /\ remove_slot l i = l1) \/
     (exists l2 y, l = l1 ++ s :: l2 ++ [y] /\ skey y ∉ keys (l1 ++ s :: l2) /\
        remove_slot l i = l1 ++ y :: l2)).
Proof.
  intros Hs Hj Hlt Ht. exists (take i l). pose proof (lookup_lt_Some _ _ _ Hs) as Hil.
  split; [rewrite length_take; lia|]. split.
  { apply first_index_Some in Hj as [(s' & Hs' & Hk) _]. rewrite <- Hk.
    apply list_elem_of_fmap_2, list_elem_of_lookup. exists j. by rewrite lookup_take_lt. }
  pose proof (take_drop_middle l i s Hs) as Hsplit. unfold remove_slot.
  destruct (drop (S i) l) as [|z zs] eqn:Hd.
  - left. split; [done|]. rewrite <- Hsplit at 1. rewrite last_snoc.
    assert (length l = S i) by (rewrite <- Hsplit, length_app, length_take; simpl; lia).
    by rewrite decide_True.
  - right. destruct (exists_last (l := z :: zs)) as (l2 & y & Hl2); [done|]. rewrite Hl2 in *.
    exists l2, y. assert (length l = (i + S (length l2 + 1))%nat) as Hlen.
    { rewrite <- Hsplit, length_app, length_take. simpl. rewrite length_app. simpl. lia. }
    split; [done|]. split.
    + intros Hin. apply list_elem_of_fmap in Hin as (b & Hb & Hin).
      apply list_elem_of_lookup in Hin as [k Hk].
      assert (l !! (i + S (length l2))%nat = Some y) as Hy.
      { rewrite <- Hsplit. rewrite lookup_app_r by (rewrite length_take; lia).
        rewrite length_take. replace (i + S (length l2) - i `min` length l)%nat with (S (length l2)) by lia.
        simpl. rewrite lookup_app_r by lia. by rewrite Nat.sub_diag. }
      pose proof (Ht (i + S (length l2))%nat y ltac:(lia) Hy) as Hfy. apply first_index_Some in Hfy as [_ Hfy].
      pose proof (lookup_lt_Some _ _ _ Hk) as Hkl.
      rewrite length_app, length_take in Hkl. simpl in Hkl.
      apply (Hfy k b); [|lia|done]. rewrite <- Hsplit, app_comm_cons, app_assoc.
      by apply lookup_app_l_Some.
    + rewrite <- Hsplit at 1. rewrite app_comm_cons, app_assoc, last_snoc.
      rewrite decide_False by lia.
      assert (take (length l - 1) l = take i l ++ s :: l2) as ->.
      { rewrite <- Hsplit at 2. rewrite app_comm_cons, app_assoc. apply take_app_length'.
        rewrite length_app, length_take. simpl. lia. }
      rewrite insert_app_r_alt by (rewrite length_take; lia).
      rewrite length_take. by replace (i - i `min` length l)%nat with 0%nat by lia.
Qed.

Lemma remove_slot_spec l i s j :
  l !! i = Some s -> first_index (skey s) l = Some j -> (j < i)%nat -> tail_firsts l (S i) ->
  S (length (remove_slot l i)) = length l /\ (i <= length (remove_slot l i))%nat /\
  (forall k, (k < i)%nat -> remove_slot l i !! k = l !! k) /\
  first_occs [] (remove_slot l i) ≡ₚ first_occs [] l /\
  tail_firsts (remove_slot l i) i.
Proof.
  intros Hs Hj Hlt Ht.
  destruct (remove_slot_cases l i s j Hs Hj Hlt Ht)
    as (l1 & Hl1 & Hk1 & [[Hl ->]|(l2 & y & Hl & Hy & ->)]).
  - subst i. rewrite Hl, length_app. simpl. split_and!; [lia|lia| | |].
    + intros k Hk. by rewrite lookup_app_l.
    + by rewrite first_occs_drop_last.
    + intros k s' Hk Hs'. apply lookup_lt_Some in Hs'. lia.
  - subst i. rewrite Hl, !length_app. simpl. rewrite length_app. simpl.
    split_and!; [lia|lia| | |].
    + intros k Hk. by rewrite !lookup_app_l.
    + by apply first_occs_move.
    + (* the moved pair and those after it are firsts *)
      assert (forall k s', (length l1 <= k)%nat -> (l1 ++ y :: l2) !! k = Some s' ->
        forall k' s'', (k' < k)%nat -> (l1 ++ y :: l2) !! k' = Some s'' -> skey s'' <> skey s') as Hf.
      2:{ intros k s' Hk Hs'. apply first_index_Some. split; [by eauto|]. intros k' s'' Hs'' Hlt'. by eapply Hf. }
      unfold keys in Hy. rewrite fmap_app, fmap_cons, not_elem_of_app, not_elem_of_cons in Hy.
      destruct Hy as (Hy1 & _ & Hy2).
      intros k s' Hk Hs' k' s'' Hlt' Hs'' Heq. rewrite lookup_app_r in Hs' by done.
      destruct (k - length l1)%nat as [|d] eqn:Hd; simpl in Hs'.
      * injection Hs' as <-. rewrite lookup_app_l in Hs'' by lia. destruct Hy1. rewrite <- Heq.
        apply list_elem_of_fmap_2. by eapply list_elem_of_lookup_2.
      * assert (l !! k = Some s') as Hlk.
        { rewrite Hl. rewrite lookup_app_r by done. rewrite Hd. simpl.
          rewrite lookup_app_l; [done|]. by eapply lookup_lt_Some. }
        pose proof (Ht k s' ltac:(lia) Hlk) as Hfi. apply first_index_Some in Hfi as [_ Hfi].
        destruct (decide (k' = length l1)) as [->|Hne].
        -- rewrite lookup_app_r, Nat.sub_diag in Hs'' by lia. injection Hs'' as <-.
           destruct Hy2. rewrite Heq. apply list_elem_of_fmap_2. by eapply list_elem_of_lookup_2.
        -- assert (l !! k' = Some s'') as Hlk'; [|by eapply Hfi].
           rewrite Hl. destruct (decide (k' < length l1)%nat).
           ++ rewrite lookup_app_l in Hs'' |- * by done. done.
           ++ rewrite lookup_app_r in Hs'' |- * by lia.
              destruct (k' - length l1)%nat as [|d'] eqn:Hd'; [lia|]. simpl in Hs'' |- *.
              rewrite lookup_app_l; [done|]. by eapply lookup_lt_Some.
Qed.

Lemma prune_list_spec l i :
  (i <= length l)%nat -> tail_firsts l i ->
  first_occs [] (prune_list l i) ≡ₚ first_occs [] l /\ tail_firsts (prune_list l i) 0.
Proof.
  revert l. induction i as [|i IH]; intros l Hi Ht; simpl; [done|].
  destruct (lookup_lt_is_Some_2 l i) as [s Hs]; [lia|]. rewrite Hs.
  destruct (first_index_elem _ l s i Hs eq_refl) as (j & Hj & Hji). rewrite Hj.
  case_decide as Hd.
  - injection Hd as ->. apply IH; [lia|]. intros k s' Hk Hs'.
    destruct (decide (k = i)) as [->|]; [by simplify_eq|]. apply Ht; [lia|done].
  - assert (j < i)%nat as Hlt by (assert (j <> i) by congruence; lia).
    destruct (remove_slot_spec l i s j Hs Hj Hlt Ht) as (_ & Hl & _ & Hp & Ht').
    destruct (IH (remove_slot l i)) as [Hp' Ht'']; [done..|]. split; [|done]. by rewrite Hp'.
Qed.

Lemma tail_firsts_nodup l : tail_firsts l 0 -> NoDup (keys l).
Proof.
  intros Ht. apply NoDup_alt. intros i j k Hi Hj. unfold keys in *.
  rewrite list_lookup_fmap in Hi, Hj. apply fmap_Some in Hi as (s & Hs & ->).
  apply fmap_Some in Hj as (s' & Hs' & Hk). pose proof (Ht _ _ ltac:(lia) Hs) as H1.
  pose proof (Ht _ _ ltac:(lia) Hs') as H2. congruence.
Qed.

(** The specification of the whole operation. *)
Lemma canonical_list_spec l :
  key_sorted (canonical_list l) /\ canonical_list l ≡ₚ first_occs [] l.
Proof.
  assert (tail_firsts l (length l)) as Ht.
  { intros j s Hj Hs. apply lookup_lt_Some in Hs. lia. }
  destruct (prune_list_spec l (length l) ltac:(lia) Ht) as [Hp Ht0].
  apply tail_firsts_nodup in Ht0. unfold canonical_list. split; [by apply sort_list_sorted|].
  rewrite sort_list_perm. by rewrite first_occs_nodup in Hp.
Qed.

(** ** Refinement: the array of pairs *)

Lemma key_less_loop_spec m p q bs cs :
  loadz m p (zlen bs) = Some bs -> loadz m q (zlen cs) = Some cs ->
  key_less_loop m p q (min (length bs) (length cs)) (zlen bs <? zlen cs) = Some (lex_lt bs cs).
Proof.
  revert p q cs. induction bs as [|x bs IH]; intros p q [|y cs] Hp Hq.
  - done.
  - cbn [length Nat.min key_less_loop lex_lt]. assert (zlen (@nil Z) <? zlen (y :: cs) = true) as ->;
      [apply Z.ltb_lt; zlen_lia|done].
  - cbn [length Nat.min key_less_loop lex_lt]. assert (zlen (x :: bs) <? zlen (@nil Z) = false) as ->;
      [apply Z.ltb_ge; zlen_lia|done].
  - unfold loadz, zlen in Hp, Hq. rewrite !Nat2Z.id in Hp, Hq.
    cbn [length] in Hp, Hq. rewrite load_S in Hp, Hq.
    destruct (m !! p) as [x'|] eqn:Hx; cbn [mbind option_bind] in Hp; [|discriminate Hp].
    destruct (m !! q) as [y'|] eqn:Hy; cbn [mbind option_bind] in Hq; [|discriminate Hq].
    destruct (load m (p + 1) _) as [bs'|] eqn:Hb; cbn [mbind option_bind] in Hp; [|discriminate Hp].
    destruct (load m (q + 1) _) as [cs'|] eqn:Hc; cbn [mbind option_bind] in Hq; [|discriminate Hq].
    simplify_eq.
    cbn [length Nat.min key_less_loop lex_lt]. rewrite Hx. cbn [mbind option_bind].
    rewrite Hy. cbn [mbind option_bind].
    destruct (x <? y) eqn:E1; [done|]. destruct (y <? x) eqn:E2; zify_bool.
    + by rewrite (proj2 (Z.eqb_neq x y)) by lia.
    + rewrite (proj2 (Z.eqb_eq x y)) by lia. simpl.
      assert (zlen (x :: bs) <? zlen (y :: cs) = (zlen bs <? zlen cs)) as ->.
      { rewrite !zlen_cons. destruct (zlen bs <? zlen cs) eqn:E; zify_bool;
          [apply Z.ltb_lt|apply Z.ltb_ge]; lia. }
      apply IH; unfold loadz, zlen; by rewrite Nat2Z.id.
Qed.

(** Keys of two pairs in memory are compared in the lexicographic order. *)
Lemma is_key_less_spec m lhs rhs k1 k2 :
  buf_bytes m (gg_kv_key lhs) = Some k1 -> buf_bytes m (gg_kv_key rhs) = Some k2 ->
  0 <= len (gg_kv_key lhs) -> 0 <= len (gg_kv_key rhs) ->
  is_key_less m lhs rhs = Some (lex_lt k1 k2).
Proof.
  unfold buf_bytes. intros H1 H2 Hl1 Hl2.
  pose proof (loadz_zlen _ _ _ _ H1) as Hz1. pose proof (loadz_zlen _ _ _ _ H2) as Hz2.
  rewrite Z.max_r in Hz1, Hz2 by done. rewrite <- Hz1 in H1. rewrite <- Hz2 in H2.
  unfold is_key_less. cbv zeta. rewrite <- Hz1, <- Hz2.
  rewrite <- (key_less_loop_spec m _ _ _ _ H1 H2). f_equal.
  unfold zlen. case_if; lia.
Qed.

Lemma disj_outside a n b k : disj a n b k -> forall x, b <= x < b + k -> ~ (a <= x < a + n).
Proof. unfold disj. lia. Qed.

Section refinement.
(** An array of [cap] pairs at [a]. *)
Context (a cap : Z).

Definition slot_ok (m : mem) (s : slot) : Prop :=
  let k := gg_kv_key (raw s) in
  zlen (raw s) = sizeof_GgKV /\ buf_bytes m k = Some (skey s) /\ 0 <= len k /\
  forall x, data k <= x < data k + len k -> ~ (a <= x < a + sizeof_GgKV * cap).

Definition slots_at (m : mem) (l : list slot) : Prop :=
  zlen l <= cap /\ mapped m a (sizeof_GgKV * cap) /\
  forall i s, rd l i = Some s -> read_kv m (a + sizeof_GgKV * i) = Some (raw s) /\ slot_ok m s.

(** Outside of the array the memory is the same. *)
Definition array_frame (m m' : mem) : Prop :=
  forall x, ~ (a <= x < a + sizeof_GgKV * cap) -> m' !! x = m !! x.

Lemma array_frame_refl m : array_frame m m.
Proof. done. Qed.

Lemma array_frame_trans m1 m2 m3 : array_frame m1 m2 -> array_frame m2 m3 -> array_frame m1 m3.
Proof. intros H1 H2 x Hx. rewrite H2 by done. by apply H1. Qed.

Lemma array_frame_store m p bs m' :
  store m p bs = Some m' -> a <= p -> p + zlen bs <= a + sizeof_GgKV * cap -> array_frame m m'.
Proof. intros Hs ?? x Hx. eapply store_out; [done|lia]. Qed.

Lemma slot_ok_frame m m' s : array_frame m m' -> slot_ok m s -> slot_ok m' s.
Proof.
  intros Hf (Hz & Hk & Hl & Hd). split_and!; try done.
  unfold buf_bytes in *. rewrite <- Hk. apply loadz_ext. intros x Hx. by apply Hf, Hd.
Qed.

Lemma slots_at_lookup m l i s :
  slots_at m l -> l !! i = Some s -> read_kv m (a + sizeof_GgKV * Z.of_nat i) = Some (raw s) /\ slot_ok m s.
Proof.
  intros (_ & _ & H) Hi. apply H. unfold rd. case_if; [lia|]. by rewrite Nat2Z.id.
Qed.

Lemma mapped_sub m p n q k : mapped m p n -> p <= q -> q + k <= p + n -> mapped m q k.
Proof. intros Hm ?? x Hx. apply Hm. lia. Qed.

(** Writing inside of the array, away from the first [n] pairs. *)
Lemma slots_at_store_beyond m l p bs m' :
  slots_at m l -> store m p bs = Some m' -> a + sizeof_GgKV * zlen l <= p ->
  p + zlen bs <= a + sizeof_GgKV * cap -> slots_at m' l.
Proof.
  intros (Hl & Hm & H) Hs Hp Hp'. pose proof (zlen_nonneg l). unfold sizeof_GgKV in *.
  split_and!; [done|by eapply store_mapped|]. intros i s Hi. pose proof (rd_Some _ _ _ Hi).
  destruct (H i s Hi) as [Hr Hok]. split.
  - rewrite <- Hr. eapply loadz_store_disj; [done|]. unfold disj, sizeof_GgKV. lia.
  - eapply slot_ok_frame; [|done]. eapply array_frame_store; [done|lia|unfold sizeof_GgKV; lia].
Qed.

(** Writing a pair over another. *)
Lemma slots_at_insert m l i s m' :
  slots_at m l -> (i < length l)%nat -> slot_ok m s ->
  store m (a + sizeof_GgKV * Z.of_nat i) (raw s) = Some m' ->
  slots_at m' (<[i := s]> l) /\ array_frame m m'.
Proof.
  intros (Hl & Hm & H) Hi Hok Hs. assert (zlen (raw s) = sizeof_GgKV) as Hz by apply Hok.
  unfold zlen in Hl. unfold sizeof_GgKV in *.
  assert (array_frame m m') as Hf by (eapply array_frame_store; [done|lia|unfold sizeof_GgKV; lia]).
  split; [|done]. split_and!.
  - unfold zlen. rewrite length_insert. lia.
  - by eapply store_mapped.
  - intros j s' Hj. unfold rd in Hj. case_if_in Hj; [done|].
    apply list_lookup_insert_Some in Hj as [(Hij & <- & _)|[Hij Hj]].
    + split; [|by eapply slot_ok_frame]. unfold read_kv, sizeof_GgKV.
      replace j with (Z.of_nat i) by lia. rewrite <- Hz at 2. by eapply loadz_store_same.
    + destruct (H j s') as [Hr Hok'].
      { unfold rd. case_if; [lia|done]. }
      split; [|by eapply slot_ok_frame]. rewrite <- Hr. unfold read_kv, sizeof_GgKV.
      eapply loadz_store_disj; [done|]. unfold disj. lia.
Qed.

Lemma slots_at_prefix m l k : slots_at m l -> k `prefix_of` l -> slots_at m k.
Proof.
  intros (Hl & Hm & H) [r ->]. split_and!; [zlen_lia|done|]. intros i s Hi. apply H.
  rewrite rd_app_l; [done|]. by eapply rd_Some.
Qed.

Lemma slots_store m l i s :
  slots_at m l -> (i < length l)%nat -> slot_ok m s ->
  exists m', store m (a + sizeof_GgKV * Z.of_nat i) (raw s) = Some m' /\
    slots_at m' (<[i := s]> l) /\ array_frame m m'.
Proof.
  intros Hsl Hi Hok. destruct (store_Some m (a + sizeof_GgKV * Z.of_nat i) (raw s)) as [m' Hs].
  { destruct Hok as (-> & _). destruct Hsl as (Hl & Hm & _). unfold zlen, sizeof_GgKV in *.
    eapply mapped_sub; [done|lia|lia]. }
  exists m'. split; [done|]. by eapply slots_at_insert.
Qed.

(** *** Look-up *)

Lemma map_get_loop_slots m l key i :
  slots_at m l -> (i <= length l)%nat ->
  map_get_loop m key (length l - i) (a + sizeof_GgKV * Z.of_nat i) =
    Some ((fun j => gg_kv_val (a + sizeof_GgKV * Z.of_nat (i + j))) <$> first_index key (drop i l)).
Proof.
  intros Hs Hi. remember (length l - i)%nat as n eqn:Hn. revert i Hi Hn.
  induction n as [|n IH]; intros i Hi Hn.
  - rewrite drop_ge by lia. done.
  - destruct (lookup_lt_is_Some_2 l i) as [s Hl]; [lia|]. rewrite (drop_S _ _ _ Hl).
    destruct (slots_at_lookup _ _ _ _ Hs Hl) as [Hr (_ & Hk & Hl0 & _)]. simpl.
    rewrite Hr. cbn [mbind option_bind]. erewrite gg_buffer_eq_in_spec by done.
    cbn [mbind option_bind]. unfold first_index. simpl. case_decide as Hd.
    + rewrite bool_decide_true by done. simpl. by rewrite Nat.add_0_r.
    + rewrite bool_decide_false by done.
      replace (a + sizeof_GgKV * Z.of_nat i + sizeof_GgKV)
        with (a + sizeof_GgKV * Z.of_nat (S i)) by (unfold sizeof_GgKV; lia).
      rewrite IH by lia. unfold first_index. destruct (list_find _ (drop (S i) l)) as [[j s']|]; [|done].
      simpl. do 3 f_equal. lia.
Qed.

Lemma gg_map_get_slots m l key j :
  slots_at m l -> first_index key l = Some j ->
  gg_map_get m (mkMap a (zlen l)) key = Some (true, gg_kv_val (a + sizeof_GgKV * Z.of_nat j)).
Proof.
  intros Hs Hj. unfold gg_map_get. simpl. unfold zlen at 1. rewrite Nat2Z.id.
  pose proof (map_get_loop_slots m l key 0 Hs ltac:(lia)) as H.
  rewrite Nat.sub_0_r, Z.mul_0_r, Z.add_0_r in H. rewrite H, drop_0, Hj. done.
Qed.

(** *** Pruning *)

Context (pruned : BufPtr) (pruned_len : 0 <= len pruned <= UINT16_MAX).

Lemma drop_last_spec m l :
  slots_at m l -> l <> [] ->
  exists m', drop_last pruned m (mkMap a (zlen l)) = Some (m', mkMap a (zlen l - 1)) /\
    slots_at m' (take (length l - 1) l) /\ array_frame m m'.
Proof.
  intros Hs Hne. destruct (exists_last Hne) as (k & s & ->). rewrite zlen_app.
  change (zlen [s]) with 1. replace (zlen k + 1 - 1) with (zlen k) by lia.
  rewrite length_app. simpl length. replace (length k + 1 - 1)%nat with (length k) by lia.
  rewrite take_app_length.
  destruct (slots_at_lookup m _ (length k) s Hs) as [Hr Hok].
  { rewrite lookup_app_r by lia. by rewrite Nat.sub_diag. }
  change (Z.of_nat (length k)) with (zlen k) in Hr.
  assert (zlen k + 1 <= cap /\ mapped m a (sizeof_GgKV * cap)) as [Hcap Hm].
  { destruct Hs as (Hl & ? & _). split; [|done]. rewrite zlen_app in Hl. done. }
  apply (slots_at_prefix _ _ k) in Hs; [|by apply prefix_app_r].
  pose proof (zlen_nonneg k). unfold drop_last, pair_addr. cbn [pairs map_len]. cbv zeta.
  replace (zlen k + 1 - 1) with (zlen k) by lia. rewrite Hr. cbn [mbind option_bind].
  destruct Hok as (Hz & _). rewrite <- (ztake_zdrop 10 (raw s)).
  rewrite gg_kv_set_key_layout; [|unfold sizeof_GgKV in Hz; zlen_lia|done]. cbn [mbind option_bind].
  set (kv := _ ++ _).
  assert (zlen kv = 21) as Hkv by (unfold kv; rewrite zlen_app, zlen_ptr_len_bytes, zlen_drop; unfold sizeof_GgKV in Hz; lia).
  unfold sizeof_GgKV in *.
  destruct (store_Some m (a + (8 + 2 + 11) * zlen k) kv) as [m1 Hm1].
  { eapply mapped_sub; [done|lia|lia]. }
  rewrite Hm1. cbn [mbind option_bind]. change (8 + 2 + 11) with 21 in *.
  destruct (store_Some m1 (gg_kv_val (a + 21 * zlen k)) GG_OBJ_NULL) as [m2 Hm2].
  { eapply store_mapped; [done|]. unfold gg_kv_val. change (zlen GG_OBJ_NULL) with 11.
    eapply mapped_sub; [done|lia|lia]. }
  rewrite Hm2. cbn [mbind option_bind]. exists m2. split; [done|].
  unfold gg_kv_val in Hm2. split.
  - eapply slots_at_store_beyond; [|done| |]; [eapply slots_at_store_beyond; [done|done| |]|..];
      change (zlen GG_OBJ_NULL) with 11; unfold sizeof_GgKV; lia.
  - eapply array_frame_trans; eapply array_frame_store; try done;
      change (zlen GG_OBJ_NULL) with 11; unfold sizeof_GgKV; lia.
Qed.

Lemma pair_addr_at n i : pair_addr (mkMap a n) i = a + sizeof_GgKV * i.
Proof. done. Qed.

Lemma remove_slot_at m l i s :
  slots_at m l -> l !! i = Some s ->
  exists m', (m ← (if Z.of_nat (S i) =? zlen l then Some m
                   else r ← read_kv m (pair_addr (mkMap a (zlen l)) (zlen l - 1));
                        store m (pair_addr (mkMap a (zlen l)) (Z.of_nat i)) r);
              drop_last pruned m (mkMap a (zlen l))) =
    Some (m', mkMap a (zlen (remove_slot l i))) /\
    slots_at m' (remove_slot l i) /\ array_frame m m'.
Proof.
  intros Hs Hi. pose proof (lookup_lt_Some _ _ _ Hi) as Hil.
  assert (l <> []) as Hne by (intros ->; simpl in Hil; lia).
  destruct (exists_last Hne) as (k & y & Hl).
  assert (length l = S (length k)) as Hlen by (rewrite Hl, length_app; simpl; lia).
  assert (last l = Some y) as Hlast by (rewrite Hl; apply last_snoc).
  unfold remove_slot. rewrite Hlast. case_if.
  - cbn [mbind option_bind]. unfold zlen in E. rewrite decide_True by lia.
    destruct (drop_last_spec m l Hs Hne) as (m' & Hd & Hs' & Hf). exists m'. rewrite Hd.
    replace (length l - 1)%nat with i in * by lia. split; [|done]. do 2 f_equal. f_equal.
    unfold zlen. rewrite length_take. lia.
  - unfold zlen in E. rewrite decide_False by lia.
    assert (l !! length k = Some y) as Hy.
    { rewrite Hl, lookup_app_r by lia. by rewrite Nat.sub_diag. }
    destruct (slots_at_lookup _ _ _ _ Hs Hy) as [Hr Hok]. rewrite !pair_addr_at.
    replace (zlen l - 1) with (Z.of_nat (length k)) by (unfold zlen; lia).
    rewrite Hr. cbn [mbind option_bind].
    destruct (slots_store m l i y Hs Hil Hok) as (m1 & Hm1 & Hs1 & Hf1).
    rewrite Hm1. cbn [mbind option_bind].
    assert (<[i:=y]> l <> []) as Hne1.
    { intros He. apply (f_equal length) in He. rewrite length_insert in He. simpl in He. lia. }
    destruct (drop_last_spec m1 (<[i:=y]> l) Hs1 Hne1) as (m2 & Hd & Hs2 & Hf2).
    assert (zlen (<[i:=y]> l) = zlen l) as Hz by (unfold zlen; by rewrite length_insert).
    rewrite Hz in Hd. rewrite length_insert in Hs2. exists m2. rewrite Hd.
    assert (take (length l - 1) (<[i:=y]> l) = <[i:=y]> (take (length l - 1) l)) as Ht.
    { apply take_insert_lt. lia. }
    rewrite Ht in Hs2. split; [|split; [done|by eapply array_frame_trans]].
    do 2 f_equal. f_equal. unfold zlen. rewrite length_insert, length_take. lia.
Qed.

Lemma prune_duplicates_spec m l i :
  slots_at m l -> (i <= length l)%nat -> tail_firsts l i ->
  exists m', prune_duplicates pruned m (mkMap a (zlen l)) i =
      Some (m', mkMap a (zlen (prune_list l i))) /\
    slots_at m' (prune_list l i) /\ array_frame m m'.
Proof.
  revert m l. induction i as [|i IH]; intros m l Hs Hi Ht.
  { exists m. simpl. split; [done|]. split; [done|apply array_frame_refl]. }
  cbn [prune_duplicates prune_list].
  destruct (lookup_lt_is_Some_2 l i) as [s Hl]; [lia|]. rewrite Hl.
  destruct (slots_at_lookup _ _ _ _ Hs Hl) as [Hr (_ & Hk & _)]. rewrite pair_addr_at.
  rewrite Hr. cbn [mbind option_bind]. rewrite Hk. cbn [mbind option_bind].
  destruct (first_index_elem _ l s i Hl eq_refl) as (j & Hj & Hji).
  rewrite (gg_map_get_slots _ _ _ _ Hs Hj). cbn [mbind option_bind map_len]. rewrite Hj.
  assert ((gg_kv_val (a + sizeof_GgKV * Z.of_nat j) =? gg_kv_val (a + sizeof_GgKV * Z.of_nat i)) =
    bool_decide (Some j = Some i)) as ->.
  { unfold gg_kv_val, sizeof_GgKV. case_bool_decide as Hd.
    - injection Hd as ->. apply Z.eqb_refl.
    - apply Z.eqb_neq. intros He. apply Hd. f_equal. lia. }
  case_bool_decide as Hd.
  - injection Hd as ->. rewrite decide_True by done. apply IH; [done|lia|].
    intros k s' Hk' Hs'. destruct (decide (k = i)) as [->|]; [by simplify_eq|]. apply Ht; [lia|done].
  - rewrite decide_False by done.
    assert (j < i)%nat as Hlt by (assert (j <> i) by congruence; lia).
    destruct (remove_slot_spec l i s j Hl Hj Hlt Ht) as (_ & Hl' & _ & _ & Ht').
    destruct (remove_slot_at m l i s Hs Hl) as (m1 & He & Hs1 & Hf1).
    destruct (IH m1 (remove_slot l i) Hs1 Hl' Ht') as (m2 & He2 & Hs2 & Hf2).
    exists m2. split; [|split; [done|by eapply array_frame_trans]].
    rewrite <- He2. rewrite !pair_addr_at in He. rewrite !pair_addr_at.
    destruct (if Z.of_nat (S i) =? zlen l then _ else _) as [m0|]; [|done].
    cbn [mbind option_bind] in He |- *. by rewrite He.
Qed.

(** *** Sorting *)

Lemma swap_pairs_spec m l i j s t :
  slots_at m l -> l !! i = Some s -> l !! j = Some t ->
  exists m', swap_pairs m (a + sizeof_GgKV * Z.of_nat i) (a + sizeof_GgKV * Z.of_nat j) = Some m' /\
    slots_at m' (<[j := s]> (<[i := t]> l)) /\ array_frame m m'.
Proof.
  intros Hs Hi Hj. destruct (slots_at_lookup _ _ _ _ Hs Hi) as [Hri Hoki].
  destruct (slots_at_lookup _ _ _ _ Hs Hj) as [Hrj Hokj].
  unfold swap_pairs. rewrite Hri. cbn [mbind option_bind]. rewrite Hrj. cbn [mbind option_bind].
  pose proof (lookup_lt_Some _ _ _ Hi). pose proof (lookup_lt_Some _ _ _ Hj).
  destruct (slots_store m l i t Hs ltac:(done) Hokj) as (m1 & -> & Hs1 & Hf1).
  cbn [mbind option_bind].
  destruct (slots_store m1 _ j s Hs1) as (m2 & -> & Hs2 & Hf2).
  { by rewrite length_insert. }
  { by eapply slot_ok_frame. }
  exists m2. split; [done|]. split; [done|by eapply array_frame_trans].
Qed.

(** The inner loop inserts a pair into the sorted part before it. *)
Lemma sort_down_spec m rp x r n :
  slots_at m (rev rp ++ x :: r) ->
  exists m', sort_down m (mkMap a n) (length rp) = Some m' /\
    slots_at m' (rev (ins_rev x rp) ++ r) /\ array_frame m m'.
Proof.
  revert m r. induction rp as [|b rp IH]; intros m r Hs.
  { exists m. simpl in *. split; [done|]. split; [done|apply array_frame_refl]. }
  cbn [length sort_down ins_rev]. simpl rev in Hs. rewrite <- app_assoc in Hs. simpl app in Hs.
  assert (length (rev rp) = length rp) as Hrl by apply length_rev.
  assert ((rev rp ++ b :: x :: r) !! length rp = Some b) as Hb.
  { rewrite lookup_app_r by lia. by replace (length rp - length (rev rp))%nat with 0%nat by lia. }
  assert ((rev rp ++ b :: x :: r) !! S (length rp) = Some x) as Hx.
  { rewrite lookup_app_r by lia. by replace (S (length rp) - length (rev rp))%nat with 1%nat by lia. }
  rewrite !pair_addr_at.
  destruct (slots_at_lookup _ _ _ _ Hs Hb) as [-> (_ & Hkb & Hlb & _)].
  destruct (slots_at_lookup _ _ _ _ Hs Hx) as [-> (_ & Hkx & Hlx & _)].
  cbn [mbind option_bind]. rewrite (is_key_less_spec _ _ _ _ _ Hkx Hkb Hlx Hlb).
  cbn [mbind option_bind]. case_if.
  - destruct (swap_pairs_spec _ _ _ _ _ _ Hs Hx Hb) as (m1 & -> & Hs1 & Hf1).
    cbn [mbind option_bind].
    assert (<[length rp:=x]> (<[S (length rp):=b]> (rev rp ++ b :: x :: r)) = rev rp ++ x :: b :: r) as He.
    { rewrite !insert_app_r_alt by lia.
      replace (S (length rp) - length (rev rp))%nat with 1%nat by lia.
      by replace (length rp - length (rev rp))%nat with 0%nat by lia. }
    rewrite He in Hs1. destruct (IH m1 (b :: r) Hs1) as (m2 & -> & Hs2 & Hf2).
    exists m2. split; [done|]. split; [|by eapply array_frame_trans].
    simpl rev. by rewrite <- app_assoc.
  - exists m. split; [done|]. split; [|apply array_frame_refl]. simpl rev. by rewrite <- !app_assoc.
Qed.

Lemma sort_keys_loop_spec m rp l n :
  slots_at m (rev rp ++ l) ->
  exists m', sort_keys_loop m (mkMap a n) (length rp) (length l) = Some m' /\
    slots_at m' (rev (foldl (fun rp x => ins_rev x rp) rp l)) /\ array_frame m m'.
Proof.
  revert m rp. induction l as [|x l IH]; intros m rp Hs; cbn [length sort_keys_loop foldl].
  { rewrite app_nil_r in Hs. exists m. split; [done|]. split; [done|apply array_frame_refl]. }
  destruct (sort_down_spec m rp x l n Hs) as (m1 & -> & Hs1 & Hf1). cbn [mbind option_bind].
  assert (length (ins_rev x rp) = S (length rp)) as Hl by (by rewrite ins_rev_perm).
  destruct (IH m1 (ins_rev x rp) Hs1) as (m2 & He & Hs2 & Hf2). rewrite Hl in He.
  exists m2. split; [done|]. split; [done|by eapply array_frame_trans].
Qed.

Lemma canonicalize_refines m l :
  slots_at m l ->
  exists m', gg_map_canonicalize_shallow pruned m (mkMap a (zlen l)) =
      Some (m', mkMap a (zlen (canonical_list l))) /\
    slots_at m' (canonical_list l) /\ array_frame m m'.
Proof.
  intros Hs. unfold gg_map_canonicalize_shallow. cbn [map_len].
  assert (tail_firsts l (length l)) as Ht.
  { intros j s Hj Hl. apply lookup_lt_Some in Hl. lia. }
  rewrite to_nat_zlen.
  destruct (prune_duplicates_spec m l (length l) Hs ltac:(lia) Ht) as (m1 & -> & Hs1 & Hf1).
  cbn [mbind option_bind]. set (p := prune_list l (length l)) in *.
  unfold sort_keys. cbn [map_len]. rewrite to_nat_zlen.
  destruct (sort_keys_loop_spec m1 [] p (zlen p) Hs1) as (m2 & He & Hs2 & Hf2). simpl length in He.
  rewrite He. cbn [mbind option_bind]. exists m2.
  assert (zlen (canonical_list l) = zlen p) as ->.
  { unfold canonical_list. fold p. unfold zlen. by rewrite sort_list_perm. }
  split; [done|]. split; [done|by eapply array_frame_trans].
Qed.

End refinement.

(** *** The test

    Only readable pairs are needed, wherever their keys are. *)

Definition slots_readable (m : mem) (a : Z) (l : list slot) : Prop :=
  forall i s, l !! i = Some s ->
    read_kv m (a + sizeof_GgKV * Z.of_nat i) = Some (raw s) /\
    buf_bytes m (gg_kv_key (raw s)) = Some (skey s) /\ 0 <= len (gg_kv_key (raw s)).

Lemma slots_at_readable a cap m l : slots_at a cap m l -> slots_readable m a l.
Proof.
  intros Hs i s Hi. destruct (slots_at_lookup a cap m l i s Hs Hi) as [Hr (_ & Hk & Hl & _)]. done.
Qed.

Lemma is_canonical_loop_spec m a l n i s :
  slots_readable m a l -> l !! i = Some s -> (S i + n = length l)%nat ->
  exists b, is_canonical_loop m (mkMap a (zlen l)) (Z.of_nat (S i)) n = Some b /\
    (b = true <-> key_sorted (drop i l)).
Proof.
  intros Hs. revert i s. induction n as [|n IH]; intros i s Hi Hn.
  - exists true. split; [done|]. split; [|done]. intros _. rewrite (drop_S _ _ _ Hi).
    rewrite drop_ge by lia. repeat constructor.
  - destruct (lookup_lt_is_Some_2 l (S i)) as [t Ht]; [lia|]. cbn [is_canonical_loop].
    rewrite !pair_addr_at. replace (Z.of_nat (S i) - 1) with (Z.of_nat i) by lia.
    destruct (Hs _ _ Hi) as (-> & Hk1 & Hl1).
    destruct (Hs _ _ Ht) as (-> & Hk2 & Hl2).
    cbn [mbind option_bind]. rewrite (is_key_less_spec _ _ _ _ _ Hk1 Hk2 Hl1 Hl2).
    cbn [mbind option_bind]. rewrite (drop_S _ _ _ Hi), (drop_S _ _ _ Ht).
    destruct (lex_lt (skey s) (skey t)) eqn:Hlt; cbn [negb].
    + destruct (IH (S i) t Ht ltac:(lia)) as (b & Hb & Hiff).
      replace (Z.of_nat (S i) + 1) with (Z.of_nat (S (S i))) by lia.
      exists b. split; [done|]. rewrite Hiff, (drop_S _ _ _ Ht). split; intros H.
      * apply SSorted_cons; [done|]. apply key_sorted_inv in H as [_ H].
        constructor; [done|]. eapply Forall_impl; [exact H|]. intros y Hy. by eapply lex_lt_trans.
      * by apply key_sorted_inv in H as [H _].
    + exists false. split; [done|]. split; [done|]. intros H. apply key_sorted_inv in H as [_ H].
      apply Forall_cons in H as [H _]. congruence.
Qed.

Lemma is_canonical_spec m a l :
  slots_readable m a l ->
  exists b, gg_map_is_canonical m (mkMap a (zlen l)) = Some b /\ (b = true <-> key_sorted l).
Proof.
  intros Hs. unfold gg_map_is_canonical. cbn [map_len]. rewrite to_nat_zlen.
  destruct l as [|s l].
  - exists true. split; [done|]. split; [|done]. constructor.
  - destruct (is_canonical_loop_spec m a (s :: l) (length l) 0 s Hs) as (b & Hb & Hiff); [done..|].
    exists b. split; [|done]. rewrite <- Hb. f_equal. simpl. lia.
Qed.

(** * Properties *)

(** C30: canonicalizing a map keeps, for each key, the pair where it occurs
    first, and sorts these pairs by key: the array then holds exactly the
    first occurrences, in strictly increasing order of their keys. It writes
    only inside of the array, and the result is recognised as canonical. *)
Theorem canonicalize_exact (pruned : BufPtr) (a cap : Z) (m : mem) (l : list slot) :
  0 <= len pruned <= UINT16_MAX -> slots_at a cap m l ->
  exists m' r, gg_map_canonicalize_shallow pruned m (mkMap a (zlen l)) = Some (m', mkMap a (zlen r)) /\
    slots_at a cap m' r /\ key_sorted r /\ r ≡ₚ first_occs [] l /\
    array_frame a cap m m' /\
    gg_map_is_canonical m' (mkMap a (zlen r)) = Some true.
Proof.
  intros Hp Hs. destruct (canonicalize_refines a cap pruned Hp m l Hs) as (m' & He & Hs' & Hf).
  destruct (canonical_list_spec l) as [Hsort Hperm]. exists m', (canonical_list l).
  split_and!; try done.
  apply slots_at_readable in Hs' as Hsr.
  destruct (is_canonical_spec m' a (canonical_list l) Hsr) as (b & -> & Hb).
  by rewrite (proj2 Hb Hsort).
Qed.

(** The map [{"b": null, "a": true, "b": false}] at 100, its keys at 10. *)
Definition example_pairs : list slot :=
  let kv p v := default [] (gg_kv (mkBuf p 1) v) in
  [mkSlot (kv 11 GG_OBJ_NULL) (GG_STR "b"); mkSlot (kv 10 (gg_obj_bool true)) (GG_STR "a");
   mkSlot (kv 12 (gg_obj_bool false)) (GG_STR "b")].

Definition example_pairs_mem : mem :=
  put (put ∅ 10 (GG_STR "abb")) 100 (concat (raw <$> example_pairs)).

Lemma example_pairs_at : slots_at 100 3 example_pairs_mem example_pairs.
Proof.
  assert (example_pairs_mem = put (put ∅ 10 (GG_STR "abb")) 100 (concat (raw <$> example_pairs))) as He
    by done.
  split_and!; [done| |].
  - intros x Hx. rewrite He, put_lookup. unfold over.
    rewrite decide_True by (change (zlen (concat (raw <$> example_pairs))) with 63;
      unfold sizeof_GgKV in Hx; lia).
    apply rd_is_Some. change (zlen (concat (raw <$> example_pairs))) with 63.
    unfold sizeof_GgKV in Hx. lia.
  - intros i s Hi. pose proof (rd_Some _ _ _ Hi) as Hb. change (zlen example_pairs) with 3 in Hb.
    assert (i = 0 \/ i = 1 \/ i = 2) as [->|[->| ->]] by lia; vm_compute in Hi; injection Hi as <-;
      (split; [by vm_compute|]); (split_and!; [by vm_compute..|]); apply disj_outside; left + right; by vm_compute.
Qed.

Lemma canonicalize_exact_witness :
  exists m' r, gg_map_canonicalize_shallow (mkBuf 5 8) example_pairs_mem (mkMap 100 3) =
      Some (m', mkMap 100 (zlen r)) /\
    slots_at 100 3 m' r /\ key_sorted r /\ r ≡ₚ first_occs [] example_pairs /\
    array_frame 100 3 example_pairs_mem m' /\
    gg_map_is_canonical m' (mkMap 100 (zlen r)) = Some true.
Proof.
  apply (canonicalize_exact (mkBuf 5 8) 100 3 example_pairs_mem example_pairs).
  - unfold UINT16_MAX. simpl. lia.
  - apply example_pairs_at.
Defined.

(** The test for canonical maps is exact: it holds if and only if the keys
    are strictly increasing in the lexicographic order of their bytes, and
    canonicalizing such a map leaves every pair where it is. *)
Theorem is_canonical_exact (pruned : BufPtr) (a cap : Z) (m : mem) (l : list slot) :
  0 <= len pruned <= UINT16_MAX -> slots_at a cap m l ->
  exists b, gg_map_is_canonical m (mkMap a (zlen l)) = Some b /\
    (b = true <-> key_sorted l) /\
    (b = true -> exists m',
       gg_map_canonicalize_shallow pruned m (mkMap a (zlen l)) = Some (m', mkMap a (zlen l)) /\
       slots_at a cap m' l).
Proof.
  intros Hp Hs. destruct (is_canonical_spec m a l (slots_at_readable _ _ _ _ Hs)) as (b & Hb & Hiff).
  exists b. split; [done|]. split; [done|]. intros Htrue. apply Hiff in Htrue.
  destruct (canonicalize_refines a cap pruned Hp m l Hs) as (m' & He & Hs' & _).
  destruct (canonical_list_spec l) as [Hsort Hperm].
  rewrite (first_occs_nodup l) in Hperm by by apply key_sorted_nodup.
  rewrite (key_sorted_unique _ _ Hsort Htrue Hperm) in He, Hs'. eauto.
Qed.

Lemma is_canonical_exact_witness :
  exists b, gg_map_is_canonical example_pairs_mem (mkMap 100 3) = Some b /\
    (b = true <-> key_sorted example_pairs) /\
    (b = true -> exists m',
       gg_map_canonicalize_shallow (mkBuf 5 8) example_pairs_mem (mkMap 100 3) =
         Some (m', mkMap 100 3) /\
       slots_at 100 3 m' example_pairs).
Proof.
  apply (is_canonical_exact (mkBuf 5 8) 100 3 example_pairs_mem example_pairs).
  - unfold UINT16_MAX. simpl. lia.
  - apply example_pairs_at.
Defined.
