(* ===== verification/Visit.v ===== *)
(** The non-recursive object visitor ([src/object_visit.c],
    [priv_include/gg/object_visit.h], [priv_include/gg/object_iter.h]).

    [gg_obj_visit] runs a machine with an explicit stack on memory, calling
    handlers that may themselves change the memory. It is related to a
    recursive visitor, and for handlers that leave the memory alone to the
    sequence of events of an object. *)

From S2P Require Import Prelude Memory Buffer Io Object Map.

(** ** Definitions *)

Definition GG_MAX_OBJECT_DEPTH : Z := 15.
Definition GG_MAX_OBJECT_SUBOBJECTS : Z := 255.

(** The state of a visit: the memory and the handlers' context. *)
Definition vstate (C : Type) : Type := mem * C.
Definition step (C : Type) : Type := vstate C -> option (GgError * vstate C).

Record GgObjectVisitHandlers (C : Type) := mkHandlers {
  on_null : option (step C);
  on_bool : option (bool -> step C);
  on_i64 : option (Z -> step C);
  on_f64 : option (Z -> step C);
  on_buf : option (BufPtr -> Z -> step C);
  on_list : option (GgList -> Z -> step C);
  cont_list : option (step C);
  end_list : option (step C);
  on_map : option (GgMap -> Z -> step C);
  on_map_key : option (BufPtr -> Z -> step C);
  cont_map : option (step C);
  end_map : option (step C);
}.
Arguments mkHandlers {C}.
Arguments on_null {C}. Arguments on_bool {C}. Arguments on_i64 {C}. Arguments on_f64 {C}.
Arguments on_buf {C}. Arguments on_list {C}. Arguments cont_list {C}. Arguments end_list {C}.
Arguments on_map {C}. Arguments on_map_key {C}. Arguments cont_map {C}. Arguments end_map {C}.

(** [TRY_HANDLER]: nothing happens when the handler is null. *)
Definition TRY_HANDLER {C A} (handler : option A) (call : A -> step C) : step C :=
  match handler with
  | Some f => call f
  | None => fun st => Some (GG_ERR_OK, st)
  end.

Inductive IterLevelState := LEVEL_DEFAULT | LEVEL_LIST | LEVEL_MAP.

(** One level of [IterLevels]; the levels are a list, the current one first. *)
Record level := mkLevel { lv_obj : Z; lv_state : IterLevelState; lv_elem_index : Z }.

(** The outcome of a recursive visit: also the number of subobjects. *)
Abbreviation vresult C := (option (GgError * (Z * vstate C))).

Section visit.
Context {C : Type} (h : GgObjectVisitHandlers C).

(** The loop of [gg_obj_visit], one iteration per unit of fuel. *)
Fixpoint visit_loop (fuel : nat) (levels : list level) (subobjects : Z)
    (st : vstate C) : option (GgError * vstate C) :=
  match fuel, levels with
  | O, _ | _, [] => None
  | S fuel, mkLevel cur_obj cur_state cur_index :: below =>
      let next levels subobjects st := visit_loop fuel levels subobjects st in
      (* after the switch *)
      let leave st :=
        match below with
        | [] => Some (GG_ERR_OK, st)
        | _ => next below subobjects st
        end in
      let enter elem st :=
        if zlen levels =? GG_MAX_OBJECT_DEPTH then Some (GG_ERR_RANGE, st)
        else next (mkLevel elem LEVEL_DEFAULT 0 ::
                   mkLevel cur_obj cur_state (uwrap 8 (cur_index + 1)) :: below) subobjects st in
      obj ← read_obj st.1 cur_obj;
      match cur_state with
      | LEVEL_DEFAULT =>
          ty ← gg_obj_type obj;
          match ty with
          | GG_TYPE_NULL => st <~ TRY_HANDLER (on_null h) (fun f => f) st ;; leave st
          | GG_TYPE_BOOLEAN =>
              b ← gg_obj_into_bool obj;
              st <~ TRY_HANDLER (on_bool h) (fun f => f b) st ;; leave st
          | GG_TYPE_I64 =>
              i ← gg_obj_into_i64 obj;
              st <~ TRY_HANDLER (on_i64 h) (fun f => f i) st ;; leave st
          | GG_TYPE_F64 =>
              f ← gg_obj_into_f64 obj;
              st <~ TRY_HANDLER (on_f64 h) (fun g => g f) st ;; leave st
          | GG_TYPE_BUF =>
              b ← gg_obj_into_buf obj;
              st <~ TRY_HANDLER (on_buf h) (fun f => f b cur_obj) st ;; leave st
          | GG_TYPE_LIST =>
              list ← gg_obj_into_list obj;
              if GG_MAX_OBJECT_SUBOBJECTS - subobjects <? list_len list then Some (GG_ERR_RANGE, st)
              else
                let subobjects := uwrap 8 (subobjects + uwrap 8 (list_len list)) in
                st <~ TRY_HANDLER (on_list h) (fun f => f list cur_obj) st ;;
                next (mkLevel cur_obj LEVEL_LIST cur_index :: below) subobjects st
          | GG_TYPE_MAP =>
              map ← gg_obj_into_map obj;
              if (GG_MAX_OBJECT_SUBOBJECTS - subobjects) / 2 <? map_len map then Some (GG_ERR_RANGE, st)
              else
                let subobjects := uwrap 8 (subobjects + uwrap 8 (map_len map * 2)) in
                st <~ TRY_HANDLER (on_map h) (fun f => f map cur_obj) st ;;
                next (mkLevel cur_obj LEVEL_MAP cur_index :: below) subobjects st
          end
      | LEVEL_LIST =>
          list ← gg_obj_into_list obj;
          if cur_index =? list_len list then
            st <~ TRY_HANDLER (end_list h) (fun f => f) st ;; leave st
          else
            st <~ (if negb (cur_index =? 0) then TRY_HANDLER (cont_list h) (fun f => f) st
                   else Some (GG_ERR_OK, st)) ;;
            enter (items list + sizeof_GgObject * cur_index) st
      | LEVEL_MAP =>
          map ← gg_obj_into_map obj;
          if cur_index =? map_len map then
            st <~ TRY_HANDLER (end_map h) (fun f => f) st ;; leave st
          else
            st <~ (if negb (cur_index =? 0) then TRY_HANDLER (cont_map h) (fun f => f) st
                   else Some (GG_ERR_OK, st)) ;;
            let kv := pairs map + sizeof_GgKV * cur_index in
            st <~ match on_map_key h with
                  | Some f => kv_bytes ← read_kv st.1 kv; f (gg_kv_key kv_bytes) kv st
                  | None => Some (GG_ERR_OK, st)
                  end ;;
            enter (gg_kv_val kv) st
      end
  end.

(** The iterations a visit can take: two for an object and three for each of
    its subobjects. *)
Definition VISIT_FUEL : nat := 767.

Definition gg_obj_visit (obj : Z) (st : vstate C) : option (GgError * vstate C) :=
  visit_loop VISIT_FUEL [mkLevel obj LEVEL_DEFAULT 0] 0 st.

(** ** The recursive visitor

    [d] is the number of levels left, [n] the number of subobjects so far. *)

Definition with_count (n : Z) (r : option (GgError * vstate C)) : vresult C :=
  '(e, st) ← r; Some (e, (n, st)).

(** The elements from [idx] on, [k] of them at most: [read] gives the number
    of elements and the array of the container, [before] calls the handlers
    that precede an element, [elem] is its address. *)
Fixpoint elems_rec (read : vstate C -> option (Z * Z)) (before : Z -> Z -> step C)
    (elem : Z -> Z -> Z) (fin : step C) (rec : Z -> Z -> vstate C -> vresult C)
    (k : nat) (idx n : Z) (st : vstate C) : vresult C :=
  '(count, base) ← read st;
  if idx =? count then with_count n (fin st)
  else
    match k with
    | O => None
    | S k =>
        '(e, st) ← before base idx st;
        if negb (bool_decide (e = GG_ERR_OK)) then Some (e, (n, st)) else
        '(e, (n, st)) ← rec n (elem base idx) st;
        if negb (bool_decide (e = GG_ERR_OK)) then Some (e, (n, st)) else
        elems_rec read before elem fin rec k (idx + 1) n st
    end.

Definition read_list (obj : Z) (st : vstate C) : option (Z * Z) :=
  o ← read_obj st.1 obj; l ← gg_obj_into_list o; Some (list_len l, items l).
Definition read_map (obj : Z) (st : vstate C) : option (Z * Z) :=
  o ← read_obj st.1 obj; m ← gg_obj_into_map o; Some (map_len m, pairs m).

Definition list_elem (base idx : Z) : Z := base + sizeof_GgObject * idx.
Definition map_kv (base idx : Z) : Z := base + sizeof_GgKV * idx.
Definition map_elem (base idx : Z) : Z := gg_kv_val (map_kv base idx).

Definition list_before (base idx : Z) : step C := fun st =>
  if negb (idx =? 0) then TRY_HANDLER (cont_list h) (fun f => f) st else Some (GG_ERR_OK, st).

Definition map_before (base idx : Z) : step C := fun st =>
  st <~ (if negb (idx =? 0) then TRY_HANDLER (cont_map h) (fun f => f) st
         else Some (GG_ERR_OK, st)) ;;
  match on_map_key h with
  | Some f => kv_bytes ← read_kv st.1 (map_kv base idx); f (gg_kv_key kv_bytes) (map_kv base idx) st
  | None => Some (GG_ERR_OK, st)
  end.

Definition list_fin : step C := TRY_HANDLER (end_list h) (fun f => f).
Definition map_fin : step C := TRY_HANDLER (end_map h) (fun f => f).

Fixpoint visit_rec (d : nat) (n obj : Z) (st : vstate C) : vresult C :=
  match d with
  | O => Some (GG_ERR_RANGE, (n, st))
  | S d =>
      o ← read_obj st.1 obj;
      ty ← gg_obj_type o;
      match ty with
      | GG_TYPE_NULL => with_count n (TRY_HANDLER (on_null h) (fun f => f) st)
      | GG_TYPE_BOOLEAN =>
          b ← gg_obj_into_bool o; with_count n (TRY_HANDLER (on_bool h) (fun f => f b) st)
      | GG_TYPE_I64 =>
          i ← gg_obj_into_i64 o; with_count n (TRY_HANDLER (on_i64 h) (fun f => f i) st)
      | GG_TYPE_F64 =>
          f ← gg_obj_into_f64 o; with_count n (TRY_HANDLER (on_f64 h) (fun g => g f) st)
      | GG_TYPE_BUF =>
          b ← gg_obj_into_buf o; with_count n (TRY_HANDLER (on_buf h) (fun f => f b obj) st)
      | GG_TYPE_LIST =>
          l ← gg_obj_into_list o;
          _ ← gg_asserts (0 <=? list_len l);
          if GG_MAX_OBJECT_SUBOBJECTS <? n + list_len l then Some (GG_ERR_RANGE, (n, st)) else
          let n := n + list_len l in
          '(e, st) ← TRY_HANDLER (on_list h) (fun f => f l obj) st;
          if negb (bool_decide (e = GG_ERR_OK)) then Some (e, (n, st)) else
          elems_rec (read_list obj) list_before list_elem list_fin (visit_rec d)
            (Z.to_nat (list_len l)) 0 n st
      | GG_TYPE_MAP =>
          m ← gg_obj_into_map o;
          _ ← gg_asserts (0 <=? map_len m);
          if GG_MAX_OBJECT_SUBOBJECTS <? n + 2 * map_len m then Some (GG_ERR_RANGE, (n, st)) else
          let n := n + 2 * map_len m in
          '(e, st) ← TRY_HANDLER (on_map h) (fun f => f m obj) st;
          if negb (bool_decide (e = GG_ERR_OK)) then Some (e, (n, st)) else
          elems_rec (read_map obj) map_before map_elem map_fin (visit_rec d)
            (Z.to_nat (map_len m)) 0 n st
      end
  end.

(** ** The machine simulates the recursive visitor *)

(** What the machine does when the object on top of [below] is done. *)
Definition resume (fuel : nat) (below : list level) (r : GgError * (Z * vstate C))
    : option (GgError * vstate C) :=
  let '(e, (n, st)) := r in
  if bool_decide (e = GG_ERR_OK) then
    match below with [] => Some (GG_ERR_OK, st) | _ => visit_loop fuel below n st end
  else Some (e, st).

(** [runs k lv n st r]: started in this configuration the machine needs [k]
    iterations to be done with the object on top, with the outcome [r]. *)
Definition runs (k : nat) (lv : level) (below : list level) (n : Z) (st : vstate C)
    (r : GgError * (Z * vstate C)) : Prop :=
  forall fuel, visit_loop (k + fuel) (lv :: below) n st = resume fuel below r.

(** The cost of a call that took the count of subobjects from [n] to [n']. *)
Definition cost_ok (k : nat) (n n' : Z) : Prop := Z.of_nat k <= 2 + 3 * (n' - n).

Definition rec_simulated (d : nat) (rec : Z -> Z -> vstate C -> vresult C) : Prop :=
  forall n obj st r below,
    rec n obj st = Some r -> 0 <= n <= 255 -> (length below + S d = 16)%nat -> (0 < d)%nat ->
    exists k, runs k (mkLevel obj LEVEL_DEFAULT 0) below n st r /\
      n <= r.2.1 <= 255 /\ cost_ok k n r.2.1.

Lemma with_count_Some n r x :
  with_count n r = Some x -> exists e st, r = Some (e, st) /\ x = (e, (n, st)).
Proof. unfold with_count. destruct r as [[e st]|]; [|done]. cbn [mbind option_bind]. intros [= <-]. eauto. Qed.

Lemma and_then_assoc {S} (c : option (GgError * S)) k1 k2 :
  and_then (and_then c k1) k2 = and_then c (fun s => and_then (k1 s) k2).
Proof.
  unfold and_then. destruct c as [[e s]|]; [|done]. cbn [mbind option_bind].
  case_bool_decide; [done|]. cbn [mbind option_bind]. by rewrite bool_decide_false.
Qed.

Lemma and_then_ext {S} (c : option (GgError * S)) k1 k2 :
  (forall s, k1 s = k2 s) -> and_then c k1 = and_then c k2.
Proof. intros He. unfold and_then. destruct c as [[e s]|]; [|done]. simpl. by rewrite He. Qed.

(** Pushing an element of the container on top. *)
Definition enter (fuel : nat) (obj : Z) (s : IterLevelState) (idx : Z) (below : list level)
    (elem n : Z) (st : vstate C) : option (GgError * vstate C) :=
  if zlen (mkLevel obj s idx :: below) =? GG_MAX_OBJECT_DEPTH then Some (GG_ERR_RANGE, st)
  else visit_loop fuel (mkLevel elem LEVEL_DEFAULT 0 :: mkLevel obj s (uwrap 8 (idx + 1)) :: below) n st.

(** One iteration on a container. *)
Definition container_step (obj : Z) (s : IterLevelState) (read : vstate C -> option (Z * Z))
    (before : Z -> Z -> step C) (elem : Z -> Z -> Z) (fin : step C) : Prop :=
  forall fuel idx below n st,
    visit_loop (S fuel) (mkLevel obj s idx :: below) n st =
    '(count, base) ← read st;
    if idx =? count then st <~ fin st ;; resume fuel below (GG_ERR_OK, (n, st))
    else st <~ before base idx st ;; enter fuel obj s idx below (elem base idx) n st.

Lemma list_step obj :
  container_step obj LEVEL_LIST (read_list obj) list_before list_elem list_fin.
Proof.
  intros fuel idx below n st. cbn [visit_loop]. unfold read_list.
  destruct (read_obj st.1 obj) as [o|]; [|done]. cbn [mbind option_bind].
  destruct (gg_obj_into_list o) as [l|]; done.
Qed.

Lemma map_step obj :
  container_step obj LEVEL_MAP (read_map obj) map_before map_elem map_fin.
Proof.
  intros fuel idx below n st. cbn [visit_loop]. unfold read_map.
  destruct (read_obj st.1 obj) as [o|]; [|done]. cbn [mbind option_bind].
  destruct (gg_obj_into_map o) as [m|]; [|done]. cbn [mbind option_bind].
  case_if; [done|]. unfold map_before. by rewrite and_then_assoc.
Qed.

Lemma elems_simulated d rec obj s read before elem fin :
  container_step obj s read before elem fin ->
  rec_simulated d rec -> (d = O -> forall n o st, rec n o st = Some (GG_ERR_RANGE, (n, st))) ->
  forall k idx n st r below,
    elems_rec read before elem fin rec k idx n st = Some r ->
    0 <= n <= 255 -> 0 <= idx -> idx + Z.of_nat k <= 255 -> (length below + S (S d) = 16)%nat ->
    exists j, runs j (mkLevel obj s idx) below n st r /\
      n <= r.2.1 <= 255 /\ Z.of_nat j <= 1 + 3 * Z.of_nat k + 3 * (r.2.1 - n).
Proof.
  intros Hstep Hrec H0 k. induction k as [|k IH]; intros idx n st r below Hr Hn Hidx Hk Hlen;
    cbn [elems_rec] in Hr; destruct (read st) as [[count base]|] eqn:Hread;
    cbn [mbind option_bind] in Hr; try discriminate Hr; destruct (idx =? count) eqn:Hic.
  1,3: apply with_count_Some in Hr as (e & st' & Hf & ->); exists 1%nat;
    (split; [|cbn; lia]); intros fuel; rewrite Nat.add_1_l, Hstep, Hread;
    cbn [mbind option_bind]; rewrite Hic; unfold and_then; rewrite Hf; cbn [mbind option_bind];
    (destruct (bool_decide_reflect (e = GG_ERR_OK)) as [->|]; [done|]); simpl;
    by rewrite bool_decide_false.
  { discriminate Hr. }
  destruct (before base idx st) as [[e st1]|] eqn:Hb; cbn [mbind option_bind] in Hr; [|discriminate Hr].
  destruct (bool_decide_reflect (e = GG_ERR_OK)) as [->|He]; cbn [negb] in Hr.
  2:{ injection Hr as <-. exists 1%nat. split; [|cbn; lia]. intros fuel.
      rewrite Nat.add_1_l, Hstep, Hread. cbn [mbind option_bind]. rewrite Hic. unfold and_then.
      rewrite Hb. cbn [mbind option_bind]. simpl. by rewrite bool_decide_false. }
  destruct (rec n (elem base idx) st1) as [[e [n2 st2]]|] eqn:Hre; cbn [mbind option_bind] in Hr;
    [|discriminate Hr].
  destruct (decide (d = O)) as [Hd|Hd].
  { (* no level is left *)
    rewrite H0 in Hre by done. injection Hre as <- <- <-. injection Hr as <-.
    exists 1%nat. split; [|cbn; lia]. intros fuel.
    rewrite Nat.add_1_l, Hstep, Hread. cbn [mbind option_bind]. rewrite Hic. unfold and_then.
    rewrite Hb. cbn [mbind option_bind]. rewrite bool_decide_true by done. unfold enter.
    replace (zlen _) with 15 by (unfold zlen; simpl length; lia). done. }
  destruct (Hrec _ _ _ _ (mkLevel obj s (uwrap 8 (idx + 1)) :: below) Hre) as (j1 & Hj1 & Hn1 & Hc1);
    [done|simpl; lia|lia|]. cbn in Hn1, Hc1.
  assert (forall fuel, visit_loop (S j1 + fuel) (mkLevel obj s idx :: below) n st =
    resume fuel (mkLevel obj s (uwrap 8 (idx + 1)) :: below) (e, (n2, st2))) as Hrun.
  { intros fuel. cbn [Nat.add]. rewrite Hstep, Hread. cbn [mbind option_bind]. rewrite Hic.
    unfold and_then. rewrite Hb. cbn [mbind option_bind]. rewrite bool_decide_true by done.
    unfold enter. assert (zlen (mkLevel obj s idx :: below) =? GG_MAX_OBJECT_DEPTH = false) as ->.
    { apply Z.eqb_neq. unfold zlen, GG_MAX_OBJECT_DEPTH. simpl length. lia. }
    apply Hj1. }
  unfold cost_ok in Hc1.
  destruct (bool_decide_reflect (e = GG_ERR_OK)) as [->|He]; cbn [negb] in Hr.
  2:{ injection Hr as <-. exists (S j1). split; [|cbn [snd fst]; lia]. intros fuel. rewrite Hrun.
      simpl. by rewrite bool_decide_false. }
  destruct (IH (idx + 1) n2 st2 r below Hr) as (j2 & Hj2 & Hn2 & Hc2); [lia..|].
  exists (S j1 + j2)%nat. split; [|lia]. intros fuel. rewrite <- Nat.add_assoc, Hrun.
  simpl. rewrite uwrap_small by lia. apply Hj2.
Qed.

Lemma rec_0 : rec_simulated 0 (visit_rec 0).
Proof. intros n obj st r below _ _ _ H. lia. Qed.

Lemma visit_rec_simulated d : rec_simulated d (visit_rec d).
Proof.
  induction d as [|d IH]; [apply rec_0|].
  intros n obj st r below Hr Hn Hlen _. cbn [visit_rec] in Hr.
  destruct (read_obj st.1 obj) as [o|] eqn:Ho; cbn [mbind option_bind] in Hr; [|discriminate Hr].
  destruct (gg_obj_type o) as [ty|] eqn:Hty; cbn [mbind option_bind] in Hr; [|discriminate Hr].
  (* leaves *)
  assert (forall (call : step C), with_count n (call st) = Some r ->
    (forall fuel, visit_loop (S fuel) (mkLevel obj LEVEL_DEFAULT 0 :: below) n st =
      (st <~ call st ;; resume fuel below (GG_ERR_OK, (n, st)))) ->
    exists k, runs k (mkLevel obj LEVEL_DEFAULT 0) below n st r /\ n <= r.2.1 <= 255 /\ cost_ok k n r.2.1)
    as Hleaf.
  { intros call Hc Hl. apply with_count_Some in Hc as (e & st' & Hc & ->). exists 1%nat.
    split; [|unfold cost_ok; cbn; lia]. intros fuel. rewrite Nat.add_1_l, Hl, Hc. unfold and_then.
    cbn [mbind option_bind]. destruct (bool_decide_reflect (e = GG_ERR_OK)) as [->|]; [done|].
    simpl. by rewrite bool_decide_false. }
  (* containers *)
  assert (forall s read before elem fin len (call : step C) w,
    container_step obj s read before elem fin -> 0 <= len -> 0 <= w -> len <= w ->
    n + w <= 255 ->
    ('(e, st) ← call st;
      if negb (bool_decide (e = GG_ERR_OK)) then Some (e, (n + w, st)) else
       elems_rec read before elem fin (visit_rec d) (Z.to_nat len) 0 (n + w) st) = Some r ->
    (forall fuel, visit_loop (S fuel) (mkLevel obj LEVEL_DEFAULT 0 :: below) n st =
      (st <~ call st ;; visit_loop fuel (mkLevel obj s 0 :: below) (n + w) st)) ->
    exists k, runs k (mkLevel obj LEVEL_DEFAULT 0) below n st r /\ n <= r.2.1 <= 255 /\ cost_ok k n r.2.1)
    as Hcont.
  { intros s read before elem fin len call w Hstep Hl0 Hw0 Hlw Hmax Hc Hl.
    destruct (call st) as [[e st1]|] eqn:Hcall; cbn [mbind option_bind] in Hc; [|discriminate Hc].
    destruct (bool_decide_reflect (e = GG_ERR_OK)) as [->|He]; cbn [negb] in Hc.
    - assert (d = O -> forall n o st, visit_rec d n o st = Some (GG_ERR_RANGE, (n, st))) as H0
        by (by intros -> ? ? ?).
      destruct (elems_simulated d (visit_rec d) obj s read before elem fin Hstep IH H0
        (Z.to_nat len) 0 (n + w) st1 r below Hc) as (j & Hj & Hn' & Hcost); [lia..|].
      exists (S j). split; [|unfold cost_ok; lia]. intros fuel. cbn [Nat.add]. rewrite Hl.
      unfold and_then. cbn [mbind option_bind]. rewrite bool_decide_true by done. apply Hj.
    - injection Hc as <-. exists 1%nat. split; [|unfold cost_ok; cbn; lia]. intros fuel.
      rewrite Nat.add_1_l, Hl. unfold and_then. cbn [mbind option_bind]. simpl.
      by rewrite bool_decide_false. }
  destruct ty.
  - eapply Hleaf; [exact Hr|]. intros fuel. cbn [visit_loop lv_state]. rewrite Ho. cbn [mbind option_bind].
    rewrite Hty. done.
  - destruct (gg_obj_into_bool o) as [b|] eqn:Hb; cbn [mbind option_bind] in Hr; [|discriminate Hr].
    eapply Hleaf; [exact Hr|]. intros fuel. cbn [visit_loop]. rewrite Ho. cbn [mbind option_bind].
    rewrite Hty. cbn [mbind option_bind]. rewrite Hb. done.
  - destruct (gg_obj_into_i64 o) as [b|] eqn:Hb; cbn [mbind option_bind] in Hr; [|discriminate Hr].
    eapply Hleaf; [exact Hr|]. intros fuel. cbn [visit_loop]. rewrite Ho. cbn [mbind option_bind].
    rewrite Hty. cbn [mbind option_bind]. rewrite Hb. done.
  - destruct (gg_obj_into_f64 o) as [b|] eqn:Hb; cbn [mbind option_bind] in Hr; [|discriminate Hr].
    eapply Hleaf; [exact Hr|]. intros fuel. cbn [visit_loop]. rewrite Ho. cbn [mbind option_bind].
    rewrite Hty. cbn [mbind option_bind]. rewrite Hb. done.
  - destruct (gg_obj_into_buf o) as [b|] eqn:Hb; cbn [mbind option_bind] in Hr; [|discriminate Hr].
    eapply Hleaf; [exact Hr|]. intros fuel. cbn [visit_loop]. rewrite Ho. cbn [mbind option_bind].
    rewrite Hty. cbn [mbind option_bind]. rewrite Hb. done.
  - destruct (gg_obj_into_list o) as [l|] eqn:Hb; cbn [mbind option_bind] in Hr; [|discriminate Hr].
    destruct (0 <=? list_len l) eqn:H0; cbn [gg_asserts mbind option_bind] in Hr; [|discriminate Hr].
    zify_bool. destruct (GG_MAX_OBJECT_SUBOBJECTS <? n + list_len l) eqn:Hmax; zify_bool.
    + injection Hr as <-. exists 1%nat. split; [|unfold cost_ok; cbn; lia]. intros fuel.
      rewrite Nat.add_1_l. cbn [visit_loop]. rewrite Ho. cbn [mbind option_bind].
      rewrite Hty. cbn [mbind option_bind]. rewrite Hb. cbn [mbind option_bind].
      rewrite (proj2 (Z.ltb_lt _ _)) by lia. done.
    + unfold GG_MAX_OBJECT_SUBOBJECTS in *.
      eapply (Hcont LEVEL_LIST _ _ _ _ (list_len l) _ (list_len l));
        [apply list_step|lia..|exact Hr|].
      intros fuel. cbn [visit_loop]. rewrite Ho. cbn [mbind option_bind].
      rewrite Hty. cbn [mbind option_bind]. rewrite Hb. cbn [mbind option_bind].
      rewrite (proj2 (Z.ltb_ge _ _)) by (unfold GG_MAX_OBJECT_SUBOBJECTS; lia).
      rewrite !uwrap_small by (rewrite ?uwrap_small by lia; lia). done.
  - destruct (gg_obj_into_map o) as [l|] eqn:Hb; cbn [mbind option_bind] in Hr; [|discriminate Hr].
    destruct (0 <=? map_len l) eqn:H0; cbn [gg_asserts mbind option_bind] in Hr; [|discriminate Hr].
    zify_bool. destruct (GG_MAX_OBJECT_SUBOBJECTS <? n + 2 * map_len l) eqn:Hmax; zify_bool.
    + injection Hr as <-. exists 1%nat. split; [|unfold cost_ok; cbn; lia]. intros fuel.
      rewrite Nat.add_1_l. cbn [visit_loop]. rewrite Ho. cbn [mbind option_bind].
      rewrite Hty. cbn [mbind option_bind]. rewrite Hb. cbn [mbind option_bind].
      rewrite (proj2 (Z.ltb_lt _ _)) by (unfold GG_MAX_OBJECT_SUBOBJECTS in *; dlia). done.
    + unfold GG_MAX_OBJECT_SUBOBJECTS in *.
      eapply (Hcont LEVEL_MAP _ _ _ _ (map_len l) _ (2 * map_len l));
        [apply map_step|lia..|exact Hr|].
      intros fuel. cbn [visit_loop]. rewrite Ho. cbn [mbind option_bind].
      rewrite Hty. cbn [mbind option_bind]. rewrite Hb. cbn [mbind option_bind].
      rewrite (proj2 (Z.ltb_ge _ _)) by (unfold GG_MAX_OBJECT_SUBOBJECTS in *; dlia).
      rewrite !uwrap_small by (rewrite ?uwrap_small by lia; lia).
      replace (map_len l * 2) with (2 * map_len l) by lia. done.
Qed.

(** The machine reaches the outcome of the recursive visitor in at most
    [VISIT_FUEL] iterations, whatever the handlers do. *)
Lemma gg_obj_visit_rec obj st e n st' :
  visit_rec (Z.to_nat GG_MAX_OBJECT_DEPTH) 0 obj st = Some (e, (n, st')) ->
  gg_obj_visit obj st = Some (e, st').
Proof.
  intros Hr. destruct (visit_rec_simulated _ _ _ _ _ [] Hr) as (k & Hk & Hn & Hc); [lia|done|by apply Nat.ltb_lt|].
  unfold cost_ok in Hc. cbn in Hn, Hc. unfold gg_obj_visit, VISIT_FUEL.
  replace 767%nat with (k + (767 - k))%nat by lia. rewrite Hk. simpl. by destruct e.
Qed.
End visit.

(** ** Specification: object trees and their events *)

(** The tree an object is the root of, with the arrays of its lists and maps. *)
Inductive otree :=
  | TNull
  | TBool (b : bool)
  | TI64 (z : Z)
  | TF64 (bits : Z)
  | TBuf (b : BufPtr)
  | TList (items : Z) (ts : list otree)
  | TMap (pairs : Z) (kvs : list (BufPtr * otree)).

Lemma otree_ind' (P : otree -> Prop) :
  P TNull -> (forall b, P (TBool b)) -> (forall z, P (TI64 z)) -> (forall z, P (TF64 z)) ->
  (forall b, P (TBuf b)) -> (forall p ts, Forall P ts -> P (TList p ts)) ->
  (forall p kvs, Forall (fun kv => P kv.2) kvs -> P (TMap p kvs)) -> forall t, P t.
Proof.
  intros H1 H2 H3 H4 H5 H6 H7. fix IH 1. intros [| | | | |p ts|p kvs].
  - exact H1.
  - apply H2.
  - apply H3.
  - apply H4.
  - apply H5.
  - apply H6. induction ts as [|t ts IHts]; constructor; [apply IH|exact IHts].
  - apply H7. induction kvs as [|[k t] kvs IHkvs]; constructor; [apply IH|exact IHkvs].
Qed.

(** The contents of an object whose subobjects are not looked at. *)
Definition tree_val (t : otree) : objval :=
  match t with
  | TNull => VNull
  | TBool b => VBool b
  | TI64 z => VI64 z
  | TF64 z => VF64 z
  | TBuf b => VBuf b
  | TList p ts => VList (mkList p (zlen ts))
  | TMap p kvs => VMap (mkMap p (zlen kvs))
  end.

(** The memory holds the tree at an address. *)
Fixpoint obj_at (m : mem) (t : otree) (a : Z) : Prop :=
  (o ← read_obj m a; unpack o) = Some (tree_val t) /\
  match t with
  | TList p ts =>
      (fix items_at ts i := match ts with
        | [] => True
        | t :: ts => obj_at m t (list_elem p i) /\ items_at ts (i + 1)
        end) ts 0
  | TMap p kvs =>
      (fix pairs_at kvs i := match kvs with
        | [] => True
        | (k, t) :: kvs =>
            gg_kv_key <$> read_kv m (map_kv p i) = Some k /\
            obj_at m t (map_elem p i) /\ pairs_at kvs (i + 1)
        end) kvs 0
  | _ => True
  end.

Fixpoint items_at (m : mem) (p : Z) (ts : list otree) (i : Z) : Prop :=
  match ts with
  | [] => True
  | t :: ts => obj_at m t (list_elem p i) /\ items_at m p ts (i + 1)
  end.

Fixpoint pairs_at (m : mem) (p : Z) (kvs : list (BufPtr * otree)) (i : Z) : Prop :=
  match kvs with
  | [] => True
  | (k, t) :: kvs =>
      gg_kv_key <$> read_kv m (map_kv p i) = Some k /\
      obj_at m t (map_elem p i) /\ pairs_at m p kvs (i + 1)
  end.

Lemma obj_at_list m p ts a :
  obj_at m (TList p ts) a <->
  (o ← read_obj m a; unpack o) = Some (VList (mkList p (zlen ts))) /\ items_at m p ts 0.
Proof.
  simpl. assert (forall i, (fix items_at ts i := match ts with
        | [] => True
        | t :: ts => obj_at m t (list_elem p i) /\ items_at ts (i + 1)
        end) ts i = items_at m p ts i) as ->; [|done].
  induction ts as [|t ts IH]; intros i; simpl; [done|]. by rewrite IH.
Qed.

Lemma obj_at_map m p kvs a :
  obj_at m (TMap p kvs) a <->
  (o ← read_obj m a; unpack o) = Some (VMap (mkMap p (zlen kvs))) /\ pairs_at m p kvs 0.
Proof.
  simpl. assert (forall i, (fix pairs_at kvs i := match kvs with
        | [] => True
        | (k, t) :: kvs =>
            gg_kv_key <$> read_kv m (map_kv p i) = Some k /\
            obj_at m t (map_elem p i) /\ pairs_at kvs (i + 1)
        end) kvs i = pairs_at m p kvs i) as ->; [|done].
  induction kvs as [|[k t] kvs IH]; intros i; simpl; [done|]. by rewrite IH.
Qed.

(** The depth and the number of subobjects, as [object.h] defines them. *)
Fixpoint tree_depth (t : otree) : Z :=
  match t with
  | TList _ ts => 1 + foldr (fun t d => Z.max (tree_depth t) d) 0 ts
  | TMap _ kvs => 1 + foldr (fun kv d => Z.max (tree_depth kv.2) d) 0 kvs
  | _ => 1
  end.

Fixpoint tree_subobjects (t : otree) : Z :=
  match t with
  | TList _ ts => zlen ts + foldr (fun t n => tree_subobjects t + n) 0 ts
  | TMap _ kvs => 2 * zlen kvs + foldr (fun kv n => tree_subobjects kv.2 + n) 0 kvs
  | _ => 0
  end.

Definition within_limits (t : otree) : bool :=
  (tree_depth t <=? GG_MAX_OBJECT_DEPTH) && (tree_subobjects t <=? GG_MAX_OBJECT_SUBOBJECTS).

(** The calls of handlers. *)
Inductive vevent :=
  | EvNull
  | EvBool (b : bool)
  | EvI64 (z : Z)
  | EvF64 (bits : Z)
  | EvBuf (b : BufPtr) (obj : Z)
  | EvList (l : GgList) (obj : Z)
  | EvContList
  | EvEndList
  | EvMap (m : GgMap) (obj : Z)
  | EvMapKey (k : BufPtr) (kv : Z)
  | EvContMap
  | EvEndMap.

Definition call {C} (h : GgObjectVisitHandlers C) (ev : vevent) : step C :=
  match ev with
  | EvNull => TRY_HANDLER (on_null h) (fun f => f)
  | EvBool b => TRY_HANDLER (on_bool h) (fun f => f b)
  | EvI64 z => TRY_HANDLER (on_i64 h) (fun f => f z)
  | EvF64 z => TRY_HANDLER (on_f64 h) (fun f => f z)
  | EvBuf b a => TRY_HANDLER (on_buf h) (fun f => f b a)
  | EvList l a => TRY_HANDLER (on_list h) (fun f => f l a)
  | EvContList => TRY_HANDLER (cont_list h) (fun f => f)
  | EvEndList => TRY_HANDLER (end_list h) (fun f => f)
  | EvMap m a => TRY_HANDLER (on_map h) (fun f => f m a)
  | EvMapKey k kv => TRY_HANDLER (on_map_key h) (fun f => f k kv)
  | EvContMap => TRY_HANDLER (cont_map h) (fun f => f)
  | EvEndMap => TRY_HANDLER (end_map h) (fun f => f)
  end.

Fixpoint run {C} (h : GgObjectVisitHandlers C) (evs : list vevent) (st : vstate C)
    : option (GgError * vstate C) :=
  match evs with
  | [] => Some (GG_ERR_OK, st)
  | ev :: evs => st <~ call h ev st ;; run h evs st
  end.

(** The events of a tree at an address, in the order of the visit. *)
Fixpoint events (t : otree) (a : Z) : list vevent :=
  match t with
  | TNull => [EvNull]
  | TBool b => [EvBool b]
  | TI64 z => [EvI64 z]
  | TF64 z => [EvF64 z]
  | TBuf b => [EvBuf b a]
  | TList p ts =>
      [EvList (mkList p (zlen ts)) a] ++
      (fix go ts i := match ts with
        | [] => []
        | t :: ts => (if i =? 0 then [] else [EvContList]) ++ events t (list_elem p i) ++ go ts (i + 1)
        end) ts 0 ++ [EvEndList]
  | TMap p kvs =>
      [EvMap (mkMap p (zlen kvs)) a] ++
      (fix go kvs i := match kvs with
        | [] => []
        | (k, t) :: kvs => (if i =? 0 then [] else [EvContMap]) ++ [EvMapKey k (map_kv p i)] ++
            events t (map_elem p i) ++ go kvs (i + 1)
        end) kvs 0 ++ [EvEndMap]
  end.

Fixpoint list_events (p : Z) (ts : list otree) (i : Z) : list vevent :=
  match ts with
  | [] => []
  | t :: ts => (if i =? 0 then [] else [EvContList]) ++ events t (list_elem p i) ++
      list_events p ts (i + 1)
  end.

Fixpoint map_events (p : Z) (kvs : list (BufPtr * otree)) (i : Z) : list vevent :=
  match kvs with
  | [] => []
  | (k, t) :: kvs => (if i =? 0 then [] else [EvContMap]) ++ [EvMapKey k (map_kv p i)] ++
      events t (map_elem p i) ++ map_events p kvs (i + 1)
  end.

Lemma events_list p ts a :
  events (TList p ts) a = EvList (mkList p (zlen ts)) a :: list_events p ts 0 ++ [EvEndList].
Proof.
  simpl. do 2 f_equal. assert (forall i, (fix go ts i := match ts with
        | [] => []
        | t :: ts => (if i =? 0 then [] else [EvContList]) ++ events t (list_elem p i) ++ go ts (i + 1)
        end) ts i = list_events p ts i) as ->; [|done].
  induction ts as [|t ts IH]; intros i; simpl; [done|]. by rewrite IH.
Qed.

Lemma events_map p kvs a :
  events (TMap p kvs) a = EvMap (mkMap p (zlen kvs)) a :: map_events p kvs 0 ++ [EvEndMap].
Proof.
  simpl. do 2 f_equal. assert (forall i, (fix go kvs i := match kvs with
        | [] => []
        | (k, t) :: kvs => (if i =? 0 then [] else [EvContMap]) ++ EvMapKey k (map_kv p i) ::
            events t (map_elem p i) ++ go kvs (i + 1)
        end) kvs i = map_events p kvs i) as ->; [|done].
  induction kvs as [|[k t] kvs IH]; intros i; simpl; [done|]. by rewrite IH.
Qed.

Lemma run_app {C} (h : GgObjectVisitHandlers C) xs ys st :
  run h (xs ++ ys) st = (st <~ run h xs st ;; run h ys st).
Proof.
  revert st. induction xs as [|x xs IH]; intros st; [done|]. cbn [app run].
  rewrite and_then_assoc. apply and_then_ext. intros s. apply IH.
Qed.

Lemma tree_depth_pos t : 1 <= tree_depth t.
Proof.
  destruct t as [| | | | |p ts|p kvs]; simpl; try lia.
  - assert (0 <= foldr (fun t d => Z.max (tree_depth t) d) 0 ts); [|lia]. induction ts; simpl; lia.
  - assert (0 <= foldr (fun kv d => Z.max (tree_depth kv.2) d) 0 kvs); [|lia]. induction kvs; simpl; lia.
Qed.

Lemma tree_subobjects_nonneg t : 0 <= tree_subobjects t.
Proof.
  induction t as [| | | | |p ts IH|p kvs IH] using otree_ind'; simpl; try lia.
  - assert (0 <= foldr (fun t n => tree_subobjects t + n) 0 ts); [|zlen_lia].
    induction IH; simpl; lia.
  - assert (0 <= foldr (fun kv n => tree_subobjects kv.2 + n) 0 kvs); [|zlen_lia].
    induction IH; simpl; lia.
Qed.

(** Handlers that leave the memory alone. *)
Definition read_only {C} (h : GgObjectVisitHandlers C) : Prop :=
  forall ev st e st', call h ev st = Some (e, st') -> st'.1 = st.1.

Section spec.
Context {C : Type}.

(** [visits m d n t a evs ok]: from [n] subobjects and with [d] levels left,
    the recursive visitor makes the calls [evs]; then it is done with the
    object, or, when [ok] is [false], fails with [GG_ERR_RANGE]. *)
Definition outcome_of (h : GgObjectVisitHandlers C) (evs : list vevent) (ok : bool) (st : vstate C)
    : option (GgError * vstate C) :=
  st <~ run h evs st ;; Some (if ok then GG_ERR_OK else GG_ERR_RANGE, st).

Definition answers (m : mem) (r : vresult C) (n' : Z) (o : option (GgError * vstate C)) : Prop :=
  forall e st', o = Some (e, st') -> st'.1 = m /\
    exists k, r = Some (e, (k, st')) /\ (e = GG_ERR_OK -> k = n').

Definition visits (m : mem) (d : nat) (n : Z) (t : otree) (a : Z) (evs : list vevent) (ok : bool) : Prop :=
  forall h c, read_only h ->
    answers m (visit_rec h d n a (m, c)) (n + tree_subobjects t) (outcome_of h evs ok (m, c)).

Definition fits (d : nat) (n : Z) (t : otree) : bool :=
  (tree_depth t <=? Z.of_nat d) && (n + tree_subobjects t <=? GG_MAX_OBJECT_SUBOBJECTS).

(** The property proved by induction on the tree. *)
Definition visited (m : mem) (t : otree) : Prop :=
  forall d n a, obj_at m t a -> 0 <= n <= GG_MAX_OBJECT_SUBOBJECTS ->
    exists evs, evs `prefix_of` events t a /\ (fits d n t = true -> evs = events t a) /\
      visits m d n t a evs (fits d n t).

Lemma run_read_only (h : GgObjectVisitHandlers C) evs st e st' :
  read_only h -> run h evs st = Some (e, st') -> st'.1 = st.1.
Proof.
  intros Hro. revert st. induction evs as [|ev evs IH]; intros st H; [by injection H as _ <-|].
  cbn [run] in H. unfold and_then in H.
  destruct (call h ev st) as [[e1 st1]|] eqn:Hc; cbn [mbind option_bind] in H; [|discriminate H].
  apply Hro in Hc. case_bool_decide; [|by injection H as _ <-]. rewrite <- Hc. by eapply IH.
Qed.

Lemma outcome_of_cons (h : GgObjectVisitHandlers C) ev evs ok st :
  outcome_of h (ev :: evs) ok st = (st <~ call h ev st ;; outcome_of h evs ok st).
Proof. unfold outcome_of. cbn [run]. apply and_then_assoc. Qed.

Lemma outcome_of_app (h : GgObjectVisitHandlers C) xs ys ok st :
  outcome_of h (xs ++ ys) ok st = (st <~ run h xs st ;; outcome_of h ys ok st).
Proof. unfold outcome_of. rewrite run_app. apply and_then_assoc. Qed.

(** Out of levels or of subobjects: no call at all. *)
Lemma answers_range m n n' c (h : GgObjectVisitHandlers C) :
  answers m (Some (GG_ERR_RANGE, (n, (m, c)))) n' (outcome_of h [] false (m, c)).
Proof. intros e st' H. unfold outcome_of in H. simpl in H. injection H as <- <-. split; [done|]. by exists n. Qed.

(** One call, then nothing. *)
Lemma answers_leaf m n c (h : GgObjectVisitHandlers C) ev :
  read_only h -> answers m (with_count n (call h ev (m, c))) n (outcome_of h [ev] true (m, c)).
Proof.
  intros Hro e st' H. rewrite outcome_of_cons in H. unfold and_then in H.
  destruct (call h ev (m, c)) as [[e1 st1]|] eqn:Hc; cbn [mbind option_bind] in H; [|discriminate H].
  pose proof (Hro _ _ _ _ Hc) as Hm. simpl in Hm. case_bool_decide as He; simplify_eq.
  - unfold outcome_of in H. simpl in H. injection H as <- <-. split; [done|]. exists n. done.
  - split; [done|]. by exists n.
Qed.

(** Some calls, then the rest. *)
Lemma answers_run m n n' c (h : GgObjectVisitHandlers C) pre evs ok (k : vstate C -> vresult C) :
  read_only h ->
  (forall c', answers m (k (m, c')) n' (outcome_of h evs ok (m, c'))) ->
  answers m ('(e, st) ← run h pre (m, c);
             if negb (bool_decide (e = GG_ERR_OK)) then Some (e, (n, st)) else k st) n'
    (outcome_of h (pre ++ evs) ok (m, c)).
Proof.
  intros Hro Hk e st' H. rewrite outcome_of_app in H. unfold and_then in H.
  destruct (run h pre (m, c)) as [[e1 [m1 c1]]|] eqn:Hc; cbn [mbind option_bind] in H |- *; [|discriminate H].
  pose proof (run_read_only _ _ _ _ _ Hro Hc) as Hm. simpl in Hm. subst m1.
  case_bool_decide as He; cbn [negb]; [by apply Hk|].
  simplify_eq. split; [done|]. by exists n.
Qed.

Lemma run_single (h : GgObjectVisitHandlers C) ev st : run h [ev] st = call h ev st.
Proof.
  cbn [run]. unfold and_then. destruct (call h ev st) as [[e s]|]; [|done]. simpl.
  case_bool_decide; by subst.
Qed.

Lemma answers_call m n n' c (h : GgObjectVisitHandlers C) ev evs ok (k : vstate C -> vresult C) :
  read_only h ->
  (forall c', answers m (k (m, c')) n' (outcome_of h evs ok (m, c'))) ->
  answers m ('(e, st) ← call h ev (m, c);
             if negb (bool_decide (e = GG_ERR_OK)) then Some (e, (n, st)) else k st) n'
    (outcome_of h (ev :: evs) ok (m, c)).
Proof.
  intros Hro Hk. rewrite <- run_single. by apply (answers_run m n n' c h [ev] evs ok k).
Qed.

(** A visit, then the rest if it succeeded. *)
Lemma answers_then m (x : vresult C) n1 n2 c (h : GgObjectVisitHandlers C) xs ys ok
    (k : Z -> vstate C -> vresult C) :
  answers m x n1 (outcome_of h xs true (m, c)) ->
  (forall c', answers m (k n1 (m, c')) n2 (outcome_of h ys ok (m, c'))) ->
  answers m ('(e, (n, st)) ← x;
             if negb (bool_decide (e = GG_ERR_OK)) then Some (e, (n, st)) else k n st) n2
    (outcome_of h (xs ++ ys) ok (m, c)).
Proof.
  intros Hx Hk e st' H. rewrite outcome_of_app in H. unfold outcome_of in Hx. unfold and_then in H.
  destruct (run h xs (m, c)) as [[e1 [m1 c1]]|] eqn:Hr; cbn [mbind option_bind] in H; [|discriminate H].
  unfold and_then in Hx. cbn [mbind option_bind] in Hx. case_bool_decide as He.
  - subst e1. destruct (Hx _ _ eq_refl) as (Hm & k' & -> & Hk'). simpl in Hm. subst m1.
    cbn [mbind option_bind]. rewrite bool_decide_true by done. cbn [negb].
    rewrite Hk' by done. by apply Hk.
  - simplify_eq. destruct (Hx _ _ eq_refl) as (Hm & k' & -> & Hk'). cbn [mbind option_bind].
    rewrite bool_decide_false by done. cbn [negb]. split; [done|]. by exists k'.
Qed.

(** A visit that exceeds a limit. *)
Lemma answers_stop m (x : vresult C) n1 n2 c (h : GgObjectVisitHandlers C) xs
    (k : Z -> vstate C -> vresult C) :
  answers m x n1 (outcome_of h xs false (m, c)) ->
  answers m ('(e, (n, st)) ← x;
             if negb (bool_decide (e = GG_ERR_OK)) then Some (e, (n, st)) else k n st) n2
    (outcome_of h xs false (m, c)).
Proof.
  intros Hx e st' H. destruct (Hx _ _ H) as (Hm & k' & -> & Hk'). cbn [mbind option_bind].
  assert (e <> GG_ERR_OK) as He.
  { intros ->. unfold outcome_of, and_then in H.
    destruct (run h xs (m, c)) as [[e1 s1]|]; [|discriminate H]. cbn [mbind option_bind] in H.
    case_bool_decide; simplify_eq. }
  rewrite bool_decide_false by done. cbn [negb]. split; [done|]. by exists k'.
Qed.

Lemma fits_0 n t : fits 0 n t = false.
Proof. unfold fits. pose proof (tree_depth_pos t). apply andb_false_iff. left. apply Z.leb_gt. lia. Qed.

Lemma visits_0 m n t a : visits m 0 n t a [] (fits 0 n t).
Proof. intros h c Hro. rewrite fits_0. apply answers_range. Qed.

(** *** Elements of a container

    Lists and maps are treated at once: [pre e i] are the calls before the
    element [e] at index [i]. *)
Section elements.
Context {E : Type} (sub : E -> otree) (pre : E -> Z -> list vevent) (addr : Z -> Z).
Context (m : mem) (endev : vevent).

Fixpoint elem_events (es : list E) (i : Z) : list vevent :=
  match es with
  | [] => []
  | e :: es => pre e i ++ events (sub e) (addr i) ++ elem_events es (i + 1)
  end.

Definition elems_depth (es : list E) : Z := foldr (fun e d => Z.max (tree_depth (sub e)) d) 0 es.
Definition elems_subs (es : list E) : Z := foldr (fun e n => tree_subobjects (sub e) + n) 0 es.

Definition elems_fit (d : nat) (n : Z) (es : list E) : bool :=
  (elems_depth es <=? Z.of_nat d) && (n + elems_subs es <=? GG_MAX_OBJECT_SUBOBJECTS).

(** The reading functions of the visitor agree with the elements. *)
Context (read : vstate C -> option (Z * Z)) (before : GgObjectVisitHandlers C -> Z -> Z -> step C).
Context (elem : Z -> Z -> Z) (fin : GgObjectVisitHandlers C -> step C) (base count : Z).
Context (Hread : forall c, read (m, c) = Some (count, base)).
Context (Helem : forall i, elem base i = addr i).
Context (Hfin : forall h, fin h = call h endev).

Definition elems_visit (d : nat) (n : Z) (es : list E) (i : Z) : Prop :=
  exists evs, evs `prefix_of` (elem_events es i ++ [endev]) /\
    (elems_fit d n es = true -> evs = elem_events es i ++ [endev]) /\
    forall h c, read_only h ->
      answers m
        (elems_rec read (before h) elem (fin h) (visit_rec h d) (length es) i n (m, c))
        (n + elems_subs es) (outcome_of h evs (elems_fit d n es) (m, c)).

Lemma elems_subs_nonneg es : 0 <= elems_subs es.
Proof.
  induction es as [|e es IH]; simpl; [lia|]. pose proof (tree_subobjects_nonneg (sub e)). lia.
Qed.

Lemma elems_visit_nil d n : 0 <= n <= GG_MAX_OBJECT_SUBOBJECTS -> elems_visit d n [] count.
Proof.
  intros Hn. exists [endev]. split; [done|]. split; [done|]. intros h c Hro.
  cbn [elems_rec length]. rewrite Hread. cbn [mbind option_bind].
  rewrite Z.eqb_refl. assert (elems_fit d n [] = true) as ->.
  { unfold elems_fit. simpl. apply andb_true_iff. rewrite !Z.leb_le. lia. }
  rewrite Hfin. simpl elems_subs. rewrite Z.add_0_r. by apply answers_leaf.
Qed.

Lemma elems_fit_cons d n e es :
  elems_fit d n (e :: es) = fits d n (sub e) && elems_fit d (n + tree_subobjects (sub e)) es.
Proof.
  unfold elems_fit, fits. simpl. pose proof (elems_subs_nonneg es).
  apply eq_true_iff_eq. rewrite !andb_true_iff, !Z.leb_le. lia.
Qed.

Lemma elems_visit_cons d n e es i :
  visited m (sub e) -> obj_at m (sub e) (addr i) -> 0 <= n <= GG_MAX_OBJECT_SUBOBJECTS ->
  i <> count ->
  (forall h c, read_only h -> before h base i (m, c) = run h (pre e i) (m, c)) ->
  (forall n, 0 <= n <= GG_MAX_OBJECT_SUBOBJECTS -> elems_visit d n es (i + 1)) ->
  elems_visit d n (e :: es) i.
Proof.
  intros Hv Hat Hn Hi Hbefore IH. destruct (Hv d n _ Hat Hn) as (evs1 & Hp1 & Hall1 & Hvis).
  pose proof (tree_subobjects_nonneg (sub e)).
  unfold elems_visit. rewrite elems_fit_cons. destruct (fits d n (sub e)) eqn:Hfit; cbn [andb].
  - rewrite Hall1 in Hvis by done.
    assert (n + tree_subobjects (sub e) <= GG_MAX_OBJECT_SUBOBJECTS) as Hmax.
    { unfold fits in Hfit. by zify_bool. }
    destruct (IH (n + tree_subobjects (sub e)) ltac:(lia)) as (evs2 & Hp2 & Hall2 & Hvis2).
    exists (pre e i ++ events (sub e) (addr i) ++ evs2). cbn [elem_events]. split_and!.
    + rewrite <- !app_assoc. by do 2 apply prefix_app.
    + intros Hok. rewrite Hall2 by done. by rewrite <- !app_assoc.
    + intros h c Hro. cbn [elems_rec length]. rewrite Hread. cbn [mbind option_bind].
      rewrite (proj2 (Z.eqb_neq _ _)) by done. rewrite Hbefore by done.
      apply answers_run; [done|]. intros c'. rewrite Helem.
      eapply answers_then; [by apply Hvis|]. intros c''.
      simpl elems_subs. rewrite Z.add_assoc. by apply Hvis2.
  - exists (pre e i ++ evs1). cbn [elem_events]. split_and!.
    + rewrite <- !app_assoc. apply prefix_app. by apply prefix_app_r.
    + done.
    + intros h c Hro. cbn [elems_rec length]. rewrite Hread. cbn [mbind option_bind].
      rewrite (proj2 (Z.eqb_neq _ _)) by done. rewrite Hbefore by done.
      apply answers_run; [done|]. intros c'. rewrite Helem.
      eapply answers_stop. by apply Hvis.
Qed.
End elements.

(** *** Lists *)

Definition list_pre (t : otree) (i : Z) : list vevent := if i =? 0 then [] else [EvContList].

Lemma list_elem_events p ts i :
  elem_events (fun t => t) list_pre (list_elem p) ts i = list_events p ts i.
Proof. revert i. induction ts as [|t ts IH]; intros i; simpl; [done|]. by rewrite IH. Qed.

Lemma list_before_run (h : GgObjectVisitHandlers C) base i t st :
  list_before h base i st = run h (list_pre t i) st.
Proof.
  unfold list_before, list_pre. destruct (i =? 0); [done|]. by rewrite run_single.
Qed.

Lemma list_elems_visit m p obj ts i d n :
  (forall c : C, read_list obj (m, c) = Some (i + zlen ts, p)) ->
  Forall (visited m) ts -> items_at m p ts i -> 0 <= n <= GG_MAX_OBJECT_SUBOBJECTS ->
  elems_visit (fun t => t) list_pre (list_elem p) m EvEndList (read_list obj) list_before list_elem
    list_fin d n ts i.
Proof.
  intros Hread Hv. revert i n Hread. induction Hv as [|t ts Hvt Hv IH]; intros i n Hread Hat Hn.
  - rewrite zlen_nil, Z.add_0_r in Hread. by eapply elems_visit_nil.
  - destruct Hat as [Hat1 Hat]. eapply (elems_visit_cons _ _ _ _ _ _ _ _ _ p (i + zlen (t :: ts)));
      try done.
    + zlen_lia.
    + intros h c _. apply list_before_run.
    + intros n' Hn'. apply IH; [|done|done]. intros c. rewrite Hread. do 2 f_equal. zlen_lia.
Qed.

(** *** Maps *)

Definition map_pre (kv : BufPtr * otree) (p i : Z) : list vevent :=
  (if i =? 0 then [] else [EvContMap]) ++ [EvMapKey kv.1 (map_kv p i)].

Lemma map_elem_events p kvs i :
  elem_events snd (fun kv => map_pre kv p) (map_elem p) kvs i = map_events p kvs i.
Proof.
  revert i. induction kvs as [|[k t] kvs IH]; intros i; simpl; [done|]. rewrite IH.
  unfold map_pre. by rewrite <- app_assoc.
Qed.

Lemma map_before_run (h : GgObjectVisitHandlers C) m p i kv c :
  read_only h -> gg_kv_key <$> read_kv m (map_kv p i) = Some kv.1 ->
  map_before h p i (m, c) = run h (map_pre kv p i) (m, c).
Proof.
  intros Hro Hk. unfold map_before, map_pre. rewrite run_app.
  assert (forall c', match on_map_key h with
    | Some f => kv_bytes ← read_kv m (map_kv p i); f (gg_kv_key kv_bytes) (map_kv p i) (m, c')
    | None => Some (GG_ERR_OK, (m, c'))
    end = run h [EvMapKey kv.1 (map_kv p i)] (m, c')) as Hkey.
  { intros c'. rewrite run_single. simpl. destruct (on_map_key h); [|done].
    destruct (read_kv m (map_kv p i)) as [o|]; [|done]. injection Hk as Hk.
    cbn [mbind option_bind]. by rewrite Hk. }
  destruct (i =? 0); cbn [negb].
  - unfold and_then at 1. cbn [run mbind option_bind]. rewrite bool_decide_true by done.
    cbn [fst]. by rewrite Hkey.
  - rewrite run_single. simpl call. unfold and_then.
    destruct (TRY_HANDLER (cont_map h) _ (m, c)) as [[e [m1 c1]]|] eqn:Hc; [|done].
    cbn [mbind option_bind]. pose proof (Hro EvContMap _ _ _ Hc) as Hm. simpl in Hm. subst m1.
    case_bool_decide; [|done]. cbn [fst]. by rewrite Hkey.
Qed.

Lemma map_elems_visit m p obj kvs i d n :
  (forall c : C, read_map obj (m, c) = Some (i + zlen kvs, p)) ->
  Forall (fun kv => visited m kv.2) kvs -> pairs_at m p kvs i ->
  0 <= n <= GG_MAX_OBJECT_SUBOBJECTS ->
  elems_visit snd (fun kv => map_pre kv p) (map_elem p) m EvEndMap (read_map obj) map_before map_elem
    map_fin d n kvs i.
Proof.
  intros Hread Hv. revert i n Hread. induction Hv as [|[k t] kvs Hvt Hv IH]; intros i n Hread Hat Hn.
  - rewrite zlen_nil, Z.add_0_r in Hread. by eapply elems_visit_nil.
  - destruct Hat as (Hk & Hat1 & Hat).
    eapply (elems_visit_cons _ _ _ _ _ _ _ _ _ p (i + zlen ((k, t) :: kvs))); try done.
    + zlen_lia.
    + intros h c Hro. by apply map_before_run.
    + intros n' Hn'. apply IH; [|done|done]. intros c. rewrite Hread. do 2 f_equal. zlen_lia.
Qed.

(** *** Objects *)

Lemma unpack_inv m a v :
  (o ← read_obj m a; unpack o) = Some v ->
  exists o ty, read_obj m a = Some o /\ gg_obj_type o = Some ty /\
    match v with
    | VNull => ty = GG_TYPE_NULL
    | VBool b => ty = GG_TYPE_BOOLEAN /\ gg_obj_into_bool o = Some b
    | VI64 z => ty = GG_TYPE_I64 /\ gg_obj_into_i64 o = Some z
    | VF64 z => ty = GG_TYPE_F64 /\ gg_obj_into_f64 o = Some z
    | VBuf b => ty = GG_TYPE_BUF /\ gg_obj_into_buf o = Some b
    | VList l => ty = GG_TYPE_LIST /\ gg_obj_into_list o = Some l
    | VMap l => ty = GG_TYPE_MAP /\ gg_obj_into_map o = Some l
    end.
Proof.
  destruct (read_obj m a) as [o|]; [|done]. cbn [mbind option_bind]. unfold unpack. intros H.
  destruct (gg_obj_type o) as [ty|] eqn:Hty; [|done]. cbn [mbind option_bind] in H. exists o, ty.
  split; [done|]. split; [done|].
  destruct ty; [by injection H as <-|..]; apply fmap_Some in H as (x & Hx & ->); done.
Qed.

Lemma visited_leaf m t :
  (forall d n a (h : GgObjectVisitHandlers C) (c : C), obj_at m t a -> exists ev, events t a = [ev] /\
     visit_rec h (S d) n a (m, c) = with_count n (call h ev (m, c))) ->
  tree_depth t = 1 -> tree_subobjects t = 0 -> visited m t.
Proof.
  intros Hleaf Hd Hs d n a Hat Hn. destruct d as [|d].
  { exists []. split; [apply prefix_nil|]. rewrite fits_0. split; [done|].
    rewrite <- (fits_0 n t). apply visits_0. }
  exists (events t a). split; [done|]. split; [done|]. intros h c Hro.
  assert (fits (S d) n t = true) as ->.
  { unfold fits. rewrite Hd, Hs. apply andb_true_iff. rewrite !Z.leb_le. lia. }
  destruct (Hleaf d n a h c Hat) as (ev & -> & ->). rewrite Hs, Z.add_0_r. by apply answers_leaf.
Qed.

Lemma visited_list m p ts : Forall (visited m) ts -> visited m (TList p ts).
Proof.
  intros Hv d n a Hat Hn. destruct d as [|d].
  { exists []. split; [apply prefix_nil|]. rewrite fits_0. split; [done|].
    rewrite <- (fits_0 n (TList p ts)). apply visits_0. }
  apply obj_at_list in Hat as [Ho Hitems]. rewrite events_list.
  destruct (unpack_inv _ _ _ Ho) as (o & ty & Hr & Hty & -> & Hi). simpl in Hi.
  assert (forall ok, fits (S d) n (TList p ts) = ok ->
    ok = (n + zlen ts <=? GG_MAX_OBJECT_SUBOBJECTS) && elems_fit (fun t => t) d (n + zlen ts) ts) as Hfit.
  { intros ok <-. unfold fits, elems_fit. simpl. fold (elems_depth (fun t => t) ts).
    fold (elems_subs (fun t => t) ts). pose proof (elems_subs_nonneg (fun t => t) ts).
    apply eq_true_iff_eq. rewrite !andb_true_iff, !Z.leb_le. lia. }
  rewrite (Hfit _ eq_refl). pose proof (zlen_nonneg ts).
  assert (forall (h : GgObjectVisitHandlers C) (c : C), visit_rec h (S d) n a (m, c) =
    if GG_MAX_OBJECT_SUBOBJECTS <? n + zlen ts then Some (GG_ERR_RANGE, (n, (m, c))) else
    '(e, st) ← call h (EvList (mkList p (zlen ts)) a) (m, c);
    if negb (bool_decide (e = GG_ERR_OK)) then Some (e, (n + zlen ts, st)) else
    elems_rec (read_list a) (list_before h) list_elem (list_fin h) (visit_rec h d)
      (length ts) 0 (n + zlen ts) st) as Heq.
  { intros h c. cbn [visit_rec fst]. rewrite Hr. cbn [mbind option_bind]. rewrite Hty.
    cbn [mbind option_bind]. rewrite Hi. cbn [mbind option_bind list_len].
    rewrite (proj2 (Z.leb_le _ _)) by done. cbn [gg_asserts mbind option_bind].
    rewrite to_nat_zlen. done. }
  destruct (GG_MAX_OBJECT_SUBOBJECTS <? n + zlen ts) eqn:Hmax; zify_bool.
  - rewrite (proj2 (Z.leb_gt _ _)) by done. exists []. split; [apply prefix_nil|]. split; [done|].
    intros h c Hro. rewrite Heq. apply answers_range.
  - rewrite (proj2 (Z.leb_le _ _)) by done. cbn [andb].
    destruct (list_elems_visit m p a ts 0 d (n + zlen ts)) as (evs & Hp & Hall & Hvis); try done.
    { intros c. unfold read_list. cbn [fst]. rewrite Hr. cbn [mbind option_bind].
      rewrite Hi. cbn [mbind option_bind]. done. }
    { lia. }
    rewrite list_elem_events in Hp, Hall. eexists (_ :: evs). split_and!.
    + by apply prefix_cons.
    + intros Hok. by rewrite Hall.
    + intros h c Hro. rewrite Heq. simpl tree_subobjects.
      fold (elems_subs (fun t => t) ts). rewrite Z.add_assoc. apply answers_call; [done|].
      intros c'. by apply Hvis.
Qed.

Lemma visited_map m p kvs : Forall (fun kv => visited m kv.2) kvs -> visited m (TMap p kvs).
Proof.
  intros Hv d n a Hat Hn. destruct d as [|d].
  { exists []. split; [apply prefix_nil|]. rewrite fits_0. split; [done|].
    rewrite <- (fits_0 n (TMap p kvs)). apply visits_0. }
  apply obj_at_map in Hat as [Ho Hitems]. rewrite events_map.
  destruct (unpack_inv _ _ _ Ho) as (o & ty & Hr & Hty & -> & Hi). simpl in Hi.
  assert (forall ok, fits (S d) n (TMap p kvs) = ok ->
    ok = (n + 2 * zlen kvs <=? GG_MAX_OBJECT_SUBOBJECTS) && elems_fit snd d (n + 2 * zlen kvs) kvs) as Hfit.
  { intros ok <-. unfold fits, elems_fit. cbn [tree_depth tree_subobjects]. fold (elems_depth snd kvs).
    fold (elems_subs snd kvs). pose proof (elems_subs_nonneg snd kvs).
    apply eq_true_iff_eq. rewrite !andb_true_iff, !Z.leb_le. lia. }
  rewrite (Hfit _ eq_refl). pose proof (zlen_nonneg kvs).
  assert (forall (h : GgObjectVisitHandlers C) (c : C), visit_rec h (S d) n a (m, c) =
    if GG_MAX_OBJECT_SUBOBJECTS <? n + 2 * zlen kvs then Some (GG_ERR_RANGE, (n, (m, c))) else
    '(e, st) ← call h (EvMap (mkMap p (zlen kvs)) a) (m, c);
    if negb (bool_decide (e = GG_ERR_OK)) then Some (e, (n + 2 * zlen kvs, st)) else
    elems_rec (read_map a) (map_before h) map_elem (map_fin h) (visit_rec h d)
      (length kvs) 0 (n + 2 * zlen kvs) st) as Heq.
  { intros h c. cbn [visit_rec fst]. rewrite Hr. cbn [mbind option_bind]. rewrite Hty.
    cbn [mbind option_bind]. rewrite Hi. cbn [mbind option_bind map_len].
    rewrite (proj2 (Z.leb_le _ _)) by done. cbn [gg_asserts mbind option_bind].
    rewrite to_nat_zlen. done. }
  destruct (GG_MAX_OBJECT_SUBOBJECTS <? n + 2 * zlen kvs) eqn:Hmax; zify_bool.
  - rewrite (proj2 (Z.leb_gt _ _)) by done. exists []. split; [apply prefix_nil|]. split; [done|].
    intros h c Hro. rewrite Heq. apply answers_range.
  - rewrite (proj2 (Z.leb_le _ _)) by done. cbn [andb].
    destruct (map_elems_visit m p a kvs 0 d (n + 2 * zlen kvs)) as (evs & Hp & Hall & Hvis); try done.
    { intros c. unfold read_map. cbn [fst]. rewrite Hr. cbn [mbind option_bind].
      rewrite Hi. cbn [mbind option_bind]. done. }
    { lia. }
    rewrite map_elem_events in Hp, Hall. eexists (_ :: evs). split_and!.
    + by apply prefix_cons.
    + intros Hok. by rewrite Hall.
    + intros h c Hro. rewrite Heq. cbn [tree_subobjects].
      fold (elems_subs snd kvs). rewrite Z.add_assoc. apply answers_call; [done|].
      intros c'. by apply Hvis.
Qed.

Lemma visited_all m t : visited m t.
Proof.
  induction t as [|b|z|z|b|p ts IH|p kvs IH] using otree_ind';
    [| | | | |by apply visited_list|by apply visited_map].
  all: apply visited_leaf; [|done|done]; intros d n a h c [Ho _]; eexists; (split; [done|]).
  all: destruct (unpack_inv _ _ _ Ho) as (o & ty & Hr & Hty & Hi); simpl in Hi;
    cbn [visit_rec fst]; rewrite Hr; cbn [mbind option_bind]; rewrite Hty; cbn [mbind option_bind].
  1: by subst ty.
  all: destruct Hi as [-> Hi]; rewrite Hi; done.
Qed.
End spec.

(** The visit of a tree, for all handlers. *)
Lemma visit_events_of (C : Type) (m : mem) (t : otree) (a : Z) :
  obj_at m t a ->
  exists evs, evs `prefix_of` events t a /\ (within_limits t = true -> evs = events t a) /\
    forall (h : GgObjectVisitHandlers C) (c : C) e st', read_only h ->
      outcome_of h evs (within_limits t) (m, c) = Some (e, st') ->
      gg_obj_visit h a (m, c) = Some (e, st').
Proof.
  intros Hat. destruct (visited_all (C := C) m t 15%nat 0 a Hat) as (evs & Hp & Hall & Hvis);
    [unfold GG_MAX_OBJECT_SUBOBJECTS; lia|].
  change (fits 15%nat 0 t) with (within_limits t) in *.
  exists evs. split_and!; [done|done|]. intros h c e st' Hro He.
  destruct (Hvis h c Hro e st' He) as (_ & k & Hr & _). by eapply gg_obj_visit_rec.
Qed.

(** ** Handlers that change the memory

    A visit whose handlers keep an invariant [I], under which the part [m0] of
    the memory that holds the tree is unchanged, is the visit of the tree in
    [m0]: the handlers are lifted to a context that holds the actual memory. *)

Section frame.
Context {C : Type} (h : GgObjectVisitHandlers C).
Context (m0 : mem) (I : vstate C -> Prop).

Definition lift_step (f : step C) : step (vstate C) :=
  fun '(m, st) => '(e, st) ← f st; Some (e, (m, st)).

Definition lift : GgObjectVisitHandlers (vstate C) :=
  mkHandlers (lift_step <$> on_null h) ((fun f b => lift_step (f b)) <$> on_bool h)
    ((fun f z => lift_step (f z)) <$> on_i64 h) ((fun f z => lift_step (f z)) <$> on_f64 h)
    ((fun f b a => lift_step (f b a)) <$> on_buf h) ((fun f l a => lift_step (f l a)) <$> on_list h)
    (lift_step <$> cont_list h) (lift_step <$> end_list h)
    ((fun f l a => lift_step (f l a)) <$> on_map h) ((fun f k a => lift_step (f k a)) <$> on_map_key h)
    (lift_step <$> cont_map h) (lift_step <$> end_map h).

Lemma call_lift ev m st : call lift ev (m, st) = '(e, st) ← call h ev st; Some (e, (m, st)).
Proof.
  destruct ev; simpl;
    [destruct (on_null h)|destruct (on_bool h)|destruct (on_i64 h)|destruct (on_f64 h)
    |destruct (on_buf h)|destruct (on_list h)|destruct (cont_list h)|destruct (end_list h)
    |destruct (on_map h)|destruct (on_map_key h)|destruct (cont_map h)|destruct (end_map h)]; done.
Qed.

Lemma lift_read_only : read_only lift.
Proof.
  intros ev [m st] e st'. rewrite call_lift. destruct (call h ev st) as [[e1 st1]|]; [|done].
  cbn [mbind option_bind]. by intros [= <- <-].
Qed.

Lemma run_lift evs m st : run lift evs (m, st) = '(e, st) ← run h evs st; Some (e, (m, st)).
Proof.
  revert st. induction evs as [|ev evs IH]; intros st; [done|]. cbn [run]. rewrite call_lift.
  unfold and_then. destruct (call h ev st) as [[e st1]|]; [|done]. cbn [mbind option_bind].
  case_bool_decide; [apply IH|done].
Qed.

Hypothesis I_frame : forall st, I st -> m0 ⊆ st.1.
Hypothesis I_call : forall ev st e st', I st -> call h ev st = Some (e, st') -> I st'.

Definition framed (r' : option (GgError * vstate (vstate C))) (r : option (GgError * vstate C)) : Prop :=
  forall e m st, r' = Some (e, (m, st)) -> r = Some (e, st).

Lemma framed_ret e st : framed (Some (e, (m0, st))) (Some (e, st)).
Proof. by intros e' m st' [= <- <- <-]. Qed.

Lemma framed_call ev st k' k :
  I st -> (forall st, I st -> framed (k' (m0, st)) (k st)) ->
  framed (and_then (call lift ev (m0, st)) k') (and_then (call h ev st) k).
Proof.
  intros HI Hk. rewrite call_lift. unfold and_then. destruct (call h ev st) as [[e st1]|] eqn:Hc; [|done].
  cbn [mbind option_bind]. case_bool_decide; [|apply framed_ret]. apply Hk. by eapply I_call.
Qed.

Lemma framed_bind {A} (o' o : option A) k' k :
  (forall x, o' = Some x -> o = Some x) -> (forall x, framed (k' x) (k x)) ->
  framed (x ← o'; k' x) (x ← o; k x).
Proof.
  intros Ho Hk. destruct o' as [x|]; [|done]. rewrite (Ho x eq_refl). cbn [mbind option_bind]. apply Hk.
Qed.

Lemma framed_leave fuel below n st :
  (forall levels n st, I st -> framed (visit_loop lift fuel levels n (m0, st)) (visit_loop h fuel levels n st)) ->
  I st ->
  framed (match below with [] => Some (GG_ERR_OK, (m0, st)) | _ => visit_loop lift fuel below n (m0, st) end)
    (match below with [] => Some (GG_ERR_OK, st) | _ => visit_loop h fuel below n st end).
Proof. intros IH HI. destruct below; [apply framed_ret|by apply IH]. Qed.

Lemma framed_cont (first : bool) ev k' k st :
  I st -> (forall st, I st -> framed (k' (m0, st)) (k st)) ->
  framed (and_then (if first then call lift ev (m0, st) else Some (GG_ERR_OK, (m0, st))) k')
    (and_then (if first then call h ev st else Some (GG_ERR_OK, st)) k).
Proof. intros HI Hk. destruct first; [by apply framed_call|]. by apply Hk. Qed.

Lemma framed_key obj k' k st :
  I st -> (forall st, I st -> framed (k' (m0, st)) (k st)) ->
  framed
    (and_then match on_map_key lift with
              | Some f => kv_bytes ← read_kv m0 obj; f (gg_kv_key kv_bytes) obj (m0, st)
              | None => Some (GG_ERR_OK, (m0, st))
              end k')
    (and_then match on_map_key h with
              | Some f => kv_bytes ← read_kv st.1 obj; f (gg_kv_key kv_bytes) obj st
              | None => Some (GG_ERR_OK, st)
              end k).
Proof.
  intros HI Hk. destruct (on_map_key h) as [f|] eqn:Hf; cbn [on_map_key lift]; rewrite Hf; [|by apply Hk].
  cbn [fmap option_fmap option_map]. destruct (read_kv m0 obj) as [kv|] eqn:Hr; [|done].
  unfold read_kv in *. rewrite (loadz_mono _ _ _ _ _ (I_frame _ HI) Hr). cbn [mbind option_bind].
  pose proof (framed_call (EvMapKey (gg_kv_key kv) obj) st k' k HI Hk) as Hc.
  cbn [call] in Hc. unfold TRY_HANDLER in Hc. cbn [on_map_key lift] in Hc. by rewrite Hf in Hc.
Qed.

Lemma framed_if (b : bool) x' x y' y :
  framed x' x -> framed y' y -> framed (if b then x' else y') (if b then x else y).
Proof. by destruct b. Qed.

Lemma visit_loop_framed fuel levels n st :
  I st -> framed (visit_loop lift fuel levels n (m0, st)) (visit_loop h fuel levels n st).
Proof.
  revert levels n st. induction fuel as [|fuel IH]; intros levels n st HI; [done|].
  destruct levels as [|[obj s idx] below]; [done|]. cbn [visit_loop].
  apply framed_bind; [intros o; apply loadz_mono, I_frame, HI|]. intros o.
  destruct s.
  - apply framed_bind; [done|]. intros ty.
    destruct ty; try (apply framed_bind; [done|]; intros v).
    + by apply (framed_call EvNull); [|intros; apply framed_leave].
    + by apply (framed_call (EvBool v)); [|intros; apply framed_leave].
    + by apply (framed_call (EvI64 v)); [|intros; apply framed_leave].
    + by apply (framed_call (EvF64 v)); [|intros; apply framed_leave].
    + by apply (framed_call (EvBuf v obj)); [|intros; apply framed_leave].
    + apply framed_if; [apply framed_ret|]. by apply (framed_call (EvList v obj)); [|intros; apply IH].
    + apply framed_if; [apply framed_ret|]. by apply (framed_call (EvMap v obj)); [|intros; apply IH].
  - apply framed_bind; [done|]. intros l. apply framed_if.
    + by apply (framed_call EvEndList); [|intros; apply framed_leave].
    + apply (framed_cont _ EvContList); [done|]. intros st1 H1.
      apply framed_if; [apply framed_ret|]. by apply IH.
  - apply framed_bind; [done|]. intros l. apply framed_if.
    + by apply (framed_call EvEndMap); [|intros; apply framed_leave].
    + apply (framed_cont _ EvContMap); [done|]. intros st1 H1. apply framed_key; [done|]. intros st2 H2.
      apply framed_if; [apply framed_ret|]. by apply IH.
Qed.

(** Running the handlers on events that a visit makes. *)
Lemma framed_outcome evs ok a st e st' :
  (outcome_of lift evs ok (m0, st) = Some (e, (m0, st')) -> gg_obj_visit lift a (m0, st) = Some (e, (m0, st'))) ->
  I st -> outcome_of h evs ok st = Some (e, st') -> gg_obj_visit h a st = Some (e, st').
Proof.
  intros Hl HI Ho. assert (outcome_of lift evs ok (m0, st) = Some (e, (m0, st'))) as Hl'.
  { revert Ho. unfold outcome_of. rewrite run_lift. unfold and_then.
    destruct (run h evs st) as [[e1 st1]|]; [|done]. cbn [mbind option_bind].
    case_bool_decide; by intros [= <- <-]. }
  specialize (Hl Hl'). revert Hl. unfold gg_obj_visit. generalize VISIT_FUEL. intros fuel.
  apply (visit_loop_framed fuel _ _ _ HI).
Qed.
End frame.

(** The events of a tree, for handlers that change the memory around it. *)
Lemma visit_events_framed (C : Type) (m : mem) (t : otree) (a : Z) :
  obj_at m t a ->
  exists evs, evs `prefix_of` events t a /\ (within_limits t = true -> evs = events t a) /\
    forall (h : GgObjectVisitHandlers C) (I : vstate C -> Prop) st e st',
      (forall st, I st -> m ⊆ st.1) -> (forall ev st e st', I st -> call h ev st = Some (e, st') -> I st') -> I st ->
      outcome_of h evs (within_limits t) st = Some (e, st') -> gg_obj_visit h a st = Some (e, st').
Proof.
  intros Hat. destruct (visit_events_of (vstate C) m t a Hat) as (evs & Hp & Hall & Hv).
  exists evs. split; [done|]. split; [done|]. intros h I st e st' HI Hc Hst Ho.
  eapply (framed_outcome h m I HI Hc evs (within_limits t)); [|exact Hst|exact Ho].
  apply Hv, lift_read_only.
Qed.

(** * Properties *)

(** C29: the visit is that of a recursive visitor. Whatever the handlers do,
    changes of the object itself included, when the recursive visitor has an
    outcome (it looks at the memory anew after every handler, so that the
    elements visited are those of the container as its handler left it), the
    loop has the same within its [VISIT_FUEL] iterations. In particular, for
    handlers that leave the memory of the object alone, an object within the
    limits on depth (15) and subobjects (255) gets exactly the events of its tree,
    in order; beyond a limit the visit makes a prefix of these calls and fails
    with [GG_ERR_RANGE]; a handler's error ends the visit with that error. *)
Theorem visit_events (C : Type) :
  (forall (h : GgObjectVisitHandlers C) obj st e n st',
     visit_rec h (Z.to_nat GG_MAX_OBJECT_DEPTH) 0 obj st = Some (e, (n, st')) -> gg_obj_visit h obj st = Some (e, st')) /\
  (forall m t a, obj_at m t a ->
     exists evs, evs `prefix_of` events t a /\ (within_limits t = true -> evs = events t a) /\
       forall (h : GgObjectVisitHandlers C) (I : vstate C -> Prop) st e st',
         (forall st, I st -> m ⊆ st.1) -> (forall ev st e st', I st -> call h ev st = Some (e, st') -> I st') -> I st ->
         (st <~ run h evs st ;; Some (if within_limits t then GG_ERR_OK else GG_ERR_RANGE, st)) = Some (e, st') ->
         gg_obj_visit h a st = Some (e, st')).
Proof. split; [apply gg_obj_visit_rec|apply visit_events_framed]. Qed.

(** The list [[true, false]] at 50, its items at 100; handlers that keep the
    booleans seen. *)
Definition example_tree : otree := TList 100 [TBool true; TBool false].

Definition example_tree_mem : mem :=
  put (put ∅ 50 (default [] (gg_obj_list (mkList 100 2))))
    100 (gg_obj_bool true ++ gg_obj_bool false).

Definition example_handlers : GgObjectVisitHandlers (list bool) :=
  mkHandlers None (Some (fun b st => Some (GG_ERR_OK, (st.1, st.2 ++ [b])))) None None None None None
    None None None None None.

Lemma example_tree_at : obj_at example_tree_mem example_tree 50.
Proof.
  apply obj_at_list. split; [by vm_compute|]. cbn [items_at obj_at].
  split; [split; [by vm_compute|done]|]. split; [split; [by vm_compute|done]|done].
Qed.

Lemma example_handlers_read_only : read_only example_handlers.
Proof. intros ev st e st' H. destruct ev; simpl in H; by injection H as _ <-. Qed.

(** A handler that moves the items of the list in [example_tree_mem] before they
    are visited. *)
Definition moving_handlers : GgObjectVisitHandlers (list bool) :=
  mkHandlers None (Some (fun b st => Some (GG_ERR_OK, (st.1, st.2 ++ [b])))) None None None
    (Some (fun l obj st => o ← gg_obj_list (mkList 111 1); m ← store st.1 obj o; Some (GG_ERR_OK, (m, st.2))))
    None None None None None None.

Lemma visit_events_witness :
  gg_obj_visit example_handlers 50 (example_tree_mem, []) =
    Some (GG_ERR_OK, (example_tree_mem, [true; false])) /\
  exists m, gg_obj_visit moving_handlers 50 (example_tree_mem, []) = Some (GG_ERR_OK, (m, [false])).
Proof.
  destruct (visit_events (list bool)) as [Hrec Hevents]. split.
  - destruct (Hevents example_tree_mem example_tree 50 example_tree_at) as (evs & _ & Hall & Hv).
    apply (Hv example_handlers (fun st => st.1 = example_tree_mem)).
    + by intros st ->.
    + intros ev st e st' <- Hc. by eapply example_handlers_read_only.
    + done.
    + rewrite Hall by by vm_compute. by vm_compute.
  - eexists. eapply (Hrec moving_handlers 50 (example_tree_mem, [])). vm_compute. reflexivity.
Defined.
