(* ===== verification/ObjectOps.v ===== *)
(** The operations on whole objects that are visits: [gg_obj_mem_usage]
    ([src/object.c]), [gg_obj_canonicalize] and [gg_obj_is_canonical]
    ([src/object_canonical.c]). *)

From Stdlib Require Import Sorted.
From S2P Require Import Prelude Memory Buffer Io Object Map Canonical Visit.

(** ** Definitions *)

(** The context is [*measured], a [size_t]. *)
Definition mem_usage_buf (val : BufPtr) (obj : Z) : step Z := fun '(m, measured) =>
  Some (GG_ERR_OK, (m, uwrap 64 (measured + len val))).
Definition mem_usage_list (val : GgList) (obj : Z) : step Z := fun '(m, measured) =>
  Some (GG_ERR_OK, (m, uwrap 64 (measured + list_len val * sizeof_GgObject))).
Definition mem_usage_map (val : GgMap) (obj : Z) : step Z := fun '(m, measured) =>
  Some (GG_ERR_OK, (m, uwrap 64 (measured + map_len val * sizeof_GgKV))).
Definition mem_usage_map_key (key : BufPtr) (kv : Z) : step Z := fun '(m, measured) =>
  Some (GG_ERR_OK, (m, uwrap 64 (measured + len key))).

Definition mem_usage_handlers : GgObjectVisitHandlers Z :=
  mkHandlers None None None None (Some mem_usage_buf) (Some mem_usage_list) None None
    (Some mem_usage_map) (Some mem_usage_map_key) None None.

(** On the object at [obj]: the result, and the size when it is assigned. *)
Definition gg_obj_mem_usage (m : mem) (obj : Z) : option (GgError * option Z) :=
  '(ret, (_, measured)) ← gg_obj_visit mem_usage_handlers obj (m, 0);
  Some (ret, if bool_decide (ret = GG_ERR_OK) then Some measured else None).

(** [pruned] is where the literal ["<pruned>"] lies. *)
Definition canonicalize_map (pruned : BufPtr) (val : GgMap) (obj : Z) : step unit := fun '(m, ctx) =>
  '(m, val) ← gg_map_canonicalize_shallow pruned m val;
  o ← gg_obj_map val;
  m ← store m obj o;
  Some (GG_ERR_OK, (m, ctx)).

Definition gg_obj_canonicalize (pruned : BufPtr) (m : mem) (obj : Z) : option (GgError * mem) :=
  if obj =? NULL then Some (GG_ERR_OK, m)
  else
    let handlers := mkHandlers None None None None None None None None
      (Some (canonicalize_map pruned)) None None None in
    '(ret, (m, _)) ← gg_obj_visit handlers obj (m, tt);
    Some (ret, m).

Definition is_map_canonical (val : GgMap) (obj : Z) : step unit := fun '(m, ctx) =>
  b ← gg_map_is_canonical m val;
  Some (if negb b then GG_ERR_FAILURE else GG_ERR_OK, (m, ctx)).

Definition is_canonical_handlers : GgObjectVisitHandlers unit :=
  mkHandlers None None None None None None None None (Some is_map_canonical) None None None.

Definition gg_obj_is_canonical (m : mem) (obj : Z) : option bool :=
  '(ret, _) ← gg_obj_visit is_canonical_handlers obj (m, tt);
  Some (bool_decide (ret = GG_ERR_OK)).

(** ** Memory usage *)

(** The bytes of the buffers, keys and arrays of a tree. *)
Fixpoint tree_usage (t : otree) : Z :=
  match t with
  | TBuf b => len b
  | TList _ ts => zlen ts * sizeof_GgObject + foldr (fun t n => tree_usage t + n) 0 ts
  | TMap _ kvs =>
      zlen kvs * sizeof_GgKV + foldr (fun kv n => len kv.1 + tree_usage kv.2 + n) 0 kvs
  | _ => 0
  end.

Definition event_usage (ev : vevent) : Z :=
  match ev with
  | EvBuf b _ => len b
  | EvList l _ => list_len l * sizeof_GgObject
  | EvMap m _ => map_len m * sizeof_GgKV
  | EvMapKey k _ => len k
  | _ => 0
  end.

Definition events_usage (evs : list vevent) : Z := foldr (fun ev n => event_usage ev + n) 0 evs.

Lemma events_usage_app xs ys : events_usage (xs ++ ys) = events_usage xs + events_usage ys.
Proof. induction xs as [|x xs IH]; simpl; [done|]. rewrite IH. lia. Qed.

Lemma events_usage_cons ev evs : events_usage (ev :: evs) = event_usage ev + events_usage evs.
Proof. done. Qed.

Lemma events_usage_tree t a : events_usage (events t a) = tree_usage t.
Proof.
  revert a. induction t as [| | | |b|p ts IH|p kvs IH] using otree_ind'; intros a.
  1-5: unfold events_usage; simpl; lia.
  - assert (forall i, events_usage (list_events p ts i) = foldr (fun t n => tree_usage t + n) 0 ts) as Hl.
    { induction IH as [|t ts Ht _ IH]; intros i; [done|]. cbn [list_events foldr].
      rewrite !events_usage_app, Ht, IH. by destruct (i =? 0). }
    rewrite events_list, events_usage_cons, events_usage_app, Hl. unfold events_usage.
    cbn [tree_usage event_usage list_len foldr]. lia.
  - assert (forall i, events_usage (map_events p kvs i) =
      foldr (fun kv n => len kv.1 + tree_usage kv.2 + n) 0 kvs) as Hl.
    { induction IH as [|[k t] kvs Ht _ IH]; intros i; [done|]. cbn [map_events foldr].
      rewrite !events_usage_app, events_usage_cons. simpl in Ht. rewrite Ht, IH.
      cbn [events_usage foldr event_usage fst snd].
      destruct (i =? 0); unfold events_usage; cbn [foldr event_usage]; lia. }
    rewrite events_map, events_usage_cons, events_usage_app, Hl. unfold events_usage.
    cbn [tree_usage event_usage map_len foldr]. lia.
Qed.

Lemma run_mem_usage evs m c :
  run mem_usage_handlers evs (m, c) =
    Some (GG_ERR_OK, (m, foldl (fun n ev => match ev with
      | EvBuf _ _ | EvList _ _ | EvMap _ _ | EvMapKey _ _ => uwrap 64 (n + event_usage ev)
      | _ => n end) c evs)).
Proof.
  revert c. induction evs as [|ev evs IH]; intros c; [done|]. cbn [run foldl].
  destruct ev; exact (IH _).
Qed.

Lemma uwrap_add_l w x y : uwrap w (uwrap w x + y) = uwrap w (x + y).
Proof. unfold uwrap. by rewrite Zplus_mod_idemp_l. Qed.

Lemma fold_usage evs c :
  uwrap 64 c = c ->
  foldl (fun n ev => match ev with
    | EvBuf _ _ | EvList _ _ | EvMap _ _ | EvMapKey _ _ => uwrap 64 (n + event_usage ev)
    | _ => n end) c evs = uwrap 64 (c + events_usage evs).
Proof.
  revert c. induction evs as [|ev evs IH]; intros c Hc; simpl.
  - by rewrite Z.add_0_r, Hc.
  - assert (forall x, uwrap 64 (uwrap 64 x) = uwrap 64 x) as Hu.
    { intros x. unfold uwrap. by rewrite Z.mod_mod by lia. }
    destruct ev; cbn [event_usage]; rewrite IH by (done || apply Hu);
      rewrite ?uwrap_add_l; f_equal; lia.
Qed.

Lemma mem_usage_read_only : read_only mem_usage_handlers.
Proof. intros ev [m c] e st' H. destruct ev; simpl in H; by injection H as _ <-. Qed.

(** ** Canonical objects *)

(** Every map of the tree has strictly increasing keys. *)
Fixpoint keys_sorted (m : mem) (t : otree) : Prop :=
  match t with
  | TList _ ts => foldr (fun t P => keys_sorted m t /\ P) True ts
  | TMap p kvs =>
      StronglySorted (fun a b => lex_lt a b = true)
        ((fun kv => default [] (buf_bytes m kv.1)) <$> kvs) /\
      foldr (fun kv P => keys_sorted m kv.2 /\ P) True kvs
  | _ => True
  end.

(** Every key of the tree can be read. *)
Fixpoint keys_readable (m : mem) (t : otree) : Prop :=
  match t with
  | TList _ ts => foldr (fun t P => keys_readable m t /\ P) True ts
  | TMap p kvs =>
      foldr (fun kv P => (is_Some (buf_bytes m kv.1) /\ 0 <= len kv.1 /\ keys_readable m kv.2) /\ P)
        True kvs
  | _ => True
  end.

(** The maps of a list of events are canonical. *)
Definition event_canonical (m : mem) (ev : vevent) : option bool :=
  match ev with EvMap map _ => gg_map_is_canonical m map | _ => Some true end.

Lemma run_is_canonical evs m :
  Forall (fun ev => is_Some (event_canonical m ev)) evs ->
  run is_canonical_handlers evs (m, tt) =
    Some (if bool_decide (Forall (fun ev => event_canonical m ev = Some true) evs)
          then GG_ERR_OK else GG_ERR_FAILURE, (m, tt)).
Proof.
  induction evs as [|ev evs IH]; intros Hs; [done|]. apply Forall_cons in Hs as [Hev Hs].
  cbn [run]. specialize (IH Hs).
  assert (event_canonical m ev = Some true -> call is_canonical_handlers ev (m, tt) = Some (GG_ERR_OK, (m, tt)))
    as Ht.
  { destruct ev; simpl; try done. by intros ->. }
  destruct Hev as [[|] Hb].
  - rewrite Ht by done. unfold and_then. cbn [mbind option_bind].
    rewrite (bool_decide_true (GG_ERR_OK = GG_ERR_OK)) by done. rewrite IH.
    rewrite (bool_decide_ext _ (Forall (fun ev => event_canonical m ev = Some true) (ev :: evs))); [done|].
    rewrite Forall_cons. tauto.
  - rewrite (bool_decide_false (Forall _ (ev :: evs))) by (intros [H _]%Forall_cons; congruence).
    destruct ev; simpl in Hb; try discriminate Hb. simpl call. unfold is_map_canonical.
    rewrite Hb. done.
Qed.

Lemma is_canonical_read_only : read_only is_canonical_handlers.
Proof.
  intros ev [m c] e st' H. destruct ev; simpl in H; try (by injection H as _ <-).
  destruct (gg_map_is_canonical m m0) as [b|]; [|done]. simpl in H. by injection H as _ <-.
Qed.

(** The keys of the pairs of a map, with the bytes of the pairs. *)
Lemma pairs_slots m p kvs :
  pairs_at m p kvs 0 -> foldr (fun kv P => (is_Some (buf_bytes m kv.1) /\ 0 <= len kv.1 /\
    keys_readable m kv.2) /\ P) True kvs ->
  exists l, slots_readable m p l /\ zlen l = zlen kvs /\
    keys l = (fun kv => default [] (buf_bytes m kv.1)) <$> kvs.
Proof.
  assert (forall i, pairs_at m p kvs i -> foldr (fun kv P => (is_Some (buf_bytes m kv.1) /\
      0 <= len kv.1 /\ keys_readable m kv.2) /\ P) True kvs ->
    exists l, slots_readable m (p + sizeof_GgKV * i) l /\ zlen l = zlen kvs /\
      keys l = (fun kv => default [] (buf_bytes m kv.1)) <$> kvs) as H.
  { induction kvs as [|[k t] kvs IH]; intros i Hp Hr.
    - exists []. split; [|done]. intros j s Hj. by rewrite lookup_nil in Hj.
    - cbn [pairs_at foldr] in Hp, Hr. destruct Hp as (Hk & _ & Hp), Hr as [([bs Hb] & Hl & _) Hr].
      destruct (IH (i + 1) Hp Hr) as (l & Hs & Hz & Hks).
      destruct (read_kv m (map_kv p i)) as [r|] eqn:Hread; [|done]. injection Hk as Hk. subst k.
      exists (mkSlot r bs :: l). split; [|split; [rewrite !zlen_cons; by rewrite Hz|]].
      + intros [|j] s Hj.
        * injection Hj as <-. rewrite Z.mul_0_r, Z.add_0_r. done.
        * simpl in Hj. destruct (Hs j s Hj) as (Hrj & Hkj & Hlj). split; [|done].
          replace (p + sizeof_GgKV * i + sizeof_GgKV * Z.of_nat (S j))
            with (p + sizeof_GgKV * (i + 1) + sizeof_GgKV * Z.of_nat j) by lia. done.
      + cbn [keys fmap list_fmap skey]. f_equal; [|exact Hks]. simpl in Hb. simpl. by rewrite Hb. }
  intros Hp Hr. destruct (H 0 Hp Hr) as (l & Hs & ?). exists l. split; [|done].
  by rewrite Z.mul_0_r, Z.add_0_r in Hs.
Qed.

Lemma key_sorted_keys l :
  key_sorted l <-> StronglySorted (fun a b => lex_lt a b = true) (keys l).
Proof.
  unfold key_sorted. induction l as [|s l IH]; simpl; [split; constructor|].
  split; intros H; apply StronglySorted_inv in H as [H Hf]; (constructor; [by apply IH|]).
  - apply Forall_fmap. exact Hf.
  - apply Forall_fmap in Hf. exact Hf.
Qed.

Definition all_canonical (m : mem) (evs : list vevent) : Prop :=
  Forall (fun ev => event_canonical m ev = Some true) evs.
Definition all_checked (m : mem) (evs : list vevent) : Prop :=
  Forall (fun ev => is_Some (event_canonical m ev)) evs.

Lemma Forall_if {A} (P : A -> Prop) (b : bool) x : P x -> Forall P (if b then [] else [x]).
Proof. intros Hx. destruct b; by repeat constructor. Qed.

Lemma events_canonical m t a :
  obj_at m t a -> keys_readable m t ->
  all_checked m (events t a) /\ (all_canonical m (events t a) <-> keys_sorted m t).
Proof.
  unfold all_checked, all_canonical. revert a.
  induction t as [| | | |b|p ts IH|p kvs IH] using otree_ind'; intros a Hat Hr.
  1-5: simpl; (split; [repeat constructor; done|]); split; [done|]; intros _; repeat constructor.
  - apply obj_at_list in Hat as [_ Hat]. rewrite events_list.
    assert (forall i, items_at m p ts i ->
      Forall (fun ev => is_Some (event_canonical m ev)) (list_events p ts i) /\
      (Forall (fun ev => event_canonical m ev = Some true) (list_events p ts i) <->
       foldr (fun t P => keys_sorted m t /\ P) True ts)) as Hl.
    { clear Hat. cbn [keys_readable] in Hr. induction IH as [|t ts Ht _ IH]; intros i Hat; [by split|].
      cbn [items_at foldr] in Hat, Hr. destruct Hat as [Hat1 Hat], Hr as [Hr1 Hr].
      destruct (Ht _ Hat1 Hr1) as [Hc1 Hiff1]. destruct (IH Hr (i + 1) Hat) as [Hc2 Hiff2].
      cbn [list_events foldr]. rewrite !Forall_app, Hiff1, Hiff2.
      pose proof (Forall_if (fun ev => is_Some (event_canonical m ev)) (i =? 0) EvContList ltac:(by eexists)).
      pose proof (Forall_if (fun ev => event_canonical m ev = Some true) (i =? 0) EvContList ltac:(done)).
      tauto. }
    destruct (Hl 0 Hat) as [Hc Hiff]. cbn [keys_sorted]. rewrite !Forall_cons, !Forall_app, !Forall_singleton.
    assert (event_canonical m (EvList (mkList p (zlen ts)) a) = Some true) as He1 by done.
    assert (event_canonical m EvEndList = Some true) as He2 by done.
    rewrite He1, He2, <- Hiff. split; [|tauto]. split_and!; [by eexists|done|by eexists].
  - apply obj_at_map in Hat as [_ Hat]. rewrite events_map. cbn [keys_readable] in Hr.
    destruct (pairs_slots m p kvs Hat Hr) as (l & Hs & Hz & Hks).
    assert (forall i, pairs_at m p kvs i ->
      Forall (fun ev => is_Some (event_canonical m ev)) (map_events p kvs i) /\
      (Forall (fun ev => event_canonical m ev = Some true) (map_events p kvs i) <->
       foldr (fun kv P => keys_sorted m kv.2 /\ P) True kvs)) as Hl.
    { clear Hat Hs Hz Hks. induction IH as [|[k t] kvs Ht _ IH]; intros i Hat; [by split|].
      cbn [pairs_at foldr fst snd] in Hat, Hr. destruct Hat as (_ & Hat1 & Hat), Hr as [(_ & _ & Hr1) Hr].
      destruct (Ht _ Hat1 Hr1) as [Hc1 Hiff1]. destruct (IH Hr (i + 1) Hat) as [Hc2 Hiff2].
      cbn [map_events foldr]. rewrite !Forall_app, Hiff1, Hiff2, !Forall_singleton.
      pose proof (Forall_if (fun ev => is_Some (event_canonical m ev)) (i =? 0) EvContMap ltac:(by eexists)).
      pose proof (Forall_if (fun ev => event_canonical m ev = Some true) (i =? 0) EvContMap ltac:(done)).
      assert (is_Some (event_canonical m (EvMapKey k (map_kv p i)))) by by eexists.
      assert (event_canonical m (EvMapKey k (map_kv p i)) = Some true) by done. tauto. }
    destruct (Hl 0 Hat) as [Hc Hiff]. destruct (is_canonical_spec m p l Hs) as (b & Hb & Hbs).
    cbn [keys_sorted]. rewrite <- Hks, <- key_sorted_keys.
    rewrite !Forall_cons, !Forall_app, !Forall_singleton. cbn [event_canonical].
    rewrite <- Hz, Hb. split; [split_and!; [by eexists|done|by eexists]|]. rewrite <- Hiff, <- Hbs.
    split; [intros ([= ->] & ? & _); done|]. intros [-> ?]. done.
Qed.

(** * Properties *)

(** C32: the memory usage of an object within the limits is the total size of
    its buffers, keys, lists and maps; of another object, [GG_ERR_RANGE]. *)
Theorem mem_usage_exact (m : mem) (t : otree) (a : Z) :
  obj_at m t a ->
  gg_obj_mem_usage m a =
    Some (if within_limits t then (GG_ERR_OK, Some (uwrap 64 (tree_usage t)))
          else (GG_ERR_RANGE, None)).
Proof.
  intros Hat. unfold gg_obj_mem_usage.
  destruct (visit_events_of Z m t a Hat) as (evs & _ & Hall & Hv).
  erewrite (Hv mem_usage_handlers 0); [|apply mem_usage_read_only|].
  2:{ unfold outcome_of. rewrite run_mem_usage. unfold and_then. cbn [mbind option_bind].
      rewrite bool_decide_true by done. done. }
  cbn [mbind option_bind]. destruct (within_limits t); [|done].
  rewrite bool_decide_true by done. rewrite fold_usage by done. rewrite Z.add_0_l, Hall by done.
  by rewrite events_usage_tree.
Qed.

Lemma mem_usage_exact_witness :
  gg_obj_mem_usage example_tree_mem 50 = Some (GG_ERR_OK, Some 22).
Proof. rewrite (mem_usage_exact _ example_tree); [by vm_compute|apply example_tree_at]. Defined.

(** C31: an object is canonical exactly when it is within the limits and the
    keys of each of its maps are strictly increasing. *)
Theorem obj_is_canonical_exact (m : mem) (t : otree) (a : Z) :
  obj_at m t a -> keys_readable m t ->
  exists b, gg_obj_is_canonical m a = Some b /\
    (b = true <-> within_limits t = true /\ keys_sorted m t).
Proof.
  intros Hat Hr. unfold gg_obj_is_canonical.
  destruct (events_canonical m t a Hat Hr) as [Hc Hiff].
  destruct (visit_events_of unit m t a Hat) as (evs & Hp & Hall & Hv).
  assert (all_checked m evs) as Hce.
  { destruct Hp as [r Hp]. unfold all_checked in *. rewrite Hp in Hc. by apply Forall_app in Hc as [? _]. }
  pose proof (run_is_canonical evs m Hce) as Hrun. fold (all_canonical m evs) in Hrun.
  erewrite (Hv is_canonical_handlers tt); [|apply is_canonical_read_only|].
  2:{ unfold outcome_of. rewrite Hrun. unfold and_then. cbn [mbind option_bind].
      instantiate (1 := (m, tt)). instantiate (1 := if bool_decide (all_canonical m evs) then
        (if within_limits t then GG_ERR_OK else GG_ERR_RANGE) else GG_ERR_FAILURE).
      by destruct (bool_decide (all_canonical m evs)). }
  cbn [mbind option_bind]. eexists. split; [done|]. rewrite bool_decide_eq_true.
  case_bool_decide as Hca; destruct (within_limits t) eqn:Hw; split; try done.
  - intros _. split; [done|]. apply Hiff. by rewrite <- Hall.
  - by intros [? _].
  - intros [_ Hs]. apply Hiff in Hs. by rewrite Hall in Hca.
  - by intros [? _].
Qed.

Lemma obj_is_canonical_exact_witness :
  exists b, gg_obj_is_canonical example_mem 110 = Some b /\
    (b = true <-> within_limits (TMap 200 [(mkBuf 11 1, TBool true)]) = true /\
       keys_sorted example_mem (TMap 200 [(mkBuf 11 1, TBool true)])).
Proof.
  apply obj_is_canonical_exact.
  - apply obj_at_map. split; [by vm_compute|]. cbn [pairs_at obj_at].
    split; [by vm_compute|]. split; [|done]. split; [by vm_compute|done].
  - cbn [keys_readable foldr]. split; [|done]. split; [|done]. by exists (GG_STR "b").
Defined.
