(* ===== verification/Arena.v ===== *)
(** The arena allocator ([src/arena.c], [include/gg/arena.h]).

    An arena is its block of memory and the index of the first free byte. A
    null arena pointer is [None], a null result pointer is [NULL]. *)

From S2P Require Import Prelude Memory Buffer Io Object Map Visit.

(** ** Data *)

Record GgArena := mkArena { arena_mem : Z; capacity : Z; index : Z }.

Definition gg_arena_init (buf : BufPtr) : GgArena :=
  mkArena (data buf) (if len buf <=? UINT32_MAX then uwrap 32 (len buf) else UINT32_MAX) 0.

(** ** Allocation *)

(** The arena after the call, and the pointer returned. *)
Definition gg_arena_alloc (arena : option GgArena) (size alignment : Z)
    : option (option GgArena * Z) :=
  match arena with
  | None => Some (None, NULL)
  | Some arena =>
      _ ← gg_asserts ((0 <? alignment) && (Z.land alignment (alignment - 1) =? 0));
      _ ← gg_asserts (alignment <? UINT32_MAX);
      _ ← gg_asserts (size <=? PTRDIFF_MAX);
      let align := uwrap 32 alignment in
      let pad := Z.land (uwrap 32 (align - Z.land (index arena) (uwrap 32 (align - 1))))
                   (uwrap 32 (align - 1)) in
      if uwrap 32 (capacity arena - index arena) <? pad then Some (Some arena, NULL) else
      let idx := uwrap 32 (index arena + pad) in
      if uwrap 32 (capacity arena - idx) <? size then Some (Some arena, NULL) else
      let index' := uwrap 32 (idx + uwrap 32 size) in
      Some (Some (mkArena (arena_mem arena) (capacity arena) index'), arena_mem arena + idx)
  end.

Definition gg_arena_owns (arena : option GgArena) (ptr : Z) : bool :=
  match arena with
  | None => false
  | Some arena =>
      (arena_mem arena <=? ptr) && (ptr <? uwrap 64 (arena_mem arena + capacity arena))
  end.

Definition gg_arena_resize_last (arena : GgArena) (ptr old_size size : Z)
    : option (GgError * GgArena) :=
  _ ← gg_asserts (negb (ptr =? NULL));
  _ ← gg_asserts (old_size <? UINT32_MAX);
  _ ← gg_asserts (old_size <=? PTRDIFF_MAX);
  _ ← gg_asserts (size <=? PTRDIFF_MAX);
  _ ← gg_asserts (gg_arena_owns (Some arena) ptr);
  let idx := uwrap 32 (uwrap 64 (ptr - arena_mem arena)) in
  _ ← gg_asserts (idx <=? index arena);
  if negb (uwrap 32 (index arena - idx) =? old_size) then Some (GG_ERR_INVALID, arena) else
  if uwrap 32 (capacity arena - idx) <? size then Some (GG_ERR_NOMEM, arena) else
  Some (GG_ERR_OK, mkArena (arena_mem arena) (capacity arena) (uwrap 32 (idx + uwrap 32 size))).

Definition gg_arena_alloc_rest (arena : option GgArena) : option (option GgArena * BufPtr) :=
  match arena with
  | None => Some (None, mkBuf NULL 0)
  | Some a =>
      let remaining := uwrap 32 (capacity a - index a) in
      '(arena, data) ← gg_arena_alloc arena remaining 1;
      _ ← gg_asserts (negb (data =? NULL));
      Some (arena, mkBuf data remaining)
  end.

(** ** Claiming *)

(** [memcpy(dst, src, n)] *)
Definition memcpy (m : mem) (dst src n : Z) : option mem := bs ← loadz m src n; store m dst bs.

Definition gg_arena_claim_buf (m : mem) (buf : BufPtr) (arena : option GgArena)
    : option (GgError * mem * BufPtr * option GgArena) :=
  if gg_arena_owns arena (data buf) then Some (GG_ERR_OK, m, buf, arena) else
  if len buf =? 0 then Some (GG_ERR_OK, m, mkBuf NULL 0, arena) else
  '(arena, new_mem) ← gg_arena_alloc arena (len buf) 1;
  if new_mem =? NULL then Some (GG_ERR_NOMEM, m, buf, arena) else
  m ← memcpy m new_mem (data buf) (len buf);
  Some (GG_ERR_OK, m, mkBuf new_mem (len buf), arena).

(** The handlers; their context is the arena. *)
Definition claim_buf (val : BufPtr) (obj : Z) : step (option GgArena) := fun '(m, arena) =>
  '(ret, m, val, arena) ← gg_arena_claim_buf m val arena;
  o ← gg_obj_buf val;
  m ← store m obj o;
  Some (ret, (m, arena)).

Definition claim_list (val : GgList) (obj : Z) : step (option GgArena) := fun '(m, arena) =>
  if gg_arena_owns arena (items val) then Some (GG_ERR_OK, (m, arena)) else
  if list_len val =? 0 then
    o ← gg_obj_list (mkList NULL 0);
    m ← store m obj o;
    Some (GG_ERR_OK, (m, arena))
  else
    '(arena, new_mem) ← gg_arena_alloc arena (list_len val * sizeof_GgObject) 1;
    if new_mem =? NULL then Some (GG_ERR_NOMEM, (m, arena)) else
    m ← memcpy m new_mem (items val) (list_len val * sizeof_GgObject);
    o ← gg_obj_list (mkList new_mem (list_len val));
    m ← store m obj o;
    Some (GG_ERR_OK, (m, arena)).

Definition claim_map (val : GgMap) (obj : Z) : step (option GgArena) := fun '(m, arena) =>
  if gg_arena_owns arena (pairs val) then Some (GG_ERR_OK, (m, arena)) else
  if map_len val =? 0 then
    o ← gg_obj_map (mkMap NULL 0);
    m ← store m obj o;
    Some (GG_ERR_OK, (m, arena))
  else
    '(arena, new_mem) ← gg_arena_alloc arena (map_len val * sizeof_GgKV) 1;
    if new_mem =? NULL then Some (GG_ERR_NOMEM, (m, arena)) else
    m ← memcpy m new_mem (pairs val) (map_len val * sizeof_GgKV);
    o ← gg_obj_map (mkMap new_mem (map_len val));
    m ← store m obj o;
    Some (GG_ERR_OK, (m, arena)).

Definition claim_map_key (key : BufPtr) (kv : Z) : step (option GgArena) := fun '(m, arena) =>
  '(ret, m, key, arena) ← gg_arena_claim_buf m key arena;
  kv_bytes ← read_kv m kv;
  kv_bytes ← gg_kv_set_key kv_bytes key;
  m ← store m kv kv_bytes;
  Some (ret, (m, arena)).

Definition gg_arena_claim_obj (m : mem) (obj : Z) (arena : option GgArena)
    : option (GgError * (mem * option GgArena)) :=
  gg_obj_visit (mkHandlers None None None None (Some claim_buf) (Some claim_list) None None
    (Some claim_map) (Some claim_map_key) None None) obj (m, arena).

Definition gg_arena_claim_obj_bufs (m : mem) (obj : Z) (arena : option GgArena)
    : option (GgError * (mem * option GgArena)) :=
  gg_obj_visit (mkHandlers None None None None (Some claim_buf) None None None
    None (Some claim_map_key) None None) obj (m, arena).

(** ** Invariant and specification *)

Definition arena_ok (a : GgArena) : Prop :=
  0 < arena_mem a /\ 0 <= index a <= capacity a /\ capacity a <= UINT32_MAX /\
  arena_mem a + capacity a <= SIZE_MAX.

(** The next multiple of the alignment. *)
Definition align_up (n align : Z) : Z := n + (- n) mod align.

(** Where an allocation starts, or [None] if it does not fit. *)
Definition alloc_at (a : GgArena) (size align : Z) : option Z :=
  let idx := align_up (index a) align in
  if idx + size <=? capacity a then Some idx else None.

(** ** Lemmas *)

Lemma align_up_spec n align :
  0 < align -> n <= align_up n align < n + align /\ align_up n align mod align = 0.
Proof.
  intros Ha. unfold align_up. pose proof (Z.mod_pos_bound (- n) align Ha). split; [lia|].
  rewrite Z.add_mod_idemp_r by lia. rewrite Z.add_opp_diag_r. by apply Z.mod_0_l; lia.
Qed.

Lemma pow2_land n k : 0 <= k -> Z.land n (2 ^ k - 1) = n mod 2 ^ k.
Proof. intros. rewrite Z.sub_1_r, <- Z.ones_equiv. by apply Z.land_ones. Qed.

(** A positive integer with [a & (a - 1) = 0] is a power of two. *)
Lemma land_pred_pow2 a : 0 < a -> Z.land a (a - 1) = 0 -> exists k, 0 <= k /\ a = 2 ^ k.
Proof.
  intros Ha Hl. exists (Z.log2 a). split; [apply Z.log2_nonneg|].
  pose proof (Z.log2_spec a Ha) as [Hlo Hhi]. rewrite Z.pow_succ_r in Hhi by apply Z.log2_nonneg.
  destruct (Z.eq_dec a (2 ^ Z.log2 a)) as [|Hne]; [done|].
  assert (Z.testbit (Z.land a (a - 1)) (Z.log2 a) = true) as Hb; [|by rewrite Hl, Z.bits_0 in Hb].
  rewrite Z.land_spec, Z.bit_log2 by done. simpl.
  assert (Z.log2 (a - 1) = Z.log2 a) as <-.
  { apply Z.log2_unique; [apply Z.log2_nonneg|].
    rewrite Z.pow_succ_r by apply Z.log2_nonneg. lia. }
  apply Z.bit_log2. pose proof (Z.log2_nonneg a). assert (0 < 2 ^ Z.log2 a) by (by apply Z.pow_pos_nonneg).
  lia.
Qed.

Lemma land_pow2_pred k : 0 <= k -> Z.land (2 ^ k) (2 ^ k - 1) = 0.
Proof.
  intros. rewrite pow2_land by done. apply Z.mod_same. pose proof (Z.pow_pos_nonneg 2 k). lia.
Qed.

(** The padding the code computes. *)
Lemma pad_spec n k :
  0 <= k -> 2 ^ k < 2 ^ 32 -> 0 <= n ->
  Z.land (uwrap 32 (2 ^ k - Z.land n (uwrap 32 (2 ^ k - 1)))) (uwrap 32 (2 ^ k - 1)) = (- n) mod 2 ^ k.
Proof.
  intros Hk Hlt Hn. assert (0 < 2 ^ k) by (by apply Z.pow_pos_nonneg).
  rewrite (uwrap_small 32 (2 ^ k - 1)) by lia. rewrite !pow2_land by done.
  pose proof (Z.mod_pos_bound n (2 ^ k) ltac:(lia)).
  rewrite uwrap_small by lia.
  rewrite <- (Z.mod_add (- n) (n / 2 ^ k + 1) (2 ^ k)) by lia. f_equal.
  pose proof (Z.div_mod n (2 ^ k)). lia.
Qed.

Lemma gg_arena_alloc_eq a size align :
  arena_ok a -> 0 <= size <= PTRDIFF_MAX -> 0 < align < UINT32_MAX -> Z.land align (align - 1) = 0 ->
  gg_arena_alloc (Some a) size align =
    Some (match alloc_at a size align with
          | Some idx => (Some (mkArena (arena_mem a) (capacity a) (idx + size)), arena_mem a + idx)
          | None => (Some a, NULL)
          end).
Proof.
  intros (Hm & Hi & Hc & Hs) Hsize Ha Hp2. unfold UINT32_MAX, PTRDIFF_MAX in *.
  destruct (land_pred_pow2 align ltac:(lia) Hp2) as (k & Hk & ->).
  unfold gg_arena_alloc. rewrite Hp2.
  rewrite (proj2 (Z.ltb_lt 0 _)) by lia. rewrite Z.eqb_refl. cbn [andb gg_asserts mbind option_bind].
  unfold UINT32_MAX, PTRDIFF_MAX.
  rewrite (proj2 (Z.ltb_lt (2 ^ k) 4294967295)) by lia. cbn [gg_asserts mbind option_bind].
  rewrite (proj2 (Z.leb_le size 9223372036854775807)) by lia. cbn [gg_asserts mbind option_bind].
  cbv zeta. rewrite (uwrap_small 32 (2 ^ k)) by lia. rewrite pad_spec by lia.
  unfold alloc_at, align_up. pose proof (Z.mod_pos_bound (- index a) (2 ^ k) ltac:(lia)) as Hpad.
  set (pad := (- index a) mod 2 ^ k) in *.
  rewrite (uwrap_small 32 (capacity a - index a)) by lia.
  destruct (capacity a - index a <? pad) eqn:E1; zify_bool.
  { rewrite (proj2 (Z.leb_gt _ _)) by lia. done. }
  rewrite (uwrap_small 32 (index a + pad)) by lia.
  rewrite (uwrap_small 32 (capacity a - (index a + pad))) by lia.
  destruct (capacity a - (index a + pad) <? size) eqn:E2; zify_bool.
  { rewrite (proj2 (Z.leb_gt _ _)) by lia. done. }
  rewrite (proj2 (Z.leb_le _ _)) by lia.
  rewrite (uwrap_small 32 size) by lia. rewrite (uwrap_small 32 (_ + size)) by lia. done.
Qed.

Lemma alloc_at_ok a size align idx :
  arena_ok a -> 0 <= size -> 0 < align -> alloc_at a size align = Some idx ->
  index a <= idx /\ idx + size <= capacity a /\
  arena_ok (mkArena (arena_mem a) (capacity a) (idx + size)).
Proof.
  intros (Hm & Hi & Hc & Hs) Hsize Ha H. unfold alloc_at in H.
  pose proof (align_up_spec (index a) align Ha) as [Hb _].
  destruct (_ <=? _) eqn:E; zify_bool; simplify_eq. unfold arena_ok. simpl. lia.
Qed.

Lemma gg_arena_owns_spec a ptr :
  arena_ok a -> gg_arena_owns (Some a) ptr = true <-> arena_mem a <= ptr < arena_mem a + capacity a.
Proof.
  intros (Hm & Hi & Hc & Hs). unfold gg_arena_owns, SIZE_MAX in *. rewrite uwrap_small by lia.
  rewrite andb_true_iff, Z.leb_le, Z.ltb_lt. done.
Qed.

(** Serving a sequence of requests (size, alignment): the blocks handed out. *)
Fixpoint alloc_all (a : GgArena) (reqs : list (Z * Z)) : option (GgArena * list (Z * Z)) :=
  match reqs with
  | [] => Some (a, [])
  | (size, align) :: reqs =>
      '(a', ptr) ← gg_arena_alloc (Some a) size align;
      match a' with
      | None => None
      | Some a' =>
          '(a'', blocks) ← alloc_all a' reqs;
          Some (a'', if ptr =? NULL then blocks else (ptr, size) :: blocks)
      end
  end.

Definition request_ok (r : Z * Z) : Prop :=
  0 <= r.1 <= PTRDIFF_MAX /\ 0 < r.2 < UINT32_MAX /\ Z.land r.2 (r.2 - 1) = 0.

#[export] Instance request_ok_dec r : Decision (request_ok r).
Proof. unfold request_ok. apply _. Defined.

(** A block that lies in the arena, at or above an index. *)
Definition block_in (a : GgArena) (from : Z) (b : Z * Z) : Prop :=
  arena_mem a + from <= b.1 /\ 0 <= b.2 /\ b.1 + b.2 <= arena_mem a + capacity a.

Fixpoint pairwise_disjoint (blocks : list (Z * Z)) : Prop :=
  match blocks with
  | [] => True
  | b :: blocks => Forall (fun c => b.1 + b.2 <= c.1) blocks /\ pairwise_disjoint blocks
  end.

Lemma alloc_all_spec reqs a :
  arena_ok a -> Forall request_ok reqs ->
  exists a' blocks, alloc_all a reqs = Some (a', blocks) /\ arena_ok a' /\
    arena_mem a' = arena_mem a /\ capacity a' = capacity a /\
    Forall (block_in a (index a)) blocks /\ pairwise_disjoint blocks.
Proof.
  revert a. induction reqs as [|[size align] reqs IH]; intros a Ha Hr.
  { exists a, []. simpl. split_and!; try done; by apply Ha. }
  apply Forall_cons in Hr as [(Hs & Hal & Hp) Hr]. simpl in Hs, Hal, Hp. cbn [alloc_all].
  rewrite gg_arena_alloc_eq by done. cbn [mbind option_bind].
  destruct (alloc_at a size align) as [idx|] eqn:Hat.
  - destruct (alloc_at_ok a size align _ Ha ltac:(lia) ltac:(lia) Hat) as (Hi1 & Hi2 & Ha1).
    destruct (IH _ Ha1 Hr) as (a2 & blocks & -> & Ha2 & Hm & Hc & Hin & Hd). cbn [mbind option_bind].
    destruct Ha as (Hmem & Hi & Hcap & Hmax). simpl in *.
    rewrite (proj2 (Z.eqb_neq _ _)) by (unfold NULL; lia).
    exists a2, ((arena_mem a + idx, size) :: blocks). split_and!; try done.
    + constructor; [unfold block_in; simpl; lia|]. eapply Forall_impl; [exact Hin|].
      unfold block_in. simpl. intros [p n]. simpl. lia.
    + simpl. split; [|done]. eapply Forall_impl; [exact Hin|]. unfold block_in. simpl. intros [p n]. simpl. lia.
  - destruct (IH _ Ha Hr) as (a2 & blocks & -> & ?). cbn [mbind option_bind].
    rewrite Z.eqb_refl. eauto 10.
Qed.

(** * Properties *)

(** C37: an allocation fits if and only if there is room for it after the
    smallest padding that makes its index a multiple of the alignment; it then
    starts there, advances the index past it and keeps the invariant of the
    arena. Otherwise a null pointer is returned and the arena is unchanged. The
    result is aligned when the arena's block is. *)
Theorem arena_alloc_exact (a : GgArena) (size align : Z) :
  arena_ok a -> 0 <= size <= PTRDIFF_MAX -> 0 < align < UINT32_MAX -> Z.land align (align - 1) = 0 ->
  let idx := align_up (index a) align in
  index a <= idx < index a + align /\ idx mod align = 0 /\
  if bool_decide (idx + size <= capacity a)
  then gg_arena_alloc (Some a) size align =
         Some (Some (mkArena (arena_mem a) (capacity a) (idx + size)), arena_mem a + idx) /\
       arena_ok (mkArena (arena_mem a) (capacity a) (idx + size)) /\
       (arena_mem a mod align = 0 -> (arena_mem a + idx) mod align = 0)
  else gg_arena_alloc (Some a) size align = Some (Some a, NULL).
Proof.
  intros Ha Hs Hal Hp idx. pose proof (align_up_spec (index a) align ltac:(lia)) as [Hb Hmod].
  fold idx in Hb, Hmod. split; [done|]. split; [done|].
  pose proof (gg_arena_alloc_eq a size align Ha Hs Hal Hp) as Heq.
  destruct (alloc_at a size align) as [i|] eqn:Hat.
  - pose proof (alloc_at_ok a size align _ Ha ltac:(lia) ltac:(lia) Hat) as (Hi1 & Hi2 & Ha1).
    unfold alloc_at in Hat. fold idx in Hat.
    destruct (_ <=? _) eqn:E; zify_bool; simplify_eq. rewrite bool_decide_true by lia.
    split_and!; try done. intros Hm. rewrite Z.add_mod, Hm, Hmod by lia. apply Z.mod_0_l. lia.
  - unfold alloc_at in Hat. fold idx in Hat. destruct (_ <=? _) eqn:E; zify_bool; simplify_eq.
    by rewrite bool_decide_false by lia.
Qed.

Lemma arena_alloc_exact_witness :
  align_up 3 8 = 8 /\
  gg_arena_alloc (Some (mkArena 4096 100 3)) 10 8 = Some (Some (mkArena 4096 100 18), 4104).
Proof.
  split; [done|].
  destruct (arena_alloc_exact (mkArena 4096 100 3) 10 8) as (_ & _ & H & _); [..|exact H].
  - repeat split; by vm_compute.
  - split; by vm_compute.
  - split; by vm_compute.
  - done.
Defined.

(** Alignment is relative to the block: a block that is not aligned gives
    pointers that are not. *)
Lemma arena_alloc_misaligned :
  gg_arena_alloc (Some (mkArena 4097 100 0)) 8 8 = Some (Some (mkArena 4097 100 8), 4097) /\
  4097 mod 8 <> 0.
Proof. by vm_compute. Qed.

(** C36: the blocks handed out by an arena never overlap and lie inside of its
    memory, for every sequence of allocations. *)
Theorem arena_blocks_disjoint (a : GgArena) (reqs : list (Z * Z)) :
  arena_ok a -> Forall request_ok reqs ->
  exists a' blocks, alloc_all a reqs = Some (a', blocks) /\ arena_ok a' /\
    Forall (block_in a (index a)) blocks /\ pairwise_disjoint blocks.
Proof.
  intros Ha Hr. destruct (alloc_all_spec reqs a Ha Hr) as (a' & blocks & ? & ? & _ & _ & ? & ?).
  by exists a', blocks.
Qed.

Lemma arena_blocks_disjoint_witness :
  exists a' blocks, alloc_all (gg_arena_init (mkBuf 4096 64)) [(10, 1); (16, 8); (100, 1); (4, 4)] =
      Some (a', blocks) /\ arena_ok a' /\
    Forall (block_in (gg_arena_init (mkBuf 4096 64)) 0) blocks /\ pairwise_disjoint blocks.
Proof.
  apply (arena_blocks_disjoint (gg_arena_init (mkBuf 4096 64))).
  - repeat split; by vm_compute.
  - apply (bool_decide_unpack _). by vm_compute.
Defined.

(** C38: resizing the last allocation moves the index to its new end exactly
    when it is the last one and the new size fits; otherwise the arena is
    unchanged and the error tells which. *)
Theorem arena_resize_last_exact (a : GgArena) (ptr old_size size : Z) :
  arena_ok a -> 0 <= old_size <= capacity a -> 0 <= size <= PTRDIFF_MAX -> old_size < UINT32_MAX ->
  arena_mem a <= ptr <= arena_mem a + index a -> ptr < arena_mem a + capacity a ->
  gg_arena_resize_last a ptr old_size size =
    Some (if negb (bool_decide (ptr + old_size = arena_mem a + index a)) then (GG_ERR_INVALID, a)
          else if bool_decide (arena_mem a + capacity a < ptr + size) then (GG_ERR_NOMEM, a)
          else (GG_ERR_OK, mkArena (arena_mem a) (capacity a) (ptr + size - arena_mem a))) /\
  (ptr + old_size = arena_mem a + index a -> ptr + size <= arena_mem a + capacity a ->
     arena_ok (mkArena (arena_mem a) (capacity a) (ptr + size - arena_mem a))).
Proof.
  intros Ha Hold Hsize Hold' Hptr Hin. pose proof Ha as (Hm & Hi & Hc & Hs).
  assert (gg_arena_owns (Some a) ptr = true) as Hown by (apply gg_arena_owns_spec; [done|lia]).
  unfold UINT32_MAX, PTRDIFF_MAX, SIZE_MAX in *.
  split; [|intros; unfold arena_ok, UINT32_MAX, SIZE_MAX; simpl; lia].
  unfold gg_arena_resize_last, UINT32_MAX, PTRDIFF_MAX. rewrite Hown.
  rewrite (proj2 (Z.eqb_neq ptr NULL)) by (unfold NULL; lia).
  rewrite (proj2 (Z.ltb_lt old_size _)) by lia. rewrite (proj2 (Z.leb_le old_size _)) by lia.
  rewrite (proj2 (Z.leb_le size _)) by lia. cbn [gg_asserts negb mbind option_bind]. cbv zeta.
  rewrite (uwrap_small 64), (uwrap_small 32 (ptr - arena_mem a)) by lia.
  rewrite (proj2 (Z.leb_le _ _)) by lia. cbn [gg_asserts mbind option_bind].
  rewrite (uwrap_small 32 (index a - _)) by lia. rewrite (uwrap_small 32 (capacity a - _)) by lia.
  case_bool_decide as H1; cbn [negb].
  - rewrite (proj2 (Z.eqb_eq _ _)) by lia. cbn [negb]. case_bool_decide as H2.
    + rewrite (proj2 (Z.ltb_lt _ _)) by lia. done.
    + rewrite (proj2 (Z.ltb_ge _ _)) by lia. rewrite (uwrap_small 32 size) by lia.
      rewrite uwrap_small by lia. do 4 f_equal. lia.
  - rewrite (proj2 (Z.eqb_neq _ _)) by lia. done.
Qed.

Lemma arena_resize_last_exact_witness :
  gg_arena_resize_last (mkArena 4096 64 20) 4106 10 30 =
    Some (GG_ERR_OK, mkArena 4096 64 40).
Proof.
  refine (proj1 (arena_resize_last_exact (mkArena 4096 64 20) 4106 10 30 _ _ _ _ _ _)).
  - repeat split; by vm_compute.
  - split; by vm_compute.
  - split; by vm_compute.
  - by vm_compute.
  - split; by vm_compute.
  - by vm_compute.
Defined.

(** The end of a full arena is not recognised as its own: resizing an empty
    allocation made there fails an assertion. *)
Lemma arena_resize_empty_at_end :
  gg_arena_alloc (Some (mkArena 4096 8 8)) 0 1 = Some (Some (mkArena 4096 8 8), 4104) /\
  gg_arena_resize_last (mkArena 4096 8 8) 4104 0 0 = None.
Proof. by vm_compute. Qed.

(** Claiming a buffer leaves its contents unchanged and makes it empty or
    owned by the arena. Only unused memory of the arena is written; when there
    is not enough, the call fails with [GG_ERR_NOMEM] and changes nothing. *)
Theorem arena_claim_buf_exact (m : mem) (buf : BufPtr) (a : GgArena) (bs : bytes) :
  arena_ok a -> mapped m (arena_mem a) (capacity a) -> buf_bytes m buf = Some bs ->
  0 <= len buf <= PTRDIFF_MAX ->
  disj (arena_mem a + index a) (capacity a - index a) (data buf) (len buf) ->
  exists e m' buf' a',
    gg_arena_claim_buf m buf (Some a) = Some (e, m', buf', Some a') /\ arena_ok a' /\
    buf_bytes m' buf' = Some bs /\
    (forall x, ~ (arena_mem a + index a <= x < arena_mem a + capacity a) -> m' !! x = m !! x) /\
    if gg_arena_owns (Some a) (data buf) || (len buf =? 0) || (len buf <=? capacity a - index a)
    then e = GG_ERR_OK /\ (bs = [] \/ gg_arena_owns (Some a') (data buf') = true)
    else e = GG_ERR_NOMEM /\ m' = m /\ buf' = buf /\ a' = a.
Proof.
  intros Ha Hmap Hbs Hlen Hd. unfold gg_arena_claim_buf.
  destruct (gg_arena_owns (Some a) (data buf)) eqn:Hown.
  { exists GG_ERR_OK, m, buf, a. simpl. split_and!; try done. by right. }
  destruct (len buf =? 0) eqn:Hl0; zify_bool.
  { assert (bs = []) as -> by (apply zlen_zero; apply loadz_zlen in Hbs; lia).
    exists GG_ERR_OK, m, (mkBuf NULL 0), a. simpl. split_and!; try done. by left. }
  rewrite gg_arena_alloc_eq by (done || unfold UINT32_MAX; lia). cbn [mbind option_bind].
  assert (align_up (index a) 1 = index a) as Hup by (unfold align_up; rewrite Z.mod_1_r; lia).
  pose proof Ha as (Hm & Hi & Hc & Hs). unfold alloc_at. rewrite Hup. cbn [orb].
  destruct (index a + len buf <=? capacity a) eqn:E; zify_bool.
  - rewrite (proj2 (Z.eqb_neq _ _)) by (unfold NULL; lia). unfold memcpy.
    unfold buf_bytes in Hbs. rewrite Hbs. cbn [mbind option_bind].
    assert (zlen bs = len buf) as Hz by (apply loadz_zlen in Hbs; lia).
    destruct (store_Some m (arena_mem a + index a) bs) as [m' Hst].
    { intros x Hx. apply Hmap. lia. }
    rewrite Hst. cbn [mbind option_bind].
    exists GG_ERR_OK, m', (mkBuf (arena_mem a + index a) (len buf)),
      (mkArena (arena_mem a) (capacity a) (index a + len buf)).
    assert (arena_ok (mkArena (arena_mem a) (capacity a) (index a + len buf))) as Ha'.
    { unfold arena_ok. simpl. lia. }
    split_and!; try done.
    + unfold buf_bytes. simpl. rewrite <- Hz. by eapply loadz_store_same.
    + intros x Hx. eapply store_out; [done|]. lia.
    + rewrite (proj2 (Z.leb_le _ _)) by lia. split; [done|]. right.
      apply gg_arena_owns_spec; [done|]. simpl. lia.
  - rewrite Z.eqb_refl. exists GG_ERR_NOMEM, m, buf, a. split_and!; try done.
    rewrite (proj2 (Z.leb_gt _ _)) by lia. done.
Qed.

Lemma arena_claim_buf_exact_witness :
  let m := put (zeroed 4096 16) 10 [1; 2; 3] in
  exists e m' buf' a',
    gg_arena_claim_buf m (mkBuf 10 3) (Some (mkArena 4096 16 4)) = Some (e, m', buf', Some a') /\
    arena_ok a' /\ buf_bytes m' buf' = Some [1; 2; 3] /\
    (forall x, ~ (4096 + 4 <= x < 4096 + 16) -> m' !! x = m !! x) /\
    e = GG_ERR_OK /\ ([1; 2; 3] = [] \/ gg_arena_owns (Some a') (data buf') = true).
Proof.
  refine (arena_claim_buf_exact (put (zeroed 4096 16) 10 [1; 2; 3]) (mkBuf 10 3) (mkArena 4096 16 4)
    [1; 2; 3] _ _ _ _ _).
  - repeat split; by vm_compute.
  - intros x Hx. rewrite put_lookup. unfold over. rewrite decide_False by (simpl in *; zlen_lia).
    apply (zeroed_mapped 4096 16). exact Hx.
  - by vm_compute.
  - split; by vm_compute.
  - right. by vm_compute.
Defined.
