(* ===== verification/Vector.v ===== *)
(** Vectors of fixed capacity ([src/vector.c], [priv_include/gg/vector.h]):
    of objects, pairs and bytes in memory, and of buffers. *)

From S2P Require Import Prelude Memory Buffer Io Object Map.

(** ** Vectors of objects *)

Record GgObjVec := mkObjVec { ov_list : GgList; ov_capacity : Z }.

Definition gg_obj_vec_push (m : mem) (vector : GgObjVec) (object : GgObject)
    : option (GgError * mem * GgObjVec) :=
  let l := ov_list vector in
  if ov_capacity vector <=? list_len l then Some (GG_ERR_NOMEM, m, vector) else
  m ← store m (items l + sizeof_GgObject * list_len l) object;
  Some (GG_ERR_OK, m, mkObjVec (mkList (items l) (list_len l + 1)) (ov_capacity vector)).

(** [*err] is passed and returned. *)
Definition gg_obj_vec_chain_push (err : GgError) (m : mem) (vector : GgObjVec) (object : GgObject)
    : option (GgError * mem * GgObjVec) :=
  if bool_decide (err = GG_ERR_OK) then gg_obj_vec_push m vector object
  else Some (err, m, vector).

(** Also the object popped. *)
Definition gg_obj_vec_pop (m : mem) (vector : GgObjVec)
    : option (GgError * GgObjVec * option GgObject) :=
  let l := ov_list vector in
  if list_len l =? 0 then Some (GG_ERR_RANGE, vector, None) else
  o ← read_obj m (items l + sizeof_GgObject * (list_len l - 1));
  Some (GG_ERR_OK, mkObjVec (mkList (items l) (list_len l - 1)) (ov_capacity vector), Some o).

Definition gg_obj_vec_append (m : mem) (vector : GgObjVec) (list : GgList)
    : option (GgError * mem * GgObjVec) :=
  let l := ov_list vector in
  if uwrap 64 (ov_capacity vector - list_len l) <? list_len list then Some (GG_ERR_NOMEM, m, vector) else
  m ← (if 0 <? list_len list then
         bs ← loadz m (items list) (list_len list * sizeof_GgObject);
         store m (items l + sizeof_GgObject * list_len l) bs
       else Some m);
  Some (GG_ERR_OK, m, mkObjVec (mkList (items l) (list_len l + list_len list)) (ov_capacity vector)).

Definition gg_obj_vec_chain_append (err : GgError) (m : mem) (vector : GgObjVec) (list : GgList)
    : option (GgError * mem * GgObjVec) :=
  if bool_decide (err = GG_ERR_OK) then gg_obj_vec_append m vector list
  else Some (err, m, vector).

(** ** Vectors of pairs *)

Record GgKVVec := mkKVVec { kv_map : GgMap; kv_capacity : Z }.

Definition gg_kv_vec_push (m : mem) (vector : GgKVVec) (kv : GgKV)
    : option (GgError * mem * GgKVVec) :=
  let v := kv_map vector in
  if kv_capacity vector <=? map_len v then Some (GG_ERR_NOMEM, m, vector) else
  m ← store m (pairs v + sizeof_GgKV * map_len v) kv;
  Some (GG_ERR_OK, m, mkKVVec (mkMap (pairs v) (map_len v + 1)) (kv_capacity vector)).

(** ** Vectors of bytes *)

Record GgByteVec := mkByteVec { vbuf : BufPtr; vcapacity : Z }.

Definition gg_byte_vec_init (buf : BufPtr) : GgByteVec :=
  mkByteVec (mkBuf (data buf) 0) (len buf).

Definition gg_byte_vec_push (m : mem) (vector : GgByteVec) (byte : Z)
    : option (GgError * mem * GgByteVec) :=
  let b := vbuf vector in
  if vcapacity vector <=? len b then Some (GG_ERR_NOMEM, m, vector) else
  m ← store m (data b + len b) [byte];
  Some (GG_ERR_OK, m, mkByteVec (mkBuf (data b) (len b + 1)) (vcapacity vector)).

Definition gg_byte_vec_chain_push (err : GgError) (m : mem) (vector : GgByteVec) (byte : Z)
    : option (GgError * mem * GgByteVec) :=
  if bool_decide (err = GG_ERR_OK) then gg_byte_vec_push m vector byte else Some (err, m, vector).

Definition gg_byte_vec_append (m : mem) (vector : GgByteVec) (buf : bytes)
    : option (GgError * mem * GgByteVec) :=
  let b := vbuf vector in
  if uwrap 64 (vcapacity vector - len b) <? zlen buf then Some (GG_ERR_NOMEM, m, vector) else
  m ← (if 0 <? zlen buf then store m (data b + len b) buf else Some m);
  Some (GG_ERR_OK, m, mkByteVec (mkBuf (data b) (len b + zlen buf)) (vcapacity vector)).

Definition gg_byte_vec_chain_append (err : GgError) (m : mem) (vector : GgByteVec) (buf : bytes)
    : option (GgError * mem * GgByteVec) :=
  if bool_decide (err = GG_ERR_OK) then gg_byte_vec_append m vector buf else Some (err, m, vector).

Definition gg_byte_vec_remaining_capacity (vector : GgByteVec) : BufPtr :=
  mkBuf (data (vbuf vector) + len (vbuf vector)) (uwrap 64 (vcapacity vector - len (vbuf vector))).

Definition byte_vec_write (ctx : mem * GgByteVec) (buf : bytes)
    : option (GgError * (mem * GgByteVec)) :=
  '(ret, m, v) ← gg_byte_vec_append ctx.1 ctx.2 buf; Some (ret, (m, v)).

Definition gg_byte_vec_writer : GgWriter (mem * GgByteVec) := Some byte_vec_write.

(** ** Vectors of buffers

    The buffers are kept as a list: the code only accesses them through the
    vector. *)

Record GgBufVec := mkBufVec { bufs : list BufPtr; bv_capacity : Z }.

Definition gg_buf_vec_push (vector : GgBufVec) (buf : BufPtr) : GgError * GgBufVec :=
  if bv_capacity vector <=? zlen (bufs vector) then (GG_ERR_NOMEM, vector)
  else (GG_ERR_OK, mkBufVec (bufs vector ++ [buf]) (bv_capacity vector)).

Definition gg_buf_vec_chain_push (err : GgError) (vector : GgBufVec) (buf : BufPtr)
    : GgError * GgBufVec :=
  if bool_decide (err = GG_ERR_OK) then gg_buf_vec_push vector buf else (err, vector).

(** The loop over the [n] objects from [item] on. *)
Fixpoint append_list_loop (m : mem) (vector : GgBufVec) (n : nat) (item : Z)
    : option (GgError * GgBufVec) :=
  match n with
  | O => Some (GG_ERR_OK, vector)
  | S n =>
      o ← read_obj m item;
      ty ← gg_obj_type o;
      if negb (bool_decide (ty = GG_TYPE_BUF)) then Some (GG_ERR_INVALID, vector) else
      b ← gg_obj_into_buf o;
      let '(ret, vector) := gg_buf_vec_push vector b in
      if negb (bool_decide (ret = GG_ERR_OK)) then Some (ret, vector)
      else append_list_loop m vector n (item + sizeof_GgObject)
  end.

Definition gg_buf_vec_append_list (m : mem) (vector : GgBufVec) (list : GgList)
    : option (GgError * GgBufVec) :=
  append_list_loop m vector (Z.to_nat (list_len list)) (items list).

Definition gg_buf_vec_chain_append_list (err : GgError) (m : mem) (vector : GgBufVec) (list : GgList)
    : option (GgError * GgBufVec) :=
  if bool_decide (err = GG_ERR_OK) then gg_buf_vec_append_list m vector list
  else Some (err, vector).

(** ** A byte vector's writer implements the writers' interface *)

(** [out] was written to the vector, which has room for [room] bytes more. *)
Definition vec_rel (s0 s : mem * GgByteVec) (out : bytes) (room : Z) : Prop :=
  let '(m0, v0) := s0 in
  let '(m, v) := s in
  let b := vbuf v0 in
  0 <= len b /\ vcapacity v0 <= SIZE_MAX /\
  mapped m0 (data b + len b) (vcapacity v0 - len b) /\
  store m0 (data b + len b) out = Some m /\
  room = vcapacity v0 - len b - zlen out /\ 0 <= room /\
  v = mkByteVec (mkBuf (data b) (len b + zlen out)) (vcapacity v0).

Lemma vec_rel_init m v :
  0 <= len (vbuf v) <= vcapacity v -> vcapacity v <= SIZE_MAX ->
  mapped m (data (vbuf v) + len (vbuf v)) (vcapacity v - len (vbuf v)) ->
  vec_rel (m, v) (m, v) [] (vcapacity v - len (vbuf v)).
Proof.
  intros Hl Hc Hm. unfold vec_rel. split_and!; try done; try lia.
  - rewrite zlen_nil. lia.
  - rewrite zlen_nil, Z.add_0_r. by destruct v as [[d n] c].
Qed.

Lemma vec_fit s0 s out room bs :
  vec_rel s0 s out room -> zlen bs <= room ->
  exists m' v', gg_byte_vec_append s.1 s.2 bs = Some (GG_ERR_OK, m', v') /\
    vec_rel s0 (m', v') (out ++ bs) (room - zlen bs).
Proof.
  destruct s0 as [m0 v0], s as [m v]. intros (Hl & Hc & Hm & Hs & -> & Hr & ->) Hb.
  unfold SIZE_MAX in Hc. pose proof (zlen_nonneg out). pose proof (zlen_nonneg bs).
  unfold gg_byte_vec_append. cbn [fst snd vbuf vcapacity data len].
  rewrite uwrap_small by lia. rewrite (proj2 (Z.ltb_ge _ _)) by lia.
  assert (exists m', (if 0 <? zlen bs then store m (data (vbuf v0) + (len (vbuf v0) + zlen out)) bs
    else Some m) = Some m' /\ store m0 (data (vbuf v0) + len (vbuf v0)) (out ++ bs) = Some m')
    as (m' & -> & Hs').
  { rewrite store_app, Hs. cbn [mbind option_bind]. rewrite <- Z.add_assoc. case_if.
    - destruct (store_Some m (data (vbuf v0) + (len (vbuf v0) + zlen out)) bs) as [m' ->]; [|eauto].
      eapply store_mapped; [done|]. intros x Hx. apply Hm. lia.
    - rewrite (zlen_zero bs) by lia. exists m. by rewrite store_nil. }
  cbn [mbind option_bind]. eexists _, _. split; [done|]. unfold vec_rel.
  split_and!; try done; try (rewrite zlen_app; lia); try lia.
  rewrite zlen_app. do 2 f_equal. lia.
Qed.

Lemma vec_full s0 s out room bs :
  vec_rel s0 s out room -> room < zlen bs ->
  gg_byte_vec_append s.1 s.2 bs = Some (GG_ERR_NOMEM, s.1, s.2).
Proof.
  destruct s0 as [m0 v0], s as [m v]. intros (Hl & Hc & Hm & Hs & -> & Hr & ->) Hb.
  unfold SIZE_MAX in Hc. pose proof (zlen_nonneg out).
  unfold gg_byte_vec_append. cbn [fst snd vbuf vcapacity data len].
  rewrite uwrap_small by lia. by rewrite (proj2 (Z.ltb_lt _ _)) by lia.
Qed.

#[export] Program Instance byte_vec_writer_append : AppendWriter gg_byte_vec_writer := {
  aw_rel := vec_rel;
}.
Next Obligation. intros [m0 v0] [m v] out room (_ & _ & _ & _ & _ & ? & _). done. Qed.
Next Obligation.
  intros s0 s out room bs Hr Hl. destruct (vec_fit _ _ _ _ _ Hr Hl) as (m' & v' & He & Hr').
  exists (m', v'). split; [|done]. unfold gg_writer_call, gg_byte_vec_writer, byte_vec_write. by rewrite He.
Qed.
Next Obligation.
  intros s0 s out room bs Hr Hl. unfold gg_writer_call, gg_byte_vec_writer, byte_vec_write.
  rewrite (vec_full _ _ _ _ _ Hr Hl). cbn [mbind option_bind]. by destruct s.
Qed.

(** ** Chains *)

(** A sequence of [gg_byte_vec_chain_append] on the same error variable. *)
Fixpoint chain_appends (err : GgError) (m : mem) (v : GgByteVec) (xs : list bytes)
    : option (GgError * mem * GgByteVec) :=
  match xs with
  | [] => Some (err, m, v)
  | x :: xs => '(err, m, v) ← gg_byte_vec_chain_append err m v x; chain_appends err m v xs
  end.

(** The pieces appended: those before the first that does not fit. *)
Fixpoint fitting (room : Z) (xs : list bytes) : list bytes :=
  match xs with
  | [] => []
  | x :: xs => if zlen x <=? room then x :: fitting (room - zlen x) xs else []
  end.

Lemma chain_appends_error err m v xs :
  err <> GG_ERR_OK -> chain_appends err m v xs = Some (err, m, v).
Proof.
  intros He. induction xs as [|x xs IH]; [done|]. simpl. unfold gg_byte_vec_chain_append.
  by rewrite bool_decide_false by done.
Qed.

Lemma chain_appends_spec s0 s out room xs :
  vec_rel s0 s out room ->
  exists e m' v', chain_appends GG_ERR_OK s.1 s.2 xs = Some (e, m', v') /\
    vec_rel s0 (m', v') (out ++ concat (fitting room xs)) (room - zlen (concat (fitting room xs))) /\
    (e = GG_ERR_OK /\ fitting room xs = xs /\ zlen (concat xs) <= room \/
     e = GG_ERR_NOMEM /\ room < zlen (concat xs)).
Proof.
  revert s out room. induction xs as [|x xs IH]; intros s out room Hr.
  - exists GG_ERR_OK, s.1, s.2. simpl. rewrite app_nil_r, zlen_nil, Z.sub_0_r.
    assert (0 <= room) by (destruct s0, s; apply Hr). destruct s. split_and!; try done. by left.
  - cbn [chain_appends fitting]. unfold gg_byte_vec_chain_append at 1. rewrite bool_decide_true by done.
    destruct (zlen x <=? room) eqn:Hx; zify_bool.
    + destruct (vec_fit _ _ _ _ _ Hr Hx) as (m1 & v1 & -> & Hr1). cbn [mbind option_bind].
      destruct (IH (m1, v1) _ _ Hr1) as (e & m' & v' & He & Hr' & Hc). exists e, m', v'.
      cbn [concat]. rewrite app_assoc, !zlen_app.
      replace (room - (zlen x + zlen (concat (fitting (room - zlen x) xs))))
        with (room - zlen x - zlen (concat (fitting (room - zlen x) xs))) by lia.
      split; [done|]. split; [done|]. destruct Hc as [(-> & -> & ?)|[-> ?]]; [left|right].
      * split_and!; [done|done|lia].
      * split; [done|lia].
    + rewrite (vec_full s0 s out room x Hr ltac:(lia)). cbn [mbind option_bind].
      rewrite chain_appends_error by done. exists GG_ERR_NOMEM, s.1, s.2. simpl.
      rewrite app_nil_r, zlen_nil, Z.sub_0_r. destruct s. split_and!; try done. right.
      split; [done|]. rewrite zlen_app. pose proof (zlen_nonneg (concat xs)). lia.
Qed.

(** * Properties *)

(** a chain of appends to a byte vector reports [GG_ERR_OK] exactly when
    all the pieces fit, and the vector then ends with their concatenation;
    otherwise it reports [GG_ERR_NOMEM] and holds the pieces before the first
    that does not fit. Nothing outside of the vector's capacity is written. *)
Theorem byte_vec_chain_exact (m : mem) (buf : BufPtr) (xs : list bytes) :
  0 <= len buf <= SIZE_MAX -> mapped m (data buf) (len buf) ->
  exists e m' v, chain_appends GG_ERR_OK m (gg_byte_vec_init buf) xs = Some (e, m', v) /\
    vcapacity v = len buf /\ buf_bytes m' (vbuf v) = Some (concat (fitting (len buf) xs)) /\
    (forall x, ~ (data buf <= x < data buf + len buf) -> m' !! x = m !! x) /\
    (e = GG_ERR_OK /\ fitting (len buf) xs = xs /\ zlen (concat xs) <= len buf \/
     e = GG_ERR_NOMEM /\ len buf < zlen (concat xs)).
Proof.
  intros Hl Hm.
  assert (vec_rel (m, gg_byte_vec_init buf) (m, gg_byte_vec_init buf) [] (len buf)) as Hr.
  { replace (len buf) with (vcapacity (gg_byte_vec_init buf) - len (vbuf (gg_byte_vec_init buf)))
      by (simpl; lia).
    apply vec_rel_init; simpl; [lia|lia|]. by rewrite Z.add_0_r, Z.sub_0_r. }
  destruct (chain_appends_spec _ _ _ _ xs Hr) as (e & m' & v & He & Hr' & Hc).
  exists e, m', v. destruct Hr' as (_ & _ & _ & Hs & _ & Hroom & ->). simpl in Hs, Hroom.
  rewrite Z.add_0_r in Hs. cbn [app] in *. split_and!; try done.
  - unfold buf_bytes. simpl. by apply loadz_store_same in Hs.
  - intros x Hx. eapply store_out; [done|]. lia.
Qed.

Lemma byte_vec_chain_exact_witness :
  exists e m' v, chain_appends GG_ERR_OK (zeroed 100 5) (gg_byte_vec_init (mkBuf 100 5))
      [[1; 2]; [3; 4; 5; 6]; [7]] = Some (e, m', v) /\
    vcapacity v = 5 /\ buf_bytes m' (vbuf v) = Some [1; 2] /\
    (forall x, ~ (100 <= x < 100 + 5) -> m' !! x = zeroed 100 5 !! x) /\
    (e = GG_ERR_OK /\ fitting 5 [[1; 2]; [3; 4; 5; 6]; [7]] = [[1; 2]; [3; 4; 5; 6]; [7]] /\ 7 <= 5 \/
     e = GG_ERR_NOMEM /\ 5 < 7).
Proof.
  apply (byte_vec_chain_exact (zeroed 100 5) (mkBuf 100 5) [[1; 2]; [3; 4; 5; 6]; [7]]).
  - split; by vm_compute.
  - apply zeroed_mapped.
Defined.
