(* ===== verification/Base64.v ===== *)
(** Base64 ([src/base64.c], [include/gg/base64.h]): decoding into a buffer
    that may be the input itself, and encoding into an arena. *)

From S2P Require Import Prelude Memory Buffer Io Object Map Visit Arena.

(** ** Definitions *)

(** [None] when the character is not a digit. A [char] may be negative: the
    tests are the same for the byte. *)
Definition base64_char_to_byte (digit : Z) : option Z :=
  if (65 <=? digit) && (digit <=? 90) then Some (uwrap 8 (digit - 65))
  else if (97 <=? digit) && (digit <=? 122) then Some (uwrap 8 (digit - 97 + 26))
  else if (48 <=? digit) && (digit <=? 57) then Some (uwrap 8 (digit - 48 + 26 + 26))
  else if digit =? 43 then Some 62
  else if digit =? 47 then Some 63
  else None.

(** The bytes of one segment, as [base64_decode_segment] computes [value] and
    [len]. *)
Definition segment_value (s0 s1 s2 s3 : Z) : option bytes :=
  decoded ← base64_char_to_byte s0;
  let value0 := uwrap 8 (Z.shiftl decoded 2) in
  decoded ← base64_char_to_byte s1;
  let value0 := Z.lor value0 (uwrap 8 (Z.shiftr decoded 4)) in
  let value1 := uwrap 8 (Z.shiftl decoded 4) in
  if s2 =? 61 then
    if negb (s3 =? 61) then None else
    if negb (value1 =? 0) then None else
    Some [value0]
  else
    decoded ← base64_char_to_byte s2;
    let value1 := Z.lor value1 (uwrap 8 (Z.shiftr decoded 2)) in
    let value2 := uwrap 8 (Z.shiftl decoded 6) in
    if s3 =? 61 then
      if negb (value2 =? 0) then None else
      Some [value0; value1]
    else
      decoded ← base64_char_to_byte s3;
      Some [value0; value1; Z.lor value2 decoded].

(** The result, the memory, [*target] and [*padding]. *)
Definition base64_decode_segment (m : mem) (segment : Z) (target : BufPtr) (padding : bool)
    : option (bool * mem * BufPtr * bool) :=
  s ← loadz m segment 4;
  match s with
  | [s0; s1; s2; s3] =>
      match segment_value s0 s1 s2 s3 with
      | None => Some (false, m, target, padding)
      | Some value =>
          if len target <? zlen value then Some (false, m, target, padding) else
          m ← store m (data target) value;
          Some (true, m, gg_buffer_substr_ptr target (zlen value) SIZE_MAX, negb (zlen value =? 3))
      end
  | _ => None
  end.

(** The loop of [gg_base64_decode], with [n] segments left. *)
Fixpoint base64_decode_loop (n : nat) (m : mem) (segment : Z) (out : BufPtr) (last : bool)
    : option (bool * mem * BufPtr) :=
  match n with
  | O => Some (true, m, out)
  | S n =>
      if last then Some (false, m, out) else
      '(ret, m, out, last) ← base64_decode_segment m segment out last;
      if negb ret then Some (false, m, out) else base64_decode_loop n m (segment + 4) out last
  end.

Definition gg_base64_decode (m : mem) (base64 target : BufPtr) : option (bool * mem * BufPtr) :=
  if negb (len base64 mod 4 =? 0) then Some (false, m, target) else
  if len target <? len base64 / 4 * 3 then Some (false, m, target) else
  '(ret, m, out) ← base64_decode_loop (Z.to_nat (len base64 / 4)) m (data base64) target false;
  if negb ret then Some (false, m, target)
  else Some (true, m, mkBuf (data target) (uwrap 64 (data out - data target))).

Definition gg_base64_decode_in_place (m : mem) (target : BufPtr) : option (bool * mem * BufPtr) :=
  gg_base64_decode m target target.

Definition BASE64_TABLE : bytes :=
  GG_STR "ABCDEFGHIJKLMNOPQRSTUVWXYZabcdefghijklmnopqrstuvwxyz0123456789+/".

(** The characters of a whole chunk of three bytes. *)
Definition encode_chunk (b0 b1 b2 : Z) : option bytes :=
  let chunk := uwrap 32 (uwrap 32 (Z.shiftl b0 16 + Z.shiftl b1 8) + b2) in
  c0 ← rd BASE64_TABLE (Z.shiftr chunk 18);
  c1 ← rd BASE64_TABLE (Z.land (Z.shiftr chunk 12) 0x3F);
  c2 ← rd BASE64_TABLE (Z.land (Z.shiftr chunk 6) 0x3F);
  c3 ← rd BASE64_TABLE (Z.land chunk 0x3F);
  Some [c0; c1; c2; c3].

(** The characters of the one or two last bytes. *)
Definition encode_rest (b0 : Z) (b1 : option Z) : option bytes :=
  let chunk := uwrap 32 (Z.shiftl b0 16 + match b1 with Some b1 => Z.shiftl b1 8 | None => 0 end) in
  c0 ← rd BASE64_TABLE (Z.shiftr chunk 18);
  c1 ← rd BASE64_TABLE (Z.land (Z.shiftr chunk 12) 0x3F);
  c2 ← match b1 with
       | Some _ => rd BASE64_TABLE (Z.land (Z.shiftr chunk 6) 0x3F)
       | None => Some 61
       end;
  Some [c0; c1; c2; 61].

(** The loop over the whole chunks from index [i] on. *)
Fixpoint encode_loop (m : mem) (dst : Z) (buf : bytes) (i : Z) (n : nat) : option mem :=
  match n with
  | O => Some m
  | S n =>
      b0 ← rd buf (i * 3);
      b1 ← rd buf (i * 3 + 1);
      b2 ← rd buf (i * 3 + 2);
      cs ← encode_chunk b0 b1 b2;
      m ← store m (dst + i * 4) cs;
      encode_loop m dst buf (i + 1) n
  end.

(** The error, the memory, the arena and [*result] when it is assigned. *)
Definition gg_base64_encode (m : mem) (buf : bytes) (alloc : option GgArena)
    : option (GgError * mem * option GgArena * option BufPtr) :=
  let base64_len := uwrap 64 (uwrap 64 (zlen buf + 2) / 3 * 4) in
  '(alloc, dst) ← gg_arena_alloc alloc base64_len 1;
  if dst =? NULL then Some (GG_ERR_NOMEM, m, alloc, None) else
  let chunks := zlen buf / 3 in
  m ← encode_loop m dst buf 0 (Z.to_nat chunks);
  let remaining := zlen buf mod 3 in
  m ← (if 0 <? remaining then
         b0 ← rd buf (chunks * 3);
         cs ← (if 1 <? remaining then b1 ← rd buf (chunks * 3 + 1); encode_rest b0 (Some b1)
               else encode_rest b0 None);
         store m (dst + chunks * 4) cs
       else Some m);
  Some (GG_ERR_OK, m, alloc, Some (mkBuf dst base64_len)).

(** ** Specification *)

(** The digit of six bits, and a whole encoding (RFC 4648). *)
Definition digit (v : Z) : Z := default 0 (rd BASE64_TABLE v).

Fixpoint base64_enc (bs : bytes) : bytes :=
  match bs with
  | [] => []
  | [a] => [digit (a / 4); digit (a mod 4 * 16); 61; 61]
  | [a; b] => [digit (a / 4); digit (a mod 4 * 16 + b / 16); digit (b mod 16 * 4); 61]
  | a :: b :: c :: bs =>
      digit (a / 4) :: digit (a mod 4 * 16 + b / 16) :: digit (b mod 16 * 4 + c / 64) ::
      digit (c mod 64) :: base64_enc bs
  end.

(** The decoding of a whole text. *)
Fixpoint base64_dec (s : bytes) : option bytes :=
  match s with
  | [] => Some []
  | s0 :: s1 :: s2 :: s3 :: rest =>
      v ← segment_value s0 s1 s2 s3;
      if zlen v =? 3 then bs ← base64_dec rest; Some (v ++ bs)
      else match rest with [] => Some v | _ => None end
  | _ => None
  end.

(** *** Digits *)

Lemma digit_lookup v : 0 <= v < 64 -> rd BASE64_TABLE v = Some (digit v).
Proof.
  intros Hv. unfold digit. destruct (rd_is_Some BASE64_TABLE v) as [x Hx]; [by vm_compute in Hv |- *|].
  by rewrite Hx.
Qed.

(** The table and the decoding of characters are inverse to each other. *)
Definition digit_range : list Z := seqZ 0 64.
Definition byte_range : list Z := seqZ 0 256.

Lemma char_of_digit v : 0 <= v < 64 -> base64_char_to_byte (digit v) = Some v /\ digit v <> 61.
Proof.
  intros Hv.
  assert (Forall (fun v => base64_char_to_byte (digit v) = Some v /\ digit v <> 61) digit_range) as H.
  { apply (bool_decide_unpack _). by vm_compute. }
  apply (proj1 (Forall_forall _ _) H v). unfold digit_range. apply elem_of_seqZ. lia.
Qed.

Lemma digit_of_char c v :
  base64_char_to_byte c = Some v -> 0 <= v < 64 /\ digit v = c.
Proof.
  intros H. assert (is_byte c) as Hc.
  { unfold base64_char_to_byte in H. unfold is_byte. repeat case_if_in H; simplify_eq; lia. }
  assert (Forall (fun c => match base64_char_to_byte c with
    | Some v => bool_decide (0 <= v < 64 /\ digit v = c) | None => true end = true) byte_range) as Hall.
  { apply (bool_decide_unpack _). by vm_compute. }
  specialize (proj1 (Forall_forall _ _) Hall c) as Hc'. cbv beta in Hc'. rewrite H in Hc'.
  apply (bool_decide_eq_true_1 (0 <= v < 64 /\ digit v = c)), Hc'.
  unfold byte_range. apply elem_of_seqZ. unfold is_byte in Hc. lia.
Qed.

#[global] Opaque digit base64_char_to_byte.

(** *** One segment *)

(** Two disjoint fields of a byte. *)
Lemma fields_lor x y n :
  0 <= n -> 0 <= y < 2 ^ n -> y < 256 -> 0 <= x -> x * 2 ^ n < 256 ->
  Z.lor (uwrap 8 (Z.shiftl x n)) (uwrap 8 y) = x * 2 ^ n + y.
Proof.
  intros Hn Hy Hy' Hx Hb. assert (0 < 2 ^ n) by (by apply Z.pow_pos_nonneg).
  rewrite Z.shiftl_mul_pow2 by done. rewrite (uwrap_small 8 (x * 2 ^ n)) by lia.
  rewrite uwrap_small by lia. by apply lor_mul.
Qed.

Lemma shiftl_wrap x n k :
  0 <= n <= 8 -> k = 8 - n -> uwrap 8 (Z.shiftl x n) = uwrap 8 (Z.shiftl (x mod 2 ^ k) n).
Proof.
  intros Hn ->. rewrite !Z.shiftl_mul_pow2 by lia. unfold uwrap.
  replace (2 ^ 8) with (2 ^ (8 - n) * 2 ^ n) by (rewrite <- Z.pow_add_r by lia; f_equal; lia).
  rewrite !Z.mul_mod_distr_r by (apply Z.pow_nonzero; lia).
  rewrite Z.mod_mod; [done|]. apply Z.pow_nonzero; lia.
Qed.

(** The value of a segment, in terms of its digits. *)
Lemma segment_value_digits s0 s1 s2 s3 d0 d1 :
  base64_char_to_byte s0 = Some d0 -> base64_char_to_byte s1 = Some d1 ->
  segment_value s0 s1 s2 s3 =
    if s2 =? 61 then
      if (s3 =? 61) && (d1 mod 16 =? 0) then Some [d0 * 4 + d1 / 16] else None
    else
      d2 ← base64_char_to_byte s2;
      if s3 =? 61 then
        if d2 mod 4 =? 0 then Some [d0 * 4 + d1 / 16; d1 mod 16 * 16 + d2 / 4] else None
      else
        d3 ← base64_char_to_byte s3;
        Some [d0 * 4 + d1 / 16; d1 mod 16 * 16 + d2 / 4; d2 mod 4 * 64 + d3].
Proof.
  intros H0 H1. pose proof (digit_of_char _ _ H0) as [Hd0 _]. pose proof (digit_of_char _ _ H1) as [Hd1 _].
  unfold segment_value. rewrite H0. cbn [mbind option_bind]. rewrite H1. cbn [mbind option_bind]. cbv zeta.
  rewrite (Z.shiftr_div_pow2 d1 4) by lia. change (2 ^ 4) with 16.
  rewrite fields_lor by (try change (2 ^ 2) with 4; dlia). change (2 ^ 2) with 4.
  rewrite (shiftl_wrap d1 4 4) by lia. change (2 ^ 4) with 16.
  assert (uwrap 8 (Z.shiftl (d1 mod 16) 4) = d1 mod 16 * 16) as Hv1.
  { rewrite Z.shiftl_mul_pow2 by lia. change (2 ^ 4) with 16. apply uwrap_small. dlia. }
  destruct (s2 =? 61).
  - rewrite Hv1. destruct (s3 =? 61); [|done]. cbn [negb andb].
    destruct (d1 mod 16 =? 0) eqn:E; zify_bool.
    + by rewrite (proj2 (Z.eqb_eq _ _)) by lia.
    + by rewrite (proj2 (Z.eqb_neq _ _)) by lia.
  - destruct (base64_char_to_byte s2) as [d2|] eqn:H2; [|done]. cbn [mbind option_bind].
    pose proof (digit_of_char _ _ H2) as [Hd2 _].
    rewrite (Z.shiftr_div_pow2 d2 2) by lia. change (2 ^ 2) with 4.
    rewrite fields_lor by (try change (2 ^ 4) with 16; dlia). change (2 ^ 4) with 16.
    rewrite (shiftl_wrap d2 6 2) by lia. change (2 ^ 2) with 4.
    assert (uwrap 8 (Z.shiftl (d2 mod 4) 6) = d2 mod 4 * 64) as Hv2.
    { rewrite Z.shiftl_mul_pow2 by lia. change (2 ^ 6) with 64. apply uwrap_small. dlia. }
    destruct (s3 =? 61).
    + rewrite Hv2. destruct (d2 mod 4 =? 0) eqn:E; zify_bool.
      * by rewrite (proj2 (Z.eqb_eq _ _)) by lia.
      * by rewrite (proj2 (Z.eqb_neq _ _)) by lia.
    + destruct (base64_char_to_byte s3) as [d3|] eqn:H3; [|done]. cbn [mbind option_bind].
      pose proof (digit_of_char _ _ H3) as [Hd3 _].
      rewrite <- (uwrap_small 8 d3) at 1 by lia.
      rewrite fields_lor by (try change (2 ^ 6) with 64; dlia). done.
Qed.

Lemma segment_value_bad s0 s1 s2 s3 :
  base64_char_to_byte s0 = None \/ base64_char_to_byte s1 = None -> segment_value s0 s1 s2 s3 = None.
Proof.
  unfold segment_value. intros [-> | H]; [done|].
  destruct (base64_char_to_byte s0); [|done]. cbn [mbind option_bind]. by rewrite H.
Qed.

(** The three shapes of a segment: its value is the one its encoding has. *)
Lemma segment_value_enc a b c :
  is_byte a -> is_byte b -> is_byte c ->
  segment_value (digit (a / 4)) (digit (a mod 4 * 16)) 61 61 = Some [a] /\
  segment_value (digit (a / 4)) (digit (a mod 4 * 16 + b / 16)) (digit (b mod 16 * 4)) 61 = Some [a; b] /\
  segment_value (digit (a / 4)) (digit (a mod 4 * 16 + b / 16)) (digit (b mod 16 * 4 + c / 64))
    (digit (c mod 64)) = Some [a; b; c].
Proof.
  unfold is_byte. intros Ha Hb Hc.
  destruct (char_of_digit (a / 4)) as [H0 _]; [dlia|].
  destruct (char_of_digit (a mod 4 * 16)) as [H1 _]; [dlia|].
  destruct (char_of_digit (a mod 4 * 16 + b / 16)) as [H1' _]; [dlia|].
  destruct (char_of_digit (b mod 16 * 4)) as [H2 H2n]; [dlia|].
  destruct (char_of_digit (b mod 16 * 4 + c / 64)) as [H2' H2n']; [dlia|].
  destruct (char_of_digit (c mod 64)) as [H3 H3n]; [dlia|].
  split_and!.
  - rewrite (segment_value_digits _ _ _ _ _ _ H0 H1). cbn [Z.eqb Pos.eqb andb].
    rewrite (proj2 (Z.eqb_eq _ _)) by dlia. do 2 f_equal. dlia.
  - rewrite (segment_value_digits _ _ _ _ _ _ H0 H1'), H2. rewrite (proj2 (Z.eqb_neq _ _)) by done.
    cbn [mbind option_bind Z.eqb Pos.eqb]. rewrite (proj2 (Z.eqb_eq _ _)) by dlia.
    do 2 f_equal; [dlia|]. f_equal. dlia.
  - rewrite (segment_value_digits _ _ _ _ _ _ H0 H1'), H2', H3. rewrite (proj2 (Z.eqb_neq _ _)) by done.
    cbn [mbind option_bind]. rewrite (proj2 (Z.eqb_neq _ _)) by done.
    do 2 f_equal; [dlia|]. f_equal; [dlia|]. f_equal. dlia.
Qed.

(** Conversely, a segment with a value is the encoding of that value. *)
Lemma segment_value_inv s0 s1 s2 s3 v :
  segment_value s0 s1 s2 s3 = Some v ->
  bytes_ok v /\ base64_enc v = [s0; s1; s2; s3] /\ (zlen v = 1 \/ zlen v = 2 \/ zlen v = 3).
Proof.
  intros H. destruct (base64_char_to_byte s0) as [d0|] eqn:H0;
    [|by rewrite segment_value_bad in H by auto].
  destruct (base64_char_to_byte s1) as [d1|] eqn:H1; [|by rewrite segment_value_bad in H by auto].
  rewrite (segment_value_digits _ _ _ _ _ _ H0 H1) in H.
  apply digit_of_char in H0 as [Hd0 <-], H1 as [Hd1 <-].
  destruct (s2 =? 61) eqn:E2; zify_bool.
  - destruct (s3 =? 61) eqn:E3; [|done]. destruct (d1 mod 16 =? 0) eqn:E; [|done]. simpl in H.
    zify_bool. injection H as <-. subst s2 s3. split_and!; [|simpl|by left].
    + constructor; [unfold is_byte; dlia|constructor].
    + f_equal; [f_equal; dlia|]. f_equal. f_equal. dlia.
  - destruct (base64_char_to_byte s2) as [d2|] eqn:H2; [|done]. cbn [mbind option_bind] in H.
    apply digit_of_char in H2 as [Hd2 <-]. destruct (s3 =? 61) eqn:E3; zify_bool.
    + destruct (d2 mod 4 =? 0) eqn:E; zify_bool; simplify_eq. split_and!; [|simpl|right; by left].
      * repeat constructor; dlia.
      * f_equal; [f_equal; dlia|]. f_equal; [f_equal; dlia|]. f_equal. f_equal. dlia.
    + destruct (base64_char_to_byte s3) as [d3|] eqn:H3; [|done]. cbn [mbind option_bind] in H.
      apply digit_of_char in H3 as [Hd3 <-]. simplify_eq. split_and!; [|simpl|right; by right].
      * repeat constructor; dlia.
      * f_equal; [f_equal; dlia|]. f_equal; [f_equal; dlia|]. f_equal; [f_equal; dlia|].
        f_equal. f_equal. dlia.
Qed.

(** *** Whole texts *)

Lemma base64_dec_enc bs : bytes_ok bs -> base64_dec (base64_enc bs) = Some bs.
Proof.
  remember (length bs) as n eqn:Hn. revert bs Hn.
  induction (Nat.lt_wf_0 n) as [n _ IH]. intros [|a [|b [|c bs]]] Hn Hok; [done|..].
  - apply Forall_cons in Hok as [Ha _].
    destruct (segment_value_enc a a a Ha Ha Ha) as (H & _ & _). simpl. by rewrite H.
  - apply Forall_cons in Hok as [Ha [Hb _]%Forall_cons].
    destruct (segment_value_enc a b a Ha Hb Ha) as (_ & H & _). simpl. by rewrite H.
  - apply Forall_cons in Hok as [Ha [Hb [Hc Hok]%Forall_cons]%Forall_cons].
    destruct (segment_value_enc a b c Ha Hb Hc) as (_ & _ & H). cbn [base64_enc base64_dec].
    rewrite H. cbn [mbind option_bind]. change (zlen [a; b; c] =? 3) with true. cbn iota.
    rewrite (IH (length bs)); [done| |done|done]. rewrite Hn. simpl. lia.
Qed.

Lemma base64_enc_dec s bs : base64_dec s = Some bs -> bytes_ok bs /\ base64_enc bs = s.
Proof.
  remember (length s) as n eqn:Hn. revert s bs Hn.
  induction (Nat.lt_wf_0 n) as [n _ IH]. intros [|s0 [|s1 [|s2 [|s3 rest]]]] bs Hn H; try done.
  { injection H as <-. by split; [constructor|]. }
  cbn [base64_dec] in H. destruct (segment_value s0 s1 s2 s3) as [v|] eqn:Hv; [|done].
  apply segment_value_inv in Hv as (Hok & Henc & Hl). cbn [mbind option_bind] in H.
  destruct (zlen v =? 3) eqn:H3; zify_bool.
  - destruct (base64_dec rest) as [bs'|] eqn:Hr; [|done]. cbn [mbind option_bind] in H.
    injection H as <-. destruct (IH (length rest)) with (s := rest) (bs := bs') as [Hok' Henc']; try done.
    { rewrite Hn. simpl. lia. }
    split; [by apply bytes_ok_app|]. unfold zlen in H3.
    destruct v as [|a [|b [|c [|d v]]]]; simpl in H3; try lia.
    cbn [app base64_enc]. rewrite Henc'. cbn [base64_enc] in Henc. by simplify_eq.
  - destruct rest; [|done]. injection H as <-. done.
Qed.

(** *** Decoding in memory *)

(** Writing at [t] does not disturb the text at [b] that is still to be read:
    they are disjoint, or the output does not start after the text. *)
Definition no_clobber (t b n : Z) : Prop := disj t (3 * n) b (4 * n) \/ t <= b.

Lemma loadz_cons m a n x xs :
  0 < n -> loadz m a n = Some (x :: xs) -> loadz m (a + 1) (n - 1) = Some xs.
Proof.
  intros Hn H. pose proof (loadz_zlen _ _ _ _ H) as Hz. rewrite zlen_cons in Hz.
  rewrite (loadz_sub m a n (x :: xs) 1 (n - 1) H) by lia.
  rewrite zdrop_cons by lia. rewrite zdrop_0. rewrite ztake_all by lia. done.
Qed.

Lemma loadz_split m a xs ys :
  loadz m a (zlen xs + zlen ys) = Some (xs ++ ys) ->
  loadz m a (zlen xs) = Some xs /\ loadz m (a + zlen xs) (zlen ys) = Some ys.
Proof.
  intros H. pose proof (zlen_nonneg xs). pose proof (zlen_nonneg ys). split.
  - rewrite <- (Z.add_0_r a). erewrite (loadz_sub m a _ _ 0 (zlen xs) H) by lia.
    rewrite zdrop_0. by rewrite ztake_app_exact.
  - erewrite (loadz_sub m a _ _ (zlen xs) (zlen ys) H) by lia.
    rewrite zdrop_app_exact by done. by rewrite ztake_all by lia.
Qed.

Lemma base64_decode_loop_spec n m b s o :
  loadz m b (zlen s) = Some s -> zlen s = 4 * Z.of_nat n ->
  mapped m (data o) (len o) -> 3 * Z.of_nat n <= len o <= SIZE_MAX ->
  no_clobber (data o) b (Z.of_nat n) ->
  exists ok m' o', base64_decode_loop n m b o false = Some (ok, m', o') /\
    (forall x, ~ (data o <= x < data o + 3 * Z.of_nat n) -> m' !! x = m !! x) /\
    match base64_dec s with
    | Some v => ok = true /\ store m (data o) v = Some m' /\ data o' = data o + zlen v /\
        zlen v <= 3 * Z.of_nat n
    | None => ok = false
    end.
Proof.
  revert m b s o. induction n as [|n IH]; intros m b s o Hs Hz Hm Hl Hnc.
  { rewrite (zlen_zero s) by lia. exists true, m, o.
    split; [done|]. split; [done|]. cbn [base64_dec]. rewrite zlen_nil. split_and!; [done|done|lia|lia]. }
  destruct s as [|s0 [|s1 [|s2 [|s3 rest]]]]; try (rewrite ?zlen_cons, ?zlen_nil in Hz; lia).
  assert (zlen rest = 4 * Z.of_nat n) as Hzr by (rewrite !zlen_cons in Hz; lia).
  change (s0 :: s1 :: s2 :: s3 :: rest) with ([s0; s1; s2; s3] ++ rest) in Hs.
  rewrite zlen_app in Hs. apply loadz_split in Hs as [Hseg Hrest].
  change (zlen [s0; s1; s2; s3]) with 4 in Hseg, Hrest.
  cbn [base64_decode_loop base64_dec]. unfold base64_decode_segment at 1. rewrite Hseg.
  cbn [mbind option_bind].
  destruct (segment_value s0 s1 s2 s3) as [v|] eqn:Hv.
  2:{ exists false, m, o. cbn [mbind option_bind negb]. split_and!; done. }
  apply segment_value_inv in Hv as (_ & _ & Hvl).
  rewrite (proj2 (Z.ltb_ge _ _)) by lia.
  destruct (store_Some m (data o) v) as [m1 Hm1]; [intros x Hx; apply Hm; lia|].
  rewrite Hm1. cbn [mbind option_bind negb]. rewrite substr_ptr_rest by lia.
  assert (forall x, ~ (data o <= x < data o + 3 * Z.of_nat (S n)) -> m1 !! x = m !! x) as Hf1.
  { intros x Hx. eapply store_out; [done|lia]. }
  destruct (zlen v =? 3) eqn:H3; zify_bool; cbn [negb].
  - destruct (IH m1 (b + 4) rest (mkBuf (data o + zlen v) (len o - zlen v)))
      as (ok & m2 & o2 & He & Hf2 & Hc); cbn [data len]; try done; try lia.
    + rewrite <- Hrest. apply loadz_ext. intros x Hx. eapply store_out; [done|].
      unfold no_clobber, disj in Hnc. lia.
    + eapply store_mapped; [done|]. intros x Hx. apply Hm. lia.
    + unfold no_clobber, disj in *. lia.
    + exists ok, m2, o2. split; [done|]. split.
      { intros x Hx. rewrite Hf2; [apply Hf1; lia|cbn [data]; lia]. }
      destruct (base64_dec rest) as [v'|]; [|done]. cbn [mbind option_bind].
      destruct Hc as (-> & Hst & Ho & Hb). cbn [data] in Hst, Ho. split_and!; [done| |zlen_lia|zlen_lia].
      rewrite store_app, Hm1. done.
  - destruct n as [|n].
    + assert (rest = []) as -> by (apply zlen_zero; lia). cbn [base64_decode_loop].
      exists true, m1, (mkBuf (data o + zlen v) (len o - zlen v)). split_and!; try done. lia.
    + cbn [base64_decode_loop]. destruct rest; [rewrite zlen_nil in Hzr; lia|].
      eexists false, m1, _. split_and!; done.
Qed.

(** *** Encoding *)

Lemma land_63 x : Z.land x 0x3F = x mod 64.
Proof. change 0x3F with (Z.ones 6). by rewrite Z.land_ones. Qed.

Lemma encode_chunk_enc a b c :
  is_byte a -> is_byte b -> is_byte c -> encode_chunk a b c = Some (base64_enc [a; b; c]).
Proof.
  unfold is_byte. intros Ha Hb Hc. unfold encode_chunk. cbv zeta.
  rewrite !Z.shiftl_mul_pow2 by lia. change (2 ^ 16) with 65536. change (2 ^ 8) with 256.
  rewrite !(uwrap_small 32) by (rewrite ?uwrap_small by lia; lia).
  rewrite !Z.shiftr_div_pow2 by lia. change (2 ^ 18) with 262144. change (2 ^ 12) with 4096.
  change (2 ^ 6) with 64. rewrite !land_63.
  rewrite !digit_lookup by dlia. cbn [mbind option_bind base64_enc].
  do 2 f_equal; [f_equal; dlia|]. f_equal; [f_equal; dlia|]. f_equal; [f_equal; dlia|].
  f_equal. f_equal. dlia.
Qed.

Lemma encode_rest_enc a b :
  is_byte a -> is_byte b ->
  encode_rest a None = Some (base64_enc [a]) /\ encode_rest a (Some b) = Some (base64_enc [a; b]).
Proof.
  unfold is_byte. intros Ha Hb. unfold encode_rest. cbv zeta.
  rewrite !Z.shiftl_mul_pow2 by lia. change (2 ^ 16) with 65536. change (2 ^ 8) with 256.
  rewrite !(uwrap_small 32) by lia. rewrite !Z.shiftr_div_pow2 by lia.
  change (2 ^ 18) with 262144. change (2 ^ 12) with 4096. change (2 ^ 6) with 64. rewrite !land_63.
  rewrite !digit_lookup by dlia. cbn [mbind option_bind base64_enc].
  split; do 2 f_equal; try (f_equal; dlia); f_equal; try (f_equal; dlia); f_equal; f_equal; dlia.
Qed.

Lemma base64_enc_app n xs ys :
  length xs = (3 * n)%nat -> base64_enc (xs ++ ys) = base64_enc xs ++ base64_enc ys.
Proof.
  revert xs. induction n as [|n IH]; intros xs Hl; [by destruct xs|].
  destruct xs as [|a [|b [|c xs]]]; simpl in Hl; try lia. cbn [app base64_enc].
  rewrite IH by lia. done.
Qed.

Lemma zlen_base64_enc bs : zlen (base64_enc bs) = (zlen bs + 2) / 3 * 4.
Proof.
  remember (length bs) as n eqn:Hn. revert bs Hn.
  induction (Nat.lt_wf_0 n) as [n _ IH]. intros [|a [|b [|c bs]]] Hn; [done|done|done|].
  cbn [base64_enc]. rewrite !zlen_cons, (IH (length bs)); [dlia| |done]. rewrite Hn. simpl. lia.
Qed.

Lemma encode_loop_spec n m dst bs pre i :
  bytes_ok bs -> (3 * n <= length bs)%nat -> zlen pre = 3 * i -> 0 <= i ->
  encode_loop m dst (pre ++ bs) i n = store m (dst + 4 * i) (base64_enc (take (3 * n) bs)).
Proof.
  revert m bs pre i. induction n as [|n IH]; intros m bs pre i Hok Hl Hp Hi.
  { done. }
  destruct bs as [|a [|b [|c bs]]]; simpl in Hl; try lia.
  apply Forall_cons in Hok as [Ha [Hb [Hc Hok]%Forall_cons]%Forall_cons].
  cbn [encode_loop]. rewrite !rd_app_r by lia.
  replace (i * 3 - zlen pre) with 0 by lia. replace (i * 3 + 1 - zlen pre) with 1 by lia.
  replace (i * 3 + 2 - zlen pre) with 2 by lia.
  change (rd (a :: b :: c :: bs) 0) with (Some a). change (rd (a :: b :: c :: bs) 1) with (Some b).
  change (rd (a :: b :: c :: bs) 2) with (Some c). cbn [mbind option_bind].
  rewrite encode_chunk_enc by done. cbn [mbind option_bind].
  replace (take (3 * S n) (a :: b :: c :: bs)) with ([a; b; c] ++ take (3 * n) bs)
    by (replace (3 * S n)%nat with (S (S (S (3 * n)))) by lia; done).
  rewrite (base64_enc_app 1) by done. rewrite store_app.
  replace (dst + i * 4) with (dst + 4 * i) by lia.
  destruct (store m (dst + 4 * i) (base64_enc [a; b; c])) as [m1|]; [|done]. cbn [mbind option_bind].
  change (pre ++ a :: b :: c :: bs) with (pre ++ [a; b; c] ++ bs). rewrite app_assoc.
  rewrite IH; [|done|lia|zlen_lia|lia]. f_equal. change (zlen (base64_enc [a; b; c])) with 4. lia.
Qed.

(** The encoder writes the encoding of the whole buffer. *)
Lemma encode_writes m dst bs :
  bytes_ok bs ->
  (m ← encode_loop m dst bs 0 (Z.to_nat (zlen bs / 3));
   if 0 <? zlen bs mod 3 then
     b0 ← rd bs (zlen bs / 3 * 3);
     cs ← (if 1 <? zlen bs mod 3 then b1 ← rd bs (zlen bs / 3 * 3 + 1); encode_rest b0 (Some b1)
           else encode_rest b0 None);
     store m (dst + zlen bs / 3 * 4) cs
   else Some m) = store m dst (base64_enc bs).
Proof.
  intros Hok. set (n := Z.to_nat (zlen bs / 3)).
  assert (Z.of_nat n = zlen bs / 3) as Hn by (unfold n; pose proof (zlen_nonneg bs); dlia).
  assert (3 * n <= length bs)%nat as Hle by (unfold zlen in Hn; dlia).
  pose proof (encode_loop_spec n m dst bs [] 0 Hok Hle eq_refl ltac:(lia)) as He. cbn [app] in He.
  rewrite Z.mul_0_r, Z.add_0_r in He. rewrite He.
  assert (base64_enc bs = base64_enc (take (3 * n) bs) ++ base64_enc (drop (3 * n) bs)) as Hsp.
  { rewrite <- (base64_enc_app n) by (rewrite length_take; lia). by rewrite take_drop. }
  rewrite Hsp, store_app.
  destruct (store m dst (base64_enc (take (3 * n) bs))) as [m1|]; [|done]. cbn [mbind option_bind].
  assert (zlen (base64_enc (take (3 * n) bs)) = zlen bs / 3 * 4) as ->.
  { rewrite zlen_base64_enc. unfold zlen at 1. rewrite length_take. unfold zlen in Hn |- *. dlia. }
  assert (length (drop (3 * n) bs) = Z.to_nat (zlen bs mod 3)) as Hd.
  { rewrite length_drop. unfold zlen in Hn |- *. dlia. }
  assert (forall i x, (i < length (drop (3 * n) bs))%nat -> drop (3 * n) bs !! i = Some x ->
    rd bs (zlen bs / 3 * 3 + Z.of_nat i) = Some x) as Hrd.
  { intros i x Hi Hx. rewrite lookup_drop in Hx. unfold rd. case_if; [lia|].
    rewrite <- Hx. f_equal. lia. }
  assert (bytes_ok (drop (3 * n) bs)) as Hokd by by apply Forall_drop.
  destruct (drop (3 * n) bs) as [|a [|b [|c r]]]; simpl in Hd.
  - rewrite (proj2 (Z.ltb_ge _ _)) by lia. done.
  - rewrite (proj2 (Z.ltb_lt _ _)) by lia.
    pose proof (Hrd 0%nat a ltac:(simpl; lia) eq_refl) as H0. rewrite Z.add_0_r in H0. rewrite H0.
    cbn [mbind option_bind]. rewrite (proj2 (Z.ltb_ge _ _)) by lia.
    apply Forall_cons in Hokd as [Ha _]. by rewrite (proj1 (encode_rest_enc a a Ha Ha)).
  - rewrite (proj2 (Z.ltb_lt _ _)) by lia.
    pose proof (Hrd 0%nat a ltac:(simpl; lia) eq_refl) as H0. rewrite Z.add_0_r in H0. rewrite H0.
    cbn [mbind option_bind]. rewrite (proj2 (Z.ltb_lt _ _)) by lia.
    pose proof (Hrd 1%nat b ltac:(simpl; lia) eq_refl) as H1. change (Z.of_nat 1) with 1 in H1.
    rewrite H1. cbn [mbind option_bind].
    apply Forall_cons in Hokd as [Ha [Hb _]%Forall_cons]. by rewrite (proj2 (encode_rest_enc a b Ha Hb)).
  - dlia.
Qed.

(** Encoding into an arena. *)
Lemma gg_base64_encode_run m bs a :
  bytes_ok bs -> arena_ok a -> mapped m (arena_mem a) (capacity a) -> zlen bs <= UINT32_MAX ->
  let n := (zlen bs + 2) / 3 * 4 in
  if bool_decide (n <= capacity a - index a)
  then exists m', gg_base64_encode m bs (Some a) =
         Some (GG_ERR_OK, m', Some (mkArena (arena_mem a) (capacity a) (index a + n)),
               Some (mkBuf (arena_mem a + index a) n)) /\
       store m (arena_mem a + index a) (base64_enc bs) = Some m'
  else gg_base64_encode m bs (Some a) = Some (GG_ERR_NOMEM, m, Some a, None).
Proof.
  intros Hok Ha Hm Hmax n. pose proof (zlen_nonneg bs).
  unfold UINT32_MAX in Hmax. unfold gg_base64_encode. cbv zeta.
  rewrite (uwrap_small 64 (zlen bs + 2)) by lia. rewrite uwrap_small by dlia. fold n.
  assert (0 <= n <= PTRDIFF_MAX) as Hn by (unfold n, PTRDIFF_MAX; dlia).
  rewrite gg_arena_alloc_eq by (done || unfold UINT32_MAX; lia). cbn [mbind option_bind].
  assert (align_up (index a) 1 = index a) as Hup by (unfold align_up; rewrite Z.mod_1_r; lia).
  destruct Ha as (Hmem & Hi & Hc & Hs). unfold alloc_at. rewrite Hup.
  case_bool_decide as Hfit.
  - rewrite (proj2 (Z.leb_le _ _)) by lia. rewrite (proj2 (Z.eqb_neq _ _)) by (unfold NULL; lia).
    pose proof (encode_writes m (arena_mem a + index a) bs Hok) as Hw.
    destruct (store_Some m (arena_mem a + index a) (base64_enc bs)) as [m' Hst].
    { rewrite zlen_base64_enc. fold n. intros x Hx. apply Hm. lia. }
    rewrite Hst in Hw. exists m'. split; [|done].
    destruct (encode_loop m _ bs 0 _) as [m1|]; [|done]. cbn [mbind option_bind] in Hw |- *.
    by rewrite Hw.
  - rewrite (proj2 (Z.leb_gt _ _)) by lia. done.
Qed.

(** The whole decoder. *)
Lemma gg_base64_decode_run (m : mem) (base64 target : BufPtr) (s : bytes) :
  buf_bytes m base64 = Some s -> 0 <= len base64 ->
  mapped m (data target) (len target) -> 0 <= len target <= SIZE_MAX ->
  no_clobber (data target) (data base64) (len base64 / 4) ->
  exists ok m' t', gg_base64_decode m base64 target = Some (ok, m', t') /\
    data t' = data target /\
    (forall x, ~ (data target <= x < data target + len target) -> m' !! x = m !! x) /\
    (forall bs, bytes_ok bs -> base64_enc bs = s -> len base64 / 4 * 3 <= len target ->
       ok = true /\ buf_bytes m' t' = Some bs) /\
    (ok = true -> exists bs, bytes_ok bs /\ base64_enc bs = s /\ buf_bytes m' t' = Some bs) /\
    (ok = false -> t' = target).
Proof.
  intros Hs Hl0 Hm Hl Hnc. pose proof (loadz_zlen _ _ _ _ Hs) as Hz. rewrite Z.max_r in Hz by done.
  unfold gg_base64_decode. destruct (len base64 mod 4 =? 0) eqn:E4; zify_bool; cbn [negb].
  2:{ exists false, m, target. split_and!; try done. intros bs _ He _. exfalso.
      apply (f_equal zlen) in He. rewrite zlen_base64_enc in He. apply E4. rewrite <- Hz, <- He.
      by rewrite Z.mod_mul. }
  destruct (len target <? len base64 / 4 * 3) eqn:E3; zify_bool.
  { exists false, m, target. split_and!; try done. intros; lia. }
  assert (Z.of_nat (Z.to_nat (len base64 / 4)) = len base64 / 4) as Hn by dlia.
  destruct (base64_decode_loop_spec (Z.to_nat (len base64 / 4)) m (data base64) s target)
    as (ok & m' & o' & He & Hf & Hc); rewrite ?Hn; try done; try dlia.
  { unfold buf_bytes in Hs. by rewrite Hz. }
  rewrite He. cbn [mbind option_bind]. rewrite Hn in Hf, Hc.
  assert (forall x, ~ (data target <= x < data target + len target) -> m' !! x = m !! x) as Hf'.
  { intros x Hx. apply Hf. lia. }
  destruct (base64_dec s) as [v|] eqn:Hv.
  - destruct Hc as (-> & Hst & Ho & Hb). cbn [negb].
    exists true, m', (mkBuf (data target) (uwrap 64 (data o' - data target))).
    pose proof (zlen_nonneg v).
    rewrite Ho, uwrap_small by (unfold SIZE_MAX in Hl; lia).
    replace (data target + zlen v - data target) with (zlen v) by lia.
    assert (buf_bytes m' (mkBuf (data target) (zlen v)) = Some v) as Hbuf.
    { unfold buf_bytes. simpl. by eapply loadz_store_same. }
    destruct (base64_enc_dec s v Hv) as [Hokv Hev]. split_and!; try done.
    + intros bs Hok Henc _. split; [done|]. rewrite <- Henc, base64_dec_enc in Hv by done. by simplify_eq.
    + intros _. by exists v.
  - subst ok. cbn [negb]. exists false, m', target. split_and!; try done.
    intros bs Hok Henc _. rewrite <- Henc, base64_dec_enc in Hv by done. done.
Qed.

(** Decoding keeps what is allocated. *)
Lemma decode_loop_domain n m a o l ok m' o' :
  base64_decode_loop n m a o l = Some (ok, m', o') -> forall x, is_Some (m !! x) -> is_Some (m' !! x).
Proof.
  revert m a o l. induction n as [|n IH]; intros m a o l H x Hx; [by injection H as <- <- <-|].
  cbn [base64_decode_loop] in H. destruct l; [by injection H as <- <- <-|].
  destruct (base64_decode_segment m a o false) as [[[[ok1 m1] o1] l1]|] eqn:Hseg; [|done]. cbn [mbind option_bind] in H.
  assert (is_Some (m1 !! x)) as Hx1.
  { unfold base64_decode_segment in Hseg. destruct (loadz m a 4) as [[|s0 [|s1 [|s2 [|s3 [|]]]]]|]; try done.
    cbn [mbind option_bind] in Hseg. destruct (segment_value s0 s1 s2 s3) as [v|]; [|by injection Hseg as <- <- <- <-].
    case_if_in Hseg; [by injection Hseg as <- <- <- <-|].
    destruct (store m (data o) v) as [m2|] eqn:Hst; [|done]. injection Hseg as <- <- <- <-.
    by apply (store_changes _ _ _ _ Hst). }
  destruct ok1; cbn [negb] in H; [by eapply IH|by injection H as <- <- <-].
Qed.

(** Decoding a string where it is. *)
Lemma decode_in_place_run m b s : buf_bytes m b = Some s -> 0 <= len b <= UINT16_MAX ->
  exists ok m' t', gg_base64_decode_in_place m b = Some (ok, m', t') /\
    changes (zrange (data b) (data b + len b)) m m' /\
    match base64_dec s with
    | Some bs => ok = true /\ buf_bytes m' t' = Some bs /\ data t' = data b /\ 0 <= len t' <= len b
    | None => ok = false
    end.
Proof.
  intros Hs Hl. pose proof (loadz_zlen _ _ _ _ Hs) as Hz. rewrite Z.max_r in Hz by lia.
  destruct (gg_base64_decode_run m b b s Hs) as (ok & m' & t' & Hrun & Hd & Hf & Hok & Hdec & _).
  - lia.
  - by eapply loadz_is_mapped.
  - unfold UINT16_MAX, SIZE_MAX in *. lia.
  - by right.
  - exists ok, m', t'. split; [exact Hrun|]. split.
    { split; [exact Hf|]. unfold gg_base64_decode_in_place, gg_base64_decode in Hrun.
      case_if_in Hrun; [by injection Hrun as <- <- <-|]. case_if_in Hrun; [by injection Hrun as <- <- <-|].
      destruct (base64_decode_loop _ _ _ _ _) as [[[ok1 m1] o1]|] eqn:Hloop; [|done]. cbn [mbind option_bind] in Hrun.
      assert (m' = m1) as -> by (by destruct ok1; injection Hrun as <- <- <-). by eapply decode_loop_domain. }
    destruct (base64_dec s) as [bs|] eqn:Hb.
    + destruct (base64_enc_dec _ _ Hb) as [Hbs Henc]. pose proof (zlen_base64_enc bs) as Hze. rewrite Henc, Hz in Hze.
      pose proof (zlen_nonneg bs). destruct (Hok bs Hbs Henc) as [-> Ht]; [dlia|]. split_and!; [done|done|done|..].
      * unfold gg_base64_decode_in_place, gg_base64_decode in Hrun.
        case_if_in Hrun; [done|]. case_if_in Hrun; [done|].
        destruct (base64_decode_loop _ _ _ _ _) as [[[ok1 m1] o1]|]; [|done]. cbn [mbind option_bind] in Hrun.
        destruct ok1; [|done]. injection Hrun as _ <-. cbn [len]. by apply uwrap_range.
      * pose proof (loadz_zlen _ _ _ _ Ht). dlia.
    + destruct ok; [|done]. destruct (Hdec eq_refl) as (bs & Hbs & Henc & _). rewrite <- Henc, base64_dec_enc in Hb by done. done.
Qed.

(** * Properties *)

(** C39: decoding accepts exactly the encodings of RFC 4648, padding and unused
    bits included, and gives back the bytes encoded, also when the output
    overwrites the input (it may start anywhere at or before it). Nothing
    outside of the target is written, and the target is left alone on
    failure but for its contents. *)
Theorem base64_decode_exact (m : mem) (base64 target : BufPtr) (s : bytes) :
  buf_bytes m base64 = Some s -> 0 <= len base64 ->
  mapped m (data target) (len target) -> 0 <= len target <= SIZE_MAX ->
  no_clobber (data target) (data base64) (len base64 / 4) ->
  exists ok m' t', gg_base64_decode m base64 target = Some (ok, m', t') /\
    data t' = data target /\
    (forall x, ~ (data target <= x < data target + len target) -> m' !! x = m !! x) /\
    (forall bs, bytes_ok bs -> base64_enc bs = s -> len base64 / 4 * 3 <= len target ->
       ok = true /\ buf_bytes m' t' = Some bs) /\
    (ok = true -> exists bs, bytes_ok bs /\ base64_enc bs = s /\ buf_bytes m' t' = Some bs) /\
    (ok = false -> t' = target).
Proof. apply gg_base64_decode_run. Qed.

Lemma base64_decode_exact_witness :
  let m := put ∅ 100 (GG_STR "aGkh") in
  exists ok m' t', gg_base64_decode_in_place m (mkBuf 100 4) = Some (ok, m', t') /\
    data t' = 100 /\
    (forall x, ~ (100 <= x < 100 + 4) -> m' !! x = m !! x) /\
    (forall bs, bytes_ok bs -> base64_enc bs = GG_STR "aGkh" -> 4 / 4 * 3 <= 4 ->
       ok = true /\ buf_bytes m' t' = Some bs) /\
    (ok = true -> exists bs, bytes_ok bs /\ base64_enc bs = GG_STR "aGkh" /\ buf_bytes m' t' = Some bs) /\
    (ok = false -> t' = mkBuf 100 4).
Proof.
  refine (base64_decode_exact (put ∅ 100 (GG_STR "aGkh")) (mkBuf 100 4) (mkBuf 100 4)
    (GG_STR "aGkh") _ _ _ _ _).
  - by vm_compute.
  - by vm_compute.
  - apply (loadz_is_mapped _ _ _ (GG_STR "aGkh")). by vm_compute.
  - split; by vm_compute.
  - right. by vm_compute.
Defined.

(** C40: encoding writes into the arena the RFC 4648 encoding of the buffer
    and nothing else, or fails with [GG_ERR_NOMEM] when it does not fit;
    decoding the result gives the buffer back. *)
Theorem base64_encode_exact (m : mem) (bs : bytes) (a : GgArena) :
  bytes_ok bs -> arena_ok a -> mapped m (arena_mem a) (capacity a) -> zlen bs <= UINT32_MAX ->
  let n := (zlen bs + 2) / 3 * 4 in
  base64_dec (base64_enc bs) = Some bs /\
  if bool_decide (n <= capacity a - index a)
  then exists m' r, gg_base64_encode m bs (Some a) =
         Some (GG_ERR_OK, m', Some (mkArena (arena_mem a) (capacity a) (index a + n)), Some r) /\
       buf_bytes m' r = Some (base64_enc bs) /\ data r = arena_mem a + index a /\
       (forall x, ~ (data r <= x < data r + n) -> m' !! x = m !! x)
  else gg_base64_encode m bs (Some a) = Some (GG_ERR_NOMEM, m, Some a, None).
Proof.
  intros Hok Ha Hm Hmax n. split; [by apply base64_dec_enc|].
  pose proof (gg_base64_encode_run m bs a Hok Ha Hm Hmax) as Hrun. cbv zeta in Hrun. fold n in Hrun.
  case_bool_decide; [|done]. destruct Hrun as (m' & He & Hst). exists m', (mkBuf (arena_mem a + index a) n).
  assert (zlen (base64_enc bs) = n) as Hz by apply zlen_base64_enc.
  split_and!; [done|unfold buf_bytes; cbn [data len]; rewrite <- Hz; by eapply loadz_store_same|done|].
  cbn [data]. intros x Hx. eapply store_out; [done|lia].
Qed.

Lemma base64_encode_exact_witness :
  base64_dec (base64_enc (GG_STR "hi")) = Some (GG_STR "hi") /\
  exists m' r, gg_base64_encode (zeroed 4096 8) (GG_STR "hi") (Some (mkArena 4096 8 2)) =
      Some (GG_ERR_OK, m', Some (mkArena 4096 8 6), Some r) /\
    buf_bytes m' r = Some (GG_STR "aGk=") /\ data r = 4098 /\
    (forall x, ~ (data r <= x < data r + 4) -> m' !! x = zeroed 4096 8 !! x).
Proof.
  refine (base64_encode_exact (zeroed 4096 8) (GG_STR "hi") (mkArena 4096 8 2) _ _ _ _).
  - apply (bool_decide_unpack _). by vm_compute.
  - repeat split; by vm_compute.
  - apply zeroed_mapped.
  - by vm_compute.
Defined.
