(* ===== verification/JsonEncode.v ===== *)
(** The JSON encoder ([src/json_encode.c]): a visit of the object whose
    handlers write to a writer, and the reader of an object's JSON text.

    The encoder is proved against the interface [AppendWriter] of writers; the
    text it writes is given by the recursive function [json_text]. *)

From S2P Require Import Prelude Memory Buffer Io Object Map Visit Vector.

(** ** Definitions *)

(** [snprintf] of a conversion that yields [text], into an array of [size]
    characters: the array's contents and the value returned. *)
Definition snprintf (size : Z) (text : bytes) : bytes * Z :=
  (ztake (size - 1) text ++ [0], zlen text).

(** The decimal digits of [n], before [acc]; a digit per unit of fuel. *)
Fixpoint digits_before (fuel : nat) (n : Z) (acc : bytes) : bytes :=
  match fuel with
  | O => acc
  | S fuel =>
      let acc := 48 + n mod 10 :: acc in
      if n <? 10 then acc else digits_before fuel (n / 10) acc
  end.

(** The conversions [%PRId64] and [%02X]. *)
Definition format_i64 (val : Z) : bytes :=
  if val <? 0 then 45 :: digits_before 20 (- val) [] else digits_before 20 val [].
Definition hex_digit (v : Z) : Z := if v <? 10 then 48 + v else 55 + v.
Definition format_02X (val : Z) : bytes := [hex_digit (val / 16); hex_digit (val mod 16)].

Section encode.
Context {C : Type} (writer : GgWriter (vstate C)).
(** The conversion [%#.17g] of the C library, of the bits of a double. *)
Context (format_f64 : Z -> bytes).

Definition json_encode_on_null : step C := fun ctx => gg_writer_call writer ctx (GG_STR "null").

Definition json_encode_on_bool (val : bool) : step C := fun ctx =>
  gg_writer_call writer ctx (if val then GG_STR "true" else GG_STR "false").

Definition json_encode_on_i64 (val : Z) : step C := fun ctx =>
  let '(encoded, ret_len) := snprintf 19 (format_i64 val) in
  _ ← gg_asserts (ret_len <=? 19);
  gg_writer_call writer ctx (ztake ret_len encoded).

(** The array has [DBL_DECIMAL_DIG + 9] characters. *)
Definition json_encode_on_f64 (val : Z) : step C := fun ctx =>
  let '(encoded, ret_len) := snprintf 26 (format_f64 val) in
  _ ← gg_asserts (ret_len <=? 26);
  gg_writer_call writer ctx (ztake ret_len encoded).

(** 34 is the double quote and 92 the backslash. *)
Definition json_write_buf_byte (byte : Z) : step C := fun ctx =>
  if byte =? 34 then gg_writer_call writer ctx [92; 34]
  else if byte =? 92 then gg_writer_call writer ctx [92; 92]
  else if byte <=? 0x1F then
    let '(encoded_byte, ret_len) := snprintf 7 (92 :: GG_STR "u00" ++ format_02X byte) in
    _ ← gg_asserts (ret_len <=? 7);
    gg_writer_call writer ctx (ztake ret_len encoded_byte)
  else gg_writer_call writer ctx [byte].

(** The loop of [json_encode_on_buf], over the [n] bytes from [p] on. *)
Fixpoint write_buf_loop (n : nat) (p : Z) : step C := fun ctx =>
  match n with
  | O => Some (GG_ERR_OK, ctx)
  | S n =>
      byte ← ctx.1 !! p;
      ctx <~ json_write_buf_byte byte ctx ;;
      write_buf_loop n (p + 1) ctx
  end.

Definition json_encode_on_buf (val : BufPtr) (obj : Z) : step C := fun ctx =>
  ctx <~ gg_writer_call writer ctx [34] ;;
  ctx <~ write_buf_loop (Z.to_nat (len val)) (data val) ctx ;;
  ctx <~ gg_writer_call writer ctx [34] ;;
  Some (GG_ERR_OK, ctx).

Definition json_encode_on_list (val : GgList) (obj : Z) : step C := fun ctx =>
  gg_writer_call writer ctx (GG_STR "[").
Definition json_encode_cont_list : step C := fun ctx => gg_writer_call writer ctx (GG_STR ",").
Definition json_encode_end_list : step C := fun ctx => gg_writer_call writer ctx (GG_STR "]").

Definition json_encode_on_map (val : GgMap) (obj : Z) : step C := fun ctx =>
  gg_writer_call writer ctx (GG_STR "{").

Definition json_encode_on_map_key (key : BufPtr) (kv : Z) : step C := fun ctx =>
  ctx <~ json_encode_on_buf key NULL ctx ;;
  gg_writer_call writer ctx (GG_STR ":").

Definition json_encode_cont_map : step C := fun ctx => gg_writer_call writer ctx (GG_STR ",").
Definition json_encode_end_map : step C := fun ctx => gg_writer_call writer ctx (GG_STR "}").

Definition json_handlers : GgObjectVisitHandlers C :=
  mkHandlers (Some json_encode_on_null) (Some json_encode_on_bool) (Some json_encode_on_i64)
    (Some json_encode_on_f64) (Some json_encode_on_buf) (Some json_encode_on_list)
    (Some json_encode_cont_list) (Some json_encode_end_list) (Some json_encode_on_map)
    (Some json_encode_on_map_key) (Some json_encode_cont_map) (Some json_encode_end_map).

(** [obj] is the address of the parameter, which is passed by value. *)
Definition gg_json_encode (obj : Z) (ctx : vstate C) : option (GgError * vstate C) :=
  gg_obj_visit json_handlers obj ctx.
End encode.

(** [frame] is the address of the parameter of the call of [gg_json_encode]. *)
Definition obj_read (format_f64 : Z -> bytes) (frame : Z) (obj : Z) (m : mem) (buf : BufPtr)
    : option (GgError * Z * mem * BufPtr) :=
  if obj =? NULL then Some (GG_ERR_INVALID, obj, m, buf) else
  let vec := gg_byte_vec_init buf in
  o ← read_obj m obj;
  m ← store m frame o;
  '(ret, (m, vec)) ← gg_json_encode gg_byte_vec_writer format_f64 frame (m, vec);
  if negb (bool_decide (ret = GG_ERR_OK)) then Some (ret, obj, m, buf)
  else Some (GG_ERR_OK, obj, m, vbuf vec).

(** The reader and its context. *)
Definition gg_json_reader (format_f64 : Z -> bytes) (frame : Z) (obj : Z) : option (GgReader Z * Z) :=
  _ ← gg_asserts (negb (obj =? NULL));
  Some (Some (obj_read format_f64 frame), obj).

(** ** Specification: the text of a tree *)

Definition json_char (b : Z) : bytes :=
  if b =? 34 then [92; 34]
  else if b =? 92 then [92; 92]
  else if b <=? 31 then [92; 117; 48; 48; hex_digit (b / 16); hex_digit (b mod 16)]
  else [b].

Definition json_string (bs : bytes) : bytes := [34] ++ concat (json_char <$> bs) ++ [34].

Fixpoint join (sep : bytes) (xs : list bytes) : bytes :=
  match xs with
  | [] => []
  | [x] => x
  | x :: xs => x ++ sep ++ join sep xs
  end.

(** A conjunction over a list, as the recursive predicates on trees have it. *)
Lemma foldr_Forall {A} (P : A -> Prop) l : foldr (fun x Q => P x /\ Q) True l <-> Forall P l.
Proof.
  induction l as [|x l IH]; cbn [foldr]; [by split|]. rewrite IH. symmetry. apply Forall_cons.
Qed.

(** What an array of [n] characters and a terminator leaves of a text, when the
    terminator is read as well. *)
Definition cut (n : Z) (text : bytes) : bytes := if zlen text <=? n then text else ztake n text ++ [0].

Section text.
(** The texts of integers and doubles, and which of them are allowed. *)
Context (i64_text f64_text : Z -> bytes) (i64_ok f64_ok : Z -> Prop) (m : mem).

Definition buf_text (b : BufPtr) : bytes := json_string (default [] (buf_bytes m b)).

Fixpoint text_of (t : otree) : bytes :=
  match t with
  | TNull => GG_STR "null"
  | TBool b => if b then GG_STR "true" else GG_STR "false"
  | TI64 z => i64_text z
  | TF64 z => f64_text z
  | TBuf b => buf_text b
  | TList _ ts => GG_STR "[" ++ join (GG_STR ",") (text_of <$> ts) ++ GG_STR "]"
  | TMap _ kvs =>
      GG_STR "{" ++ join (GG_STR ",") ((fun kv => buf_text kv.1 ++ GG_STR ":" ++ text_of kv.2) <$> kvs) ++
      GG_STR "}"
  end.

(** The buffers and keys of the tree are readable and its numbers allowed. *)
Fixpoint readable (t : otree) : Prop :=
  match t with
  | TI64 z => i64_ok z
  | TF64 z => f64_ok z
  | TBuf b => is_Some (buf_bytes m b)
  | TList _ ts => foldr (fun t P => readable t /\ P) True ts
  | TMap _ kvs => foldr (fun kv P => (is_Some (buf_bytes m kv.1) /\ readable kv.2) /\ P) True kvs
  | _ => True
  end.

(** The same for one event. *)
Definition event_text (ev : vevent) : bytes :=
  match ev with
  | EvNull => GG_STR "null"
  | EvBool b => if b then GG_STR "true" else GG_STR "false"
  | EvI64 z => i64_text z
  | EvF64 z => f64_text z
  | EvBuf b _ => buf_text b
  | EvList _ _ => GG_STR "["
  | EvContList | EvContMap => GG_STR ","
  | EvEndList => GG_STR "]"
  | EvMap _ _ => GG_STR "{"
  | EvMapKey k _ => buf_text k ++ GG_STR ":"
  | EvEndMap => GG_STR "}"
  end.

Definition event_ok (ev : vevent) : Prop :=
  match ev with
  | EvI64 z => i64_ok z
  | EvF64 z => f64_ok z
  | EvBuf b _ | EvMapKey b _ => is_Some (buf_bytes m b)
  | _ => True
  end.

Definition events_text (evs : list vevent) : bytes := concat (event_text <$> evs).

Lemma events_text_app xs ys : events_text (xs ++ ys) = events_text xs ++ events_text ys.
Proof. unfold events_text. by rewrite fmap_app, concat_app. Qed.

Lemma events_text_cons x xs : events_text (x :: xs) = event_text x ++ events_text xs.
Proof. done. Qed.

Lemma join_cons sep x xs : join sep (x :: xs) = x ++ concat ((fun y => sep ++ y) <$> xs).
Proof.
  revert x. induction xs as [|y xs IH]; intros x; [symmetry; apply app_nil_r|].
  change (join sep (x :: y :: xs)) with (x ++ sep ++ join sep (y :: xs)).
  cbn [fmap list_fmap concat]. rewrite IH. by rewrite <- app_assoc.
Qed.

Lemma list_events_text p ts i :
  Forall (fun t => forall a, events_text (events t a) = text_of t) ts -> 0 < i ->
  events_text (list_events p ts i) = concat ((fun y => GG_STR "," ++ y) <$> (text_of <$> ts)).
Proof.
  intros IH. revert i. induction IH as [|t ts Ht _ IH]; intros i Hi; [done|].
  cbn [list_events fmap list_fmap concat]. rewrite (proj2 (Z.eqb_neq i 0)) by lia.
  rewrite !events_text_app, Ht, IH by lia. by rewrite app_assoc.
Qed.

Definition kv_text (kv : BufPtr * otree) : bytes := buf_text kv.1 ++ GG_STR ":" ++ text_of kv.2.

Lemma map_events_text p kvs i :
  Forall (fun kv => forall a, events_text (events kv.2 a) = text_of kv.2) kvs -> 0 < i ->
  events_text (map_events p kvs i) = concat ((fun y => GG_STR "," ++ y) <$> (kv_text <$> kvs)).
Proof.
  intros IH. revert i. induction IH as [|[k t] kvs Ht _ IH]; intros i Hi; [done|].
  cbn [map_events fmap list_fmap concat]. rewrite (proj2 (Z.eqb_neq i 0)) by lia.
  rewrite !events_text_app, Ht, IH by lia. unfold kv_text. cbn [fst snd].
  change (events_text [EvMapKey k (map_kv p i)]) with ((buf_text k ++ GG_STR ":") ++ []).
  rewrite app_nil_r. by rewrite <- !app_assoc.
Qed.

Lemma events_text_tree t a : events_text (events t a) = text_of t.
Proof.
  revert a. induction t as [| | | | |p ts IH|p kvs IH] using otree_ind'; intros a.
  1-5: apply app_nil_r.
  - rewrite events_list, events_text_cons, events_text_app. cbn [text_of event_text].
    change (events_text [EvEndList]) with (GG_STR "]" ++ []). rewrite app_nil_r. do 2 f_equal.
    destruct IH as [|t ts Ht IH]; [done|]. cbn [list_events fmap list_fmap Z.eqb app].
    rewrite join_cons, events_text_app, Ht. f_equal. by apply list_events_text.
  - rewrite events_map, events_text_cons, events_text_app. cbn [text_of event_text].
    change (events_text [EvEndMap]) with (GG_STR "}" ++ []). rewrite app_nil_r. do 2 f_equal.
    destruct IH as [|[k t] kvs Ht IH]; [done|]. cbn [map_events fmap list_fmap Z.eqb app].
    rewrite join_cons, events_text_cons, events_text_app, Ht. cbn [event_text fst snd].
    rewrite <- !app_assoc. do 3 f_equal. by apply map_events_text.
Qed.

(** The events of a readable tree are readable. *)
Lemma Forall_cont (P : vevent -> Prop) (b : bool) x : P x -> Forall P (if b then [] else [x]).
Proof. intros Hx. destruct b; by repeat constructor. Qed.

Lemma events_readable t a : readable t -> Forall event_ok (events t a).
Proof.
  revert a. induction t as [| | | | |p ts IH|p kvs IH] using otree_ind'; intros a Hp.
  1-5: by apply Forall_singleton.
  - rewrite events_list. constructor; [done|]. apply Forall_app. split; [|by repeat constructor].
    cbn [readable] in Hp. generalize 0. induction IH as [|t ts Ht _ IH]; intros i; [constructor|].
    cbn [foldr list_events] in *. rewrite !Forall_app. destruct Hp as [Hp Hps].
    split_and!; [by apply Forall_cont|by apply Ht|by apply IH].
  - rewrite events_map. constructor; [done|]. apply Forall_app. split; [|by repeat constructor].
    cbn [readable] in Hp. generalize 0. induction IH as [|[k t] kvs Ht _ IH]; intros i; [constructor|].
    cbn [foldr map_events fst snd] in *. rewrite !Forall_app.
    rewrite Forall_singleton. destruct Hp as [[Hk Hp] Hps].
    split_and!; [by apply Forall_cont|done|by apply Ht|by apply IH].
Qed.
End text.

(** Numbers that are allowed have the same texts. *)
Lemma text_of_ext (i1 i2 f1 f2 : Z -> bytes) (P Q : Z -> Prop) m t :
  (forall z, P z -> i1 z = i2 z) -> (forall z, Q z -> f1 z = f2 z) -> readable P Q m t ->
  text_of i1 f1 m t = text_of i2 f2 m t.
Proof.
  intros Hi Hf. induction t as [| | | | |p ts IH|p kvs IH] using otree_ind'; cbn [text_of readable]; intros Hr; try done.
  - by apply Hi.
  - by apply Hf.
  - do 3 f_equal. induction IH as [|t ts Ht _ IH]; [done|]. cbn [foldr fmap list_fmap] in *. destruct Hr as [H1 H2].
    f_equal; [by apply Ht|by apply IH].
  - do 3 f_equal. induction IH as [|kv kvs Ht _ IH]; [done|]. cbn [foldr fmap list_fmap] in *. destruct Hr as [[_ H1] H2].
    f_equal; [by rewrite Ht|by apply IH].
Qed.

Lemma readable_impl (P P' Q Q' : Z -> Prop) m t :
  (forall z, P z -> P' z) -> (forall z, Q z -> Q' z) -> readable P Q m t -> readable P' Q' m t.
Proof.
  intros HP HQ. induction t as [| | | | |p ts IH|p kvs IH] using otree_ind'; cbn [readable]; intros Hr; auto.
  - induction IH as [|t ts Ht _ IH]; [done|]. cbn [foldr] in *. destruct Hr as [H1 H2]. split; [by apply Ht|by apply IH].
  - induction IH as [|kv kvs Ht _ IH]; [done|]. cbn [foldr] in *. destruct Hr as [[H0 H1] H2].
    split; [split; [done|by apply Ht]|by apply IH].
Qed.

(** The JSON text of a tree, and when the arrays hold its numbers. *)
Abbreviation json_text := (text_of format_i64).
Abbreviation printable format_f64 :=
  (readable (fun z => zlen (format_i64 z) <= 18) (fun z => zlen (format_f64 z) <= 25)).

(** What the encoder writes for a tree: the same, but the numbers are what the
    arrays hold of them; and when the assertions on them hold. *)
Abbreviation written_text format_f64 :=
  (text_of (fun z => cut 18 (format_i64 z)) (fun z => cut 25 (format_f64 z))).
Abbreviation accepted format_f64 :=
  (readable (fun z => zlen (format_i64 z) <= 19) (fun z => zlen (format_f64 z) <= 26)).

Lemma cut_fit n text : zlen text <= n -> cut n text = text.
Proof. intros H. unfold cut. by rewrite (proj2 (Z.leb_le _ _)). Qed.

Lemma printable_written format_f64 m t : printable format_f64 m t ->
  accepted format_f64 m t /\ written_text format_f64 m t = json_text format_f64 m t.
Proof.
  intros Hp. split.
  - revert Hp. apply readable_impl; intros z Hz; cbv beta in *; lia.
  - revert Hp. apply text_of_ext; intros z Hz; by apply cut_fit.
Qed.

(** ** Numbers *)

Lemma digits_before_spec fuel n acc :
  0 <= n < 10 ^ Z.of_nat fuel -> (0 < fuel)%nat ->
  exists ds, digits_before fuel n acc = ds ++ acc /\ ds <> [] /\ Forall is_digit ds /\
    (forall acc, dec_from acc ds = acc * 10 ^ zlen ds + n) /\
    n < 10 ^ zlen ds /\ (n = 0 \/ 10 ^ (zlen ds - 1) <= n) /\ (n = 0 -> zlen ds = 1).
Proof.
  revert n acc. induction fuel as [|fuel IH]; intros n acc Hn Hf; [lia|]. cbn [digits_before].
  assert (is_digit (48 + n mod 10)) as Hd by (unfold is_digit; dlia).
  destruct (n <? 10) eqn:Hlt; zify_bool.
  - exists [48 + n mod 10]. rewrite Z.mod_small by lia. change (zlen [48 + n]) with 1.
    split; [done|]. split; [done|]. split; [repeat constructor; unfold is_digit; lia|].
    split_and!; try lia. intros a. simpl. lia.
  - destruct fuel as [|fuel]; [simpl in Hn; lia|].
    rewrite Nat2Z.inj_succ, Z.pow_succ_r in Hn by lia.
    destruct (IH (n / 10) (48 + n mod 10 :: acc)) as (ds & -> & Hne & Hds & Hv & Hlt' & Hge & H0); [dlia|lia|].
    exists (ds ++ [48 + n mod 10]). rewrite <- app_assoc. split; [done|].
    split; [by destruct ds|]. split; [apply Forall_app; split; [done|by apply Forall_singleton]|].
    rewrite zlen_app. change (zlen [48 + n mod 10]) with 1. rewrite Z.pow_add_r by zlen_lia.
    split_and!.
    + intros a. unfold dec_from in *. rewrite foldl_app, Hv. simpl. dlia.
    + dlia.
    + right. destruct Hge as [Hge|Hge]; [dlia|]. replace (zlen ds + 1 - 1) with (zlen ds - 1 + 1) by lia.
      assert (0 < zlen ds) by (destruct ds; [done|zlen_lia]). rewrite Z.pow_add_r by lia. dlia.
    + lia.
Qed.

Lemma digits_before_20 n :
  0 <= n < 10 ^ 20 ->
  let ds := digits_before 20 n [] in
  ds <> [] /\ Forall is_digit ds /\ dec_value ds = n /\
  n < 10 ^ zlen ds /\ (n = 0 \/ 10 ^ (zlen ds - 1) <= n) /\ (n = 0 -> zlen ds = 1).
Proof.
  intros Hn. destruct (digits_before_spec 20 n [] Hn) as (ds & He & Hne & Hds & Hv & H); [lia|].
  cbv zeta. rewrite He, app_nil_r. unfold dec_value. rewrite Hv. split_and!; try done; tauto.
Qed.

Lemma format_i64_denotes z : in_int64 z -> denotes (format_i64 z) z.
Proof.
  unfold in_int64, INT64_MIN, INT64_MAX. intros Hz. unfold format_i64.
  destruct (z <? 0) eqn:Hs; zify_bool.
  - destruct (digits_before_20 (- z)) as (Hne & Hds & Hv & _); [lia|]. exists (digits_before 20 (- z) []).
    split; [done|]. split; [done|]. right. rewrite Hv. split; [done|]. lia.
  - destruct (digits_before_20 z) as (Hne & Hds & Hv & _); [lia|]. exists (digits_before 20 z []). auto.
Qed.

(** The length of the digits of [n] is determined by the powers of ten around. *)
Lemma digits_before_len n k :
  0 < k -> 10 ^ (k - 1) <= n < 10 ^ k -> k <= 20 -> zlen (digits_before 20 n []) = k.
Proof.
  intros Hk Hn Hk20. pose proof (Z.pow_pos_nonneg 10 (k - 1) ltac:(lia) ltac:(lia)).
  pose proof (Z.pow_le_mono_r 10 k 20 ltac:(lia) Hk20).
  destruct (digits_before_20 n) as (_ & _ & _ & Hlt & [Hge|Hge] & _); [lia|lia|].
  set (l := zlen _) in *. assert (0 <= l) by apply zlen_nonneg.
  assert (l - 1 < k) by (apply (Z.pow_lt_mono_r_iff 10); lia).
  assert (k - 1 < l) by (apply (Z.pow_lt_mono_r_iff 10); lia). lia.
Qed.

Lemma digits_before_len_le n k :
  0 < k <= 20 -> 0 <= n < 10 ^ k -> zlen (digits_before 20 n []) <= k.
Proof.
  intros Hk Hn. pose proof (Z.pow_le_mono_r 10 k 20 ltac:(lia) ltac:(lia)).
  destruct (digits_before_20 n) as (_ & _ & _ & Hlt & [H0|Hge] & H1); [lia|specialize (H1 H0); lia|].
  set (l := zlen _) in *.
  assert (l - 1 < k) by (apply (Z.pow_lt_mono_r_iff 10); lia). lia.
Qed.

Lemma format_i64_len z :
  -9223372036854775808 <= z <= 9223372036854775807 ->
  (- 10 ^ 17 < z < 10 ^ 18 -> zlen (format_i64 z) <= 18) /\
  (- 10 ^ 18 < z <= - 10 ^ 17 \/ 10 ^ 18 <= z -> zlen (format_i64 z) = 19) /\
  (z <= - 10 ^ 18 -> zlen (format_i64 z) = 20).
Proof.
  intros Hz. unfold format_i64. destruct (z <? 0) eqn:Hs; zify_bool; rewrite ?zlen_cons; split_and!; intros H.
  - pose proof (digits_before_len_le (- z) 17 ltac:(lia) ltac:(lia)). lia.
  - rewrite (digits_before_len (- z) 18); lia.
  - rewrite (digits_before_len (- z) 19); lia.
  - apply digits_before_len_le; lia.
  - apply digits_before_len; lia.
  - lia.
Qed.

(** What is written of the array. *)
Lemma snprintf_cut n text :
  0 <= n -> zlen text <= n + 1 -> ztake (snprintf (n + 1) text).2 (snprintf (n + 1) text).1 = cut n text.
Proof.
  intros Hn Hl. unfold snprintf, cut. cbn [fst snd]. replace (n + 1 - 1) with n by lia. case_if.
  - rewrite (ztake_all n) by lia. by apply ztake_app_exact.
  - rewrite ztake_all; [done|]. rewrite zlen_app, zlen_take. change (zlen [0]) with 1. lia.
Qed.

(** ** What the handlers write *)

Section printing.
Context {C : Type} (writer : GgWriter (vstate C)) `{!AppendWriter writer}.
Context (format_f64 : Z -> bytes) (m0 : mem) (s0 : vstate C).
(** The writer leaves the memory that holds the object alone. *)
Hypothesis frame : forall s out room, aw_rel s0 s out room -> m0 ⊆ s.1.

Lemma write_byte_prints b :
  prints writer s0 (json_write_buf_byte writer b) (json_char b).
Proof.
  unfold json_write_buf_byte, json_char.
  destruct (b =? 34); [apply prints_call|]. destruct (b =? 92); [apply prints_call|].
  destruct (b <=? 0x1F); [|apply prints_call].
  exact (prints_call writer s0 [92; 117; 48; 48; hex_digit (b / 16); hex_digit (b mod 16)]).
Qed.

Lemma write_buf_loop_prints bs p :
  loadz m0 p (zlen bs) = Some bs ->
  prints writer s0 (write_buf_loop writer (length bs) p) (concat (json_char <$> bs)).
Proof.
  unfold loadz. rewrite to_nat_zlen. revert p. induction bs as [|b bs IH]; intros p Hl; [apply prints_ret|].
  cbn [length] in Hl. rewrite load_S in Hl. destruct (m0 !! p) as [b'|] eqn:Hb; [|done].
  cbn [mbind option_bind] in Hl. destruct (load m0 (p + 1) (length bs)) as [bs'|] eqn:Hl'; [|done].
  cbn [mbind option_bind] in Hl. injection Hl as -> ->.
  cbn [length write_buf_loop fmap list_fmap concat].
  eapply prints_ext_rel; [|apply prints_seq; [apply write_byte_prints|by apply IH]].
  intros s out room Hr. by rewrite (lookup_weaken _ _ _ _ Hb (frame _ _ _ Hr)).
Qed.

Lemma on_buf_prints b obj bs :
  buf_bytes m0 b = Some bs -> prints writer s0 (json_encode_on_buf writer b obj) (json_string bs).
Proof.
  unfold buf_bytes. intros Hb. unfold json_encode_on_buf, json_string.
  apply prints_seq; [apply prints_call|]. apply prints_seq.
  - pose proof (loadz_zlen _ _ _ _ Hb) as Hz.
    replace (Z.to_nat (len b)) with (length bs) by (unfold zlen in Hz; lia).
    apply write_buf_loop_prints. unfold loadz in *. by replace (Z.to_nat (zlen bs)) with (Z.to_nat (len b)) by lia.
  - exact (prints_seq writer s0 _ _ [34] [] (prints_call writer s0 [34]) (prints_ret writer s0)).
Qed.

Lemma number_prints n text :
  0 <= n -> zlen text <= n + 1 ->
  prints writer s0 (fun ctx =>
    let '(encoded, ret_len) := snprintf (n + 1) text in
    _ ← gg_asserts (ret_len <=? n + 1);
    gg_writer_call writer ctx (ztake ret_len encoded)) (cut n text).
Proof.
  intros Hn Hl. pose proof (snprintf_cut _ _ Hn Hl) as Hs. destruct (snprintf (n + 1) text) as [e r] eqn:He.
  assert (r = zlen text) as -> by by injection He. simpl in Hs. rewrite Hs.
  rewrite (proj2 (Z.leb_le _ _)) by lia. apply prints_call.
Qed.

(** What is written for an event, and when its assertions hold. *)
Abbreviation ev_text := (event_text (fun z => cut 18 (format_i64 z)) (fun z => cut 25 (format_f64 z)) m0).
Abbreviation ev_ok := (event_ok (fun z => zlen (format_i64 z) <= 19) (fun z => zlen (format_f64 z) <= 26) m0).
Abbreviation evs_text := (events_text (fun z => cut 18 (format_i64 z)) (fun z => cut 25 (format_f64 z)) m0).

Lemma call_prints ev :
  ev_ok ev ->
  prints writer s0 (call (json_handlers writer format_f64) ev) (ev_text ev).
Proof.
  destruct ev; cbn [event_ok event_text call json_handlers on_null on_bool on_i64 on_f64 on_buf
    on_list cont_list end_list on_map on_map_key cont_map end_map TRY_HANDLER]; intros Hp;
    try apply prints_call.
  - apply (number_prints 18); [done|exact Hp].
  - apply (number_prints 25); [done|exact Hp].
  - destruct Hp as [bs Hb]. unfold buf_text. rewrite Hb. by apply on_buf_prints.
  - destruct Hp as [bs Hb]. unfold buf_text. rewrite Hb.
    apply prints_seq; [by apply on_buf_prints|apply prints_call].
Qed.

Lemma run_prints evs :
  Forall ev_ok evs ->
  prints writer s0 (run (json_handlers writer format_f64) evs) (evs_text evs).
Proof.
  induction 1 as [|ev evs Hev _ IH]; [apply prints_ret|].
  rewrite events_text_cons. cbn [run]. apply prints_seq; [by apply call_prints|done].
Qed.

(** ** The states reached

    Whatever the handlers are called on, they only write. *)
Definition reached (s : vstate C) : Prop := exists out room, aw_rel s0 s out room.
Definition keeps (f : step C) : Prop := forall s e s', reached s -> f s = Some (e, s') -> reached s'.

Lemma enc_keeps_ret e : keeps (fun s => Some (e, s)).
Proof. by intros s e' s' ? [= _ <-]. Qed.

Lemma keeps_write bs : keeps (fun s => gg_writer_call writer s bs).
Proof.
  intros s e s' (out & room & Hr) He. destruct (Z_le_dec (zlen bs) room) as [Hl|Hl].
  - destruct (aw_fit _ _ _ _ _ Hr Hl) as (s1 & Hc & Hr1). rewrite Hc in He. injection He as _ <-.
    by eexists _, _.
  - rewrite (aw_full _ _ _ _ _ Hr) in He by lia. injection He as _ <-. by eexists _, _.
Qed.

Lemma keeps_seq f g : keeps f -> keeps g -> keeps (fun s => s <~ f s ;; g s).
Proof.
  intros Hf Hg s e s' Hs. unfold and_then. destruct (f s) as [[e1 s1]|] eqn:E; [|done].
  cbn [mbind option_bind]. case_bool_decide.
  - apply Hg. by eapply Hf.
  - intros [= _ <-]. by eapply Hf.
Qed.

Lemma enc_keeps_bind {A} (o : vstate C -> option A) (f : A -> step C) :
  (forall x, keeps (f x)) -> keeps (fun s => x ← o s; f x s).
Proof. intros Hf s e s' Hs. destruct (o s) as [x|]; [|done]. by apply Hf. Qed.

Lemma write_byte_keeps b : keeps (json_write_buf_byte writer b).
Proof.
  unfold json_write_buf_byte.
  destruct (b =? 34); [apply keeps_write|]. destruct (b =? 92); [apply keeps_write|].
  destruct (b <=? 0x1F); [|apply keeps_write]. destruct (snprintf 7 _) as [t r].
  apply (enc_keeps_bind (fun _ => _) (fun _ ctx => _)). intros _. apply keeps_write.
Qed.

Lemma on_buf_keeps b obj : keeps (json_encode_on_buf writer b obj).
Proof.
  unfold json_encode_on_buf. apply keeps_seq; [apply keeps_write|]. apply keeps_seq.
  - generalize (data b). induction (Z.to_nat (len b)) as [|n IH]; intros p; [apply enc_keeps_ret|].
    cbn [write_buf_loop]. apply (enc_keeps_bind (fun s => s.1 !! p)). intros x.
    apply keeps_seq; [apply write_byte_keeps|apply IH].
  - apply keeps_seq; [apply keeps_write|apply enc_keeps_ret].
Qed.

Lemma call_keeps ev : keeps (call (json_handlers writer format_f64) ev).
Proof.
  destruct ev; cbn [call json_handlers on_null on_bool on_i64 on_f64 on_buf
    on_list cont_list end_list on_map on_map_key cont_map end_map TRY_HANDLER]; try apply keeps_write.
  - unfold json_encode_on_i64. destruct (snprintf 19 _) as [t r].
    apply (enc_keeps_bind (fun _ => _) (fun _ ctx => _)). intros _. apply keeps_write.
  - unfold json_encode_on_f64. destruct (snprintf 26 _) as [t r].
    apply (enc_keeps_bind (fun _ => _) (fun _ ctx => _)). intros _. apply keeps_write.
  - apply on_buf_keeps.
  - apply keeps_seq; [apply on_buf_keeps|apply keeps_write].
Qed.

(** The encoder writes the text of a tree, or a prefix of it. *)
Lemma gg_json_encode_writes t a :
  obj_at m0 t a -> accepted format_f64 m0 t ->
  (within_limits t = true ->
    prints writer s0 (gg_json_encode writer format_f64 a) (written_text format_f64 m0 t)) /\
  (within_limits t = false ->
    forall s out room, aw_rel s0 s out room ->
      exists e s' out' room', gg_json_encode writer format_f64 a s = Some (e, s') /\
        aw_rel s0 s' (out ++ out') room' /\ out' `prefix_of` written_text format_f64 m0 t /\
        (e = GG_ERR_RANGE \/ (e = GG_ERR_NOMEM /\ room < zlen (written_text format_f64 m0 t)))).
Proof.
  intros Hat Hp. pose proof (events_readable _ _ m0 t a Hp) as Hev.
  destruct (visit_events_framed C m0 t a Hat) as (evs & Hpre & Hall & Hev0).
  pose proof (fun st e st' => Hev0 (json_handlers writer format_f64) reached st e st'
    ltac:(by intros ? (? & ? & ?%frame)) (fun ev => call_keeps ev)) as Hv. clear Hev0.
  assert (Forall ev_ok evs) as Hev'.
  { destruct Hpre as [k Hk]. rewrite Hk in Hev. by apply Forall_app in Hev as [? _]. }
  pose proof (run_prints evs Hev') as Hrun. rewrite <- (events_text_tree _ _ m0 t a).
  split; intros Hw; rewrite Hw in Hv.
  - rewrite <- (Hall Hw). intros s out room Hr. destruct (Hrun s out room Hr) as [Hfit Hfull].
    unfold outcome_of in Hv. split; intros Hl.
    + destruct (Hfit Hl) as (s' & He & Hr'). exists s'. split; [|done].
      apply Hv; [by eexists _, _|]. rewrite He. done.
    + destruct (Hfull Hl) as (s' & out' & room' & He & Hr' & Hp'). exists s', out', room'. split; [|done].
      apply Hv; [by eexists _, _|]. rewrite He. done.
  - intros s out room Hr. destruct (Hrun s out room Hr) as [Hfit Hfull].
    assert (evs_text evs `prefix_of` evs_text (events t a)) as Hpt.
    { destruct Hpre as [k Hk]. rewrite Hk, events_text_app. by apply prefix_app_r. }
    unfold outcome_of in Hv. destruct (Z_le_dec (zlen (evs_text evs)) room) as [Hl|Hl].
    + destruct (Hfit Hl) as (s' & He & Hr'). exists GG_ERR_RANGE, s'. eexists _, _.
      split; [|split; [exact Hr'|split; [done|by left]]].
      apply Hv; [by eexists _, _|]. rewrite He. done.
    + destruct Hfull as (s' & out' & room' & He & Hr' & Hp'); [lia|].
      exists GG_ERR_NOMEM, s', out', room'. split_and!; [|done|by trans (evs_text evs)|].
      * apply Hv; [by eexists _, _|]. rewrite He. done.
      * right. split; [done|]. apply prefix_length in Hpt. unfold zlen in *. lia.
Qed.
(** The same for a tree whose numbers the arrays hold. *)
Lemma gg_json_encode_prints t a :
  obj_at m0 t a -> printable format_f64 m0 t ->
  (within_limits t = true ->
    prints writer s0 (gg_json_encode writer format_f64 a) (json_text format_f64 m0 t)) /\
  (within_limits t = false ->
    forall s out room, aw_rel s0 s out room ->
      exists e s' out' room', gg_json_encode writer format_f64 a s = Some (e, s') /\
        aw_rel s0 s' (out ++ out') room' /\ out' `prefix_of` json_text format_f64 m0 t /\
        (e = GG_ERR_RANGE \/ (e = GG_ERR_NOMEM /\ room < zlen (json_text format_f64 m0 t)))).
Proof. intros Hat [Ha <-]%printable_written. by apply gg_json_encode_writes. Qed.
End printing.

(** ** Trees in a larger memory *)

Lemma obj_at_mono m m' t a : m ⊆ m' -> obj_at m t a -> obj_at m' t a.
Proof.
  intros Hm. revert a. induction t as [| | | | |p ts IH|p kvs IH] using otree_ind'; intros a.
  1-5: intros [H _]; split; [|done]; destruct (read_obj m a) as [o|] eqn:Hr; [|done];
    unfold read_obj in *; by rewrite (loadz_mono _ _ _ _ _ Hm Hr).
  - rewrite !obj_at_list. intros [H Hi]. split.
    { destruct (read_obj m a) as [o|] eqn:Hr; [|done]. unfold read_obj in *.
      by rewrite (loadz_mono _ _ _ _ _ Hm Hr). }
    clear H. revert Hi. generalize 0. induction IH as [|t ts Ht _ IH]; intros i; [done|].
    cbn [items_at]. intros [H1 H2]. split; [by apply Ht|by apply IH].
  - rewrite !obj_at_map. intros [H Hi]. split.
    { destruct (read_obj m a) as [o|] eqn:Hr; [|done]. unfold read_obj in *.
      by rewrite (loadz_mono _ _ _ _ _ Hm Hr). }
    clear H. revert Hi. generalize 0. induction IH as [|[k t] kvs Ht _ IH]; intros i; [done|].
    cbn [pairs_at]. intros (Hk & H1 & H2). split; [|split; [by apply Ht|by apply IH]].
    destruct (read_kv m (map_kv p i)) as [kv|] eqn:Hr; [|done]. unfold read_kv in *.
    by rewrite (loadz_mono _ _ _ _ _ Hm Hr).
Qed.

Lemma obj_at_copy m m' t a b :
  m ⊆ m' -> obj_at m t a -> (forall o, read_obj m a = Some o -> read_obj m' b = Some o) -> obj_at m' t b.
Proof.
  intros Hm Hat Hc. apply (obj_at_mono _ _ _ _ Hm) in Hat as Hat'.
  assert (read_obj m' b = read_obj m' a) as He.
  { assert (is_Some (read_obj m a)) as [o Ho].
    { destruct t; simpl in Hat; destruct Hat as [H _]; destruct (read_obj m a); by try discriminate H. }
    rewrite (Hc o Ho). unfold read_obj in *. by rewrite (loadz_mono _ _ _ _ _ Hm Ho). }
  destruct t; simpl in *; by rewrite He.
Qed.

Lemma buf_bytes_mono m m' b bs : m ⊆ m' -> buf_bytes m b = Some bs -> buf_bytes m' b = Some bs.
Proof. apply loadz_mono. Qed.

Lemma json_text_mono format_f64 m m' t :
  m ⊆ m' -> printable format_f64 m t ->
  printable format_f64 m' t /\ json_text format_f64 m' t = json_text format_f64 m t.
Proof.
  intros Hm. assert (forall b, is_Some (buf_bytes m b) ->
    is_Some (buf_bytes m' b) /\ buf_text m' b = buf_text m b) as Hb.
  { intros b [bs H]. pose proof (buf_bytes_mono _ _ _ _ Hm H) as H'. unfold buf_text.
    rewrite H, H'. split; [by eexists|done]. }
  induction t as [| | | | |p ts IH|p kvs IH] using otree_ind'; intros Hp; try done.
  - by apply Hb.
  - cbn [readable text_of] in *.
    assert (foldr (fun t P => printable format_f64 m' t /\ P) True ts /\
      json_text format_f64 m' <$> ts = json_text format_f64 m <$> ts) as [? ->]; [|done].
    induction IH as [|t ts Ht _ IH]; [done|]. cbn [foldr fmap list_fmap] in *. destruct Hp as [Hp1 Hp].
    destruct (Ht Hp1) as [? ->]. destruct (IH Hp) as [? IH2]. split; [done|]. by rewrite IH2.
  - cbn [readable text_of] in *.
    set (f m := fun kv : BufPtr * otree => buf_text m kv.1 ++ GG_STR ":" ++ json_text format_f64 m kv.2).
    fold (f m) (f m').
    assert (foldr (fun kv P => (is_Some (buf_bytes m' kv.1) /\ printable format_f64 m' kv.2) /\ P) True kvs /\
      f m' <$> kvs = f m <$> kvs) as [? ->]; [|done].
    induction IH as [|[k t] kvs Ht _ IH]; [done|]. cbn [foldr fmap list_fmap fst snd] in *.
    destruct Hp as [[Hk Hp1] Hp]. destruct (Ht Hp1) as [? Ht2]. destruct (Hb _ Hk) as [? Hk2].
    destruct (IH Hp) as [? IH2]. split; [done|]. rewrite IH2. unfold f at 1 3. cbn [fst snd].
    by rewrite Ht2, Hk2.
Qed.

(** The memory the writer of a byte vector leaves alone. *)
Lemma vec_rel_out m v s out room :
  vec_rel (m, v) s out room -> forall x,
  ~ (data (vbuf v) + len (vbuf v) <= x < data (vbuf v) + vcapacity v) -> s.1 !! x = m !! x.
Proof.
  destruct s as [m' v']. intros (_ & _ & _ & Hs & -> & Hr & _) x Hx. cbn [fst].
  apply (store_out _ _ _ _ _ Hs). lia.
Qed.

Lemma vec_frame m0 m v :
  m0 ⊆ m ->
  (forall x, data (vbuf v) + len (vbuf v) <= x < data (vbuf v) + vcapacity v -> m0 !! x = None) ->
  forall s out room, vec_rel (m, v) s out room -> m0 ⊆ s.1.
Proof.
  intros Hm Hd s out room Hr. apply map_subseteq_spec. intros x y Hx.
  rewrite (vec_rel_out _ _ _ _ _ Hr); [by eapply lookup_weaken|].
  intros Hin. by rewrite Hd in Hx.
Qed.

Lemma obj_read_result format_f64 frame obj m buf o m1 ret st :
  obj <> NULL -> read_obj m obj = Some o -> store m frame o = Some m1 ->
  gg_json_encode gg_byte_vec_writer format_f64 frame (m1, gg_byte_vec_init buf) = Some (ret, st) ->
  obj_read format_f64 frame obj m buf =
    Some (ret, obj, st.1, if bool_decide (ret = GG_ERR_OK) then vbuf st.2 else buf).
Proof.
  unfold obj_read. generalize (gg_json_encode gg_byte_vec_writer format_f64 frame).
  intros encode Hobj Ho Hs He. rewrite (proj2 (Z.eqb_neq _ _)) by done.
  rewrite Ho. cbn [mbind option_bind]. rewrite Hs. cbn [mbind option_bind]. rewrite He.
  destruct st as [m2 v2]. cbn [mbind option_bind fst snd].
  destruct (bool_decide_reflect (ret = GG_ERR_OK)) as [->|]; done.
Qed.

(** What the writer of a byte vector changes. *)
Lemma vec_rel_changes m v s out room :
  vec_rel (m, v) s out room ->
  changes (zrange (data (vbuf v) + len (vbuf v)) (data (vbuf v) + vcapacity v)) m s.1.
Proof.
  destruct s as [m' v']. intros (_ & _ & _ & Hs & -> & Hr & _). cbn [fst].
  eapply changes_sub; [by apply store_changes|]. unfold zrange. intros x Hx. lia.
Qed.

(** The reader of an object provides its JSON text: it only writes to the buffer
    and to the stack frame of the encoder. *)
Lemma json_reader_yields format_f64 frame obj (area : BufPtr) m0 t :
  obj_at m0 t obj -> printable format_f64 m0 t -> within_limits t = true -> obj <> NULL ->
  (forall x, zrange frame (frame + sizeof_GgObject) x -> m0 !! x = None) ->
  (forall x, zrange (data area) (data area + len area) x -> m0 !! x = None) ->
  disj frame sizeof_GgObject (data area) (len area) ->
  yields area (zrange frame (frame + sizeof_GgObject))
    (fun m => m0 ⊆ m /\ mapped m frame sizeof_GgObject)
    (Some (obj_read format_f64 frame)) obj (json_text format_f64 m0 t) obj GG_ERR_NOMEM.
Proof.
  intros Hat Hp Hw Hobj Hf0 Ha0 Hd. unfold disj in Hd. set (text := json_text format_f64 m0 t).
  split; [done|unfold zrange; intros x; lia| |].
  { intros m m' [Hm Hfm] Hc. split; [|by eapply changes_mapped]. apply map_subseteq_spec. intros x y Hx.
    rewrite (proj1 Hc); [by eapply lookup_weaken|]. intros Hin. by rewrite Ha0 in Hx. }
  intros m buf [Hm Hfm] Hlen Hbm Hlo Hhi. unfold gg_reader_call.
  destruct (read_obj m0 obj) as [o|] eqn:Ho.
  2:{ destruct t; simpl in Hat; rewrite Ho in Hat; by destruct Hat. }
  pose proof (loadz_zlen _ _ _ _ Ho) as Hoz.
  assert (zlen o = sizeof_GgObject) as Hzo by (unfold sizeof_GgObject in *; lia).
  destruct (store_Some m frame o) as [m1 Hs1]; [by rewrite Hzo|].
  set (m0' := put m0 frame o).
  assert (m0 ⊆ m0') as H00.
  { apply map_subseteq_spec. intros x y Hx. unfold m0'. rewrite put_lookup. unfold over.
    rewrite decide_False; [done|]. intros Hin. rewrite Hf0 in Hx; [done|unfold zrange; lia]. }
  assert (m0' ⊆ m1) as H01.
  { apply map_subseteq_spec. intros x y. unfold m0'. apply store_spec in Hs1 as [_ Hx].
    rewrite put_lookup, Hx. unfold over. case_decide; [done|]. intros. by eapply lookup_weaken. }
  assert (obj_at m0' t frame) as Hat'.
  { eapply obj_at_copy; [done|done|]. intros o' Ho'. rewrite Ho in Ho'. injection Ho' as <-.
    unfold read_obj. rewrite <- Hzo. apply loadz_put. }
  destruct (json_text_mono format_f64 m0 m0' t H00 Hp) as [Hp' Ht].
  set (vec := gg_byte_vec_init buf).
  assert (forall s out room, aw_rel (w := gg_byte_vec_writer) (m1, vec) s out room -> m0' ⊆ s.1) as Hframe.
  { apply vec_frame; [done|]. cbn. intros x Hx. unfold m0'. rewrite put_lookup. unfold over.
    rewrite decide_False by lia. apply Ha0. unfold zrange. lia. }
  assert (vec_rel (m1, vec) (m1, vec) [] (len buf)) as Hinit.
  { replace (len buf) with (vcapacity vec - len (vbuf vec)) by (cbn; lia).
    apply vec_rel_init; cbn; [lia|lia|]. rewrite Z.add_0_r, Z.sub_0_r. by apply (store_mapped _ _ _ _ _ _ Hs1). }
  destruct (gg_json_encode_prints gg_byte_vec_writer format_f64 m0' (m1, vec) Hframe t frame Hat' Hp')
    as [Hok _].
  destruct (Hok Hw _ _ _ Hinit) as [Hfit Hfull]. rewrite Ht in Hfit, Hfull. fold text in Hfit, Hfull.
  pose proof (fun ret st => obj_read_result format_f64 frame obj m buf o m1 ret st Hobj
    (loadz_mono _ _ _ _ _ Hm Ho) Hs1) as Hres.
  assert (changes (zrange frame (frame + sizeof_GgObject)) m m1) as Hc1.
  { eapply changes_sub; [by apply store_changes|]. by rewrite Hzo. }
  case_if.
  - destruct (Hfit E) as ([m2 v2] & He & (_ & _ & _ & Hs & _ & _ & ->)). exists m2.
    rewrite (Hres _ _ He), bool_decide_true by done. cbn [fst snd].
    cbn [vec gg_byte_vec_init vbuf data len] in *. rewrite Z.add_0_r in Hs. rewrite Z.add_0_l.
    split_and!; [reflexivity| |by eapply loadz_store_same].
    apply (changes_trans _ _ m1); [eapply changes_sub; [exact Hc1|by left]|].
    eapply changes_sub; [by apply store_changes|by right].
  - destruct Hfull as ([m2 v2] & out' & room' & He & Hr & _); [lia|].
    exists obj, m2, buf. rewrite (Hres _ _ He), bool_decide_false by done. split; [done|].
    apply (changes_trans _ _ m1); [eapply changes_sub; [exact Hc1|by left]|].
    apply vec_rel_changes in Hr. cbn [vec gg_byte_vec_init vbuf data len vcapacity fst] in Hr.
    eapply changes_sub; [exact Hr|]. rewrite Z.add_0_r. by right.
Qed.

(** * Properties *)

(** C16: the encoder writes exactly the text of the object when there is room for
    it, through any writer that appends and leaves the object alone; without
    the room it writes a prefix of the text and reports [GG_ERR_NOMEM]; of an
    object beyond the limits on depth or subobjects it writes a prefix and reports
    [GG_ERR_RANGE], or [GG_ERR_NOMEM] if there is no room for the whole text. The
    strings must be readable and the numbers pass the encoder's assertions:
    integers of at most 19 characters and doubles of at most 26. The text is the
    JSON text of the object when the integers have at most 18 characters and the
    doubles at most 25; a longer number is written with a NUL byte for its last
    character. *)
Theorem json_encode_exact {C : Type} (writer : GgWriter (vstate C)) `{!AppendWriter writer}
    (format_f64 : Z -> bytes) (m0 : mem) (t : otree) (obj : Z) (s0 s : vstate C) (out : bytes) (room : Z) :
  obj_at m0 t obj -> accepted format_f64 m0 t ->
  (forall s out room, aw_rel s0 s out room -> m0 ⊆ s.1) ->
  aw_rel s0 s out room ->
  let text := written_text format_f64 m0 t in
  (printable format_f64 m0 t -> text = json_text format_f64 m0 t) /\
  if within_limits t then
    (zlen text <= room ->
      exists s', gg_json_encode writer format_f64 obj s = Some (GG_ERR_OK, s') /\
        aw_rel s0 s' (out ++ text) (room - zlen text)) /\
    (room < zlen text ->
      exists s' out' room', gg_json_encode writer format_f64 obj s = Some (GG_ERR_NOMEM, s') /\
        aw_rel s0 s' (out ++ out') room' /\ out' `prefix_of` text)
  else
    exists e s' out' room', gg_json_encode writer format_f64 obj s = Some (e, s') /\
      aw_rel s0 s' (out ++ out') room' /\ out' `prefix_of` text /\
      (e = GG_ERR_RANGE \/ (e = GG_ERR_NOMEM /\ room < zlen text)).
Proof.
  intros Hat Hp Hf Hr text. split; [by intros [_ ?]%printable_written|].
  destruct (gg_json_encode_writes writer format_f64 m0 s0 Hf t obj Hat Hp) as [Hok Hbad].
  destruct (within_limits t); [by apply Hok|by apply Hbad].
Qed.

(** The list [[true, false]] at 50, and a byte vector of 20 bytes at 200. *)
Definition json_mem : mem := example_tree_mem ∪ zeroed 200 20.
Definition json_vec : GgByteVec := mkByteVec (mkBuf 200 0) 20.

Lemma json_encode_exact_witness :
  exists s', gg_json_encode gg_byte_vec_writer (fun _ => []) 50 (json_mem, json_vec) = Some (GG_ERR_OK, s') /\
    aw_rel (json_mem, json_vec) s' ([] ++ GG_STR "[true,false]") 8.
Proof.
  destruct (json_encode_exact gg_byte_vec_writer (fun _ => []) example_tree_mem example_tree 50
    (json_mem, json_vec) (json_mem, json_vec) [] 20) as [_ [H _]].
  - apply example_tree_at.
  - done.
  - apply vec_frame; [apply (bool_decide_unpack _); by vm_compute|]. intros x Hx.
    unfold example_tree_mem. rewrite !put_lookup. unfold over. cbn in Hx.
    rewrite decide_False by (vm_compute zlen; lia). rewrite put_lookup. unfold over.
    by rewrite decide_False by (vm_compute zlen; lia).
  - apply (vec_rel_init json_mem json_vec); [done|done|].
    intros x Hx. unfold json_mem. rewrite lookup_union_r; [by apply zeroed_mapped|].
    unfold example_tree_mem. rewrite !put_lookup. unfold over. cbn in Hx.
    rewrite decide_False by (vm_compute zlen; lia). rewrite put_lookup. unfold over.
    by rewrite decide_False by (vm_compute zlen; lia).
  - apply H. by vm_compute.
Defined.

(** C17: formatting of integers: those of up to 18 characters are written in
    full, and the text parses back to the value; of those of 19 characters the
    last one is replaced by a NUL byte, because the array of 19 characters
    also has to hold the terminator; those of 20 fail the assertion. *)
Theorem json_encode_i64_exact {C : Type} (writer : GgWriter (vstate C)) (val : Z) (ctx : vstate C) :
  in_int64 val ->
  gg_str_to_int64 (format_i64 val) = Ok val /\
  json_encode_on_i64 writer val ctx =
    if bool_decide (- 10 ^ 17 < val < 10 ^ 18) then gg_writer_call writer ctx (format_i64 val)
    else if bool_decide (- 10 ^ 18 < val) then
      gg_writer_call writer ctx (ztake 18 (format_i64 val) ++ [0])
    else None.
Proof.
  intros Hz. split.
  { rewrite (gg_str_to_int64_denotes _ val) by by apply format_i64_denotes. by rewrite bool_decide_true. }
  unfold in_int64, INT64_MIN, INT64_MAX in Hz. unfold json_encode_on_i64.
  change (snprintf 19 (format_i64 val)) with (ztake 18 (format_i64 val) ++ [0], zlen (format_i64 val)).
  cbv beta iota.
  destruct (format_i64_len val Hz) as (H18 & H19 & H20).
  repeat case_bool_decide.
  - rewrite (proj2 (Z.leb_le _ _)) by lia. cbn [gg_asserts mbind option_bind].
    by rewrite (ztake_all 18), ztake_app_exact by lia.
  - rewrite H19 by lia. cbn [Z.leb Z.compare Pos.compare gg_asserts mbind option_bind].
    rewrite ztake_all; [done|]. zlen_lia.
  - by rewrite H20 by lia.
Qed.

Lemma json_encode_i64_exact_witness :
  json_encode_on_i64 gg_byte_vec_writer (- 123456789012345678) (json_mem, json_vec) =
    gg_writer_call gg_byte_vec_writer (json_mem, json_vec) (GG_STR "-12345678901234567" ++ [0]).
Proof.
  destruct (json_encode_i64_exact gg_byte_vec_writer (- 123456789012345678) (json_mem, json_vec))
    as [_ ->]; [unfold in_int64, INT64_MIN, INT64_MAX; lia|]. done.
Defined.
