(* ===== verification/JsonParse.v ===== *)
(** The JSON parser ([src/json_decode.c], first part): parser combinators.

    A [Parser] is a function pointer with its context; here, the inductive type
    of the combinators' contexts. Parsers read a buffer in memory, which they
    do not change. A call takes one unit of fuel per nested call and per
    iteration of a loop: [parser_terminates] gives a bound that is linear in the
    length of the buffer. *)

From S2P Require Import Prelude Memory Buffer.

(** ** Definitions *)

Inductive JsonType :=
  | JSON_TYPE_STR
  | JSON_TYPE_NUMBER
  | JSON_TYPE_OBJECT
  | JSON_TYPE_ARRAY
  | JSON_TYPE_TRUE
  | JSON_TYPE_FALSE
  | JSON_TYPE_NULL.

#[export] Instance JsonType_eq_dec : EqDecision JsonType.
Proof. solve_decision. Defined.

Record ParseResult := mkResult { json_type : JsonType; content : BufPtr; count : Z }.

Definition PARSE_RESULT_INIT : ParseResult := mkResult JSON_TYPE_NULL (mkBuf NULL 0) 0.

(** [FORWARD_JSON_VALUE] is the address of [PARSER_JSON_VALUE], which is
    declared before the parsers it is made of. *)
Inductive Parser :=
  | COMB_ONE_OF (parsers : list Parser)
  | COMB_SEQUENCE (parsers : list Parser)
  | COMB_ZERO_OR_MORE (parser : Parser)
  | COMB_MAYBE (parser : Parser)
  | COMB_NESTED (parser : Parser)
  | COMB_RESULT_VAL (type : JsonType) (parser : Parser)
  | COMB_INCREMENT_COUNT (parser : Parser)
  | PARSER_CHAR (c : Z)
  | PARSER_STR (str : bytes)
  | PARSER_CHAR_RANGE (range_start range_end : Z)
  | PARSER_JSON_STR_CODEPOINT
  | FORWARD_JSON_VALUE.

(** The value returned, [*buf] and [*output]; no output for a null pointer. *)
Abbreviation presult := (option (bool * BufPtr * option ParseResult)).
Abbreviation pcall := (Parser -> BufPtr -> option ParseResult -> presult).

(** [if (matches && (output != NULL))] and the update of [*output]. *)
Definition on_match (matches : bool) (f : ParseResult -> ParseResult) (output : option ParseResult)
    : option ParseResult :=
  if matches then option_map f output else output.

Section combinators.
Context (parser_call : pcall).

(** The loop stops at the null pointer that ends the array. *)
Fixpoint comb_one_of_fn (parsers : list Parser) (buf : BufPtr) (output : option ParseResult) : presult :=
  match parsers with
  | [] => Some (false, buf, output)
  | parser :: parsers =>
      '(ret, buf, output) ← parser_call parser buf output;
      if ret : bool then Some (true, buf, output) else comb_one_of_fn parsers buf output
  end.

(** The loop on [buf_copy]. *)
Fixpoint sequence_loop (parsers : list Parser) (buf_copy : BufPtr) (output : option ParseResult) : presult :=
  match parsers with
  | [] => Some (true, buf_copy, output)
  | parser :: parsers =>
      '(ret, buf_copy, output) ← parser_call parser buf_copy output;
      if negb ret then Some (false, buf_copy, output) else sequence_loop parsers buf_copy output
  end.

Definition comb_sequence_fn (parsers : list Parser) (buf : BufPtr) (output : option ParseResult) : presult :=
  '(ret, buf_copy, output) ← sequence_loop parsers buf output;
  Some (ret, if ret : bool then buf_copy else buf, output).

(** One iteration; the next one is the same call on what is left. *)
Definition comb_zero_or_more_fn (parser : Parser) (buf : BufPtr) (output : option ParseResult) : presult :=
  '(ret, buf, output) ← parser_call parser buf output;
  if ret : bool then parser_call (COMB_ZERO_OR_MORE parser) buf output else Some (true, buf, output).

Definition comb_maybe_fn (parser : Parser) (buf : BufPtr) (output : option ParseResult) : presult :=
  '(_, buf, output) ← parser_call parser buf output;
  Some (true, buf, output).

Definition comb_nested_fn (parser : Parser) (buf : BufPtr) (output : option ParseResult) : presult :=
  '(ret, buf, _) ← parser_call parser buf None;
  Some (ret, buf, output).

Definition comb_result_val_fn (type : JsonType) (parser : Parser) (buf : BufPtr)
    (output : option ParseResult) : presult :=
  '(matches, buf', output) ← parser_call parser buf output;
  let match_ := mkBuf (data buf) (uwrap 64 (data buf' - data buf)) in
  Some (matches, buf', on_match matches (fun out => mkResult type match_ (count out)) output).

Definition comb_increment_count_fn (parser : Parser) (buf : BufPtr) (output : option ParseResult) : presult :=
  '(matches, buf, output) ← parser_call parser buf output;
  Some (matches, buf,
    on_match matches (fun out => mkResult (json_type out) (content out) (uwrap 64 (count out + 1))) output).
End combinators.

Section leaves.
Context (m : mem).

Definition parser_char_fn (c : Z) (buf : BufPtr) : option (bool * BufPtr) :=
  if len buf <? 1 then Some (false, buf) else
  b ← m !! data buf;
  if negb (b =? c) then Some (false, buf) else
  Some (true, gg_buffer_substr_ptr buf 1 SIZE_MAX).

Definition parser_str_fn (str : bytes) (buf : BufPtr) : option (bool * BufPtr) :=
  if len buf <? zlen str then Some (false, buf) else
  bs ← loadz m (data buf) (zlen str);
  if negb (memcmp_eq str bs (zlen str)) then Some (false, buf) else
  Some (true, gg_buffer_substr_ptr buf (zlen str) SIZE_MAX).

Definition parser_char_range_fn (range_start range_end : Z) (buf : BufPtr) : option (bool * BufPtr) :=
  if len buf <? 1 then Some (false, buf) else
  b ← m !! data buf;
  let c := swrap 8 b in
  if (c <? range_start) || (range_end <? c) then Some (false, buf) else
  Some (true, gg_buffer_substr_ptr buf 1 SIZE_MAX).

(** The length of the character that starts with a byte, as [utf8_len]. *)
Definition utf8_len (b : Z) : option Z :=
  if Z.land b 0x80 =? 0 then Some 1
  else if Z.land b 0xE0 =? 0xC0 then Some 2
  else if Z.land b 0xF0 =? 0xE0 then Some 3
  else if Z.land b 0xF8 =? 0xF0 then Some 4
  else None.

(** The loop over the bytes from [p] on: whether they all are continuations. *)
Fixpoint continuation_loop (n : nat) (p : Z) : option bool :=
  match n with
  | O => Some true
  | S n =>
      b ← m !! p;
      if negb (Z.land b 0xC0 =? 0x80) then Some false else continuation_loop n (p + 1)
  end.

Definition parser_json_str_codepoint_fn (buf : BufPtr) : option (bool * BufPtr) :=
  if len buf <? 1 then Some (false, buf) else
  b ← m !! data buf;
  if b <=? 0x1F then Some (false, buf) else
  if b =? 34 then Some (false, buf) else
  if b =? 92 then Some (false, buf) else
  if Z.land b 0xC0 =? 0x80 then Some (false, buf) else
  match utf8_len b with
  | None => Some (false, buf)
  | Some n =>
      if len buf <? n then Some (false, buf) else
      ok ← continuation_loop (Z.to_nat (n - 1)) (data buf + 1);
      if negb ok then Some (false, buf) else
      Some (true, gg_buffer_substr_ptr buf n SIZE_MAX)
  end.
End leaves.

(** The parsers, as in the source. *)
Definition PARSER_DIGIT : Parser := PARSER_CHAR_RANGE 48 57.

Definition PARSER_HEX_DIGIT : Parser :=
  COMB_ONE_OF [PARSER_DIGIT; PARSER_CHAR_RANGE 65 70; PARSER_CHAR_RANGE 97 102].

Definition PARSER_JSON_STR_ESCAPE : Parser :=
  COMB_SEQUENCE
    [PARSER_CHAR 92;
     COMB_ONE_OF
       [PARSER_CHAR 34; PARSER_CHAR 92; PARSER_CHAR 47; PARSER_CHAR 98; PARSER_CHAR 102;
        PARSER_CHAR 110; PARSER_CHAR 114; PARSER_CHAR 116;
        COMB_SEQUENCE
          [PARSER_CHAR 117; PARSER_HEX_DIGIT; PARSER_HEX_DIGIT; PARSER_HEX_DIGIT; PARSER_HEX_DIGIT]]].

Definition PARSER_JSON_WHITESPACE : Parser :=
  COMB_ZERO_OR_MORE (COMB_ONE_OF [PARSER_CHAR 32; PARSER_CHAR 10; PARSER_CHAR 13; PARSER_CHAR 9]).

Definition PARSER_JSON_STR : Parser :=
  COMB_SEQUENCE
    [PARSER_CHAR 34;
     COMB_RESULT_VAL JSON_TYPE_STR
       (COMB_ZERO_OR_MORE (COMB_ONE_OF [PARSER_JSON_STR_CODEPOINT; PARSER_JSON_STR_ESCAPE]));
     PARSER_CHAR 34].

Definition PARSER_INT_PART : Parser :=
  COMB_SEQUENCE
    [COMB_MAYBE (PARSER_CHAR 45);
     COMB_ONE_OF
       [PARSER_CHAR 48;
        COMB_SEQUENCE [PARSER_CHAR_RANGE 49 57; COMB_ZERO_OR_MORE PARSER_DIGIT]]].

Definition PARSER_FRAC_PART : Parser :=
  COMB_SEQUENCE [PARSER_CHAR 46; COMB_ZERO_OR_MORE PARSER_DIGIT].

Definition PARSER_EXPONENT : Parser :=
  COMB_SEQUENCE
    [COMB_ONE_OF [PARSER_CHAR 101; PARSER_CHAR 69];
     COMB_MAYBE (COMB_ONE_OF [PARSER_CHAR 43; PARSER_CHAR 45]);
     PARSER_DIGIT;
     COMB_ZERO_OR_MORE PARSER_DIGIT].

Definition PARSER_JSON_NUMBER : Parser :=
  COMB_RESULT_VAL JSON_TYPE_NUMBER
    (COMB_SEQUENCE [PARSER_INT_PART; COMB_MAYBE PARSER_FRAC_PART; COMB_MAYBE PARSER_EXPONENT]).

Definition PARSER_JSON_OBJECT_KV : Parser :=
  COMB_NESTED (COMB_SEQUENCE
    [PARSER_JSON_STR; PARSER_JSON_WHITESPACE; PARSER_CHAR 58; FORWARD_JSON_VALUE]).

Definition PARSER_JSON_OBJECT : Parser :=
  COMB_SEQUENCE
    [PARSER_CHAR 123;
     PARSER_JSON_WHITESPACE;
     COMB_RESULT_VAL JSON_TYPE_OBJECT
       (COMB_MAYBE (COMB_SEQUENCE
          [COMB_ZERO_OR_MORE (COMB_INCREMENT_COUNT (COMB_SEQUENCE
             [PARSER_JSON_OBJECT_KV; PARSER_CHAR 44; PARSER_JSON_WHITESPACE]));
           COMB_INCREMENT_COUNT PARSER_JSON_OBJECT_KV]));
     PARSER_CHAR 125].

Definition PARSER_JSON_ARRAY_ELEM : Parser := COMB_NESTED FORWARD_JSON_VALUE.

Definition PARSER_JSON_ARRAY : Parser :=
  COMB_SEQUENCE
    [PARSER_CHAR 91;
     PARSER_JSON_WHITESPACE;
     COMB_RESULT_VAL JSON_TYPE_ARRAY
       (COMB_MAYBE (COMB_SEQUENCE
          [COMB_ZERO_OR_MORE (COMB_INCREMENT_COUNT (COMB_SEQUENCE
             [PARSER_JSON_ARRAY_ELEM; PARSER_CHAR 44]));
           COMB_INCREMENT_COUNT PARSER_JSON_ARRAY_ELEM]));
     PARSER_CHAR 93].

Definition PARSER_JSON_TRUE : Parser := COMB_RESULT_VAL JSON_TYPE_TRUE (PARSER_STR (GG_STR "true")).
Definition PARSER_JSON_FALSE : Parser := COMB_RESULT_VAL JSON_TYPE_FALSE (PARSER_STR (GG_STR "false")).
Definition PARSER_JSON_NULL : Parser := COMB_RESULT_VAL JSON_TYPE_NULL (PARSER_STR (GG_STR "null")).

Definition PARSER_JSON_VALUE : Parser :=
  COMB_SEQUENCE
    [PARSER_JSON_WHITESPACE;
     COMB_ONE_OF
       [PARSER_JSON_STR; PARSER_JSON_NUMBER; PARSER_JSON_OBJECT; PARSER_JSON_ARRAY;
        PARSER_JSON_TRUE; PARSER_JSON_FALSE; PARSER_JSON_NULL];
     PARSER_JSON_WHITESPACE].

(** A parser that leaves the output alone. *)
Definition leaf (r : option (bool * BufPtr)) (output : option ParseResult) : presult :=
  '(ret, buf) ← r; Some (ret, buf, output).

Fixpoint parser_call (m : mem) (fuel : nat) (parser : Parser) (buf : BufPtr)
    (output : option ParseResult) : presult :=
  match fuel with
  | O => None
  | S fuel =>
      let call := parser_call m fuel in
      match parser with
      | COMB_ONE_OF parsers => comb_one_of_fn call parsers buf output
      | COMB_SEQUENCE parsers => comb_sequence_fn call parsers buf output
      | COMB_ZERO_OR_MORE parser => comb_zero_or_more_fn call parser buf output
      | COMB_MAYBE parser => comb_maybe_fn call parser buf output
      | COMB_NESTED parser => comb_nested_fn call parser buf output
      | COMB_RESULT_VAL type parser => comb_result_val_fn call type parser buf output
      | COMB_INCREMENT_COUNT parser => comb_increment_count_fn call parser buf output
      | PARSER_CHAR c => leaf (parser_char_fn m c buf) output
      | PARSER_STR str => leaf (parser_str_fn m str buf) output
      | PARSER_CHAR_RANGE range_start range_end =>
          leaf (parser_char_range_fn m range_start range_end buf) output
      | PARSER_JSON_STR_CODEPOINT => leaf (parser_json_str_codepoint_fn m buf) output
      | FORWARD_JSON_VALUE => call PARSER_JSON_VALUE buf output
      end
  end.

(** ** What a call does to the buffer *)

(** [buf'] is what is left of [buf] after a prefix was consumed. *)
Definition advances (buf buf' : BufPtr) : Prop :=
  data buf <= data buf' /\ data buf' + len buf' = data buf + len buf /\ 0 <= len buf'.

(** Parsers that consume something when they succeed. *)
Fixpoint consuming (p : Parser) : bool :=
  match p with
  | COMB_ONE_OF ps => forallb consuming ps
  | COMB_SEQUENCE ps => existsb consuming ps
  | COMB_ZERO_OR_MORE _ | COMB_MAYBE _ | FORWARD_JSON_VALUE => false
  | COMB_NESTED p | COMB_RESULT_VAL _ p | COMB_INCREMENT_COUNT p => consuming p
  | PARSER_STR str => 0 <? zlen str
  | PARSER_CHAR _ | PARSER_CHAR_RANGE _ _ | PARSER_JSON_STR_CODEPOINT => true
  end.

Definition buf_ok (buf : BufPtr) : Prop := 0 <= len buf <= SIZE_MAX.

(** Parsers that cannot fail. *)
Definition total (p : Parser) : bool :=
  match p with COMB_ZERO_OR_MORE _ | COMB_MAYBE _ => true | _ => false end.

(** The contract of the combinators, for a success and for a failure. *)
Definition kept_contract (succeeds consumes : bool) (buf : BufPtr) (output : option ParseResult)
    (ret : bool) (buf' : BufPtr) (output' : option ParseResult) : Prop :=
  (ret = false -> buf' = buf) /\ advances buf buf' /\ (output' = None <-> output = None) /\
  (consumes = true -> ret = true -> len buf' < len buf) /\ (succeeds = true -> ret = true).

Definition call_ok (call : pcall) : Prop :=
  forall p buf output ret buf' output', buf_ok buf ->
    call p buf output = Some (ret, buf', output') ->
    kept_contract (total p) (consuming p) buf output ret buf' output'.

Lemma advances_refl buf : 0 <= len buf -> advances buf buf.
Proof. unfold advances. lia. Qed.

Lemma advances_trans a b c : advances a b -> advances b c -> advances a c.
Proof. unfold advances. lia. Qed.

Lemma advances_ok a b : buf_ok a -> advances a b -> buf_ok b.
Proof. unfold buf_ok, advances. lia. Qed.

Lemma advances_rest buf n : buf_ok buf -> 0 <= n <= len buf -> advances buf (gg_buffer_substr_ptr buf n SIZE_MAX).
Proof. intros [? ?] ?. rewrite substr_ptr_rest by lia. unfold advances. cbn. lia. Qed.

Lemma advances_mapped m a b : advances a b -> mapped m (data a) (len a) -> mapped m (data b) (len b).
Proof. unfold advances. intros Ha Hm x Hx. apply Hm. lia. Qed.

Lemma on_match_None matches f output : on_match matches f output = None <-> output = None.
Proof. unfold on_match. by destruct matches, output. Qed.

(** A failed leaf, and one that consumed [n] bytes. *)
Lemma leaf_failed consumes buf output :
  buf_ok buf -> kept_contract false consumes buf output false buf output.
Proof. intros [? ?]. split; [done|]. split; [by apply advances_refl|]. done. Qed.

Lemma leaf_consumed consumes buf output n :
  buf_ok buf -> 0 <= n <= len buf -> (consumes = true -> 0 < n) ->
  kept_contract false consumes buf output true (gg_buffer_substr_ptr buf n SIZE_MAX) output.
Proof.
  intros Hb Hn Hc. split; [done|]. split; [by apply advances_rest|]. split; [done|].
  split; [|done]. intros ?%Hc _. destruct Hb. rewrite substr_ptr_rest by lia. cbn. lia.
Qed.

Lemma utf8_len_range b n : utf8_len b = Some n -> 1 <= n <= 4.
Proof. unfold utf8_len. repeat case_if; intros [=]; lia. Qed.

Section contract.
Context (call : pcall) (Hcall : call_ok call).

Lemma comb_one_of_ok ps buf output ret buf' output' :
  buf_ok buf -> comb_one_of_fn call ps buf output = Some (ret, buf', output') ->
  kept_contract false (forallb consuming ps) buf output ret buf' output'.
Proof.
  revert output. induction ps as [|p ps IH]; intros output Hb H; cbn [comb_one_of_fn forallb] in *.
  - injection H as <- <- <-. by apply leaf_failed.
  - destruct (call p buf output) as [[[r b1] o1]|] eqn:Hp; [|done]. cbn [mbind option_bind] in H.
    destruct (Hcall _ _ _ _ _ _ Hb Hp) as (Hf & Ha & Ho & Hc & Ht). destruct r.
    + injection H as <- <- <-. split; [done|]. split; [done|]. split; [done|].
      split; [|done]. intros [? _]%andb_true_iff. by apply Hc.
    + rewrite (Hf eq_refl) in H. destruct (IH _ Hb H) as (Hf' & Ha' & Ho' & Hc' & Ht').
      split; [done|]. split; [done|]. split; [by rewrite Ho'|]. split; [|done].
      intros [_ ?]%andb_true_iff. by apply Hc'.
Qed.

Lemma sequence_loop_ok ps buf output ret buf' output' :
  buf_ok buf -> sequence_loop call ps buf output = Some (ret, buf', output') ->
  advances buf buf' /\ (output' = None <-> output = None) /\
  (existsb consuming ps = true -> ret = true -> len buf' < len buf).
Proof.
  revert buf output. induction ps as [|p ps IH]; intros buf output Hb H; cbn [sequence_loop existsb] in *.
  - injection H as <- <- <-. split; [by apply advances_refl, Hb|]. done.
  - destruct (call p buf output) as [[[r b1] o1]|] eqn:Hp; [|done]. cbn [mbind option_bind] in H.
    destruct (Hcall _ _ _ _ _ _ Hb Hp) as (Hf & Ha & Ho & Hc & Ht). destruct r; cbn [negb] in H.
    + destruct (IH _ _ (advances_ok _ _ Hb Ha) H) as (Ha' & Ho' & Hc').
      split; [by eapply advances_trans|]. split; [by rewrite Ho'|]. intros Hor Hr.
      apply orb_true_iff in Hor as [Hcp|Hcp].
      * specialize (Hc Hcp eq_refl). unfold advances in *. lia.
      * specialize (Hc' Hcp Hr). unfold advances in *. lia.
    + injection H as <- <- <-. done.
Qed.

Lemma comb_sequence_ok ps buf output ret buf' output' :
  buf_ok buf -> comb_sequence_fn call ps buf output = Some (ret, buf', output') ->
  kept_contract false (existsb consuming ps) buf output ret buf' output'.
Proof.
  intros Hb H. unfold comb_sequence_fn in H.
  destruct (sequence_loop call ps buf output) as [[[r b1] o1]|] eqn:Hp; [|done].
  cbn [mbind option_bind] in H. injection H as <- <- <-.
  destruct (sequence_loop_ok _ _ _ _ _ _ Hb Hp) as (Ha & Ho & Hc). destruct r.
  - by split.
  - split; [done|]. split; [by apply advances_refl, Hb|]. done.
Qed.

Lemma comb_zero_or_more_ok p buf output ret buf' output' :
  buf_ok buf -> comb_zero_or_more_fn call p buf output = Some (ret, buf', output') ->
  kept_contract true false buf output ret buf' output'.
Proof.
  intros Hb H. unfold comb_zero_or_more_fn in H.
  destruct (call p buf output) as [[[r b1] o1]|] eqn:Hp; [|done]. cbn [mbind option_bind] in H.
  destruct (Hcall _ _ _ _ _ _ Hb Hp) as (Hf & Ha & Ho & _). destruct r.
  - destruct (Hcall _ _ _ _ _ _ (advances_ok _ _ Hb Ha) H) as (_ & Ha' & Ho' & _ & Ht').
    rewrite (Ht' eq_refl). split; [done|]. split; [by eapply advances_trans|]. split; [by rewrite Ho'|done].
  - injection H as <- <- <-. rewrite (Hf eq_refl). split; [done|]. split; [by apply advances_refl, Hb|]. done.
Qed.

Lemma comb_maybe_ok p buf output ret buf' output' :
  buf_ok buf -> comb_maybe_fn call p buf output = Some (ret, buf', output') ->
  kept_contract true false buf output ret buf' output'.
Proof.
  intros Hb H. unfold comb_maybe_fn in H.
  destruct (call p buf output) as [[[r b1] o1]|] eqn:Hp; [|done]. cbn [mbind option_bind] in H.
  injection H as <- <- <-. destruct (Hcall _ _ _ _ _ _ Hb Hp) as (_ & Ha & Ho & _). by split.
Qed.

Lemma comb_nested_ok p buf output ret buf' output' :
  buf_ok buf -> comb_nested_fn call p buf output = Some (ret, buf', output') ->
  kept_contract false (consuming p) buf output ret buf' output'.
Proof.
  intros Hb H. unfold comb_nested_fn in H.
  destruct (call p buf None) as [[[r b1] o1]|] eqn:Hp; [|done]. cbn [mbind option_bind] in H.
  injection H as <- <- <-. destruct (Hcall _ _ _ _ _ _ Hb Hp) as (Hf & Ha & _ & Hc & _). by split.
Qed.

Lemma comb_result_val_ok ty p buf output ret buf' output' :
  buf_ok buf -> comb_result_val_fn call ty p buf output = Some (ret, buf', output') ->
  kept_contract false (consuming p) buf output ret buf' output'.
Proof.
  intros Hb H. unfold comb_result_val_fn in H.
  destruct (call p buf output) as [[[r b1] o1]|] eqn:Hp; [|done]. cbn [mbind option_bind] in H.
  injection H as <- <- <-. destruct (Hcall _ _ _ _ _ _ Hb Hp) as (Hf & Ha & Ho & Hc & _).
  split; [done|]. split; [done|]. by rewrite on_match_None.
Qed.

Lemma comb_increment_count_ok p buf output ret buf' output' :
  buf_ok buf -> comb_increment_count_fn call p buf output = Some (ret, buf', output') ->
  kept_contract false (consuming p) buf output ret buf' output'.
Proof.
  intros Hb H. unfold comb_increment_count_fn in H.
  destruct (call p buf output) as [[[r b1] o1]|] eqn:Hp; [|done]. cbn [mbind option_bind] in H.
  injection H as <- <- <-. destruct (Hcall _ _ _ _ _ _ Hb Hp) as (Hf & Ha & Ho & Hc & _).
  split; [done|]. split; [done|]. by rewrite on_match_None.
Qed.
End contract.

(** A leaf that either fails or consumes [n] bytes. *)
Lemma leaf_ok r output consumes buf ret buf' output' :
  buf_ok buf -> leaf r output = Some (ret, buf', output') ->
  (r = Some (false, buf) \/
   exists n, r = Some (true, gg_buffer_substr_ptr buf n SIZE_MAX) /\ 0 <= n <= len buf /\
     (consumes = true -> 0 < n)) ->
  kept_contract false consumes buf output ret buf' output'.
Proof.
  unfold leaf. intros Hb H [->|(n & -> & Hn & Hc)]; cbn in H; injection H as <- <- <-.
  - by apply leaf_failed.
  - by apply leaf_consumed.
Qed.

(** Case analysis on the tests of a leaf. *)
Ltac leaf_cases H :=
  lazymatch type of H with
  | (if ?b then _ else _) = _ => let E := fresh "E" in destruct b eqn:E; zify_bool; leaf_cases H
  | mbind _ ?o = _ => let E := fresh "E" in destruct o eqn:E; cbn [mbind option_bind] in H; leaf_cases H
  | _ => idtac
  end.

Lemma parser_char_cases m c buf r :
  parser_char_fn m c buf = Some r ->
  r = (false, buf) \/ (r = (true, gg_buffer_substr_ptr buf 1 SIZE_MAX) /\ 1 <= len buf).
Proof. unfold parser_char_fn. intros H. leaf_cases H; simplify_eq; auto with lia. Qed.

Lemma parser_char_range_cases m a b buf r :
  parser_char_range_fn m a b buf = Some r ->
  r = (false, buf) \/ (r = (true, gg_buffer_substr_ptr buf 1 SIZE_MAX) /\ 1 <= len buf).
Proof. unfold parser_char_range_fn. cbv zeta. intros H. leaf_cases H; simplify_eq; auto with lia. Qed.

Lemma parser_str_cases m str buf r :
  parser_str_fn m str buf = Some r ->
  r = (false, buf) \/ (r = (true, gg_buffer_substr_ptr buf (zlen str) SIZE_MAX) /\ zlen str <= len buf).
Proof. unfold parser_str_fn. intros H. leaf_cases H; simplify_eq; auto with lia. Qed.

Lemma parser_codepoint_cases m buf r :
  parser_json_str_codepoint_fn m buf = Some r ->
  r = (false, buf) \/
  (exists n, r = (true, gg_buffer_substr_ptr buf n SIZE_MAX) /\ 1 <= n <= len buf).
Proof.
  unfold parser_json_str_codepoint_fn. intros H. leaf_cases H; simplify_eq; auto.
  destruct (utf8_len z) as [n|] eqn:Hu; [|simplify_eq; auto]. apply utf8_len_range in Hu.
  leaf_cases H; simplify_eq; auto. right. exists n. split; [done|lia].
Qed.

Lemma parser_call_ok m fuel : call_ok (parser_call m fuel).
Proof.
  induction fuel as [|fuel IH]; intros p buf output ret buf' output' Hb H; [done|].
  destruct p; cbn [parser_call total consuming] in *.
  - by eapply comb_one_of_ok.
  - by eapply comb_sequence_ok.
  - by eapply comb_zero_or_more_ok.
  - by eapply comb_maybe_ok.
  - by eapply comb_nested_ok.
  - by eapply comb_result_val_ok.
  - by eapply comb_increment_count_ok.
  - eapply leaf_ok; [done|done|]. destruct (parser_char_fn m c buf) as [r|] eqn:Hr; [|done].
    apply parser_char_cases in Hr as [->|[-> ?]]; [by left|]. right. exists 1. split_and!; [done|lia..].
  - eapply leaf_ok; [done|done|]. destruct (parser_str_fn m str buf) as [r|] eqn:Hr; [|done].
    apply parser_str_cases in Hr as [->|[-> ?]]; [by left|]. right. exists (zlen str).
    split_and!; [done|apply zlen_nonneg|lia|]. intros ?%Z.ltb_lt. lia.
  - eapply leaf_ok; [done|done|]. destruct (parser_char_range_fn m _ _ buf) as [r|] eqn:Hr; [|done].
    apply parser_char_range_cases in Hr as [->|[-> ?]]; [by left|]. right. exists 1. split_and!; [done|lia..].
  - eapply leaf_ok; [done|done|]. destruct (parser_json_str_codepoint_fn m buf) as [r|] eqn:Hr; [|done].
    apply parser_codepoint_cases in Hr as [->|(n & -> & ?)]; [by left|]. right. exists n. split_and!; [done|lia..].
  - destruct (IH _ _ _ _ _ _ Hb H) as (Hf & Ha & Ho & _). by split.
Qed.

(** ** Termination

    [height] bounds the calls nested on the same buffer position; a use of
    [FORWARD_JSON_VALUE] needs a whole [PARSER_JSON_VALUE], on less input. *)

Definition max_height (hs : list Z) : Z := foldr Z.max 0 hs.

Fixpoint height (p : Parser) : Z :=
  match p with
  | COMB_ONE_OF ps | COMB_SEQUENCE ps => 1 + max_height (height <$> ps)
  | COMB_ZERO_OR_MORE p | COMB_MAYBE p | COMB_NESTED p | COMB_RESULT_VAL _ p
  | COMB_INCREMENT_COUNT p => 1 + height p
  | _ => 1
  end.

(** No loop has a body that can succeed without consuming anything. *)
Fixpoint loops_ok (p : Parser) : bool :=
  match p with
  | COMB_ONE_OF ps | COMB_SEQUENCE ps => forallb loops_ok ps
  | COMB_ZERO_OR_MORE p => consuming p && loops_ok p
  | COMB_MAYBE p | COMB_NESTED p | COMB_RESULT_VAL _ p | COMB_INCREMENT_COUNT p => loops_ok p
  | _ => true
  end.

(** [FORWARD_JSON_VALUE] is only called after something was consumed. *)
Fixpoint guarded (p : Parser) : bool :=
  match p with
  | COMB_ONE_OF ps => forallb guarded ps
  | COMB_SEQUENCE ps =>
      (fix go ps := match ps with
        | [] => true
        | p :: ps => guarded p && (consuming p || go ps)
        end) ps
  | COMB_ZERO_OR_MORE p | COMB_MAYBE p | COMB_NESTED p | COMB_RESULT_VAL _ p
  | COMB_INCREMENT_COUNT p => guarded p
  | FORWARD_JSON_VALUE => false
  | _ => true
  end.

Fixpoint seq_guarded (ps : list Parser) : bool :=
  match ps with
  | [] => true
  | p :: ps => guarded p && (consuming p || seq_guarded ps)
  end.

Lemma guarded_sequence ps : guarded (COMB_SEQUENCE ps) = seq_guarded ps.
Proof. induction ps as [|p ps IH]; [done|]. cbn [guarded seq_guarded]. by rewrite <- IH. Qed.

Definition JSON_HEIGHT : Z := Eval vm_compute in height PARSER_JSON_VALUE.

(** Fuel enough for a buffer of length [n]. *)
Definition parser_fuel (n : Z) : Z := JSON_HEIGHT + (JSON_HEIGHT + 1) * n.

Lemma max_height_nonneg hs : 0 <= max_height hs.
Proof. unfold max_height. induction hs; simpl; lia. Qed.

Lemma height_pos p : 0 < height p.
Proof.
  induction p; cbn [height]; try lia;
    pose proof (max_height_nonneg (height <$> parsers)); lia.
Qed.

Section terminates.
Context (m : mem) (N : Z).

(** The fuel needed beyond the height. *)
Definition slack (n : Z) : Z := (JSON_HEIGHT + 1) * n + if n <? N then JSON_HEIGHT else 0.

Lemma slack_mono n n' : n' <= n -> slack n' <= slack n.
Proof. unfold slack, JSON_HEIGHT. intros. repeat case_if; lia. Qed.

Lemma slack_step n n' : n' < n -> slack n' + 1 <= slack n.
Proof. unfold slack, JSON_HEIGHT. intros. repeat case_if; lia. Qed.

(** The parser called with this fuel returns. *)
Definition returns (fuel : nat) (p : Parser) : Prop :=
  forall buf output, buf_ok buf -> mapped m (data buf) (len buf) -> len buf <= N ->
    guarded p = true \/ len buf < N ->
    height p + slack (len buf) <= Z.of_nat fuel ->
    is_Some (parser_call m fuel p buf output).

Hypothesis value_returns : forall fuel buf output,
  buf_ok buf -> mapped m (data buf) (len buf) -> len buf < N ->
  parser_fuel (len buf) <= Z.of_nat fuel ->
  is_Some (parser_call m fuel PARSER_JSON_VALUE buf output).

Section step.
Context (fuel : nat) (IH : forall p, loops_ok p = true -> returns fuel p).

Lemma one_of_returns ps buf output h :
  forallb loops_ok ps = true -> forallb guarded ps = true \/ len buf < N ->
  buf_ok buf -> mapped m (data buf) (len buf) -> len buf <= N ->
  max_height (height <$> ps) <= h -> h + slack (len buf) <= Z.of_nat fuel ->
  is_Some (comb_one_of_fn (parser_call m fuel) ps buf output).
Proof.
  intros Hl Hg Hb Hm HN Hh Hf. revert output. induction ps as [|p ps IHps]; intros output;
    cbn [comb_one_of_fn forallb fmap list_fmap max_height foldr] in *; [by eexists|].
  apply andb_true_iff in Hl as [Hl1 Hl].
  destruct (IH p Hl1 buf output) as [[[r b1] o1] Hp]; [done..| |lia|].
  { destruct Hg as [[? _]%andb_true_iff|?]; auto. }
  rewrite Hp. cbn [mbind option_bind].
  destruct (parser_call_ok _ _ _ _ _ _ _ _ Hb Hp) as (Hfail & _). destruct r; [by eexists|].
  rewrite (Hfail eq_refl). apply IHps; [done| |unfold max_height; lia].
  destruct Hg as [[_ ?]%andb_true_iff|?]; auto.
Qed.

Lemma sequence_returns ps buf output h :
  forallb loops_ok ps = true -> seq_guarded ps = true \/ len buf < N ->
  buf_ok buf -> mapped m (data buf) (len buf) -> len buf <= N ->
  max_height (height <$> ps) <= h -> h + slack (len buf) <= Z.of_nat fuel ->
  is_Some (sequence_loop (parser_call m fuel) ps buf output).
Proof.
  revert buf output. induction ps as [|p ps IHps]; intros buf output Hl Hg Hb Hm HN Hh Hf;
    cbn [sequence_loop forallb seq_guarded fmap list_fmap max_height foldr] in *; [by eexists|].
  apply andb_true_iff in Hl as [Hl1 Hl].
  destruct (IH p Hl1 buf output) as [[[r b1] o1] Hp]; [done..| |lia|].
  { destruct Hg as [[? _]%andb_true_iff|?]; auto. }
  rewrite Hp. cbn [mbind option_bind].
  destruct (parser_call_ok _ _ _ _ _ _ _ _ Hb Hp) as (_ & Ha & _ & Hc & _).
  destruct r; cbn [negb]; [|by eexists].
  assert (len b1 <= len buf) as Hlen by (unfold advances in Ha; lia).
  apply IHps; [done| |by eapply advances_ok|by eapply advances_mapped|lia|unfold max_height; lia|].
  - destruct Hg as [[_ [Hcp|?]%orb_true_iff]%andb_true_iff|?]; [|by left|right; lia].
    specialize (Hc Hcp eq_refl). right. lia.
  - pose proof (slack_mono _ _ Hlen). lia.
Qed.
End step.

Lemma leaf_returns r output : is_Some r -> is_Some (leaf r output).
Proof. intros [[ret b] ->]. by eexists. Qed.

Lemma continuation_loop_returns n p :
  mapped m p (Z.of_nat n) -> is_Some (continuation_loop m n p).
Proof.
  revert p. induction n as [|n IH]; intros p Hm; [by eexists|]. cbn [continuation_loop].
  destruct (Hm p) as [b ->]; [lia|]. cbn [mbind option_bind]. case_if; [by eexists|].
  apply IH. intros x ?. apply Hm. lia.
Qed.

Lemma leaves_return buf :
  buf_ok buf -> mapped m (data buf) (len buf) ->
  (forall c, is_Some (parser_char_fn m c buf)) /\
  (forall str, is_Some (parser_str_fn m str buf)) /\
  (forall a b, is_Some (parser_char_range_fn m a b buf)) /\
  is_Some (parser_json_str_codepoint_fn m buf).
Proof.
  intros [Hb _] Hm. unfold parser_char_fn, parser_str_fn, parser_char_range_fn, parser_json_str_codepoint_fn.
  assert (len buf <? 1 = false -> is_Some (m !! data buf)) as Hfirst by (intros ?%Z.ltb_ge; apply Hm; lia).
  split_and!.
  - intros c. case_if; [by eexists|]. destruct Hfirst as [b ->]; [done|]. cbn [mbind option_bind].
    case_if; by eexists.
  - intros str. case_if; [by eexists|]. destruct (loadz_mapped m (data buf) (zlen str)) as [bs ->].
    { intros x ?. apply Hm. lia. }
    cbn [mbind option_bind]. case_if; by eexists.
  - intros a b. case_if; [by eexists|]. destruct Hfirst as [c ->]; [done|]. cbn [mbind option_bind].
    cbv zeta. case_if; by eexists.
  - case_if; [by eexists|]. destruct Hfirst as [b ->]; [done|]. cbn [mbind option_bind].
    repeat (case_if; [by eexists|]). destruct (utf8_len b) as [n|] eqn:Hu; [|by eexists].
    apply utf8_len_range in Hu. case_if; [by eexists|].
    destruct (continuation_loop_returns (Z.to_nat (n - 1)) (data buf + 1)) as [ok ->].
    { intros x ?. apply Hm. lia. }
    cbn [mbind option_bind]. case_if; by eexists.
Qed.

Lemma parsers_return fuel p : loops_ok p = true -> returns fuel p.
Proof.
  revert p. induction fuel as [|fuel IH]; intros p Hl buf output Hb Hm HN Hg Hf.
  { pose proof (height_pos p). unfold slack in Hf. destruct Hb. unfold JSON_HEIGHT in Hf.
    case_if_in Hf; lia. }
  destruct (leaves_return buf Hb Hm) as (Hchar & Hstr & Hrange & Hcp).
  assert (forall p, loops_ok p = true -> guarded p = true \/ len buf < N ->
    height p + slack (len buf) < Z.of_nat (S fuel) -> forall o, is_Some (parser_call m fuel p buf o)) as Hsub.
  { intros q Hq Hgq Hfq o. by apply IH; [..|lia]. }
  destruct p; cbn [parser_call loops_ok height] in *; try (by apply leaf_returns).
  - by eapply one_of_returns; [..|reflexivity|lia].
  - rewrite guarded_sequence in Hg. unfold comb_sequence_fn.
    destruct (sequence_returns fuel IH parsers buf output (max_height (height <$> parsers)))
      as [[[r b1] o1] ->]; [done..|lia|]. by eexists.
  - apply andb_true_iff in Hl as [Hc Hl]. unfold comb_zero_or_more_fn.
    destruct (Hsub p Hl Hg ltac:(lia) output) as [[[r b1] o1] Hp]. rewrite Hp. cbn [mbind option_bind].
    destruct (parser_call_ok _ _ _ _ _ _ _ _ Hb Hp) as (_ & Ha & _ & Hc' & _). destruct r; [|by eexists].
    specialize (Hc' Hc eq_refl). pose proof (slack_step _ _ Hc').
    apply IH; [cbn; by rewrite Hc|by eapply advances_ok|by eapply advances_mapped|lia|right; lia|].
    cbn [height]. lia.
  - unfold comb_maybe_fn. destruct (Hsub p Hl Hg ltac:(lia) output) as [[[r b1] o1] ->]. by eexists.
  - unfold comb_nested_fn. destruct (Hsub p Hl Hg ltac:(lia) None) as [[[r b1] o1] ->]. by eexists.
  - unfold comb_result_val_fn. destruct (Hsub p Hl Hg ltac:(lia) output) as [[[r b1] o1] ->]. by eexists.
  - unfold comb_increment_count_fn. destruct (Hsub p Hl Hg ltac:(lia) output) as [[[r b1] o1] ->]. by eexists.
  - destruct Hg as [?|Hlt]; [done|]. apply value_returns; [done..|].
    unfold slack, parser_fuel in *. rewrite (proj2 (Z.ltb_lt _ _)) in Hf by done. lia.
Qed.
End terminates.

Lemma value_terminates m fuel buf output :
  buf_ok buf -> mapped m (data buf) (len buf) -> parser_fuel (len buf) <= Z.of_nat fuel ->
  is_Some (parser_call m fuel PARSER_JSON_VALUE buf output).
Proof.
  intros Hb. assert (exists k : nat, len buf <= Z.of_nat k) as [k Hk] by (exists (Z.to_nat (len buf)); lia).
  revert fuel buf output Hb Hk. induction k as [k IH] using lt_wf_ind. intros fuel buf output Hb Hk Hm Hf.
  apply (parsers_return m (len buf)).
  - intros fuel' buf' output' Hb' Hm' Hlt Hf'. destruct Hb'.
    apply (IH (Z.to_nat (len buf'))); [lia|by split|lia|done|done].
  - done.
  - done.
  - done.
  - done.
  - left. done.
  - unfold slack, parser_fuel in *. rewrite (proj2 (Z.ltb_ge _ _)) by lia.
    change (height PARSER_JSON_VALUE) with JSON_HEIGHT. lia.
Qed.

(** C14: Parsing a JSON value terminates, on every text: it returns whether a
    prefix matches, without reading outside of the buffer. When nothing matches
    the buffer is unchanged; a match advances the buffer over at least a byte
    and leaves the rest of it. The work is bounded by a multiple of the length,
    in depth. *)
Theorem json_value_parses m buf output :
  buf_ok buf -> mapped m (data buf) (len buf) ->
  exists ret buf' output',
    parser_call m (Z.to_nat (parser_fuel (len buf))) PARSER_JSON_VALUE buf output =
      Some (ret, buf', output') /\
    (ret = false -> buf' = buf) /\
    (ret = true -> data buf < data buf' /\ 0 <= len buf' /\ data buf' + len buf' = data buf + len buf).
Proof.
  intros Hb Hm.
  destruct (value_terminates m (Z.to_nat (parser_fuel (len buf))) buf output) as [[[ret buf'] output'] Hc];
    [done|done|lia|].
  exists ret, buf', output'. split; [done|].
  destruct (parser_call_ok _ _ _ _ _ _ _ _ Hb Hc) as (Hfail & (Hd & He & Hl) & _ & Hcons & _).
  split; [done|]. intros ->. assert (len buf' < len buf) by by apply Hcons. lia.
Qed.

(** The text [[1] x] matches up to the [x]. *)
Lemma json_value_parses_witness :
  exists buf' output', parser_call (put ∅ 10 (GG_STR "[1] x")) (Z.to_nat (parser_fuel 5)) PARSER_JSON_VALUE
    (mkBuf 10 5) None = Some (true, buf', output') /\ 10 < data buf'.
Proof.
  set (m := put ∅ 10 (GG_STR "[1] x")).
  destruct (json_value_parses m (mkBuf 10 5) None) as (ret & buf' & output' & Hc & _ & Hok).
  { unfold buf_ok, SIZE_MAX. simpl. lia. }
  { intros x Hx. cbn [data len] in Hx. assert (x = 10 \/ x = 11 \/ x = 12 \/ x = 13 \/ x = 14) as H by lia.
    unfold m. destruct_or! H; subst x; vm_compute; by eexists. }
  assert (ret = true) as ->.
  { assert ((fun r => fst (fst r)) <$> parser_call m (Z.to_nat (parser_fuel 5)) PARSER_JSON_VALUE (mkBuf 10 5) None
      = Some true) as H by by vm_compute.
    cbn [len] in Hc. rewrite Hc in H. by injection H. }
  exists buf', output'. split; [exact Hc|]. by apply Hok.
Defined.
