(* ===== verification/JsonGrammar.v ===== *)
(** The grammar of JSON as a reference parser on byte strings, and the
    refinement: the combinators of [src/json_decode.c] accept the same texts.

    The reference reads a text once and gives its syntax tree; the program's
    parser reads it, tracks where the first value lies, and tries alternatives
    one after the other. *)

From S2P Require Import Prelude Memory Buffer JsonParse.

(** ** Recognisers

    A recogniser takes a text and gives what is left of it, or fails. *)

Abbreviation recogniser := (bytes -> option bytes).

Definition satisfy (q : Z -> bool) : recogniser := fun bs =>
  match bs with c :: r => if q c then Some r else None | [] => None end.

Definition expect (c : Z) : recogniser := satisfy (Z.eqb c).

Definition seq (f g : recogniser) : recogniser := fun bs => r ← f bs; g r.
Definition alt (f g : recogniser) : recogniser := fun bs =>
  match f bs with Some r => Some r | None => g bs end.
Definition optional (f : recogniser) (bs : bytes) : bytes := default bs (f bs).

Fixpoint many_loop (f : recogniser) (n : nat) (bs : bytes) : bytes :=
  match n with
  | O => bs
  | S n => match f bs with Some r => many_loop f n r | None => bs end
  end.
Definition many (f : recogniser) (bs : bytes) : bytes := many_loop f (length bs) bs.

(** A recogniser that never fails. *)
Definition always (f : bytes -> bytes) : recogniser := fun bs => Some (f bs).

Definition keyword (str : bytes) : recogniser := fun bs =>
  if bool_decide (ztake (zlen str) bs = str) then Some (zdrop (zlen str) bs) else None.

Definition in_range (a b c : Z) : bool := (a <=? c) && (c <=? b).
Definition is_ws (c : Z) : bool := (c =? 32) || (c =? 10) || (c =? 13) || (c =? 9).
Definition is_dec (c : Z) : bool := in_range 48 57 c.
Definition is_hex (c : Z) : bool := is_dec c || in_range 65 70 c || in_range 97 102 c.

Definition skip_ws : bytes -> bytes := many (satisfy is_ws).
Definition digits : bytes -> bytes := many (satisfy is_dec).

(** *** Numbers *)

Definition int_part : recogniser :=
  seq (always (optional (expect 45)))
    (alt (expect 48) (seq (satisfy (in_range 49 57)) (always digits))).
Definition frac_part : recogniser := seq (expect 46) (always digits).
Definition exp_part : recogniser :=
  seq (satisfy (fun c => (c =? 101) || (c =? 69)))
    (seq (always (optional (satisfy (fun c => (c =? 43) || (c =? 45)))))
       (seq (satisfy is_dec) (always digits))).
Definition number : recogniser :=
  seq int_part (seq (always (optional frac_part)) (always (optional exp_part))).

(** *** Strings *)

Definition is_continuation (b : Z) : bool := Z.land b 0xC0 =? 0x80.

(** A character other than a control character, a double quote and a backslash. *)
Definition codepoint : recogniser := fun bs =>
  match bs with
  | [] => None
  | b :: r =>
      if (b <=? 31) || (b =? 34) || (b =? 92) || is_continuation b then None else
      n ← utf8_len b;
      if (n - 1 <=? zlen r) && forallb is_continuation (ztake (n - 1) r) then Some (zdrop (n - 1) r) else None
  end.

Definition is_simple_escape (c : Z) : bool :=
  (c =? 34) || (c =? 92) || (c =? 47) || (c =? 98) || (c =? 102) || (c =? 110) || (c =? 114) || (c =? 116).

Definition hex4 : recogniser :=
  seq (satisfy is_hex) (seq (satisfy is_hex) (seq (satisfy is_hex) (satisfy is_hex))).

Definition escape : recogniser :=
  seq (expect 92) (alt (satisfy is_simple_escape) (seq (expect 117) hex4)).

Definition chars : bytes -> bytes := many (alt codepoint escape).

(** The part of a text before a rest of it. *)
Definition upto (bs r : bytes) : bytes := ztake (zlen bs - zlen r) bs.

(** The characters between double quotes, and what is left. *)
Definition parse_string (bs : bytes) : option (bytes * bytes) :=
  r ← expect 34 bs;
  r' ← expect 34 (chars r);
  Some (upto r (chars r), r').

(** ** Syntax trees

    The characters of a string are those of the text, escapes included; a number
    is its text and whether it has a fraction or an exponent. *)

Inductive jsyn :=
  | SStr (chars : bytes)
  | SNum (text : bytes) (real : bool)
  | SObj (members : list (bytes * jsyn))
  | SArr (elems : list jsyn)
  | STrue
  | SFalse
  | SNull.

Definition parse_number (bs : bytes) : option (jsyn * bytes) :=
  r1 ← int_part bs;
  let r2 := optional frac_part r1 in
  let r3 := optional exp_part r2 in
  Some (SNum (upto bs r3) (bool_decide (is_Some (frac_part r1)) || bool_decide (is_Some (exp_part r2))), r3).

(** What is left of a text of which a value was read. *)
Abbreviation reader A := (bytes -> option (A * bytes)).

(** One or more items separated by commas; [after] a comma. *)
Fixpoint parse_list {A} (item : reader A) (after : bytes -> bytes) (n : nat) (bs : bytes)
    : option (list A * bytes) :=
  match n with
  | O => None
  | S n =>
      '(x, r) ← item bs;
      match expect 44 r with
      | Some r => '(xs, r) ← parse_list item after n (after r); Some (x :: xs, r)
      | None => Some ([x], r)
      end
  end.

Definition parse_member (value : reader jsyn) : reader (bytes * jsyn) := fun bs =>
  '(k, r) ← parse_string bs;
  r ← expect 58 (skip_ws r);
  '(s, r) ← value r;
  Some (k, s, r).

Definition parse_elems (value : reader jsyn) (bs : bytes) : option (list jsyn * bytes) :=
  parse_list value (fun r => r) (length bs) bs.
Definition parse_members (value : reader jsyn) (bs : bytes) : option (list (bytes * jsyn) * bytes) :=
  parse_list (parse_member value) skip_ws (length bs) bs.

(** Between an opening character and a closing one: nothing or [items]. *)
Definition parse_container {A} (opening closing : Z) (items : reader (list A)) : reader (list A) := fun bs =>
  r ← expect opening bs;
  let r := skip_ws r in
  match expect closing r with
  | Some r => Some ([], r)
  | None => '(xs, r) ← items r; r ← expect closing r; Some (xs, r)
  end.

Definition reader_map {A B} (g : A -> B) (f : reader A) : reader B := fun bs =>
  '(x, r) ← f bs; Some (g x, r).
Definition reader_of {A} (x : A) (f : recogniser) : reader A := fun bs => r ← f bs; Some (x, r).

(** A value: its first character says of which type. *)
Definition parse_item (value : reader jsyn) : reader jsyn := fun bs =>
  match bs with
  | [] => None
  | c :: _ =>
      if c =? 34 then reader_map SStr parse_string bs
      else if c =? 123 then reader_map SObj (parse_container 123 125 (parse_members value)) bs
      else if c =? 91 then reader_map SArr (parse_container 91 93 (parse_elems value)) bs
      else if c =? 116 then reader_of STrue (keyword (GG_STR "true")) bs
      else if c =? 102 then reader_of SFalse (keyword (GG_STR "false")) bs
      else if c =? 110 then reader_of SNull (keyword (GG_STR "null")) bs
      else parse_number bs
  end.

(** A value with the white space around it; [n] bounds the nesting. *)
Fixpoint parse_value (n : nat) (bs : bytes) : option (jsyn * bytes) :=
  match n with
  | O => None
  | S n => '(s, r) ← parse_item (parse_value n) (skip_ws bs); Some (s, skip_ws r)
  end.

(** The nesting is bounded by the length. *)
Definition parse_json (bs : bytes) : option (jsyn * bytes) := parse_value (S (length bs)) bs.

Example parse_json_example :
  parse_json (GG_STR " [1.5e3 , {}, [ ]]x") =
    Some (SArr [SNum (GG_STR "1.5e3") true; SObj []; SArr []], GG_STR "x").
Proof. by vm_compute. Qed.

(** ** Properties of recognisers *)

(** What is left is a part of the text; it is shorter; and a text may be cut
    anywhere after what was recognised. *)
Class Shrinks (f : recogniser) : Prop := shrinks : forall bs r, f bs = Some r -> r `suffix_of` bs.
Class Progress (f : recogniser) : Prop := progress : forall bs r, f bs = Some r -> (length r < length bs)%nat.
Class Cuts (f : recogniser) : Prop := cuts : forall bs k r, f (bs ++ k) = Some (r ++ k) -> f bs = Some r.
Class FailClosed (f : recogniser) : Prop := fail_closed : forall bs k, f (bs ++ k) = None -> f bs = None.

Lemma satisfy_Some q bs r : satisfy q bs = Some r <-> exists c, bs = c :: r /\ q c = true.
Proof.
  unfold satisfy. destruct bs as [|c bs].
  - split; [done|]. by intros (? & ? & _).
  - destruct (q c) eqn:E; split; [intros [= <-]; eauto|intros (c' & [= <- <-] & _); done|done|].
    intros (c' & [= <- <-] & ?). congruence.
Qed.

Lemma expect_Some c bs r : expect c bs = Some r <-> bs = c :: r.
Proof.
  unfold expect. rewrite satisfy_Some. split.
  - intros (c' & -> & ->%Z.eqb_eq). done.
  - intros ->. exists c. by rewrite Z.eqb_refl.
Qed.

Lemma seq_Some f g bs r : seq f g bs = Some r <-> exists t, f bs = Some t /\ g t = Some r.
Proof. unfold seq. destruct (f bs); simpl; naive_solver. Qed.

Lemma suffix_app_inv {A} (r k t : list A) : r ++ k `suffix_of` t -> exists y, t = (y ++ r) ++ k.
Proof. intros [y ->]. exists y. by rewrite <- app_assoc. Qed.

Lemma suffix_len {A} (r t : list A) : r `suffix_of` t -> (length r <= length t)%nat.
Proof. apply suffix_length. Qed.

#[export] Instance satisfy_shrinks q : Shrinks (satisfy q).
Proof. intros bs r (c & -> & _)%satisfy_Some. by exists [c]. Qed.
#[export] Instance satisfy_progress q : Progress (satisfy q).
Proof. intros bs r (c & -> & _)%satisfy_Some. simpl. lia. Qed.
#[export] Instance satisfy_cuts q : Cuts (satisfy q).
Proof.
  intros [|b bs] k r (c & Hc & Hq)%satisfy_Some.
  - apply (f_equal length) in Hc. simpl in Hc. rewrite length_app in Hc. lia.
  - injection Hc as -> ?%app_inv_tail. subst. apply satisfy_Some. eauto.
Qed.
#[export] Instance satisfy_fail q : FailClosed (satisfy q).
Proof. intros [|b bs] k; [done|]. unfold satisfy. cbn. by destruct (q b). Qed.
#[export] Instance expect_shrinks c : Shrinks (expect c).
Proof. apply satisfy_shrinks. Qed.
#[export] Instance expect_progress c : Progress (expect c).
Proof. apply satisfy_progress. Qed.
#[export] Instance expect_cuts c : Cuts (expect c).
Proof. apply satisfy_cuts. Qed.
#[export] Instance expect_fail c : FailClosed (expect c).
Proof. apply satisfy_fail. Qed.

#[export] Instance seq_shrinks f g : Shrinks f -> Shrinks g -> Shrinks (seq f g).
Proof. intros Hf Hg bs r (t & ?%Hf & ?%Hg)%seq_Some. by etrans. Qed.
#[export] Instance seq_progress f g : Progress f -> Shrinks g -> Progress (seq f g).
Proof. intros Hf Hg bs r (t & ?%Hf & ?%Hg%suffix_len)%seq_Some. lia. Qed.
#[export] Instance seq_progress_r f g : Shrinks f -> Progress g -> Progress (seq f g) | 10.
Proof. intros Hf Hg bs r (t & ?%Hf%suffix_len & ?%Hg)%seq_Some. lia. Qed.
#[export] Instance seq_cuts f g : Cuts f -> Cuts g -> Shrinks g -> Cuts (seq f g).
Proof.
  intros Hf Hg Hs bs k r (t & H1 & H2)%seq_Some. pose proof (Hs _ _ H2) as (y & ->)%suffix_app_inv.
  apply seq_Some. exists (y ++ r). split; [by eapply Hf|by eapply Hg].
Qed.
#[export] Instance satisfy_seq_fail q g : FailClosed g -> FailClosed (seq (satisfy q) g).
Proof.
  intros Hg [|b bs] k; [done|]. unfold seq. cbn. destruct (q b); [|done]. apply Hg.
Qed.
#[export] Instance expect_seq_fail c g : FailClosed g -> FailClosed (seq (expect c) g).
Proof. apply satisfy_seq_fail. Qed.

#[export] Instance alt_shrinks f g : Shrinks f -> Shrinks g -> Shrinks (alt f g).
Proof. unfold alt. intros Hf Hg bs r. destruct (f bs) eqn:E; [intros [= <-]; by apply Hf|apply Hg]. Qed.
#[export] Instance alt_progress f g : Progress f -> Progress g -> Progress (alt f g).
Proof. unfold alt. intros Hf Hg bs r. destruct (f bs) eqn:E; [intros [= <-]; by apply Hf|apply Hg]. Qed.
#[export] Instance alt_cuts f g : Cuts f -> FailClosed f -> Cuts g -> Cuts (alt f g).
Proof.
  unfold alt. intros Hf Hff Hg bs k r. destruct (f (bs ++ k)) eqn:E.
  - intros [= ->]. by rewrite (Hf _ _ _ E).
  - rewrite (Hff _ _ E). apply Hg.
Qed.
#[export] Instance alt_fail f g : FailClosed f -> FailClosed g -> FailClosed (alt f g).
Proof.
  unfold alt. intros Hf Hg bs k. destruct (f (bs ++ k)) eqn:E; [done|]. rewrite (Hf _ _ E). apply Hg.
Qed.

#[export] Instance always_fail f : FailClosed (always f).
Proof. done. Qed.

Lemma optional_suffix f bs : Shrinks f -> optional f bs `suffix_of` bs.
Proof. intros Hf. unfold optional. destruct (f bs) eqn:E; [by apply Hf|done]. Qed.
#[export] Instance optional_shrinks f : Shrinks f -> Shrinks (always (optional f)).
Proof. intros Hf bs r [= <-]. by apply optional_suffix. Qed.
Lemma optional_cut f bs k r :
  Cuts f -> FailClosed f -> optional f (bs ++ k) = r ++ k -> optional f bs = r.
Proof.
  unfold optional. intros Hf Hff. destruct (f (bs ++ k)) eqn:E; simpl.
  - intros ->. by rewrite (Hf _ _ _ E).
  - rewrite (Hff _ _ E). by intros ?%app_inv_tail.
Qed.
#[export] Instance optional_cuts f : Cuts f -> FailClosed f -> Cuts (always (optional f)).
Proof. intros Hf Hff bs k r [= H]. unfold always. f_equal. by eapply optional_cut. Qed.
Lemma optional_seq_fail q g :
  FailClosed g -> g [] = None -> FailClosed (seq (always (optional (satisfy q))) g).
Proof.
  intros Hg H0 [|b bs] k; [by intros|]. unfold seq, always, optional. cbn. destruct (q b); cbn.
  - apply Hg.
  - apply (Hg (b :: bs)).
Qed.

(** *** Repetition *)

Lemma many_loop_enough f n bs :
  Progress f -> (length bs <= n)%nat -> many_loop f n bs = many f bs.
Proof.
  intros Hf. assert (forall n k bs, (length bs <= n)%nat -> (length bs <= k)%nat ->
    many_loop f n bs = many_loop f k bs) as H; [|intros; apply H; lia].
  clear n bs. intros n. induction n as [|n IH]; intros k bs Hn Hk.
  - destruct bs; [|simpl in Hn; lia]. destruct k as [|k]; [done|]. cbn.
    destruct (f []) eqn:E; [|done]. apply Hf in E. simpl in E. lia.
  - destruct k as [|k]; cbn.
    + destruct bs; [|simpl in Hk; lia]. destruct (f []) eqn:E; [|done]. apply Hf in E. simpl in E. lia.
    + destruct (f bs) eqn:E; [|done]. apply Hf in E. apply IH; lia.
Qed.

Lemma many_eq f bs :
  Progress f -> many f bs = match f bs with Some r => many f r | None => bs end.
Proof.
  intros Hf. rewrite <- (many_loop_enough f (S (length bs))) by (done || lia). cbn.
  destruct (f bs) eqn:E; [|done]. apply Hf in E. apply many_loop_enough; [done|lia].
Qed.

(** Induction along a repetition. *)
Lemma many_ind f (Hf : Progress f) (P : bytes -> Prop) :
  (forall bs, f bs = None -> P bs) -> (forall bs r, f bs = Some r -> P r -> P bs) -> forall bs, P bs.
Proof.
  intros H0 H1 bs. induction (well_founded_ltof _ length bs) as [bs _ IH]. unfold ltof in IH.
  destruct (f bs) eqn:E; [|by apply H0]. eapply H1; [done|]. apply IH. by eapply Hf.
Qed.

Lemma many_suffix f bs : Progress f -> Shrinks f -> many f bs `suffix_of` bs.
Proof.
  intros Hp Hs. induction bs as [bs E|bs r E IH] using (many_ind f Hp); rewrite many_eq, E by done.
  - done.
  - etrans; [exact IH|]. by apply Hs.
Qed.
#[export] Instance many_shrinks f : Progress f -> Shrinks f -> Shrinks (always (many f)).
Proof. intros Hp Hs bs r [= <-]. by apply many_suffix. Qed.

Lemma many_cut f bs k r :
  Progress f -> Shrinks f -> Cuts f -> FailClosed f -> many f (bs ++ k) = r ++ k -> many f bs = r.
Proof.
  intros Hp Hs Hc Hf. remember (bs ++ k) as x eqn:Hx. revert bs Hx.
  induction x as [x E|x t E IH] using (many_ind f Hp); intros bs ->; rewrite many_eq, E by done.
  - intros ->%app_inv_tail. apply Hf in E. by rewrite many_eq, E.
  - intros H. assert (r ++ k `suffix_of` t) as (y & ->)%suffix_app_inv by (rewrite <- H; by apply many_suffix).
    apply Hc in E. rewrite many_eq, E by done. by apply IH.
Qed.
#[export] Instance many_cuts f :
  Progress f -> Shrinks f -> Cuts f -> FailClosed f -> Cuts (always (many f)).
Proof. intros ???? bs k r [= H]. unfold always. f_equal. by eapply many_cut. Qed.

(** *** The recognisers of the grammar *)

Lemma codepoint_Some bs r :
  codepoint bs = Some r <->
  exists b t n, bs = b :: t /\ 31 < b /\ b <> 34 /\ b <> 92 /\ is_continuation b = false /\
    utf8_len b = Some n /\ n - 1 <= zlen t /\ forallb is_continuation (ztake (n - 1) t) = true /\
    r = zdrop (n - 1) t.
Proof.
  unfold codepoint. destruct bs as [|b t].
  { split; [done|]. by intros (? & ? & ? & ? & _). }
  split.
  - case_if; [done|]. destruct (utf8_len b) as [n|] eqn:Hu; [|done]. cbn [mbind option_bind].
    case_if; [|done]. intros [= <-]. exists b, t, n. split_and!; try done; lia.
  - intros (b' & t' & n & [= <- <-] & H1 & H2 & H3 & H4 & H5 & H6 & H7 & ->).
    rewrite (proj2 (Z.leb_gt _ _)), (proj2 (Z.eqb_neq _ _)), (proj2 (Z.eqb_neq b 92)), H4 by lia.
    cbn [orb]. rewrite H5. cbn [mbind option_bind]. by rewrite (proj2 (Z.leb_le _ _)), H7 by lia.
Qed.

#[export] Instance codepoint_shrinks : Shrinks codepoint.
Proof.
  intros bs r (b & t & n & -> & _ & _ & _ & _ & _ & _ & _ & ->)%codepoint_Some.
  exists (b :: ztake (n - 1) t). simpl. by rewrite ztake_zdrop.
Qed.
#[export] Instance codepoint_progress : Progress codepoint.
Proof.
  intros bs r (b & t & n & -> & _ & _ & _ & _ & _ & _ & _ & ->)%codepoint_Some.
  unfold zdrop. rewrite length_drop. simpl. lia.
Qed.
#[export] Instance codepoint_cuts : Cuts codepoint.
Proof.
  intros bs k r (b & t & n & E & H1 & H2 & H3 & H4 & Hu & H5 & H6 & H7)%codepoint_Some.
  pose proof (utf8_len_range _ _ Hu). pose proof (f_equal zlen H7) as Hl.
  destruct bs as [|b' bs].
  { cbn [app] in E. subst k. zlen_lia. }
  injection E as -> <-. rewrite zdrop_app_le in H7 by zlen_lia. apply app_inv_tail in H7. subst r.
  rewrite ztake_app_le in H6 by zlen_lia. apply codepoint_Some. exists b, bs, n. split_and!; try done. zlen_lia.
Qed.
#[export] Instance codepoint_fail : FailClosed codepoint.
Proof.
  intros bs k H. destruct (codepoint bs) as [r|] eqn:E; [|done].
  apply codepoint_Some in E as (b & t & n & -> & H1 & H2 & H3 & H4 & Hu & H5 & H6 & H7).
  pose proof (utf8_len_range _ _ Hu).
  assert (codepoint ((b :: t) ++ k) = Some (zdrop (n - 1) t ++ k)) as H'; [|congruence].
  apply codepoint_Some. exists b, (t ++ k), n. rewrite zdrop_app_le, ztake_app_le by lia.
  split_and!; try done. zlen_lia.
Qed.

#[export] Instance hex4_shrinks : Shrinks hex4.
Proof. unfold hex4. apply _. Qed.
#[export] Instance hex4_progress : Progress hex4.
Proof. unfold hex4. apply _. Qed.
#[export] Instance hex4_cuts : Cuts hex4.
Proof. unfold hex4. apply _. Qed.
#[export] Instance hex4_fail : FailClosed hex4.
Proof. unfold hex4. apply _. Qed.
#[export] Instance escape_shrinks : Shrinks escape.
Proof. unfold escape. apply _. Qed.
#[export] Instance escape_progress : Progress escape.
Proof. unfold escape. apply _. Qed.
#[export] Instance escape_cuts : Cuts escape.
Proof. unfold escape. apply _. Qed.
#[export] Instance escape_fail : FailClosed escape.
Proof. unfold escape. apply _. Qed.

#[export] Instance digits_shrinks : Shrinks (always digits).
Proof. unfold digits. apply _. Qed.
#[export] Instance digits_cuts : Cuts (always digits).
Proof. unfold digits. apply _. Qed.
#[export] Instance int_part_shrinks : Shrinks int_part.
Proof. unfold int_part. apply _. Qed.
#[export] Instance int_part_progress : Progress int_part.
Proof. unfold int_part. apply _. Qed.
#[export] Instance int_part_cuts : Cuts int_part.
Proof. unfold int_part. apply _. Qed.
#[export] Instance frac_part_shrinks : Shrinks frac_part.
Proof. unfold frac_part. apply _. Qed.
#[export] Instance frac_part_cuts : Cuts frac_part.
Proof. unfold frac_part. apply _. Qed.
#[export] Instance frac_part_fail : FailClosed frac_part.
Proof. unfold frac_part. apply _. Qed.
#[export] Instance exp_part_shrinks : Shrinks exp_part.
Proof. unfold exp_part. apply _. Qed.
#[export] Instance exp_part_cuts : Cuts exp_part.
Proof. unfold exp_part. apply _. Qed.
#[export] Instance exp_part_fail : FailClosed exp_part.
Proof. unfold exp_part. apply satisfy_seq_fail, optional_seq_fail; [apply _|done]. Qed.

Lemma skip_ws_suffix bs : skip_ws bs `suffix_of` bs.
Proof. apply many_suffix; apply _. Qed.
Lemma skip_ws_cut bs k r : skip_ws (bs ++ k) = r ++ k -> skip_ws bs = r.
Proof. apply many_cut; apply _. Qed.
Lemma chars_suffix bs : chars bs `suffix_of` bs.
Proof. apply many_suffix; apply _. Qed.
Lemma chars_cut bs k r : chars (bs ++ k) = r ++ k -> chars bs = r.
Proof. apply many_cut; apply _. Qed.

Lemma upto_app x r : upto (x ++ r) r = x.
Proof. unfold upto. rewrite zlen_app. apply ztake_app_exact. lia. Qed.

Lemma upto_suffix bs r : r `suffix_of` bs -> bs = upto bs r ++ r.
Proof. intros [x ->]. by rewrite upto_app. Qed.

(** The same properties for readers of values. *)
Definition reads_shorter {A} (f : reader A) : Prop :=
  forall bs x r, f bs = Some (x, r) -> r `suffix_of` bs /\ (length r < length bs)%nat.
Definition reads_cut {A} (f : reader A) : Prop :=
  forall bs k x r, f (bs ++ k) = Some (x, r ++ k) -> f bs = Some (x, r).

Lemma parse_string_Some bs raw r :
  parse_string bs = Some (raw, r) <-> bs = 34 :: raw ++ 34 :: r /\ chars (raw ++ 34 :: r) = 34 :: r.
Proof.
  unfold parse_string. split.
  - intros H. destruct (expect 34 bs) as [t|] eqn:E1; [|done]. apply expect_Some in E1 as ->.
    cbn [mbind option_bind] in H. destruct (expect 34 (chars t)) as [r'|] eqn:E2; [|done].
    apply expect_Some in E2. cbn [mbind option_bind] in H. injection H as <- <-.
    pose proof (upto_suffix _ _ (chars_suffix t)) as Ht. rewrite E2 in *. by rewrite <- Ht.
  - intros [-> Hc]. rewrite (proj2 (expect_Some _ _ _) eq_refl). cbn [mbind option_bind]. rewrite Hc.
    rewrite (proj2 (expect_Some _ _ _) eq_refl). cbn [mbind option_bind]. by rewrite upto_app.
Qed.

Lemma parse_string_shorter : reads_shorter parse_string.
Proof.
  intros bs raw r [-> _]%parse_string_Some. split; [|simpl; rewrite length_app; simpl; lia].
  exists (34 :: raw ++ [34]). simpl. by rewrite <- app_assoc.
Qed.

Lemma parse_string_cut : reads_cut parse_string.
Proof.
  intros bs k raw r [E Hc]%parse_string_Some.
  assert (bs = 34 :: raw ++ 34 :: r) as ->.
  { apply (app_inv_tail k). rewrite E. simpl. by rewrite <- app_assoc. }
  apply parse_string_Some. split; [done|]. apply (chars_cut _ k). by rewrite <- app_assoc.
Qed.

Lemma parse_number_shorter : reads_shorter parse_number.
Proof.
  unfold parse_number. intros bs x r H. destruct (int_part bs) as [r1|] eqn:E; [|done].
  cbn [mbind option_bind] in H. injection H as _ <-.
  pose proof (optional_suffix frac_part r1 _) as H2.
  pose proof (optional_suffix exp_part (optional frac_part r1) _) as H3.
  pose proof (int_part_shrinks _ _ E). pose proof (int_part_progress _ _ E).
  pose proof (suffix_len _ _ H2). pose proof (suffix_len _ _ H3). split; [by repeat (etrans; [eassumption|])|lia].
Qed.

Lemma optional_cut_case f r k : Cuts f -> FailClosed f -> Shrinks f ->
  k `suffix_of` optional f (r ++ k) ->
  optional f (r ++ k) = optional f r ++ k /\
  bool_decide (is_Some (f (r ++ k))) = bool_decide (is_Some (f r)).
Proof.
  unfold optional. intros Hc Hf Hs. destruct (f (r ++ k)) as [t|] eqn:E; simpl.
  - intros [y ->]. rewrite (Hc _ _ _ E). done.
  - intros _. by rewrite (Hf _ _ E).
Qed.

Lemma parse_number_cut : reads_cut parse_number.
Proof.
  unfold parse_number. intros bs k x r H. destruct (int_part (bs ++ k)) as [t|] eqn:E; [|done].
  cbn [mbind option_bind] in H. injection H as <- Hr.
  set (r2 := optional frac_part t) in *. pose proof (optional_suffix exp_part r2 _) as H3. rewrite Hr in H3.
  apply suffix_app_inv in H3 as (y2 & Hy2). pose proof (optional_suffix frac_part t _) as H2. fold r2 in H2.
  rewrite Hy2 in H2. apply suffix_app_inv in H2 as (y1 & Hy1). subst t. rewrite (int_part_cuts _ _ _ E).
  cbn [mbind option_bind]. destruct (optional_cut_case frac_part (y1 ++ y2 ++ r) k) as [Ho Hb]; [apply _..| |].
  { fold r2. rewrite Hy2. by exists (y2 ++ r). }
  fold r2 in Ho. rewrite Hy2 in Ho. apply app_inv_tail in Ho. rewrite <- Ho.
  rewrite Hy2 in Hr. destruct (optional_cut_case exp_part (y2 ++ r) k) as [Ho' Hb']; [apply _..| |].
  { rewrite Hr. by exists r. }
  rewrite Hr in Ho'. apply app_inv_tail in Ho'. rewrite <- Ho'. rewrite Hb, <- Hb', <- Hy2, Hy2.
  do 3 f_equal. unfold upto. rewrite Hr, !zlen_app.
  replace (zlen bs + zlen k - (zlen r + zlen k)) with (zlen bs - zlen r) by lia.
  apply int_part_shrinks in E as [y0 E].
  assert (bs = y0 ++ y1 ++ y2 ++ r) as ->.
  { apply (app_inv_tail k). rewrite E, <- !app_assoc. done. }
  symmetry. apply ztake_app_le. zlen_lia.
Qed.

(** *** Lists of items *)

Section items.
Context {A : Type} (item : reader A) (after : bytes -> bytes).
Context (item_shorter : reads_shorter item) (after_suffix : forall bs, after bs `suffix_of` bs).

Lemma parse_list_shorter n : reads_shorter (parse_list item after n).
Proof using item_shorter after_suffix.
  induction n as [|n IH]; intros bs xs r H; [done|]. cbn [parse_list] in H.
  destruct (item bs) as [[x r1]|] eqn:E; [|done]. cbn [mbind option_bind] in H.
  destruct (item_shorter _ _ _ E) as [Hs Hl]. destruct (expect 44 r1) as [r2|] eqn:E2; [|by simplify_eq].
  apply expect_Some in E2 as ->. destruct (parse_list item after n (after r2)) as [[ys r3]|] eqn:E3; [|done].
  cbn [mbind option_bind] in H. injection H as _ <-. destruct (IH _ _ _ E3) as [Hs3 Hl3].
  pose proof (suffix_len _ _ (after_suffix r2)). simpl in Hl. split; [|lia].
  etrans; [exact Hs3|]. etrans; [apply after_suffix|]. etrans; [|exact Hs]. by exists [44].
Qed.

Lemma parse_list_enough n k bs :
  (length bs <= n)%nat -> (length bs <= k)%nat -> parse_list item after n bs = parse_list item after k bs.
Proof using item_shorter after_suffix.
  assert (item [] = None) as H0.
  { destruct (item []) as [[x r]|] eqn:E; [|done]. apply item_shorter in E as [_ E]. simpl in E. lia. }
  revert k bs. induction n as [|n IH]; intros k bs Hn Hk.
  { destruct bs; [|simpl in Hn; lia]. destruct k; [done|]. cbn. by rewrite H0. }
  destruct k as [|k].
  { destruct bs; [|simpl in Hk; lia]. cbn. by rewrite H0. }
  cbn [parse_list]. destruct (item bs) as [[x r1]|] eqn:E; [|done]. cbn [mbind option_bind].
  destruct (item_shorter _ _ _ E) as [_ Hl]. destruct (expect 44 r1) as [r2|] eqn:E2; [|done].
  apply expect_Some in E2 as ->. pose proof (suffix_len _ _ (after_suffix r2)). simpl in Hl.
  rewrite (IH k (after r2)) by lia. done.
Qed.

Lemma parse_list_cut n :
  reads_cut item -> (forall bs k r, after (bs ++ k) = r ++ k -> after bs = r) ->
  reads_cut (parse_list item after n).
Proof using item_shorter after_suffix.
  intros Hcut Hafter. induction n as [|n IH]; intros bs k xs r H; [done|]. cbn [parse_list] in *.
  destruct (item (bs ++ k)) as [[x r1]|] eqn:E; [|done]. cbn [mbind option_bind] in H.
  destruct (expect 44 r1) as [r2|] eqn:E2.
  - destruct (parse_list item after n (after r2)) as [[ys r3]|] eqn:E3; [|done].
    cbn [mbind option_bind] in H. injection H as <- ->.
    destruct (parse_list_shorter n _ _ _ E3) as [(y & Hy)%suffix_app_inv _].
    pose proof (after_suffix r2) as Hs. rewrite Hy in Hs. apply suffix_app_inv in Hs as (z & ->).
    rewrite Hy in E3. apply Hafter in Hy. rewrite app_assoc in E2. apply expect_Some in E2 as ->.
    rewrite (Hcut bs k x (44 :: (z ++ y) ++ r) E). cbn [mbind option_bind].
    rewrite (proj2 (expect_Some _ _ _) eq_refl), <- app_assoc, Hy. by rewrite (IH _ _ _ _ E3).
  - injection H as <- ->. rewrite (Hcut _ _ _ _ E). cbn [mbind option_bind].
    by rewrite (expect_fail _ _ _ E2).
Qed.

Lemma parse_list_ext (item' : reader A) n bs :
  (forall x, (length x <= length bs)%nat -> item x = item' x) ->
  parse_list item after n bs = parse_list item' after n bs.
Proof using item_shorter after_suffix.
  revert bs. induction n as [|n IH]; intros bs He; [done|]. cbn [parse_list]. rewrite <- He by lia.
  destruct (item bs) as [[x r1]|] eqn:E; [|done]. cbn [mbind option_bind].
  destruct (item_shorter _ _ _ E) as [_ Hl]. destruct (expect 44 r1) as [r2|] eqn:E2; [|done].
  apply expect_Some in E2 as ->. pose proof (suffix_len _ _ (after_suffix r2)). simpl in Hl.
  rewrite IH; [done|]. intros x' Hx. apply He. lia.
Qed.
End items.

Lemma reader_map_shorter {A B} (g : A -> B) f : reads_shorter f -> reads_shorter (reader_map g f).
Proof.
  unfold reader_map. intros Hf bs y r H. destruct (f bs) as [[x r']|] eqn:E; [|done].
  cbn in H. injection H as _ <-. by eapply Hf.
Qed.

Lemma reader_map_cut {A B} (g : A -> B) f : reads_cut f -> reads_cut (reader_map g f).
Proof.
  unfold reader_map. intros Hf bs k y r H. destruct (f (bs ++ k)) as [[x r']|] eqn:E; [|done].
  cbn in H. injection H as <- ->. by rewrite (Hf _ _ _ _ E).
Qed.

Lemma reader_of_shorter {A} (x : A) f : Shrinks f -> Progress f -> reads_shorter (reader_of x f).
Proof.
  unfold reader_of. intros Hs Hp bs y r H. destruct (f bs) as [r'|] eqn:E; [|done].
  cbn in H. injection H as _ <-. split; [by apply Hs|by apply Hp].
Qed.

Lemma reader_of_cut {A} (x : A) f : Cuts f -> reads_cut (reader_of x f).
Proof.
  unfold reader_of. intros Hf bs k y r H. destruct (f (bs ++ k)) as [r'|] eqn:E; [|done].
  cbn in H. injection H as <- ->. by rewrite (Hf _ _ _ E).
Qed.

Lemma keyword_Some str bs r : keyword str bs = Some r <-> bs = str ++ r.
Proof.
  unfold keyword. split.
  - case_bool_decide as Hs; [|done]. intros [= <-]. by rewrite <- Hs at 1; rewrite ztake_zdrop.
  - intros ->. rewrite ztake_app_exact, bool_decide_true by done. by rewrite zdrop_app_exact.
Qed.
#[export] Instance keyword_shrinks str : Shrinks (keyword str).
Proof. intros bs r ->%keyword_Some. by exists str. Qed.
#[export] Instance keyword_cuts str : Cuts (keyword str).
Proof. intros bs k r H%keyword_Some. rewrite app_assoc in H. apply app_inv_tail in H as ->. by apply keyword_Some. Qed.
Lemma keyword_progress c str : Progress (keyword (c :: str)).
Proof. intros bs r ->%keyword_Some. simpl. rewrite length_app. lia. Qed.

Section value.
Context (value : reader jsyn) (value_shorter : reads_shorter value).

Lemma parse_member_shorter : reads_shorter (parse_member value).
Proof using value_shorter.
  unfold parse_member. intros bs kv r H. destruct (parse_string bs) as [[k r1]|] eqn:E1; [|done].
  cbn [mbind option_bind] in H. apply parse_string_shorter in E1 as [Hs1 Hl1].
  pose proof (skip_ws_suffix r1) as Hs2. destruct (expect 58 (skip_ws r1)) as [r2|] eqn:E2; [|done].
  cbn [mbind option_bind] in H. apply expect_Some in E2. rewrite E2 in Hs2.
  destruct (value r2) as [[s r3]|] eqn:E3; [|done]. cbn in H. injection H as _ <-.
  apply value_shorter in E3 as [Hs3 Hl3]. pose proof (suffix_len _ _ Hs2). simpl in *. split; [|lia].
  etrans; [exact Hs3|]. etrans; [|exact Hs1]. etrans; [|exact Hs2]. by exists [58].
Qed.

Lemma parse_member_cut : reads_cut value -> reads_cut (parse_member value).
Proof using value_shorter.
  unfold parse_member. intros Hcut bs k kv r H. destruct (parse_string (bs ++ k)) as [[key r1]|] eqn:E1; [|done].
  cbn [mbind option_bind] in H. destruct (expect 58 (skip_ws r1)) as [r2|] eqn:E2; [|done].
  cbn [mbind option_bind] in H. apply expect_Some in E2.
  destruct (value r2) as [[s r3]|] eqn:E3; [|done]. cbn in H. injection H as <- ->.
  destruct (value_shorter _ _ _ E3) as [(y & ->)%suffix_app_inv _]. rewrite <- app_assoc, app_assoc in E3.
  apply Hcut in E3. pose proof (skip_ws_suffix r1) as Hs. rewrite E2 in Hs.
  apply (suffix_app_inv (58 :: y ++ r)) in Hs as (z & ->).
  rewrite (parse_string_cut _ _ _ _ E1). cbn [mbind option_bind].
  rewrite (skip_ws_cut _ k (58 :: y ++ r)) by exact E2.
  rewrite (proj2 (expect_Some _ _ _) eq_refl). cbn [mbind option_bind]. by rewrite E3.
Qed.

Lemma parse_members_shorter : reads_shorter (parse_members value).
Proof using value_shorter.
  intros bs. apply parse_list_shorter; [apply parse_member_shorter|apply skip_ws_suffix].
Qed.

Lemma parse_elems_shorter : reads_shorter (parse_elems value).
Proof using value_shorter. intros bs. by apply parse_list_shorter. Qed.

(** A list is cut with the number of iterations that the longer text takes. *)
Lemma parse_list_cut_enough {A} (item : reader A) after bs k xs r :
  reads_shorter item -> (forall bs, after bs `suffix_of` bs) -> reads_cut item ->
  (forall bs k r, after (bs ++ k) = r ++ k -> after bs = r) ->
  parse_list item after (length (bs ++ k)) (bs ++ k) = Some (xs, r ++ k) ->
  parse_list item after (length bs) bs = Some (xs, r).
Proof.
  intros Hs Ha Hc Hac H. apply parse_list_cut in H; [|done..].
  rewrite <- H. apply parse_list_enough; [done|done|lia|]. rewrite length_app. lia.
Qed.

Lemma parse_members_cut : reads_cut value -> reads_cut (parse_members value).
Proof using value_shorter.
  intros Hcut bs k xs r. apply parse_list_cut_enough.
  - apply parse_member_shorter.
  - apply skip_ws_suffix.
  - by apply parse_member_cut.
  - apply skip_ws_cut.
Qed.

Lemma parse_elems_cut : reads_cut value -> reads_cut (parse_elems value).
Proof using value_shorter.
  intros Hcut bs k xs r. apply parse_list_cut_enough; try done. by intros ??? ?%app_inv_tail.
Qed.
End value.

Lemma parse_container_Some {A} opening closing (items : reader (list A)) bs xs r :
  reads_shorter items ->
  parse_container opening closing items bs = Some (xs, r) ->
  exists w c, bs = opening :: w ++ c ++ closing :: r /\ skip_ws (w ++ c ++ closing :: r) = c ++ closing :: r /\
    ((c = [] /\ xs = []) \/
     (expect closing (c ++ closing :: r) = None /\ items (c ++ closing :: r) = Some (xs, closing :: r))).
Proof.
  unfold parse_container. intros Hs H. destruct (expect opening bs) as [r1|] eqn:E1; [|done].
  apply expect_Some in E1 as ->. cbn [mbind option_bind] in H. destruct (skip_ws_suffix r1) as [w Hw].
  set (r2 := skip_ws r1) in *. exists w. destruct (expect closing r2) as [r3|] eqn:E2.
  - apply expect_Some in E2. injection H as <- <-. exists []. simpl. rewrite <- E2, <- Hw. eauto.
  - destruct (items r2) as [[ys r3]|] eqn:E3; [|done]. cbn [mbind option_bind] in H.
    destruct (expect closing r3) as [r4|] eqn:E4; [|done]. apply expect_Some in E4 as ->.
    cbn [mbind option_bind] in H. injection H as <- <-. destruct (Hs _ _ _ E3) as [[c Hc] _].
    exists c. rewrite <- Hc, <- Hw. eauto.
Qed.

Lemma parse_container_shorter {A} opening closing (items : reader (list A)) :
  reads_shorter items -> reads_shorter (parse_container opening closing items).
Proof.
  intros Hs bs xs r (w & c & -> & _ & _)%parse_container_Some; [|done]. split.
  - exists (opening :: w ++ c ++ [closing]). simpl. by rewrite <- !app_assoc.
  - simpl. rewrite !length_app. simpl. lia.
Qed.

Lemma parse_container_cut {A} opening closing (items : reader (list A)) :
  reads_shorter items -> reads_cut items -> reads_cut (parse_container opening closing items).
Proof.
  intros Hs Hc bs k xs r H.
  destruct (parse_container_Some _ _ _ _ _ _ Hs H) as (w & c & E & Hw & Hitems).
  assert (bs = opening :: w ++ c ++ closing :: r) as ->.
  { apply (app_inv_tail k). rewrite E. simpl. by rewrite <- !app_assoc. }
  unfold parse_container. rewrite (proj2 (expect_Some _ _ _) eq_refl). cbn [mbind option_bind].
  rewrite (skip_ws_cut _ k (c ++ closing :: r)) by (rewrite <- !app_assoc; exact Hw).
  destruct Hitems as [[-> ->]|[E1 E2]].
  - cbn [app]. by rewrite (proj2 (expect_Some _ _ _) eq_refl).
  - change (c ++ closing :: r ++ k) with (c ++ (closing :: r) ++ k) in E1, E2. rewrite app_assoc in E1, E2.
    rewrite (expect_fail _ _ _ E1). rewrite (Hc _ k xs (closing :: r) E2). cbn [mbind option_bind].
    by rewrite (proj2 (expect_Some _ _ _) eq_refl).
Qed.

Lemma parse_container_ext {A} opening closing (items items' : reader (list A)) bs :
  (forall x, (length x < length bs)%nat -> items x = items' x) ->
  parse_container opening closing items bs = parse_container opening closing items' bs.
Proof.
  intros He. unfold parse_container. destruct (expect opening bs) as [r|] eqn:E; [|done].
  cbn [mbind option_bind]. apply expect_Some in E as ->. pose proof (suffix_len _ _ (skip_ws_suffix r)).
  rewrite He; [done|]. simpl. lia.
Qed.

Section value.
Context (value : reader jsyn) (value_shorter : reads_shorter value).

Lemma parse_item_shorter : reads_shorter (parse_item value).
Proof using value_shorter.
  intros bs s r. destruct bs as [|c bs]; [done|]. cbn [parse_item].
  repeat (case_if; [apply reader_map_shorter + apply reader_of_shorter|]).
  - apply parse_string_shorter.
  - apply parse_container_shorter. by apply parse_members_shorter.
  - apply parse_container_shorter. by apply parse_elems_shorter.
  - apply _.
  - apply keyword_progress.
  - apply _.
  - apply keyword_progress.
  - apply _.
  - apply keyword_progress.
  - apply parse_number_shorter.
Qed.

Lemma parse_item_cut : reads_cut value -> reads_cut (parse_item value).
Proof using value_shorter.
  intros Hcut bs k s r H. destruct bs as [|c bs].
  { apply parse_item_shorter in H as [_ H]. simpl in H. rewrite length_app in H. lia. }
  cbn [parse_item app] in *. change (c :: bs ++ k) with ((c :: bs) ++ k) in H.
  repeat (case_if; [eapply reader_map_cut + eapply reader_of_cut; [|exact H]|]); try apply _.
  - apply parse_string_cut.
  - apply parse_container_cut; [by apply parse_members_shorter|by apply parse_members_cut].
  - apply parse_container_cut; [by apply parse_elems_shorter|by apply parse_elems_cut].
  - by eapply parse_number_cut.
Qed.

Lemma parse_item_ext value' bs :
  (forall x, (length x < length bs)%nat -> value x = value' x) -> parse_item value bs = parse_item value' bs.
Proof using value_shorter.
  intros He. destruct bs as [|c bs]; [done|]. cbn [parse_item]. unfold reader_map.
  rewrite (parse_container_ext 123 125 (parse_members value) (parse_members value')).
  2:{ intros x Hx. apply parse_list_ext; [by apply parse_member_shorter|apply skip_ws_suffix|].
      intros y Hy. unfold parse_member. destruct (parse_string y) as [[k r1]|] eqn:E1; [|done].
      cbn [mbind option_bind]. apply parse_string_shorter in E1 as [_ H1].
      destruct (expect 58 (skip_ws r1)) as [r2|] eqn:E2; [|done]. apply expect_Some in E2.
      pose proof (suffix_len _ _ (skip_ws_suffix r1)) as H2. rewrite E2 in H2. simpl in H2.
      cbn [mbind option_bind]. by rewrite He by lia. }
  rewrite (parse_container_ext 91 93 (parse_elems value) (parse_elems value')); [done|].
  intros x Hx. apply parse_list_ext; [done..|]. intros y Hy. apply He. lia.
Qed.
End value.

Lemma parse_value_shorter n : reads_shorter (parse_value n).
Proof.
  induction n as [|n IH]; intros bs s r H; [done|]. cbn [parse_value] in H.
  destruct (parse_item (parse_value n) (skip_ws bs)) as [[s' r']|] eqn:E; [|done]. cbn in H.
  injection H as _ <-. apply (parse_item_shorter _ IH) in E as [Hs Hl].
  pose proof (skip_ws_suffix bs) as Hb. pose proof (suffix_len _ _ Hb).
  pose proof (suffix_len _ _ (skip_ws_suffix r')). split; [|lia].
  etrans; [apply skip_ws_suffix|]. by etrans.
Qed.

Lemma parse_value_cut n : reads_cut (parse_value n).
Proof.
  induction n as [|n IH]; intros bs k s r H; [done|]. cbn [parse_value] in *.
  destruct (parse_item (parse_value n) (skip_ws (bs ++ k))) as [[s' r']|] eqn:E; [|done]. cbn in H.
  injection H as <- Hr. pose proof (skip_ws_suffix r') as Hs. rewrite Hr in Hs.
  apply suffix_app_inv in Hs as (y & ->). apply skip_ws_cut in Hr.
  destruct (parse_item_shorter _ (parse_value_shorter n) _ _ _ E) as [(z & Hz)%suffix_app_inv _].
  rewrite Hz in E. apply skip_ws_cut in Hz. rewrite Hz.
  apply (parse_item_cut _ (parse_value_shorter n) IH) in E. rewrite E. cbn. by rewrite Hr.
Qed.

Lemma parse_value_enough n k bs :
  (length bs < n)%nat -> (length bs < k)%nat -> parse_value n bs = parse_value k bs.
Proof.
  revert k bs. induction n as [|n IH]; intros k bs Hn Hk; [lia|]. destruct k as [|k]; [lia|].
  cbn [parse_value]. pose proof (suffix_len _ _ (skip_ws_suffix bs)).
  rewrite (parse_item_ext _ (parse_value_shorter n) (parse_value k)); [done|].
  intros x Hx. apply IH; lia.
Qed.

Lemma parse_json_enough n bs : (length bs < n)%nat -> parse_value n bs = parse_json bs.
Proof. intros. apply parse_value_enough; lia. Qed.

(** *** The equation of [parse_json] *)

Lemma parse_json_eq bs :
  parse_json bs = '(s, r) ← parse_item parse_json (skip_ws bs); Some (s, skip_ws r).
Proof.
  unfold parse_json at 1. cbn [parse_value]. pose proof (suffix_len _ _ (skip_ws_suffix bs)).
  rewrite (parse_item_ext _ (parse_value_shorter _) parse_json); [done|].
  intros x Hx. apply parse_json_enough. lia.
Qed.

Lemma parse_json_shorter : reads_shorter parse_json.
Proof. intros bs. apply parse_value_shorter. Qed.

Lemma parse_json_cut : reads_cut parse_json.
Proof.
  intros bs k s r H. unfold parse_json in H. apply parse_value_cut in H.
  rewrite parse_json_enough in H; [done|]. rewrite length_app. lia.
Qed.

Lemma parse_json_Some bs s r :
  parse_json bs = Some (s, r) <->
  exists r', parse_item parse_json (skip_ws bs) = Some (s, r') /\ r = skip_ws r'.
Proof.
  rewrite parse_json_eq. destruct (parse_item _ _) as [[s' r']|]; simpl; naive_solver.
Qed.
