(* ===== verification/JsonAccept.v ===== *)
(** The combinators of [src/json_decode.c] accept the texts of the grammar:
    a call of a parser, given enough fuel, gives what the reference parser of
    [JsonGrammar.v] gives, and reports the type, the content and the number of
    elements of the value. *)

From S2P Require Import Prelude Memory Buffer JsonParse JsonGrammar.

(** ** More fuel *)

Definition call_le (c1 c2 : pcall) : Prop := forall p b o r, c1 p b o = Some r -> c2 p b o = Some r.

Section monotone.
Context (c1 c2 : pcall) (Hle : call_le c1 c2).

(** Takes the first call of [c1] in [H] over to [c2]. *)
Ltac move_call H :=
  lazymatch type of H with
  | context [c1 ?p ?b ?o] =>
      let Ec := fresh "Ec" in
      destruct (c1 p b o) as [[[? ?] ?]|] eqn:Ec; [|done];
      rewrite (Hle _ _ _ _ Ec); cbn [mbind option_bind] in *
  end.

Lemma one_of_mono ps b o r : comb_one_of_fn c1 ps b o = Some r -> comb_one_of_fn c2 ps b o = Some r.
Proof using Hle.
  revert b o. induction ps as [|p ps IH]; intros b o H; [done|]. cbn [comb_one_of_fn] in *. move_call H.
  case_match; [done|]. by apply IH.
Qed.

Lemma sequence_loop_mono ps b o r : sequence_loop c1 ps b o = Some r -> sequence_loop c2 ps b o = Some r.
Proof using Hle.
  revert b o. induction ps as [|p ps IH]; intros b o H; [done|]. cbn [sequence_loop] in *. move_call H.
  case_match; [done|]. by apply IH.
Qed.

Lemma sequence_mono ps b o r : comb_sequence_fn c1 ps b o = Some r -> comb_sequence_fn c2 ps b o = Some r.
Proof using Hle.
  unfold comb_sequence_fn. intros H. destruct (sequence_loop c1 ps b o) as [[[? ?] ?]|] eqn:E; [|done].
  by rewrite (sequence_loop_mono _ _ _ _ E).
Qed.

Lemma zero_or_more_mono p b o r :
  comb_zero_or_more_fn c1 p b o = Some r -> comb_zero_or_more_fn c2 p b o = Some r.
Proof using Hle. unfold comb_zero_or_more_fn. intros H. move_call H. case_match; [by apply Hle|done]. Qed.

Lemma maybe_mono p b o r : comb_maybe_fn c1 p b o = Some r -> comb_maybe_fn c2 p b o = Some r.
Proof using Hle. unfold comb_maybe_fn. intros H. by move_call H. Qed.

Lemma nested_mono p b o r : comb_nested_fn c1 p b o = Some r -> comb_nested_fn c2 p b o = Some r.
Proof using Hle. unfold comb_nested_fn. intros H. by move_call H. Qed.

Lemma result_val_mono t p b o r :
  comb_result_val_fn c1 t p b o = Some r -> comb_result_val_fn c2 t p b o = Some r.
Proof using Hle. unfold comb_result_val_fn. intros H. by move_call H. Qed.

Lemma increment_count_mono p b o r :
  comb_increment_count_fn c1 p b o = Some r -> comb_increment_count_fn c2 p b o = Some r.
Proof using Hle. unfold comb_increment_count_fn. intros H. by move_call H. Qed.
End monotone.

(** The equations of [parser_call]. *)
Lemma parser_call_eqs m n b o :
  (forall ps, parser_call m (S n) (COMB_ONE_OF ps) b o = comb_one_of_fn (parser_call m n) ps b o) /\
  (forall ps, parser_call m (S n) (COMB_SEQUENCE ps) b o = comb_sequence_fn (parser_call m n) ps b o) /\
  (forall p, parser_call m (S n) (COMB_ZERO_OR_MORE p) b o = comb_zero_or_more_fn (parser_call m n) p b o) /\
  (forall p, parser_call m (S n) (COMB_MAYBE p) b o = comb_maybe_fn (parser_call m n) p b o) /\
  (forall p, parser_call m (S n) (COMB_NESTED p) b o = comb_nested_fn (parser_call m n) p b o) /\
  (forall t p, parser_call m (S n) (COMB_RESULT_VAL t p) b o = comb_result_val_fn (parser_call m n) t p b o) /\
  (forall p, parser_call m (S n) (COMB_INCREMENT_COUNT p) b o =
     comb_increment_count_fn (parser_call m n) p b o) /\
  parser_call m (S n) FORWARD_JSON_VALUE b o = parser_call m n PARSER_JSON_VALUE b o.
Proof. by split_and!. Qed.

Lemma parser_call_S m n : call_le (parser_call m n) (parser_call m (S n)).
Proof.
  induction n as [|n IH]; intros p b o r H; [done|].
  destruct (parser_call_eqs m n b o) as (E1 & E2 & E3 & E4 & E5 & E6 & E7 & E8).
  destruct (parser_call_eqs m (S n) b o) as (F1 & F2 & F3 & F4 & F5 & F6 & F7 & F8).
  destruct p; rewrite ?E1, ?E2, ?E3, ?E4, ?E5, ?E6, ?E7, ?E8 in H;
    rewrite ?F1, ?F2, ?F3, ?F4, ?F5, ?F6, ?F7, ?F8.
  - exact (one_of_mono _ _ IH _ _ _ _ H).
  - exact (sequence_mono _ _ IH _ _ _ _ H).
  - exact (zero_or_more_mono _ _ IH _ _ _ _ H).
  - exact (maybe_mono _ _ IH _ _ _ _ H).
  - exact (nested_mono _ _ IH _ _ _ _ H).
  - exact (result_val_mono _ _ IH _ _ _ _ _ H).
  - exact (increment_count_mono _ _ IH _ _ _ _ H).
  - done.
  - done.
  - done.
  - done.
  - by apply IH.
Qed.

Lemma parser_call_mono m n k : (n <= k)%nat -> call_le (parser_call m n) (parser_call m k).
Proof.
  induction 1 as [|k _ IH]; [by intros ????|]. intros p b o r H. by apply parser_call_S, IH.
Qed.

(** ** Runs of parsers on a text

    The text lies in memory and ends at [E]; the buffer of what is left of it is
    given by its length. *)

Section runs.
Context (m : mem) (E : Z).

Definition rest_buf (bs : bytes) : BufPtr := mkBuf (E - zlen bs) (zlen bs).

Definition holds (bs : bytes) : Prop :=
  loadz m (E - zlen bs) (zlen bs) = Some bs /\ bytes_ok bs /\ zlen bs <= SIZE_MAX.

(** The parser returns [ret], what is left is [r]. *)
Definition runs (p : Parser) (bs : bytes) (o : option ParseResult) (ret : bool) (r : bytes)
    (o' : option ParseResult) : Prop :=
  exists n, parser_call m n p (rest_buf bs) o = Some (ret, rest_buf r, o').
Definition runs_alt (ps : list Parser) (bs : bytes) (o : option ParseResult) (ret : bool) (r : bytes)
    (o' : option ParseResult) : Prop :=
  exists n, comb_one_of_fn (parser_call m n) ps (rest_buf bs) o = Some (ret, rest_buf r, o').
Definition runs_seq (ps : list Parser) (bs : bytes) (o : option ParseResult) (ret : bool) (r : bytes)
    (o' : option ParseResult) : Prop :=
  exists n b, sequence_loop (parser_call m n) ps (rest_buf bs) o = Some (ret, b, o') /\
    (ret = true -> b = rest_buf r).

Lemma holds_suffix bs r : holds bs -> r `suffix_of` bs -> holds r.
Proof.
  intros (Hl & Hok & Hmax) [x ->]. rewrite zlen_app in *. apply bytes_ok_app in Hok as [_ Hok].
  split_and!; [|done|zlen_lia].
  apply (loadz_sub _ _ _ _ (zlen x) (zlen r)) in Hl; [|apply zlen_nonneg..|lia].
  rewrite zdrop_app_exact, ztake_all in Hl by lia. rewrite <- Hl. f_equal. lia.
Qed.

Lemma holds_cons c bs : holds (c :: bs) -> holds bs /\ m !! (E - zlen (c :: bs)) = Some c /\ is_byte c.
Proof.
  intros H. split; [eapply holds_suffix; [done|by exists [c]]|]. destruct H as (Hl & Hok & _).
  apply Forall_cons in Hok as [? _]. split; [|done].
  apply loadz_Some in Hl as [_ Hl]; [|apply zlen_nonneg].
  specialize (Hl 0). rewrite Z.add_0_r in Hl. rewrite <- Hl by zlen_lia. done.
Qed.

Lemma rest_buf_ok bs : holds bs -> buf_ok (rest_buf bs).
Proof. intros (_ & _ & ?). unfold buf_ok, rest_buf. simpl. zlen_lia. Qed.

(** Advancing the buffer over a part of the text. *)
Lemma rest_buf_advance bs n :
  holds bs -> 0 <= n <= zlen bs ->
  gg_buffer_substr_ptr (rest_buf bs) n SIZE_MAX = rest_buf (zdrop n bs).
Proof.
  intros (_ & _ & ?) ?. unfold rest_buf. rewrite substr_ptr_rest by (simpl; lia). cbn [data len].
  rewrite zlen_drop. f_equal; lia.
Qed.

(** *** One rule per combinator *)

Lemma runs_more p bs o ret r o' n :
  parser_call m n p (rest_buf bs) o = Some (ret, rest_buf r, o') ->
  forall k, (n <= k)%nat -> parser_call m k p (rest_buf bs) o = Some (ret, rest_buf r, o').
Proof. intros H k Hk. by eapply parser_call_mono. Qed.

Lemma runs_alt_nil bs o : runs_alt [] bs o false bs o.
Proof. by exists O. Qed.

Lemma runs_alt_hit p ps bs o r o' : runs p bs o true r o' -> runs_alt (p :: ps) bs o true r o'.
Proof. intros [n H]. exists n. cbn. by rewrite H. Qed.

Lemma runs_alt_miss p ps bs o o1 ret r o' :
  runs p bs o false bs o1 -> runs_alt ps bs o1 ret r o' -> runs_alt (p :: ps) bs o ret r o'.
Proof.
  intros [n H] [k H']. exists (n `max` k)%nat. cbn. rewrite (runs_more _ _ _ _ _ _ _ H) by lia.
  cbn [mbind option_bind]. eapply one_of_mono; [|done]. apply parser_call_mono. lia.
Qed.

Lemma runs_one_of ps bs o ret r o' : runs_alt ps bs o ret r o' -> runs (COMB_ONE_OF ps) bs o ret r o'.
Proof. intros [n H]. by exists (S n). Qed.

Lemma runs_seq_nil bs o : runs_seq [] bs o true bs o.
Proof. by exists O, (rest_buf bs). Qed.

Lemma runs_seq_next p ps bs o t o1 ret r o' :
  runs p bs o true t o1 -> runs_seq ps t o1 ret r o' -> runs_seq (p :: ps) bs o ret r o'.
Proof.
  intros [n H] (k & b & H' & Hb). exists (n `max` k)%nat, b. split; [|done]. cbn.
  rewrite (runs_more _ _ _ _ _ _ _ H) by lia.
  cbn [mbind option_bind negb]. eapply sequence_loop_mono; [|done]. apply parser_call_mono. lia.
Qed.

Lemma runs_seq_stop p ps bs o o' r : runs p bs o false bs o' -> runs_seq (p :: ps) bs o false r o'.
Proof. intros [n H]. exists n, (rest_buf bs). cbn. by rewrite H. Qed.

Lemma runs_sequence ps bs o ret r o' :
  runs_seq ps bs o ret r o' -> runs (COMB_SEQUENCE ps) bs o ret (if ret then r else bs) o'.
Proof.
  intros (n & b & H & Hb). exists (S n).
  change (comb_sequence_fn (parser_call m n) ps (rest_buf bs) o =
    Some (ret, rest_buf (if ret then r else bs), o')).
  unfold comb_sequence_fn. rewrite H. cbn [mbind option_bind]. destruct ret; [by rewrite Hb|done].
Qed.

Lemma runs_many_stop p bs o o' : runs p bs o false bs o' -> runs (COMB_ZERO_OR_MORE p) bs o true bs o'.
Proof. intros [n H]. exists (S n). cbn. unfold comb_zero_or_more_fn. by rewrite H. Qed.

Lemma runs_many_next p bs o t o1 r o' :
  runs p bs o true t o1 -> runs (COMB_ZERO_OR_MORE p) t o1 true r o' ->
  runs (COMB_ZERO_OR_MORE p) bs o true r o'.
Proof.
  intros [n H] [k H']. exists (S (n `max` k))%nat.
  change (comb_zero_or_more_fn (parser_call m (n `max` k)) p (rest_buf bs) o = Some (true, rest_buf r, o')).
  unfold comb_zero_or_more_fn. rewrite (runs_more _ _ _ _ _ _ _ H) by lia. cbn [mbind option_bind].
  apply (runs_more _ _ _ _ _ _ _ H'). lia.
Qed.

Lemma runs_maybe p bs o ret r o' : runs p bs o ret r o' -> runs (COMB_MAYBE p) bs o true r o'.
Proof. intros [n H]. exists (S n). cbn. unfold comb_maybe_fn. by rewrite H. Qed.

Lemma runs_nested p bs o ret r o' : runs p bs None ret r o' -> runs (COMB_NESTED p) bs o ret r o.
Proof. intros [n H]. exists (S n). cbn. unfold comb_nested_fn. by rewrite H. Qed.

Lemma runs_result_val t p bs o ret r o' :
  runs p bs o ret r o' -> zlen bs <= SIZE_MAX -> r `suffix_of` bs ->
  runs (COMB_RESULT_VAL t p) bs o ret r
    (on_match ret (fun out => mkResult t (mkBuf (E - zlen bs) (zlen bs - zlen r)) (count out)) o').
Proof.
  intros [n H] Hmax [x ->]. exists (S n). cbn. unfold comb_result_val_fn. rewrite H.
  cbn [mbind option_bind rest_buf data]. unfold SIZE_MAX in Hmax.
  rewrite uwrap_small by zlen_lia.
  by replace (E - zlen r - (E - zlen (x ++ r))) with (zlen (x ++ r) - zlen r) by lia.
Qed.

Lemma runs_increment p bs o ret r o' :
  runs p bs o ret r o' ->
  runs (COMB_INCREMENT_COUNT p) bs o ret r
    (on_match ret (fun out => mkResult (json_type out) (content out) (uwrap 64 (count out + 1))) o').
Proof. intros [n H]. exists (S n). cbn. unfold comb_increment_count_fn. by rewrite H. Qed.

Lemma runs_forward bs o ret r o' :
  runs PARSER_JSON_VALUE bs o ret r o' -> runs FORWARD_JSON_VALUE bs o ret r o'.
Proof. intros [n H]. by exists (S n). Qed.

(** *** Parsers that recognise, and leave the output alone *)

Definition recognises (p : Parser) (f : recogniser) : Prop :=
  forall bs o, holds bs -> match f bs with
    | Some r => runs p bs o true r o
    | None => runs p bs o false bs o
    end.
Definition recognises_alt (ps : list Parser) (f : recogniser) : Prop :=
  forall bs o, holds bs -> match f bs with
    | Some r => runs_alt ps bs o true r o
    | None => runs_alt ps bs o false bs o
    end.
Definition recognises_seq (ps : list Parser) (f : recogniser) : Prop :=
  forall bs o, holds bs -> match f bs with
    | Some r => runs_seq ps bs o true r o
    | None => runs_seq ps bs o false bs o
    end.

Lemma recognises_ext p f g : recognises p f -> (forall bs, f bs = g bs) -> recognises p g.
Proof. intros H He bs o Hb. rewrite <- He. by apply H. Qed.

Lemma recognises_alt_ext p f g : recognises_alt p f -> (forall bs, f bs = g bs) -> recognises_alt p g.
Proof. intros H He bs o Hb. rewrite <- He. by apply H. Qed.

Lemma recognises_alt_one p f : recognises p f -> recognises_alt [p] f.
Proof.
  intros H bs o Hb. specialize (H bs o Hb). destruct (f bs).
  - by apply runs_alt_hit.
  - eapply runs_alt_miss; [done|apply runs_alt_nil].
Qed.

Lemma recognises_alt_cons p ps f g :
  recognises p f -> recognises_alt ps g -> recognises_alt (p :: ps) (alt f g).
Proof.
  intros Hf Hg bs o Hb. specialize (Hf bs o Hb). unfold alt. destruct (f bs).
  - by apply runs_alt_hit.
  - specialize (Hg bs o Hb). destruct (g bs); by eapply runs_alt_miss.
Qed.

Lemma recognises_one_of ps f : recognises_alt ps f -> recognises (COMB_ONE_OF ps) f.
Proof. intros H bs o Hb. specialize (H bs o Hb). destruct (f bs); by apply runs_one_of. Qed.

Lemma recognises_seq_one p f : recognises p f -> recognises_seq [p] f.
Proof.
  intros H bs o Hb. specialize (H bs o Hb). destruct (f bs).
  - eapply runs_seq_next; [done|apply runs_seq_nil].
  - by apply runs_seq_stop.
Qed.

Lemma recognises_seq_cons p ps f g :
  Shrinks f -> recognises p f -> recognises_seq ps g -> recognises_seq (p :: ps) (seq f g).
Proof.
  intros Hs Hf Hg bs o Hb. specialize (Hf bs o Hb). unfold seq. destruct (f bs) as [t|] eqn:Ef.
  - cbn [mbind option_bind]. specialize (Hg t o (holds_suffix _ _ Hb (Hs _ _ Ef))).
    destruct (g t); [by eapply runs_seq_next|]. eapply runs_seq_next; [done|].
    destruct Hg as (n & b & Hg & _). by exists n, b.
  - by apply runs_seq_stop.
Qed.

Lemma recognises_sequence ps f : recognises_seq ps f -> recognises (COMB_SEQUENCE ps) f.
Proof. intros H bs o Hb. specialize (H bs o Hb). destruct (f bs); by apply runs_sequence in H. Qed.

Lemma recognises_maybe p f : recognises p f -> recognises (COMB_MAYBE p) (always (optional f)).
Proof.
  intros H bs o Hb. specialize (H bs o Hb). unfold always, optional. destruct (f bs); by eapply runs_maybe.
Qed.

Lemma recognises_many p f :
  Progress f -> Shrinks f -> recognises p f -> recognises (COMB_ZERO_OR_MORE p) (always (many f)).
Proof.
  intros Hp Hs H bs o Hb. unfold always. revert Hb.
  induction bs as [bs Ef|bs r Ef IH] using (many_ind f Hp); intros Hb; rewrite many_eq, Ef by done;
    specialize (H bs o Hb); rewrite Ef in H.
  - by apply runs_many_stop.
  - eapply runs_many_next; [done|]. apply IH. eapply holds_suffix; [done|by apply Hs].
Qed.

(** *** Characters *)

(** The result of a leaf. *)
Lemma runs_leaf p bs o ret r :
  (forall n, parser_call m (S n) p (rest_buf bs) o = Some (ret, rest_buf r, o)) -> runs p bs o ret r o.
Proof. intros H. by exists 1%nat. Qed.

Lemma rest_buf_next c bs : holds (c :: bs) -> gg_buffer_substr_ptr (rest_buf (c :: bs)) 1 SIZE_MAX = rest_buf bs.
Proof. intros H. rewrite rest_buf_advance by (done || zlen_lia). done. Qed.

Lemma nonempty_len (c : Z) bs : zlen (c :: bs) <? 1 = false.
Proof. apply Z.ltb_ge. zlen_lia. Qed.

Lemma recognises_char c : recognises (PARSER_CHAR c) (expect c).
Proof.
  intros bs o Hb. unfold expect, satisfy. destruct bs as [|b bs].
  - by apply runs_leaf.
  - apply holds_cons in Hb as Hc. destruct Hc as (_ & Hm & _).
    assert (forall n, parser_call m (S n) (PARSER_CHAR c) (rest_buf (b :: bs)) o =
      if c =? b then Some (true, rest_buf bs, o) else Some (false, rest_buf (b :: bs), o)) as Hc.
    { intros n. cbn [parser_call]. unfold parser_char_fn. cbn [rest_buf data len].
      rewrite nonempty_len, Hm. cbn [mbind option_bind]. rewrite (Z.eqb_sym b c).
      destruct (c =? b); [|done]. cbn [negb]. fold (rest_buf (b :: bs)). by rewrite rest_buf_next. }
    destruct (c =? b); apply runs_leaf; intros n; by rewrite Hc.
Qed.

Lemma recognises_range a b : 0 <= a -> b < 128 -> recognises (PARSER_CHAR_RANGE a b) (satisfy (in_range a b)).
Proof.
  intros Ha Hlt bs o Hb. unfold satisfy. destruct bs as [|c bs].
  - by apply runs_leaf.
  - apply holds_cons in Hb as Hc. destruct Hc as (_ & Hm & Hbyte).
    assert (forall n, parser_call m (S n) (PARSER_CHAR_RANGE a b) (rest_buf (c :: bs)) o =
      if in_range a b c then Some (true, rest_buf bs, o) else Some (false, rest_buf (c :: bs), o)) as Hc.
    { intros n. cbn [parser_call]. unfold parser_char_range_fn. cbn [rest_buf data len].
      rewrite nonempty_len, Hm. cbn [mbind option_bind]. cbv zeta. unfold is_byte in Hbyte.
      assert ((swrap 8 c <? a) || (b <? swrap 8 c) = negb (in_range a b c)) as ->.
      { unfold in_range. rewrite negb_andb, <- Z.ltb_antisym, <- Z.ltb_antisym.
        destruct (Z_lt_dec c 128).
        - by rewrite swrap_small by lia.
        - assert (swrap 8 c = c - 256) as -> by (unfold swrap; dlia).
          rewrite (proj2 (Z.ltb_lt (c - 256) a)), (proj2 (Z.ltb_lt b c)) by lia. by rewrite orb_true_r. }
      destruct (in_range a b c); [|done]. cbn [negb]. fold (rest_buf (c :: bs)). by rewrite rest_buf_next. }
    destruct (in_range a b c); apply runs_leaf; intros n; by rewrite Hc.
Qed.

Lemma holds_prefix bs n :
  holds bs -> 0 <= n <= zlen bs -> loadz m (E - zlen bs) n = Some (ztake n bs).
Proof.
  intros (Hl & _) Hn. apply (loadz_sub _ _ _ _ 0 n) in Hl; [|lia..]. by rewrite Z.add_0_r in Hl.
Qed.

Lemma recognises_str str : recognises (PARSER_STR str) (keyword str).
Proof.
  intros bs o Hb. unfold keyword.
  assert (forall n, parser_call m (S n) (PARSER_STR str) (rest_buf bs) o =
    if bool_decide (ztake (zlen str) bs = str) then Some (true, rest_buf (zdrop (zlen str) bs), o)
    else Some (false, rest_buf bs, o)) as Hc.
  { intros n. cbn [parser_call]. unfold parser_str_fn. cbn [rest_buf data len]. pose proof (zlen_nonneg str).
    destruct (zlen bs <? zlen str) eqn:El; zify_bool.
    - rewrite bool_decide_false; [done|]. intros Hs. apply (f_equal zlen) in Hs. zlen_lia.
    - rewrite (holds_prefix _ _ Hb) by lia. cbn [mbind option_bind]. unfold memcmp_eq.
      rewrite !ztake_all by zlen_lia. 
      destruct (decide (ztake (zlen str) bs = str)) as [He|He].
      + rewrite He, !bool_decide_true by done. cbn [negb]. fold (rest_buf bs).
        by rewrite rest_buf_advance by (done || lia).
      + rewrite (bool_decide_false (ztake _ bs = str)), bool_decide_false by done. done. }
  destruct (bool_decide _); apply runs_leaf; intros n; by rewrite Hc.
Qed.

Lemma continuation_loop_spec t p :
  loadz m p (zlen t) = Some t -> continuation_loop m (length t) p = Some (forallb is_continuation t).
Proof.
  unfold loadz. rewrite to_nat_zlen. revert p. induction t as [|b t IH]; intros p H; [done|].
  cbn [length continuation_loop forallb] in *. rewrite load_S in H. destruct (m !! p) as [b'|]; [|done].
  cbn [mbind option_bind] in *. destruct (load m (p + 1) (length t)) as [t'|] eqn:El; [|done].
  cbn [mbind option_bind] in H. injection H as -> ->. fold (is_continuation b).
  destruct (is_continuation b); cbn [negb andb]; [|done]. by apply IH.
Qed.

Lemma recognises_codepoint : recognises PARSER_JSON_STR_CODEPOINT codepoint.
Proof.
  intros bs o Hb. destruct bs as [|b t]; [by apply runs_leaf|].
  apply holds_cons in Hb as Hc. destruct Hc as (_ & Hm & _).
  assert (parser_json_str_codepoint_fn m (rest_buf (b :: t)) =
    match codepoint (b :: t) with
    | Some r => Some (true, rest_buf r)
    | None => Some (false, rest_buf (b :: t))
    end) as He.
  2:{ destruct (codepoint (b :: t)); apply runs_leaf; intros n; cbn [parser_call]; by rewrite He. }
  unfold parser_json_str_codepoint_fn, codepoint. cbn [rest_buf data len].
  rewrite nonempty_len, Hm. cbn [mbind option_bind]. change 0x1F with 31.
  destruct (b <=? 31); [done|]. destruct (b =? 34); [done|]. destruct (b =? 92); [done|].
  fold (is_continuation b). destruct (is_continuation b); [done|]. cbn [orb].
  destruct (utf8_len b) as [n|] eqn:Hu; [|done]. apply utf8_len_range in Hu. cbn [mbind option_bind].
  pose proof (zlen_cons b t) as Hz1. destruct (n - 1 <=? zlen t) eqn:El; zify_bool.
  - rewrite (proj2 (Z.ltb_ge _ n)) by lia.
    assert (loadz m (E - zlen (b :: t) + 1) (n - 1) = Some (ztake (n - 1) t)) as Hl.
    { destruct Hb as (Hl & _). apply (loadz_sub _ _ _ _ 1 (n - 1)) in Hl; [|lia..]. exact Hl. }
    pose proof (zlen_take (n - 1) t) as Hz.
    rewrite (Z.max_r 0), Z.min_l in Hz by lia. rewrite <- Hz in Hl at 1.
    apply continuation_loop_spec in Hl. rewrite <- to_nat_zlen, Hz in Hl. rewrite Hl.
    cbn [mbind option_bind andb]. destruct (forallb _ _); cbn [negb]; [|done].
    fold (rest_buf (b :: t)). rewrite rest_buf_advance by (done || lia).
    by rewrite zdrop_cons by lia.
  - by rewrite (proj2 (Z.ltb_lt _ n)) by lia.
Qed.

(** *** The parsers of the grammar *)

Lemma satisfy_ext q q' bs : (forall c, q c = q' c) -> satisfy q bs = satisfy q' bs.
Proof. intros H. destruct bs as [|c bs]; [done|]. cbn. by rewrite H. Qed.

Lemma alt_satisfy q q' bs : alt (satisfy q) (satisfy q') bs = satisfy (fun c => q c || q' c) bs.
Proof. destruct bs as [|c bs]; [done|]. unfold alt. cbn. by destruct (q c), (q' c). Qed.

Lemma alt_ext f f' g g' bs : f bs = f' bs -> g bs = g' bs -> alt f g bs = alt f' g' bs.
Proof. unfold alt. by intros -> ->. Qed.

(** Alternatives between single characters. *)
Lemma recognises_satisfy_cons p ps q q' :
  recognises p (satisfy q) -> recognises_alt ps (satisfy q') ->
  recognises_alt (p :: ps) (satisfy (fun c => q c || q' c)).
Proof.
  intros H H'. eapply recognises_alt_ext; [by apply recognises_alt_cons|]. apply alt_satisfy.
Qed.

Lemma recognises_chars_cons c ps q :
  recognises_alt ps (satisfy q) -> recognises_alt (PARSER_CHAR c :: ps) (satisfy (fun x => (c =? x) || q x)).
Proof. intros. by apply recognises_satisfy_cons; [apply recognises_char|]. Qed.

Lemma recognises_chars_one c : recognises_alt [PARSER_CHAR c] (satisfy (Z.eqb c)).
Proof. apply recognises_alt_one, recognises_char. Qed.

Lemma recognises_ws : recognises PARSER_JSON_WHITESPACE (always skip_ws).
Proof.
  apply recognises_many; [apply _..|]. apply recognises_one_of.
  eapply recognises_alt_ext; [repeat (apply recognises_chars_one || apply recognises_chars_cons)|].
  intros bs. apply satisfy_ext. intros c. unfold is_ws. by rewrite !(Z.eqb_sym c), !orb_assoc.
Qed.

Lemma recognises_digit : recognises PARSER_DIGIT (satisfy is_dec).
Proof. apply (recognises_range 48 57); lia. Qed.

Lemma recognises_digits : recognises (COMB_ZERO_OR_MORE PARSER_DIGIT) (always digits).
Proof. apply recognises_many; [apply _..|]. apply recognises_digit. Qed.

Lemma recognises_hex : recognises PARSER_HEX_DIGIT (satisfy is_hex).
Proof.
  apply recognises_one_of. eapply recognises_alt_ext.
  - apply recognises_satisfy_cons; [apply recognises_digit|].
    apply recognises_satisfy_cons; [apply recognises_range; lia|]. apply recognises_alt_one, recognises_range; lia.
  - intros bs. apply satisfy_ext. intros c. unfold is_hex. by rewrite orb_assoc.
Qed.

Lemma recognises_escape : recognises PARSER_JSON_STR_ESCAPE escape.
Proof.
  apply recognises_sequence, recognises_seq_cons; [apply _|apply recognises_char|].
  apply recognises_seq_one, recognises_one_of.
  assert (recognises (COMB_SEQUENCE [PARSER_CHAR 117; PARSER_HEX_DIGIT; PARSER_HEX_DIGIT; PARSER_HEX_DIGIT;
    PARSER_HEX_DIGIT]) (seq (expect 117) hex4)) as Hu.
  { apply recognises_sequence. apply recognises_seq_cons; [apply _|apply recognises_char|].
    repeat (apply recognises_seq_cons; [apply _|apply recognises_hex|]).
    apply recognises_seq_one, recognises_hex. }
  eapply recognises_alt_ext.
  - repeat (apply recognises_alt_cons; [apply recognises_char|]). apply recognises_alt_one, Hu.
  - intros bs. unfold alt. destruct bs as [|c bs]; [done|]. unfold expect. cbn [satisfy].
    unfold is_simple_escape. rewrite !(Z.eqb_sym c). do 8 (destruct (_ =? c); [done|]). done.
Qed.

Lemma recognises_chars :
  recognises (COMB_ZERO_OR_MORE (COMB_ONE_OF [PARSER_JSON_STR_CODEPOINT; PARSER_JSON_STR_ESCAPE])) (always chars).
Proof.
  apply recognises_many; [apply _..|]. apply recognises_one_of.
  apply recognises_alt_cons; [apply recognises_codepoint|]. apply recognises_alt_one, recognises_escape.
Qed.

Lemma recognises_int_part : recognises PARSER_INT_PART int_part.
Proof.
  apply recognises_sequence, recognises_seq_cons; [apply _|apply recognises_maybe, recognises_char|].
  apply recognises_seq_one, recognises_one_of, recognises_alt_cons; [apply recognises_char|].
  apply recognises_alt_one, recognises_sequence, recognises_seq_cons; [apply _|apply recognises_range; lia|].
  apply recognises_seq_one, recognises_digits.
Qed.

Lemma recognises_frac_part : recognises PARSER_FRAC_PART frac_part.
Proof.
  apply recognises_sequence, recognises_seq_cons; [apply _|apply recognises_char|].
  apply recognises_seq_one, recognises_digits.
Qed.

(** One of two characters. *)
Lemma recognises_two a b :
  recognises (COMB_ONE_OF [PARSER_CHAR a; PARSER_CHAR b]) (satisfy (fun c => (c =? a) || (c =? b))).
Proof.
  apply recognises_one_of. eapply recognises_alt_ext.
  - apply recognises_chars_cons, recognises_chars_one.
  - intros bs. apply satisfy_ext. intros c. by rewrite !(Z.eqb_sym c).
Qed.

Lemma recognises_exp_part : recognises PARSER_EXPONENT exp_part.
Proof.
  apply recognises_sequence, recognises_seq_cons; [apply _|apply recognises_two|].
  apply recognises_seq_cons; [apply _|apply recognises_maybe, recognises_two|].
  apply recognises_seq_cons; [apply _|apply recognises_digit|].
  apply recognises_seq_one, recognises_digits.
Qed.

Lemma char_misses c bs o : holds bs -> expect c bs = None -> runs (PARSER_CHAR c) bs o false bs o.
Proof. intros Hb He. pose proof (recognises_char c bs o Hb) as H. by rewrite He in H. Qed.

(** *** Values *)

(** The buffer of a part of the text, given what follows it. *)
Definition part (x r : bytes) : BufPtr := mkBuf (E - zlen (x ++ r)) (zlen x).

Definition located (t : JsonType) (x r : bytes) (o : option ParseResult) : option ParseResult :=
  option_map (fun out => mkResult t (part x r) (count out)) o.

(** The parser succeeds with a new output, or fails with any. *)
Definition parses (p : Parser) (bs : bytes) (o : option ParseResult) (res : option (bytes * option ParseResult))
    : Prop :=
  match res with
  | Some (r, o') => runs p bs o true r o'
  | None => exists o', runs p bs o false bs o'
  end.

Lemma runs_located t p x r o o' :
  runs p (x ++ r) o true r o' -> holds (x ++ r) ->
  runs (COMB_RESULT_VAL t p) (x ++ r) o true r (located t x r o').
Proof.
  intros H (_ & _ & Hmax). apply (runs_result_val t) in H; [|done|by exists x].
  cbn [on_match] in H. unfold located, part.
  by replace (zlen (x ++ r) - zlen r) with (zlen x) in H by (rewrite zlen_app; lia).
Qed.

Lemma string_parses bs o :
  holds bs ->
  parses PARSER_JSON_STR bs o (match parse_string bs with
    | Some (raw, r) => Some (r, located JSON_TYPE_STR raw (34 :: r) o)
    | None => None
    end).
Proof.
  intros Hb. pose proof (recognises_char 34 bs o Hb) as H1. destruct (parse_string bs) as [[raw r]|] eqn:Es.
  - apply parse_string_Some in Es as [-> Hc]. cbn in H1.
    assert (holds (raw ++ 34 :: r)) as Hb1 by (eapply holds_suffix; [done|by exists [34]]).
    pose proof (recognises_chars _ o Hb1) as H2. unfold always in H2. rewrite Hc in H2.
    apply (runs_located JSON_TYPE_STR) in H2; [|done].
    assert (holds (34 :: r)) as Hb2 by (eapply holds_suffix; [done|by exists raw]).
    pose proof (recognises_char 34 _ (located JSON_TYPE_STR raw (34 :: r) o) Hb2) as H3. cbn in H3.
    apply (runs_sequence _ _ _ true). eapply runs_seq_next; [exact H1|]. eapply runs_seq_next; [exact H2|].
    eapply runs_seq_next; [exact H3|apply runs_seq_nil].
  - unfold parse_string in Es. destruct (expect 34 bs) as [t|] eqn:Et.
    + cbn [mbind option_bind] in Es. assert (holds t) as Hb1.
      { eapply holds_suffix; [done|]. by eapply expect_shrinks. }
      pose proof (recognises_chars _ o Hb1) as H2. unfold always in H2.
      pose proof (runs_result_val JSON_TYPE_STR _ _ _ _ _ _ H2) as H3.
      destruct (expect 34 (chars t)) as [r|] eqn:Er; [done|].
      eexists. apply (runs_sequence _ _ _ false bs). eapply runs_seq_next; [exact H1|].
      eapply runs_seq_next; [apply H3; [apply Hb1|apply chars_suffix]|].
      apply runs_seq_stop. apply (char_misses 34); [|done]. eapply holds_suffix; [done|apply chars_suffix].
    + eexists. apply (runs_sequence _ _ _ false bs). by apply runs_seq_stop.
Qed.

Lemma suffix_upto bs r : r `suffix_of` bs -> exists x, bs = x ++ r /\ upto bs r = x.
Proof. intros [x ->]. exists x. by rewrite upto_app. Qed.

Lemma number_recognised :
  recognises (COMB_SEQUENCE [PARSER_INT_PART; COMB_MAYBE PARSER_FRAC_PART; COMB_MAYBE PARSER_EXPONENT]) number.
Proof.
  apply recognises_sequence, recognises_seq_cons; [apply _|apply recognises_int_part|].
  apply recognises_seq_cons; [apply _|apply recognises_maybe, recognises_frac_part|].
  apply recognises_seq_one, recognises_maybe, recognises_exp_part.
Qed.

Lemma parse_number_eq bs :
  number bs = snd <$> parse_number bs /\
  (forall s r, parse_number bs = Some (s, r) -> exists real, s = SNum (upto bs r) real).
Proof.
  unfold number, parse_number, seq, always. destruct (int_part bs) as [r1|]; [|done].
  cbn [mbind option_bind fmap option_fmap option_map snd]. split; [done|]. intros s r [= <- <-]. by eexists.
Qed.

Lemma number_parses bs o :
  holds bs ->
  parses PARSER_JSON_NUMBER bs o (match parse_number bs with
    | Some (_, r) => Some (r, located JSON_TYPE_NUMBER (upto bs r) r o)
    | None => None
    end).
Proof.
  intros Hb. destruct (parse_number_eq bs) as [Hn _]. pose proof (number_recognised bs o Hb) as H. rewrite Hn in H.
  destruct (parse_number bs) as [[s r]|] eqn:Es; cbn [fmap option_fmap option_map snd] in H.
  - apply parse_number_shorter in Es as [(x & -> & ->)%suffix_upto _]. by apply runs_located.
  - exists o. apply (runs_result_val JSON_TYPE_NUMBER) in H; [exact H|apply Hb|done].
Qed.

(** *** Lists of items *)

(** One element more was counted. *)
Definition counted (k : Z) (o : option ParseResult) : option ParseResult :=
  option_map (fun out => mkResult (json_type out) (content out) (uwrap 64 (count out + k))) o.

Lemma counted_counted a b o : counted a (counted b o) = counted (a + b) o.
Proof.
  destruct o as [out|]; [|done]. cbn. do 2 f_equal. unfold uwrap. rewrite Z.add_mod_idemp_l by lia. f_equal. lia.
Qed.

Section items.
Context {A : Type} (item : reader A) (after : bytes -> bytes) (P : Parser) (next : list Parser) (L : nat).
Context (item_shorter : reads_shorter item) (after_suffix : forall bs, after bs `suffix_of` bs).
Hypothesis item_runs : forall bs o, holds bs -> (length bs < L)%nat ->
  match item bs with
  | Some (_, r) => runs P bs o true r o
  | None => runs P bs o false bs o
  end.
Hypothesis next_runs : forall bs o, holds bs -> runs_seq next bs o true (after bs) o.

Definition repeated : Parser :=
  COMB_ZERO_OR_MORE (COMB_INCREMENT_COUNT (COMB_SEQUENCE (P :: PARSER_CHAR 44 :: next))).

Lemma repeated_none bs o :
  holds bs -> (length bs < L)%nat -> item bs = None ->
  runs_seq [repeated; COMB_INCREMENT_COUNT P] bs o false bs o.
Proof using item_runs.
  intros Hb Hl Hi. pose proof (item_runs bs o Hb Hl) as H. rewrite Hi in H.
  eapply runs_seq_next.
  - apply runs_many_stop. apply (runs_increment _ _ _ false bs o).
    apply (runs_sequence _ _ _ false bs). by apply runs_seq_stop.
  - apply runs_seq_stop. apply (runs_increment _ _ _ false bs o). exact H.
Qed.

Lemma repeated_parses n bs o :
  holds bs -> (length bs < L)%nat -> (length bs <= n)%nat ->
  exists t o1, runs repeated bs o true t o1 /\
    match parse_list item after n bs with
    | Some (xs, r) => runs P t o1 true r o1 /\ counted 1 o1 = counted (zlen xs) o
    | None => runs P t o1 false t o1
    end.
Proof using item_runs next_runs item_shorter after_suffix.
  revert bs o. induction n as [|n IH]; intros bs o Hb HL Hn.
  - destruct bs; [|simpl in Hn; lia]. pose proof (item_runs [] o Hb HL) as H.
    destruct (item []) as [[x r]|] eqn:Ei.
    { apply item_shorter in Ei as [_ Ei]. simpl in Ei. lia. }
    exists [], o. split; [|exact H]. apply runs_many_stop, (runs_increment _ _ _ false [] o).
    apply (runs_sequence _ _ _ false []). by apply runs_seq_stop.
  - cbn [parse_list]. pose proof (item_runs bs o Hb HL) as H. destruct (item bs) as [[x r]|] eqn:Ei.
    2:{ exists bs, o. split; [|exact H]. apply runs_many_stop, (runs_increment _ _ _ false bs o).
        apply (runs_sequence _ _ _ false bs). by apply runs_seq_stop. }
    destruct (item_shorter _ _ _ Ei) as [Hs Hl]. assert (holds r) as Hr by by eapply holds_suffix.
    cbn [mbind option_bind]. pose proof (recognises_char 44 r o Hr) as Hc.
    destruct (expect 44 r) as [r2|] eqn:E2.
    + assert (holds r2) as Hr2 by (eapply holds_suffix; [done|by eapply expect_shrinks]).
      pose proof (after_suffix r2) as Hs2. pose proof (suffix_len _ _ Hs2).
      pose proof (expect_progress _ _ _ E2).
      destruct (IH (after r2) (counted 1 o)) as (t & o1 & Ht & Hres); [by eapply holds_suffix|lia|lia|].
      exists t, o1. split.
      * eapply runs_many_next; [|exact Ht]. apply (runs_increment _ _ _ true (after r2) o).
        apply (runs_sequence _ _ _ true). eapply runs_seq_next; [exact H|].
        eapply runs_seq_next; [exact Hc|]. by apply next_runs.
      * destruct (parse_list item after n (after r2)) as [[xs r3]|]; [|exact Hres].
        cbn [mbind option_bind]. destruct Hres as [Hp Hcount]. split; [exact Hp|].
        rewrite Hcount, counted_counted, zlen_cons. f_equal. lia.
    + exists bs, o. split; [|done]. apply runs_many_stop, (runs_increment _ _ _ false bs o).
      apply (runs_sequence _ _ _ false bs). eapply runs_seq_next; [exact H|]. by apply runs_seq_stop.
Qed.

(** *** Containers *)

Definition container (ty : JsonType) (opening closing : Z) : Parser :=
  COMB_SEQUENCE
    [PARSER_CHAR opening; PARSER_JSON_WHITESPACE;
     COMB_RESULT_VAL ty (COMB_MAYBE (COMB_SEQUENCE [repeated; COMB_INCREMENT_COUNT P]));
     PARSER_CHAR closing].

Definition contained (ty : JsonType) (c r : bytes) (n : Z) (o : option ParseResult) : option ParseResult :=
  located ty c r (counted n o).

(** The contents of a container that starts after the white space. *)
Lemma contents_parse ty bs o :
  holds bs -> (length bs < L)%nat ->
  match parse_list item after (length bs) bs with
  | Some (xs, r) => runs (COMB_RESULT_VAL ty (COMB_MAYBE (COMB_SEQUENCE [repeated; COMB_INCREMENT_COUNT P])))
      bs o true r (contained ty (upto bs r) r (zlen xs) o)
  | None => exists o', runs (COMB_RESULT_VAL ty (COMB_MAYBE (COMB_SEQUENCE [repeated; COMB_INCREMENT_COUNT P])))
      bs o true bs o'
  end.
Proof using item_runs next_runs item_shorter after_suffix.
  intros Hb HL. destruct (repeated_parses (length bs) bs o Hb HL) as (t & o1 & Ht & H); [lia|].
  destruct (parse_list item after (length bs) bs) as [[xs r]|] eqn:Ei.
  - destruct H as [HP Hc]. apply parse_list_shorter in Ei as [(x & Hx & ->)%suffix_upto _]; [|done..].
    rewrite Hx in *. apply runs_located; [|done]. apply (runs_maybe _ _ _ true).
    apply (runs_sequence _ _ _ true). eapply runs_seq_next; [exact Ht|].
    eapply runs_seq_next; [|apply runs_seq_nil]. rewrite <- Hc. by apply (runs_increment _ _ _ true r o1).
  - eexists. apply (runs_result_val ty _ _ _ true); [|apply Hb|done]. apply (runs_maybe _ _ _ false).
    apply (runs_sequence _ _ _ false bs). eapply runs_seq_next; [exact Ht|].
    apply runs_seq_stop. by apply (runs_increment _ _ _ false t o1).
Qed.

Lemma empty_contents_parse ty bs o :
  holds bs -> (length bs < L)%nat -> item bs = None ->
  runs (COMB_RESULT_VAL ty (COMB_MAYBE (COMB_SEQUENCE [repeated; COMB_INCREMENT_COUNT P])))
    bs o true bs (located ty [] bs o).
Proof using item_runs.
  intros Hb HL Hi. apply (runs_located ty _ [] bs o o); [|done]. apply (runs_maybe _ _ _ false).
  apply (runs_sequence _ _ _ false bs). by apply repeated_none.
Qed.

Lemma counted_0 o : (forall out, o = Some out -> 0 <= count out < 2 ^ 64) -> counted 0 o = o.
Proof.
  destruct o as [[ty c n]|]; [|done]. intros H. cbn. rewrite Z.add_0_r, uwrap_small; [done|]. by apply (H _ eq_refl).
Qed.

Lemma container_parses ty opening closing bs o :
  (forall r, item (closing :: r) = None) ->
  holds bs -> (length bs <= L)%nat ->
  (forall out, o = Some out -> 0 <= count out < 2 ^ 64) ->
  match parse_container opening closing (fun bs => parse_list item after (length bs) bs) bs with
  | Some (xs, r) => exists w c, bs = opening :: w ++ c ++ closing :: r /\
      ((c = [] /\ xs = []) \/ parse_list item after (length (c ++ closing :: r)) (c ++ closing :: r) = Some (xs, closing :: r)) /\
      runs (container ty opening closing) bs o true r (contained ty c (closing :: r) (zlen xs) o)
  | None => exists o', runs (container ty opening closing) bs o false bs o'
  end.
Proof using item_runs next_runs item_shorter after_suffix.
  intros Hclosing Hb HL Ho. unfold parse_container. pose proof (recognises_char opening bs o Hb) as H1.
  destruct (expect opening bs) as [r1|] eqn:E1.
  2:{ eexists. apply (runs_sequence _ _ _ false bs). by apply runs_seq_stop. }
  cbn [mbind option_bind]. assert (holds r1) as Hb1 by (eapply holds_suffix; [done|by eapply expect_shrinks]).
  pose proof (recognises_ws r1 o Hb1) as H2. unfold always in H2.
  destruct (skip_ws_suffix r1) as [w Hw]. set (r2 := skip_ws r1) in *.
  assert (holds r2) as Hb2 by (eapply holds_suffix; [done|by exists w]).
  assert (length r2 < L)%nat as HL2.
  { apply expect_progress in E1. rewrite Hw, length_app in E1. lia. }
  apply expect_Some in E1. subst bs. rewrite Hw in *.
  destruct (expect closing r2) as [r3|] eqn:E3.
  - apply expect_Some in E3. rewrite E3 in *. exists w, []. split; [done|]. split; [by left|].
    apply (runs_sequence _ _ _ true). eapply runs_seq_next; [exact H1|]. eapply runs_seq_next; [exact H2|].
    eapply runs_seq_next; [by apply empty_contents_parse|].
    eapply runs_seq_next; [|apply runs_seq_nil]. unfold contained. rewrite counted_0 by done.
    pose proof (recognises_char closing _ (located ty [] (closing :: r3) o) Hb2) as H4.
    by rewrite (proj2 (expect_Some _ _ _) eq_refl) in H4.
  - pose proof (contents_parse ty r2 o Hb2 HL2) as H3.
    destruct (parse_list item after (length r2) r2) as [[xs r4]|] eqn:Ei.
    + cbn [mbind option_bind]. pose proof Ei as Hs. apply parse_list_shorter in Hs as [(x & Hx & Hu)%suffix_upto _]; [|done..].
      assert (holds r4) as Hb4 by (eapply holds_suffix; [done|by exists x]).
      pose proof (recognises_char closing r4 (contained ty (upto r2 r4) r4 (zlen xs) o) Hb4) as H4.
      destruct (expect closing r4) as [r5|] eqn:E5; cbn [mbind option_bind].
      * apply expect_Some in E5. subst r4. exists w, x. rewrite Hu, Hx in *. split; [done|]. split; [by right|].
        apply (runs_sequence _ _ _ true). eapply runs_seq_next; [exact H1|]. eapply runs_seq_next; [exact H2|].
        eapply runs_seq_next; [exact H3|]. eapply runs_seq_next; [exact H4|apply runs_seq_nil].
      * eexists. apply (runs_sequence _ _ _ false (opening :: w ++ r2)).
        eapply runs_seq_next; [exact H1|]. eapply runs_seq_next; [exact H2|].
        eapply runs_seq_next; [exact H3|]. apply runs_seq_stop. exact H4.
    + cbn [mbind option_bind]. destruct H3 as [o' H3]. eexists.
      apply (runs_sequence _ _ _ false (opening :: w ++ r2)).
      eapply runs_seq_next; [exact H1|]. eapply runs_seq_next; [exact H2|].
      eapply runs_seq_next; [exact H3|]. apply runs_seq_stop. by apply char_misses.
Qed.
End items.

(** *** Alternatives of which at most one can match *)

Definition misses (p : Parser) (bs : bytes) : Prop := forall o, runs p bs o false bs o.

Lemma alts_miss ps bs o : Forall (fun p => misses p bs) ps -> runs_alt ps bs o false bs o.
Proof.
  intros H. revert o. induction H as [|p ps Hp _ IH]; intros o; [apply runs_alt_nil|].
  eapply runs_alt_miss; [apply Hp|apply IH].
Qed.

Lemma alts_select pre p post bs o res :
  Forall (fun p => misses p bs) pre -> Forall (fun p => misses p bs) post ->
  parses p bs o res -> parses (COMB_ONE_OF (pre ++ p :: post)) bs o res.
Proof.
  intros Hpre Hpost H. assert (match res with
    | Some (r, o') => runs_alt (pre ++ p :: post) bs o true r o'
    | None => exists o', runs_alt (pre ++ p :: post) bs o false bs o'
    end) as H'.
  2:{ unfold parses. destruct res as [[r o']|]; [by apply runs_one_of|].
      destruct H' as [o' ?]. exists o'. by apply runs_one_of. }
  induction Hpre as [|q pre Hq _ IH]; cbn [app].
  - destruct res as [[r o']|]; [by apply runs_alt_hit|]. destruct H as [o' H]. exists o'.
    eapply runs_alt_miss; [exact H|by apply alts_miss].
  - destruct res as [[r o']|]; [by eapply runs_alt_miss|]. destruct IH as [o' IH]. exists o'.
    by eapply runs_alt_miss.
Qed.

Lemma sequence_misses c k ps t : holds (c :: t) -> c <> k -> misses (COMB_SEQUENCE (PARSER_CHAR k :: ps)) (c :: t).
Proof.
  intros Hb Hc o. apply (runs_sequence _ _ _ false (c :: t)), runs_seq_stop, char_misses; [done|].
  unfold expect, satisfy. by rewrite (proj2 (Z.eqb_neq _ _)) by done.
Qed.

Lemma literal_parses ty str bs o :
  holds bs ->
  parses (COMB_RESULT_VAL ty (PARSER_STR str)) bs o (match keyword str bs with
    | Some r => Some (r, located ty str r o)
    | None => None
    end).
Proof.
  intros Hb. pose proof (recognises_str str bs o Hb) as H. destruct (keyword str bs) as [r|] eqn:Ek.
  - apply keyword_Some in Ek as ->. by apply runs_located.
  - exists o. apply (runs_result_val ty) in H; [exact H|apply Hb|done].
Qed.

Lemma literal_misses ty c k str t :
  holds (c :: t) -> c <> k -> misses (COMB_RESULT_VAL ty (PARSER_STR (k :: str))) (c :: t).
Proof.
  intros Hb Hc o. pose proof (recognises_str (k :: str) _ o Hb) as H.
  destruct (keyword (k :: str) (c :: t)) as [r|] eqn:Ek; [apply keyword_Some in Ek; simpl in Ek; congruence|].
  apply (runs_result_val ty) in H; [exact H|apply Hb|done].
Qed.

Lemma number_misses c t : holds (c :: t) -> c <> 45 -> ~ (48 <= c <= 57) -> misses PARSER_JSON_NUMBER (c :: t).
Proof.
  intros Hb H1 H2 o. pose proof (number_recognised _ o Hb) as H.
  assert (number (c :: t) = None) as Hn.
  { unfold number, int_part, seq, always, optional, alt, expect, satisfy, in_range.
    rewrite (proj2 (Z.eqb_neq 45 c)) by done. cbn [mbind option_bind default from_option].
    rewrite (proj2 (Z.eqb_neq 48 c)) by lia.
    destruct ((49 <=? c) && (c <=? 57)) eqn:Er; zify_bool; [lia|done]. }
  rewrite Hn in H. apply (runs_result_val JSON_TYPE_NUMBER) in H; [exact H|apply Hb|done].
Qed.

(** *** What the output says of a value that starts the text [u], before [r] *)

Definition reports (s : jsyn) (u r : bytes) (out : ParseResult) : Prop :=
  match s with
  | SStr raw => u = 34 :: raw ++ 34 :: r /\
      json_type out = JSON_TYPE_STR /\ content out = part raw (34 :: r)
  | SNum text _ => parse_number u = Some (s, r) /\ u = text ++ r /\
      json_type out = JSON_TYPE_NUMBER /\ content out = part text r
  | SObj kvs => exists w c, u = 123 :: w ++ c ++ 125 :: r /\
      json_type out = JSON_TYPE_OBJECT /\ content out = part c (125 :: r) /\ count out = zlen kvs /\
      ((c = [] /\ kvs = []) \/ parse_members parse_json c = Some (kvs, []))
  | SArr ss => exists w c, u = 91 :: w ++ c ++ 93 :: r /\
      json_type out = JSON_TYPE_ARRAY /\ content out = part c (93 :: r) /\ count out = zlen ss /\
      ((c = [] /\ ss = []) \/ parse_elems parse_json c = Some (ss, []))
  | STrue => json_type out = JSON_TYPE_TRUE
  | SFalse => json_type out = JSON_TYPE_FALSE
  | SNull => json_type out = JSON_TYPE_NULL
  end.

Definition reported (s : jsyn) (u r : bytes) (o o' : option ParseResult) : Prop :=
  match o with
  | None => o' = None
  | Some _ => exists out, o' = Some out /\ reports s u r out
  end.

(** The count starts from 0. *)
Definition fresh (o : option ParseResult) : Prop := forall out, o = Some out -> count out = 0.

(** The contract of [PARSER_JSON_VALUE] for a text. *)
Definition value_accepts (bs : bytes) : Prop :=
  forall o, holds bs -> fresh o ->
    match parse_json bs with
    | Some (s, r) => exists o' t, runs PARSER_JSON_VALUE bs o true r o' /\
        r = skip_ws t /\ t `suffix_of` bs /\ reported s (skip_ws bs) t o o'
    | None => exists o', runs PARSER_JSON_VALUE bs o false bs o'
    end.

(** The number of items is at most the length of the text. *)
Lemma parse_list_count {A} (item : reader A) after n bs xs r :
  reads_shorter item -> (forall bs, after bs `suffix_of` bs) ->
  parse_list item after n bs = Some (xs, r) -> (length xs <= length bs)%nat.
Proof.
  intros Hs Ha. revert bs xs r. induction n as [|n IH]; intros bs xs r H; [done|]. cbn [parse_list] in H.
  destruct (item bs) as [[x r1]|] eqn:Ei; [|done]. cbn [mbind option_bind] in H.
  destruct (Hs _ _ _ Ei) as [_ Hl]. destruct (expect 44 r1) as [r2|] eqn:E2.
  - destruct (parse_list item after n (after r2)) as [[ys r3]|] eqn:E3; [|done].
    cbn [mbind option_bind] in H. injection H as <- _. apply IH in E3.
    pose proof (suffix_len _ _ (Ha r2)). apply expect_progress in E2. simpl. lia.
  - injection H as <- _. simpl. lia.
Qed.

Lemma element_runs L :
  (forall bs, (length bs < L)%nat -> value_accepts bs) ->
  forall bs o, holds bs -> (length bs < L)%nat ->
    match parse_json bs with
    | Some (_, r) => runs PARSER_JSON_ARRAY_ELEM bs o true r o
    | None => runs PARSER_JSON_ARRAY_ELEM bs o false bs o
    end.
Proof.
  intros IH bs o Hb HL. assert (fresh None) as Hf by done. pose proof (IH bs HL None Hb Hf) as H.
  destruct (parse_json bs) as [[s r]|].
  - destruct H as (o' & t & H & _). eapply runs_nested, runs_forward, H.
  - destruct H as (o' & H). eapply runs_nested, runs_forward, H.
Qed.

Lemma member_runs L :
  (forall bs, (length bs < L)%nat -> value_accepts bs) ->
  forall bs o, holds bs -> (length bs < L)%nat ->
    match parse_member parse_json bs with
    | Some (_, r) => runs PARSER_JSON_OBJECT_KV bs o true r o
    | None => runs PARSER_JSON_OBJECT_KV bs o false bs o
    end.
Proof.
  intros IH bs o Hb HL. unfold parse_member. pose proof (string_parses bs None Hb) as H1.
  destruct (parse_string bs) as [[k r1]|] eqn:E1; cbn [parses mbind option_bind] in *.
  2:{ destruct H1 as [o' H1]. eapply runs_nested, (runs_sequence _ _ _ false bs). by apply runs_seq_stop. }
  apply parse_string_shorter in E1 as [Hs1 Hl1]. assert (holds r1) as Hb1 by by eapply holds_suffix.
  cbn [located option_map] in H1. pose proof (recognises_ws r1 None Hb1) as H2. unfold always in H2.
  pose proof (skip_ws_suffix r1) as Hs2. pose proof (suffix_len _ _ Hs2).
  assert (holds (skip_ws r1)) as Hb2 by by eapply holds_suffix.
  pose proof (recognises_char 58 _ None Hb2) as H3. destruct (expect 58 (skip_ws r1)) as [r2|] eqn:E2;
    cbn [mbind option_bind].
  2:{ eapply runs_nested, (runs_sequence _ _ _ false bs). eapply runs_seq_next; [exact H1|].
      eapply runs_seq_next; [exact H2|]. by apply runs_seq_stop. }
  assert (holds r2) as Hb3 by (eapply holds_suffix; [done|by eapply expect_shrinks]).
  apply expect_progress in E2. assert (fresh None) as Hf by done.
  pose proof (IH r2 ltac:(lia) None Hb3 Hf) as H4.
  destruct (parse_json r2) as [[s r3]|]; cbn [mbind option_bind].
  - destruct H4 as (o' & t & H4 & _ & _ & ->). eapply runs_nested, (runs_sequence _ _ _ true).
    eapply runs_seq_next; [exact H1|]. eapply runs_seq_next; [exact H2|]. eapply runs_seq_next; [exact H3|].
    eapply runs_seq_next; [by apply runs_forward|apply runs_seq_nil].
  - destruct H4 as (o' & H4). eapply runs_nested, (runs_sequence _ _ _ false bs).
    eapply runs_seq_next; [exact H1|]. eapply runs_seq_next; [exact H2|]. eapply runs_seq_next; [exact H3|].
    apply runs_seq_stop. by apply runs_forward.
Qed.

Lemma fresh_range o : fresh o -> forall out, o = Some out -> 0 <= count out < 2 ^ 64.
Proof. intros H out Ho. rewrite (H _ Ho). lia. Qed.

(** What [container_parses] gives for the lists of the grammar. *)
Lemma items_of_content {A} (item : reader A) after c closing r (xs : list A) :
  reads_shorter item -> (forall bs, after bs `suffix_of` bs) -> reads_cut item ->
  (forall bs k r, after (bs ++ k) = r ++ k -> after bs = r) ->
  (c = [] /\ xs = []) \/
    parse_list item after (length (c ++ closing :: r)) (c ++ closing :: r) = Some (xs, closing :: r) ->
  ((c = [] /\ xs = []) \/ parse_list item after (length c) c = Some (xs, [])) /\ (length xs <= length c)%nat.
Proof.
  intros Hs Ha Hc Hac [[-> ->]|H].
  - split; [by left|done].
  - assert (parse_list item after (length c) c = Some (xs, [])) as H'.
    { by apply (parse_list_cut_enough item after c (closing :: r) xs []). }
    split; [by right|]. by eapply parse_list_count.
Qed.

Lemma contained_fresh ty c r (n : nat) o :
  fresh o -> (n <= length c)%nat -> zlen (c ++ r) <= SIZE_MAX ->
  contained ty c r (Z.of_nat n) o = option_map (fun _ => mkResult ty (part c r) (Z.of_nat n)) o.
Proof.
  intros Hf Hn Hmax. destruct o as [out|]; [|done]. cbn. rewrite (Hf out) by done.
  rewrite uwrap_small; [done|]. unfold SIZE_MAX in *. pose proof (zlen_app c r). unfold zlen in *. lia.
Qed.

Lemma array_accepts bs o :
  (forall x, (length x < length bs)%nat -> value_accepts x) -> holds bs -> fresh o ->
  match parse_container 91 93 (parse_elems parse_json) bs with
  | Some (ss, r) => exists o', runs PARSER_JSON_ARRAY bs o true r o' /\ reported (SArr ss) bs r o o'
  | None => exists o', runs PARSER_JSON_ARRAY bs o false bs o'
  end.
Proof.
  intros IH Hb Hf.
  pose proof (container_parses parse_json (fun r => r) PARSER_JSON_ARRAY_ELEM [] (length bs)
    parse_json_shorter (fun _ => reflexivity _) (element_runs _ IH) (fun x o _ => runs_seq_nil x o)
    JSON_TYPE_ARRAY 91 93 bs o (fun _ => eq_refl) Hb (Nat.le_refl _) (fresh_range _ Hf)) as H.
  change (fun bs => parse_list parse_json (fun r => r) (length bs) bs) with (parse_elems parse_json) in H.
  destruct (parse_container 91 93 (parse_elems parse_json) bs) as [[ss r]|]; [|exact H].
  destruct H as (w & c & -> & Hitems & H). apply items_of_content in Hitems as [Hitems Hcount];
    [|apply parse_json_shorter|done|apply parse_json_cut|by intros ??? ?%app_inv_tail].
  unfold zlen in H. rewrite contained_fresh in H; [|done|done|destruct Hb as (_ & _ & Hmax); zlen_lia].
  eexists. split; [exact H|]. destruct o as [out|]; [|done]. cbn. eexists. split; [done|].
  exists w, c. by split_and!.
Qed.

Lemma object_accepts bs o :
  (forall x, (length x < length bs)%nat -> value_accepts x) -> holds bs -> fresh o ->
  match parse_container 123 125 (parse_members parse_json) bs with
  | Some (kvs, r) => exists o', runs PARSER_JSON_OBJECT bs o true r o' /\ reported (SObj kvs) bs r o o'
  | None => exists o', runs PARSER_JSON_OBJECT bs o false bs o'
  end.
Proof.
  intros IH Hb Hf. assert (forall x o, holds x -> runs_seq [PARSER_JSON_WHITESPACE] x o true (skip_ws x) o) as Hws.
  { intros x o' Hx. eapply runs_seq_next; [by apply recognises_ws|apply runs_seq_nil]. }
  pose proof (container_parses (parse_member parse_json) skip_ws PARSER_JSON_OBJECT_KV [PARSER_JSON_WHITESPACE]
    (length bs) (parse_member_shorter _ parse_json_shorter) skip_ws_suffix (member_runs _ IH) Hws
    JSON_TYPE_OBJECT 123 125 bs o (fun _ => eq_refl) Hb (Nat.le_refl _) (fresh_range _ Hf)) as H.
  change (fun bs => parse_list (parse_member parse_json) skip_ws (length bs) bs)
    with (parse_members parse_json) in H.
  destruct (parse_container 123 125 (parse_members parse_json) bs) as [[ss r]|]; [|exact H].
  destruct H as (w & c & -> & Hitems & H). apply items_of_content in Hitems as [Hitems Hcount];
    [|apply parse_member_shorter, parse_json_shorter|apply skip_ws_suffix|
     apply parse_member_cut; [apply parse_json_shorter|apply parse_json_cut]|apply skip_ws_cut].
  unfold zlen in H. rewrite contained_fresh in H; [|done|done|destruct Hb as (_ & _ & Hmax); zlen_lia].
  eexists. split; [exact H|]. destruct o as [out|]; [|done]. cbn. eexists. split; [done|].
  exists w, c. by split_and!.
Qed.

Definition PARSER_JSON_ITEM : Parser :=
  COMB_ONE_OF [PARSER_JSON_STR; PARSER_JSON_NUMBER; PARSER_JSON_OBJECT; PARSER_JSON_ARRAY;
    PARSER_JSON_TRUE; PARSER_JSON_FALSE; PARSER_JSON_NULL].

(** A parser for one type of values. *)
Definition accepts (p : Parser) (bs : bytes) (o : option ParseResult) (res : option (jsyn * bytes)) : Prop :=
  match res with
  | Some (s, r) => exists o', runs p bs o true r o' /\ reported s bs r o o'
  | None => exists o', runs p bs o false bs o'
  end.

Lemma accepts_select pre p post bs o res :
  Forall (fun p => misses p bs) pre -> Forall (fun p => misses p bs) post ->
  accepts p bs o res -> accepts (COMB_ONE_OF (pre ++ p :: post)) bs o res.
Proof.
  intros Hpre Hpost H. destruct res as [[s r]|].
  - destruct H as (o' & H & Hr). exists o'. split; [|done].
    exact (alts_select pre p post bs o (Some (r, o')) Hpre Hpost H).
  - exact (alts_select pre p post bs o None Hpre Hpost H).
Qed.

Lemma string_accepts bs o : holds bs -> accepts PARSER_JSON_STR bs o (reader_map SStr parse_string bs).
Proof.
  intros Hb. pose proof (string_parses bs o Hb) as H. unfold reader_map.
  destruct (parse_string bs) as [[raw r]|] eqn:Es; [|exact H]. cbn in H. eexists. split; [exact H|].
  apply parse_string_Some in Es as [-> _]. destruct o as [out|]; [|done]. eexists. split; [done|].
  by split_and!.
Qed.

Lemma number_accepts bs o : holds bs -> accepts PARSER_JSON_NUMBER bs o (parse_number bs).
Proof.
  intros Hb. pose proof (number_parses bs o Hb) as H. destruct (parse_number bs) as [[s r]|] eqn:Es; [|exact H].
  cbn in H. eexists. split; [exact H|]. destruct (parse_number_eq bs) as [_ Hn].
  destruct (Hn _ _ Es) as [real ->]. pose proof Es as Hs.
  apply parse_number_shorter in Hs as [(x & Hx & Hu)%suffix_upto _].
  destruct o as [out|]; [|done]. eexists. split; [done|]. rewrite Hu in *. by split_and!.
Qed.

Lemma literal_accepts ty s str bs o :
  holds bs -> (forall u r out, json_type out = ty -> reports s u r out) ->
  accepts (COMB_RESULT_VAL ty (PARSER_STR str)) bs o (reader_of s (keyword str) bs).
Proof.
  intros Hb Hr. pose proof (literal_parses ty str bs o Hb) as H. unfold reader_of.
  destruct (keyword str bs) as [r|]; [|exact H]. eexists. split; [exact H|].
  destruct o as [out|]; [|done]. eexists. split; [done|]. by apply Hr.
Qed.

(** Alternatives that other first characters than the text's start. *)
Local Ltac miss :=
  lazymatch goal with
  | |- Forall _ [] => constructor
  | |- Forall _ (_ :: _) =>
      apply Forall_cons; split; [match goal with H : _ |- misses _ _ => apply H; lia end|miss]
  end.

Lemma item_accepts bs o :
  (forall x, (length x < length bs)%nat -> value_accepts x) -> holds bs -> fresh o ->
  accepts PARSER_JSON_ITEM bs o (parse_item parse_json bs).
Proof.
  intros IH Hb Hf. destruct bs as [|c t].
  - exists o. apply runs_one_of, alts_miss. repeat constructor; intros o'.
    + by apply (runs_sequence _ _ _ false []), runs_seq_stop, char_misses.
    + apply (runs_result_val JSON_TYPE_NUMBER _ _ _ false); [apply (number_recognised [] o' Hb)|by cbn|done].
    + by apply (runs_sequence _ _ _ false []), runs_seq_stop, char_misses.
    + by apply (runs_sequence _ _ _ false []), runs_seq_stop, char_misses.
    + apply (runs_result_val _ _ _ _ false); [exact (recognises_str (GG_STR "true") [] o' Hb)|by cbn|done].
    + apply (runs_result_val _ _ _ _ false); [exact (recognises_str (GG_STR "false") [] o' Hb)|by cbn|done].
    + apply (runs_result_val _ _ _ _ false); [exact (recognises_str (GG_STR "null") [] o' Hb)|by cbn|done].
  - cbn [parse_item].
    assert (forall k ps, c <> k -> misses (COMB_SEQUENCE (PARSER_CHAR k :: ps)) (c :: t)) as Hseq.
    { intros k ps Hk. by apply sequence_misses. }
    assert (c <> 116 -> misses PARSER_JSON_TRUE (c :: t)) as Htrue.
    { intros Hc. exact (literal_misses JSON_TYPE_TRUE c 116 (GG_STR "rue") t Hb Hc). }
    assert (c <> 102 -> misses PARSER_JSON_FALSE (c :: t)) as Hfalse.
    { intros Hc. exact (literal_misses JSON_TYPE_FALSE c 102 (GG_STR "alse") t Hb Hc). }
    assert (c <> 110 -> misses PARSER_JSON_NULL (c :: t)) as Hnull.
    { intros Hc. exact (literal_misses JSON_TYPE_NULL c 110 (GG_STR "ull") t Hb Hc). }
    assert (c <> 45 -> ~ (48 <= c <= 57) -> misses PARSER_JSON_NUMBER (c :: t)) as Hnum by by apply number_misses.
    repeat case_if; subst.
    + apply (accepts_select []); [constructor| |by apply string_accepts].
      miss.
    + apply (accepts_select [PARSER_JSON_STR; PARSER_JSON_NUMBER]).
      * miss.
      * miss.
      * pose proof (object_accepts (123 :: t) o IH Hb Hf) as H. unfold reader_map.
        destruct (parse_container _ _ _ _) as [[? ?]|]; exact H.
    + apply (accepts_select [PARSER_JSON_STR; PARSER_JSON_NUMBER; PARSER_JSON_OBJECT]).
      * miss.
      * miss.
      * pose proof (array_accepts (91 :: t) o IH Hb Hf) as H. unfold reader_map.
        destruct (parse_container _ _ _ _) as [[? ?]|]; exact H.
    + apply (accepts_select [PARSER_JSON_STR; PARSER_JSON_NUMBER; PARSER_JSON_OBJECT; PARSER_JSON_ARRAY]).
      * miss.
      * miss.
      * by apply literal_accepts.
    + apply (accepts_select [PARSER_JSON_STR; PARSER_JSON_NUMBER; PARSER_JSON_OBJECT; PARSER_JSON_ARRAY;
        PARSER_JSON_TRUE]).
      * miss.
      * miss.
      * by apply literal_accepts.
    + apply (accepts_select [PARSER_JSON_STR; PARSER_JSON_NUMBER; PARSER_JSON_OBJECT; PARSER_JSON_ARRAY;
        PARSER_JSON_TRUE; PARSER_JSON_FALSE]).
      * miss.
      * constructor.
      * by apply literal_accepts.
    + apply (accepts_select [PARSER_JSON_STR]).
      * miss.
      * miss.
      * by apply number_accepts.
Qed.

Lemma value_accepted bs : value_accepts bs.
Proof.
  induction (well_founded_ltof _ length bs) as [bs _ IH]. unfold ltof in IH. intros o Hb Hf.
  pose proof (recognises_ws bs o Hb) as H1. unfold always in H1. pose proof (skip_ws_suffix bs) as Hs.
  pose proof (suffix_len _ _ Hs). assert (holds (skip_ws bs)) as Hb1 by by eapply holds_suffix.
  assert (accepts PARSER_JSON_ITEM (skip_ws bs) o (parse_item parse_json (skip_ws bs))) as H2.
  { apply item_accepts; [|done|done]. intros x Hx. apply IH. lia. }
  rewrite parse_json_eq. destruct (parse_item parse_json (skip_ws bs)) as [[s r]|] eqn:Ei; cbn [mbind option_bind].
  - destruct H2 as (o' & H2 & Hr). exists o', r. split_and!; [|done| |exact Hr].
    2:{ apply (parse_item_shorter _ parse_json_shorter) in Ei as [? _]. by etrans. }
    assert (holds r) as Hb2.
    { eapply holds_suffix; [exact Hb1|]. by apply (parse_item_shorter _ parse_json_shorter) in Ei as [? _]. }
    pose proof (recognises_ws r o' Hb2) as H3. unfold always in H3.
    apply (runs_sequence _ _ _ true). eapply runs_seq_next; [exact H1|]. eapply runs_seq_next; [exact H2|].
    eapply runs_seq_next; [exact H3|apply runs_seq_nil].
  - destruct H2 as (o' & H2). exists o'. apply (runs_sequence _ _ _ false bs).
    eapply runs_seq_next; [exact H1|]. by apply runs_seq_stop.
Qed.

(** *** With the fuel that is enough *)

Lemma rest_buf_mapped bs : holds bs -> mapped m (data (rest_buf bs)) (len (rest_buf bs)).
Proof. intros (Hl & _). by eapply loadz_is_mapped. Qed.

Lemma runs_enough p bs o ret r o' fuel :
  runs p bs o ret r o' -> is_Some (parser_call m fuel p (rest_buf bs) o) ->
  parser_call m fuel p (rest_buf bs) o = Some (ret, rest_buf r, o').
Proof.
  intros [n H] [x Hx]. pose proof (parser_call_mono m _ _ (Nat.le_max_r fuel n) _ _ _ _ H) as H1.
  pose proof (parser_call_mono m _ _ (Nat.le_max_l fuel n) _ _ _ _ Hx) as H2. congruence.
Qed.

Lemma recognised_call p f bs :
  holds bs -> recognises p f -> loops_ok p = true -> guarded p = true -> height p <= JSON_HEIGHT ->
  parser_call m (Z.to_nat (parser_fuel (zlen bs))) p (rest_buf bs) None =
    Some (match f bs with Some r => (true, rest_buf r, None) | None => (false, rest_buf bs, None) end).
Proof.
  intros Hb Hp Hl Hg Hh. pose proof (Hp bs None Hb) as H.
  assert (is_Some (parser_call m (Z.to_nat (parser_fuel (zlen bs))) p (rest_buf bs) None)) as Hs.
  { apply (parsers_return m (zlen bs)); [|done|by apply rest_buf_ok|by apply rest_buf_mapped|done|by left|].
    - intros. by apply value_terminates.
    - unfold slack, parser_fuel, JSON_HEIGHT in *. cbn [rest_buf len].
      rewrite (proj2 (Z.ltb_ge _ _)) by lia. zlen_lia. }
  destruct (f bs) as [r|]; by apply runs_enough.
Qed.

Lemma value_call bs o :
  holds bs -> fresh o ->
  match parse_json bs with
  | Some (s, r) => exists o' t,
      parser_call m (Z.to_nat (parser_fuel (zlen bs))) PARSER_JSON_VALUE (rest_buf bs) o =
        Some (true, rest_buf r, o') /\
      r = skip_ws t /\ t `suffix_of` bs /\ reported s (skip_ws bs) t o o'
  | None => exists o',
      parser_call m (Z.to_nat (parser_fuel (zlen bs))) PARSER_JSON_VALUE (rest_buf bs) o =
        Some (false, rest_buf bs, o')
  end.
Proof.
  intros Hb Hf. pose proof (value_accepted bs o Hb Hf) as H.
  assert (is_Some (parser_call m (Z.to_nat (parser_fuel (zlen bs))) PARSER_JSON_VALUE (rest_buf bs) o)) as Hs.
  { apply value_terminates; [by apply rest_buf_ok|by apply rest_buf_mapped|]. cbn [rest_buf len]. lia. }
  destruct (parse_json bs) as [[s r]|].
  - destruct H as (o' & t & H & ?). exists o', t. split; [by apply runs_enough|done].
  - destruct H as (o' & H). exists o'. by apply runs_enough.
Qed.
End runs.
