(* ===== verification/JsonDecode.v ===== *)
(** The JSON decoder ([src/json_decode.c], second part): strings are unescaped
    in place, lists and maps are allocated in an arena, maps are put in
    canonical form.

    The destination [obj] of a decoding function may be null: [dst] says
    whether there is one. A function stores the result through it as its last
    action, so here it returns the result ([None] when there is nothing to
    store) and its caller stores it. *)

From S2P Require Import Prelude Memory Buffer Object Map Canonical Visit Arena JsonParse.

(** ** Strings *)

(** [None] when the character is not a digit. *)
Definition hex_char_to_byte (c : Z) : option Z :=
  if (48 <=? c) && (c <=? 57) then Some (uwrap 8 (c - 48))
  else if (65 <=? c) && (c <=? 70) then Some (uwrap 8 (c - 65 + 10))
  else if (97 <=? c) && (c <=? 102) then Some (uwrap 8 (c - 97 + 10))
  else None.

(** The loop over the four digits. *)
Fixpoint hex_loop (cs : bytes) : option bytes :=
  match cs with
  | [] => Some []
  | c :: cs => d ← hex_char_to_byte c; ds ← hex_loop cs; Some (d :: ds)
  end.

(** The outer [None] is a bad access, the inner one a result of [false]. *)
Definition get_uint16_from_hex4 (m : mem) (hex_bytes : Z) : option (option Z) :=
  cs ← loadz m hex_bytes 4;
  Some match hex_loop cs with
       | Some [b0; b1; b2; b3] =>
           Some (uwrap 16 (Z.lor (Z.lor (Z.lor (Z.shiftl b0 12) (Z.shiftl b1 8)) (Z.shiftl b2 4)) b3))
       | _ => None
       end.

(** The result, the memory and [*write_ptr]. *)
Definition write_codepoint_utf8 (m : mem) (code_point : Z) (write_ptr : Z) : option (bool * mem * Z) :=
  let write bs := m ← store m write_ptr bs; Some (true, m, write_ptr + zlen bs) in
  let tail n := uwrap 8 (0x80 + uwrap 8 (Z.land (Z.shiftr code_point n) 0x3F)) in
  let head b n := uwrap 8 (b + uwrap 8 (Z.shiftr code_point n)) in
  if code_point <=? 0x7F then write [uwrap 8 code_point]
  else if code_point <=? 0x7FF then write [head 0xC0 6; tail 0]
  else if code_point <=? 0xFFFF then write [head 0xE0 12; tail 6; tail 0]
  else if code_point <=? 0x1FFFFF then write [head 0xF0 18; tail 12; tail 6; tail 0]
  else Some (false, m, write_ptr).

(** The guard of [str_conv_handle_utf16_escape], used twice: not a backslash
    and a [u], or too short. *)
Definition not_utf16_escape (m : mem) (buf : BufPtr) : option bool :=
  if len buf <? 6 then Some true else
  b0 ← m !! data buf;
  if negb (b0 =? 92) then Some true else
  b1 ← m !! (data buf + 1);
  Some (negb (b1 =? 117)).

(** The result, the memory, [*buf] and [*write_ptr]. *)
Definition str_conv_handle_utf16_escape (m : mem) (buf : BufPtr) (write_ptr : Z)
    : option (bool * mem * BufPtr * Z) :=
  bad ← not_utf16_escape m buf;
  if (bad : bool) then Some (false, m, buf, write_ptr) else
  code_value ← get_uint16_from_hex4 m (data buf + 2);
  match code_value with
  | None => Some (false, m, buf, write_ptr)
  | Some code_value =>
      let buf := gg_buffer_substr_ptr buf 6 SIZE_MAX in
      if (0xD800 <=? code_value) && (code_value <=? 0xDBFF) then
        bad ← not_utf16_escape m buf;
        if (bad : bool) then Some (false, m, buf, write_ptr) else
        low_surrogate ← get_uint16_from_hex4 m (data buf + 2);
        match low_surrogate with
        | None => Some (false, m, buf, write_ptr)
        | Some low_surrogate =>
            if (low_surrogate <? 0xDC00) || (0xDFFF <? low_surrogate)
            then Some (false, m, buf, write_ptr) else
            let buf := gg_buffer_substr_ptr buf 6 SIZE_MAX in
            let code_point :=
              uwrap 32 (uwrap 32 (uwrap 32 (Z.shiftl (uwrap 32 (code_value - 0xD800)) 10) +
                (low_surrogate - 0xDC00)) + 0x10000) in
            '(ret, m, write_ptr) ← write_codepoint_utf8 m code_point write_ptr;
            Some (ret, m, buf, write_ptr)
        end
      else if (0xDC00 <=? code_value) && (code_value <=? 0xDFFF) then Some (false, m, buf, write_ptr)
      else
        '(ret, m, write_ptr) ← write_codepoint_utf8 m code_value write_ptr;
        Some (ret, m, buf, write_ptr)
  end.

(** The character of a one-letter escape; a double quote, a backslash and a
    slash stand for themselves. *)
Definition escape_char (c : Z) : option Z :=
  if (c =? 34) || (c =? 92) || (c =? 47) then Some c
  else if c =? 98 then Some 8
  else if c =? 102 then Some 12
  else if c =? 110 then Some 10
  else if c =? 114 then Some 13
  else if c =? 116 then Some 9
  else None.

Definition str_conv_handle_escape (m : mem) (buf : BufPtr) (write_ptr : Z)
    : option (bool * mem * BufPtr * Z) :=
  if len buf <? 2 then Some (false, m, buf, write_ptr) else
  b0 ← m !! data buf;
  if negb (b0 =? 92) then Some (false, m, buf, write_ptr) else
  b1 ← m !! (data buf + 1);
  if b1 =? 117 then str_conv_handle_utf16_escape m buf write_ptr else
  match escape_char b1 with
  | None => Some (false, m, buf, write_ptr)
  | Some c =>
      m ← store m write_ptr [c];
      Some (true, m, gg_buffer_substr_ptr buf 2 SIZE_MAX, write_ptr + 1)
  end.

(** The loop of [unescape_string]: every iteration consumes a byte, so as many
    iterations as there are bytes are enough. *)
Fixpoint unescape_loop (fuel : nat) (m : mem) (buf : BufPtr) (write_ptr : Z)
    : option (bool * mem * Z) :=
  if len buf <=? 0 then Some (true, m, write_ptr) else
  match fuel with
  | O => None
  | S fuel =>
      b ← m !! data buf;
      if b =? 92 then
        '(ret, m, buf, write_ptr) ← str_conv_handle_escape m buf write_ptr;
        if negb ret then Some (false, m, write_ptr) else unescape_loop fuel m buf write_ptr
      else
        m ← store m write_ptr [b];
        unescape_loop fuel m (gg_buffer_substr_ptr buf 1 SIZE_MAX) (write_ptr + 1)
  end.

(** The result, the memory and [*str]. *)
Definition unescape_string (m : mem) (str : BufPtr) : option (bool * mem * BufPtr) :=
  '(ret, m, write_ptr) ← unescape_loop (Z.to_nat (len str)) m str (data str);
  Some (ret, m, if ret : bool then mkBuf (data str) (uwrap 64 (write_ptr - data str)) else str).

(** ** Values *)

(** The error, the memory, the arena, [*buf] and the value for [*obj]. *)
Record decoded := mkDecoded { d_mem : mem; d_arena : GgArena; d_buf : BufPtr; d_obj : option GgObject }.

(** A parser that is called without an output. *)
Definition match_parser (m : mem) (parser : Parser) (buf : BufPtr) : option (bool * BufPtr) :=
  '(matches, buf, _) ← parser_call m (Z.to_nat (parser_fuel (len buf))) parser buf None;
  Some (matches, buf).

Section decode.
(** [strtod] of the C library: the bits of the value, and whether [errno] is
    [ERANGE]. *)
Context (strtod : mem -> Z -> Z * bool).
(** Where the literal ["<pruned>"] lies. *)
Context (pruned : BufPtr).

Definition decode_json_str (m : mem) (content : BufPtr) (dst : bool)
    : option (GgError * mem * option GgObject) :=
  '(ret, m, str) ← unescape_string m content;
  if negb ret then Some (GG_ERR_PARSE, m, None) else
  if dst then o ← gg_obj_buf str; Some (GG_ERR_OK, m, Some o)
  else Some (GG_ERR_OK, m, None).

Definition decode_json_number (m : mem) (content : BufPtr) (dst : bool)
    : option (GgError * option GgObject) :=
  '(result, buf) ← match_parser m PARSER_INT_PART content;
  if negb result then Some (GG_ERR_PARSE, None) else
  '(has_frac_part, buf) ← match_parser m PARSER_FRAC_PART buf;
  '(has_exp_part, buf) ← match_parser m PARSER_EXPONENT buf;
  if negb has_frac_part && negb has_exp_part then
    str ← buf_bytes m content;
    match gg_str_to_int64 str with
    | Ok val => Some (GG_ERR_OK, if dst then Some (gg_obj_i64 val) else None)
    | Fail parse_ret => Some (parse_ret, None)
    | Stuck => None
    end
  else
    let '(val, range_error) := strtod m (data content) in
    if (range_error : bool) then Some (GG_ERR_RANGE, None)
    else Some (GG_ERR_OK, if dst then Some (gg_obj_f64 val) else None).

Section containers.
(** [take_json_val] *)
Context (take : mem -> BufPtr -> GgArena -> bool -> option (GgError * decoded)).

(** The loop of [decode_json_array] from index [i] on, [n] iterations left. *)
Fixpoint array_loop (n : nat) (i count : Z) (m : mem) (buf_copy : BufPtr) (arena : GgArena) (items : Z)
    : option (GgError * mem * GgArena) :=
  match n with
  | O => Some (GG_ERR_OK, m, arena)
  | S n =>
      '(ret, d) ← take m buf_copy arena (negb (items =? NULL));
      let '(mkDecoded m arena buf_copy o) := d in
      m ← match o with
          | Some o => store m (items + sizeof_GgObject * i) o
          | None => Some m
          end;
      if negb (bool_decide (ret = GG_ERR_OK)) then Some (ret, m, arena) else
      '(matches, buf_copy) ← (if negb (i =? count - 1) then match_parser m (PARSER_CHAR 44) buf_copy
                              else Some (true, buf_copy));
      if negb matches then Some (GG_ERR_PARSE, m, arena)
      else array_loop n (i + 1) count m buf_copy arena items
  end.

Definition decode_json_array (m : mem) (content : BufPtr) (count : Z) (arena : GgArena) (dst : bool)
    : option (GgError * mem * GgArena * option GgObject) :=
  '(arena', items) ← (if (0 <? count) && dst
                      then gg_arena_alloc (Some arena) (uwrap 64 (count * sizeof_GgObject)) 1
                      else Some (Some arena, NULL));
  let arena := default arena arena' in
  if (0 <? count) && dst && (items =? NULL) then Some (GG_ERR_NOMEM, m, arena, None) else
  '(ret, m, arena) ← array_loop (Z.to_nat count) 0 count m content arena items;
  if negb (bool_decide (ret = GG_ERR_OK)) then Some (ret, m, arena, None) else
  if dst then o ← gg_obj_list (mkList items count); Some (GG_ERR_OK, m, arena, Some o)
  else Some (GG_ERR_OK, m, arena, None).

(** The loop of [decode_json_object]. *)
Fixpoint object_loop (n : nat) (i count : Z) (m : mem) (buf_copy : BufPtr) (arena : GgArena) (pairs : Z)
    : option (GgError * mem * GgArena) :=
  match n with
  | O => Some (GG_ERR_OK, m, arena)
  | S n =>
      '(ret, d) ← take m buf_copy arena true;
      let '(mkDecoded m arena buf_copy key_obj) := d in
      if negb (bool_decide (ret = GG_ERR_OK)) then Some (ret, m, arena) else
      let key_obj := default GG_OBJ_NULL key_obj in
      ty ← gg_obj_type key_obj;
      if negb (bool_decide (ty = GG_TYPE_BUF)) then Some (GG_ERR_PARSE, m, arena) else
      let kv := pairs + sizeof_GgKV * i in
      m ← (if negb (pairs =? NULL) then
             key ← gg_obj_into_buf key_obj;
             kv_bytes ← read_kv m kv;
             kv_bytes ← gg_kv_set_key kv_bytes key;
             store m kv kv_bytes
           else Some m);
      '(matches, buf_copy) ← match_parser m (PARSER_CHAR 58) buf_copy;
      if negb matches then Some (GG_ERR_PARSE, m, arena) else
      '(ret, d) ← take m buf_copy arena (negb (pairs =? NULL));
      let '(mkDecoded m arena buf_copy o) := d in
      m ← match o with Some o => store m (gg_kv_val kv) o | None => Some m end;
      if negb (bool_decide (ret = GG_ERR_OK)) then Some (ret, m, arena) else
      '(matches, buf_copy) ← (if negb (i =? count - 1) then match_parser m (PARSER_CHAR 44) buf_copy
                              else Some (true, buf_copy));
      if negb matches then Some (GG_ERR_PARSE, m, arena)
      else object_loop n (i + 1) count m buf_copy arena pairs
  end.

Definition decode_json_object (m : mem) (content : BufPtr) (count : Z) (arena : GgArena) (dst : bool)
    : option (GgError * mem * GgArena * option GgObject) :=
  '(arena', pairs) ← (if (0 <? count) && dst
                      then gg_arena_alloc (Some arena) (uwrap 64 (count * sizeof_GgKV)) 1
                      else Some (Some arena, NULL));
  let arena := default arena arena' in
  if (0 <? count) && dst && (pairs =? NULL) then Some (GG_ERR_NOMEM, m, arena, None) else
  '(ret, m, arena) ← object_loop (Z.to_nat count) 0 count m content arena pairs;
  if negb (bool_decide (ret = GG_ERR_OK)) then Some (ret, m, arena, None) else
  if dst then
    '(m, map) ← gg_map_canonicalize_shallow pruned m (mkMap pairs count);
    o ← gg_obj_map map;
    Some (GG_ERR_OK, m, arena, Some o)
  else Some (GG_ERR_OK, m, arena, None).
End containers.

(** One unit of fuel per level of nesting. *)
Fixpoint take_json_val (fuel : nat) (m : mem) (buf : BufPtr) (arena : GgArena) (dst : bool)
    : option (GgError * decoded) :=
  match fuel with
  | O => None
  | S fuel =>
      '(matches, buf, output) ←
        parser_call m (Z.to_nat (parser_fuel (len buf))) PARSER_JSON_VALUE buf (Some PARSE_RESULT_INIT);
      if negb matches then Some (GG_ERR_PARSE, mkDecoded m arena buf None) else
      output ← output;
      let simple o := Some (GG_ERR_OK, mkDecoded m arena buf (if dst then Some o else None)) in
      match json_type output with
      | JSON_TYPE_STR =>
          '(ret, m, o) ← decode_json_str m (content output) dst; Some (ret, mkDecoded m arena buf o)
      | JSON_TYPE_NUMBER =>
          '(ret, o) ← decode_json_number m (content output) dst; Some (ret, mkDecoded m arena buf o)
      | JSON_TYPE_TRUE => simple (gg_obj_bool true)
      | JSON_TYPE_FALSE => simple (gg_obj_bool false)
      | JSON_TYPE_NULL => simple GG_OBJ_NULL
      | JSON_TYPE_ARRAY =>
          '(ret, m, arena, o) ←
            decode_json_array (take_json_val fuel) m (content output) (count output) arena dst;
          Some (ret, mkDecoded m arena buf o)
      | JSON_TYPE_OBJECT =>
          '(ret, m, arena, o) ←
            decode_json_object (take_json_val fuel) m (content output) (count output) arena dst;
          Some (ret, mkDecoded m arena buf o)
      end
  end.

(** The nesting is bounded by the length of the text. *)
Definition decode_fuel (buf : BufPtr) : nat := S (Z.to_nat (len buf)).

(** The error, the memory and [*arena]; [obj] may be null. *)
Definition gg_json_decode_destructive (m : mem) (buf : BufPtr) (arena : option GgArena) (obj : Z)
    : option (GgError * mem * option GgArena) :=
  let result_arena := default (mkArena NULL 0 0) arena in
  '(ret, d) ← take_json_val (decode_fuel buf) m buf result_arena (negb (obj =? NULL));
  let '(mkDecoded m arena_copy buf_copy o) := d in
  m ← match o with Some o => store m obj o | None => Some m end;
  if negb (bool_decide (ret = GG_ERR_OK)) then Some (ret, m, arena) else
  if 0 <? len buf_copy then Some (GG_ERR_PARSE, m, arena) else
  Some (GG_ERR_OK, m,
    if negb (obj =? NULL) then (fun _ => arena_copy) <$> arena else arena).
End decode.
