(* ===== verification/JsonValue.v ===== *)
(** JSON values: what the syntax trees of [JsonGrammar.v] denote, which is the
    specification of the second part of [src/json_decode.c]. *)

From stdpp Require Import sorting.
From S2P Require Import Prelude Memory Buffer Object Canonical JsonParse JsonGrammar JsonAccept JsonDecode.

(** ** Strings *)

Definition hex_value (c : Z) : Z := if c <=? 57 then c - 48 else if c <=? 70 then c - 55 else c - 87.

(** Four hexadecimal digits. *)
Definition read_hex4 (bs : bytes) : option (Z * bytes) :=
  match bs with
  | a :: b :: c :: d :: r =>
      if is_hex a && is_hex b && is_hex c && is_hex d
      then Some (((hex_value a * 16 + hex_value b) * 16 + hex_value c) * 16 + hex_value d, r)
      else None
  | _ => None
  end.

(** The UTF-8 encoding of a code point (RFC 3629). *)
Definition utf8 (cp : Z) : bytes :=
  if cp <=? 0x7F then [cp]
  else if cp <=? 0x7FF then [0xC0 + cp / 64; 0x80 + cp mod 64]
  else if cp <=? 0xFFFF then [0xE0 + cp / 4096; 0x80 + cp / 64 mod 64; 0x80 + cp mod 64]
  else [0xF0 + cp / 262144; 0x80 + cp / 4096 mod 64; 0x80 + cp / 64 mod 64; 0x80 + cp mod 64].

Definition high_surrogate (u : Z) : bool := in_range 0xD800 0xDBFF u.
Definition low_surrogate (u : Z) : bool := in_range 0xDC00 0xDFFF u.

(** [\uXXXX] *)
Definition read_unit (bs : bytes) : option (Z * bytes) :=
  r ← seq (expect 92) (expect 117) bs; read_hex4 r.

(** A code point, or a pair of surrogates. *)
Definition unescape_unicode (bs : bytes) : option (bytes * bytes) :=
  '(hi, r) ← read_unit bs;
  if high_surrogate hi then
    '(lo, r) ← read_unit r;
    if low_surrogate lo then Some (utf8 (0x10000 + (hi - 0xD800) * 0x400 + (lo - 0xDC00)), r) else None
  else if low_surrogate hi then None
  else Some (utf8 hi, r).

(** The escape at the front of a text: the bytes it stands for, and the rest. *)
Definition unescape_one (bs : bytes) : option (bytes * bytes) :=
  match bs with
  | _ :: c :: r =>
      if c =? 117 then unescape_unicode bs
      else c ← escape_char c; Some ([c], r)
  | _ => None
  end.

Fixpoint unescape (n : nat) (bs : bytes) : option bytes :=
  match bs with
  | [] => Some []
  | b :: r =>
      match n with
      | O => None
      | S n =>
          if b =? 92 then '(x, r) ← unescape_one bs; y ← unescape n r; Some (x ++ y)
          else y ← unescape n r; Some (b :: y)
      end
  end.

(** The string that the characters of a text denote. *)
Definition string_value (bs : bytes) : option bytes := unescape (length bs) bs.

Example string_value_example :
  string_value (GG_STR "a\n\u00e9\uD83D\uDE00") = Some [97; 10; 0xC3; 0xA9; 0xF0; 0x9F; 0x98; 0x80].
Proof. by vm_compute. Qed.

(** ** Values *)

Inductive jvalue :=
  | JNull
  | JBool (b : bool)
  | JI64 (z : Z)
  | JF64 (bits : Z)
  | JStr (bs : bytes)
  | JArr (vs : list jvalue)
  | JObj (kvs : list (bytes * jvalue)).

(** The first of the members with each key, in the order of the keys. *)
Fixpoint first_members {A} (seen : list bytes) (kvs : list (bytes * A)) : list (bytes * A) :=
  match kvs with
  | [] => []
  | kv :: kvs =>
      if decide (kv.1 ∈ seen) then first_members seen kvs else kv :: first_members (kv.1 :: seen) kvs
  end.

Fixpoint insert_member {A} (x : bytes * A) (l : list (bytes * A)) : list (bytes * A) :=
  match l with
  | [] => [x]
  | y :: l' => if lex_lt x.1 y.1 then x :: l else y :: insert_member x l'
  end.

Definition canonical_members {A} (kvs : list (bytes * A)) : list (bytes * A) :=
  foldr insert_member [] (first_members [] kvs).

(** The canonical form of a map: for each key its first member, in the order of
    the keys. *)

Section canonical.
Context {A : Type}.
Implicit Types (kvs : list (bytes * A)).

Definition member_lt (x y : bytes * A) : Prop := lex_lt x.1 y.1 = true.

#[export] Instance member_lt_antisym : AntiSymm (=) member_lt.
Proof. intros x y H1 H2. unfold member_lt in *. apply lex_lt_asym in H1. congruence. Qed.

#[export] Instance member_lt_trans : Transitive member_lt.
Proof. intros x y z. apply lex_lt_trans. Qed.

Lemma insert_member_perm x kvs : insert_member x kvs ≡ₚ x :: kvs.
Proof.
  induction kvs as [|y kvs IH]; [done|]. cbn [insert_member]. case_if; [done|]. rewrite IH. apply Permutation_swap.
Qed.

Lemma canonical_members_perm kvs : canonical_members kvs ≡ₚ first_members [] kvs.
Proof.
  unfold canonical_members. induction (first_members [] kvs) as [|x l IH]; [done|]. cbn [foldr].
  by rewrite insert_member_perm, IH.
Qed.

Lemma insert_member_sorted x kvs :
  StronglySorted member_lt kvs -> x.1 ∉ kvs.*1 -> StronglySorted member_lt (insert_member x kvs).
Proof.
  induction kvs as [|y kvs IH]; intros Hs Hx; [by repeat constructor|]. cbn [insert_member fmap list_fmap] in *.
  apply StronglySorted_inv in Hs as [Hs Hy]. apply not_elem_of_cons in Hx as [Hne Hx]. case_if.
  - apply SSorted_cons; [by constructor|]. constructor; [done|].
    eapply Forall_impl; [exact Hy|]. intros z Hz. by etrans.
  - apply SSorted_cons; [by apply IH|]. rewrite insert_member_perm. constructor; [|done].
    unfold member_lt. destruct (lex_lt y.1 x.1) eqn:Hl; [done|]. by destruct Hne; apply lex_lt_total.
Qed.

Lemma first_members_keys seen kvs k : k ∈ (first_members seen kvs).*1 -> k ∉ seen.
Proof.
  revert seen. induction kvs as [|kv kvs IH]; intros seen; [by intros ?%elem_of_nil|]. cbn [first_members].
  case_decide; [apply IH|]. cbn [fmap list_fmap]. intros [->|Hk]%elem_of_cons; [done|].
  apply IH in Hk. by apply not_elem_of_cons in Hk as [_ ?].
Qed.

Lemma first_members_nodup seen kvs : NoDup (first_members seen kvs).*1.
Proof.
  revert seen. induction kvs as [|kv kvs IH]; intros seen; [constructor|]. cbn [first_members].
  case_decide; [apply IH|]. cbn [fmap list_fmap]. constructor; [|apply IH].
  intros Hk%first_members_keys. by apply not_elem_of_cons in Hk as [? _].
Qed.

Lemma canonical_members_sorted kvs : StronglySorted member_lt (canonical_members kvs).
Proof.
  unfold canonical_members. pose proof (first_members_nodup [] kvs) as Hn.
  induction (first_members [] kvs) as [|x l IH]; [constructor|]. cbn [foldr fmap list_fmap] in *.
  apply NoDup_cons in Hn as [Hx Hn]. apply insert_member_sorted; [by apply IH|].
  assert (foldr insert_member [] l ≡ₚ l) as ->; [|done].
  clear. induction l as [|y l IH]; [done|]. cbn [foldr]. by rewrite insert_member_perm, IH.
Qed.

(** It is determined by the order and the members. *)
Lemma canonical_members_unique kvs l :
  StronglySorted member_lt l -> l ≡ₚ first_members [] kvs -> l = canonical_members kvs.
Proof.
  intros Hs Hp. eapply (StronglySorted_unique member_lt); [done|apply canonical_members_sorted|].
  by rewrite Hp, canonical_members_perm.
Qed.

Lemma zlen_canonical_members kvs : zlen (canonical_members kvs) <= zlen kvs.
Proof.
  unfold zlen. rewrite canonical_members_perm. assert (forall seen, length (first_members seen kvs) <= length kvs)%nat
    as H; [|specialize (H []); lia].
  induction kvs as [|kv kvs IH]; intros seen; [done|]. cbn [first_members length].
  case_decide; [specialize (IH seen)|specialize (IH (kv.1 :: seen))]; simpl; lia.
Qed.
End canonical.

Section eval.
(** The value of the text of a number that is not an integer: its bits, and
    whether it is out of range. *)
Context (to_f64 : bytes -> Z * bool).

(** The value of a syntax tree, and what is left of [free] bytes after the
    arrays of its lists and maps are allocated; or the first error. *)
Fixpoint eval (s : jsyn) (free : Z) : outcome (jvalue * Z) :=
  match s with
  | SStr raw => match string_value raw with Some x => Ok (JStr x, free) | None => Fail GG_ERR_PARSE end
  | SNum text true =>
      let '(bits, range_error) := to_f64 text in
      if range_error : bool then Fail GG_ERR_RANGE else Ok (JF64 bits, free)
  | SNum text false => z ← gg_str_to_int64 text; Ok (JI64 z, free)
  | SArr ss =>
      if free <? sizeof_GgObject * zlen ss then Fail GG_ERR_NOMEM else
      '(vs, free) ← (fix go ss free := match ss with
        | [] => Ok ([], free)
        | s :: ss => '(v, free) ← eval s free; '(vs, free) ← go ss free; Ok (v :: vs, free)
        end) ss (free - sizeof_GgObject * zlen ss);
      Ok (JArr vs, free)
  | SObj kvs =>
      if free <? sizeof_GgKV * zlen kvs then Fail GG_ERR_NOMEM else
      '(kvs, free) ← (fix go kvs free := match kvs with
        | [] => Ok ([], free)
        | (k, s) :: kvs =>
            match string_value k with
            | None => Fail GG_ERR_PARSE
            | Some k => '(v, free) ← eval s free; '(kvs, free) ← go kvs free; Ok ((k, v) :: kvs, free)
            end
        end) kvs (free - sizeof_GgKV * zlen kvs);
      Ok (JObj (canonical_members kvs), free)
  | STrue => Ok (JBool true, free)
  | SFalse => Ok (JBool false, free)
  | SNull => Ok (JNull, free)
  end.

Fixpoint eval_elems (ss : list jsyn) (free : Z) : outcome (list jvalue * Z) :=
  match ss with
  | [] => Ok ([], free)
  | s :: ss => '(v, free) ← eval s free; '(vs, free) ← eval_elems ss free; Ok (v :: vs, free)
  end.

Fixpoint eval_members (kvs : list (bytes * jsyn)) (free : Z) : outcome (list (bytes * jvalue) * Z) :=
  match kvs with
  | [] => Ok ([], free)
  | (k, s) :: kvs =>
      match string_value k with
      | None => Fail GG_ERR_PARSE
      | Some k => '(v, free) ← eval s free; '(kvs, free) ← eval_members kvs free; Ok ((k, v) :: kvs, free)
      end
  end.

Lemma eval_SArr ss free :
  eval (SArr ss) free =
    if free <? sizeof_GgObject * zlen ss then Fail GG_ERR_NOMEM else
    '(vs, free) ← eval_elems ss (free - sizeof_GgObject * zlen ss); Ok (JArr vs, free).
Proof.
  cbn [eval]. destruct (_ <? _); [done|]. apply (f_equal (fun x => '(vs, free) ← x; Ok (JArr vs, free))).
  generalize (free - sizeof_GgObject * zlen ss).
  induction ss as [|s ss IH]; intros f; [done|]. cbn [eval_elems]. destruct (eval s f) as [[v f']| |]; [|done..].
  cbn [mbind outcome_bind]. by rewrite IH.
Qed.

Lemma eval_SObj kvs free :
  eval (SObj kvs) free =
    if free <? sizeof_GgKV * zlen kvs then Fail GG_ERR_NOMEM else
    '(kvs, free) ← eval_members kvs (free - sizeof_GgKV * zlen kvs); Ok (JObj (canonical_members kvs), free).
Proof.
  cbn [eval]. destruct (_ <? _); [done|].
  apply (f_equal (fun x => '(kvs, free) ← x; Ok (JObj (canonical_members kvs), free))).
  generalize (free - sizeof_GgKV * zlen kvs).
  induction kvs as [|[k s] kvs IH]; intros f; [done|]. cbn [eval_members].
  destruct (string_value k); [|done]. destruct (eval s f) as [[v f']| |]; [|done..].
  cbn [mbind outcome_bind]. by rewrite IH.
Qed.
End eval.

(** The value of a whole text. *)
Definition json_value (to_f64 : bytes -> Z * bool) (bs : bytes) (free : Z) : outcome (jvalue * Z) :=
  match parse_json bs with
  | None => Fail GG_ERR_PARSE
  | Some (s, r) => '(v, free) ← eval to_f64 s free; if bool_decide (r = []) then Ok (v, free) else Fail GG_ERR_PARSE
  end.

(** A text where back quotes stand for double quotes. *)
Definition quoted (s : string) : bytes := (fun c => if c =? 96 then 34 else c) <$> GG_STR s.

Example json_value_example :
  json_value (fun _ => (0, false)) (quoted "{ `b`:[-7 ], `a`:`x\n`, `b`:null}") 100 =
    Ok (JObj [(GG_STR "a", JStr [120; 10]); (GG_STR "b", JArr [JI64 (-7)])], 26).
Proof. by vm_compute. Qed.
