(* ===== verification/JsonUnescape.v ===== *)
(** The strings of the JSON decoder ([unescape_string] of
    [src/json_decode.c]): unescaping in place writes the string that the
    characters denote, over them. *)

From S2P Require Import Prelude Memory Buffer Object JsonParse JsonGrammar JsonAccept JsonDecode JsonValue.

(** ** Arithmetic of code units *)

Lemma hex_char_to_byte_eq c : hex_char_to_byte c = if is_hex c then Some (hex_value c) else None.
Proof.
  unfold hex_char_to_byte, is_hex, is_dec, in_range, hex_value.
  destruct ((48 <=? c) && (c <=? 57)) eqn:E1; cbn [orb].
  { zify_bool. rewrite (proj2 (Z.leb_le c 57)) by done. by rewrite uwrap_small by lia. }
  destruct ((65 <=? c) && (c <=? 70)) eqn:E2; cbn [orb].
  { zify_bool. rewrite (proj2 (Z.leb_gt c 57)), (proj2 (Z.leb_le c 70)) by lia.
    rewrite uwrap_small by lia. f_equal. lia. }
  destruct ((97 <=? c) && (c <=? 102)) eqn:E3; [|done].
  zify_bool. rewrite (proj2 (Z.leb_gt c 57)), (proj2 (Z.leb_gt c 70)) by lia.
  rewrite uwrap_small by lia. f_equal. lia.
Qed.

Lemma hex_value_range c : is_hex c = true -> 0 <= hex_value c < 16.
Proof.
  unfold is_hex, is_dec, in_range, hex_value. rewrite !orb_true_iff, !andb_true_iff, !Z.leb_le. intros H.
  repeat case_if; lia.
Qed.

Lemma nibbles_value b0 b1 b2 b3 :
  0 <= b0 < 16 -> 0 <= b1 < 16 -> 0 <= b2 < 16 -> 0 <= b3 < 16 ->
  uwrap 16 (Z.lor (Z.lor (Z.lor (Z.shiftl b0 12) (Z.shiftl b1 8)) (Z.shiftl b2 4)) b3) =
    ((b0 * 16 + b1) * 16 + b2) * 16 + b3.
Proof.
  intros. rewrite !Z.shiftl_mul_pow2 by lia.
  rewrite (lor_mul b0 (b1 * 2 ^ 8) 12) by lia.
  replace (b0 * 2 ^ 12 + b1 * 2 ^ 8) with ((b0 * 16 + b1) * 2 ^ 8) by lia.
  rewrite (lor_mul _ (b2 * 2 ^ 4) 8) by lia.
  replace ((b0 * 16 + b1) * 2 ^ 8 + b2 * 2 ^ 4) with (((b0 * 16 + b1) * 16 + b2) * 2 ^ 4) by lia.
  rewrite (lor_mul _ b3 4) by lia. rewrite uwrap_small by lia. lia.
Qed.

Lemma read_hex4_Some bs v r :
  read_hex4 bs = Some (v, r) -> exists ds, bs = ds ++ r /\ zlen ds = 4 /\ 0 <= v < 65536.
Proof.
  destruct bs as [|a [|b [|c [|d t]]]]; try done. cbn [read_hex4].
  destruct (is_hex a && is_hex b && is_hex c && is_hex d) eqn:E; [|done]. zify_bool. intros [= <- <-].
  exists [a; b; c; d]. split_and!; [done|done|..];
    repeat match goal with H : is_hex _ = true |- _ => apply hex_value_range in H end; lia.
Qed.

Lemma get_uint16_eq m p a b c d :
  loadz m p 4 = Some [a; b; c; d] ->
  get_uint16_from_hex4 m p = Some (fst <$> read_hex4 [a; b; c; d]).
Proof.
  intros Hl. unfold get_uint16_from_hex4. rewrite Hl. cbn [mbind option_bind hex_loop read_hex4].
  rewrite !hex_char_to_byte_eq.
  destruct (is_hex a) eqn:Ea; [|done]. destruct (is_hex b) eqn:Eb; [|done].
  destruct (is_hex c) eqn:Ec; [|done]. destruct (is_hex d) eqn:Ed; [|done].
  cbn [mbind option_bind andb fmap option_fmap option_map fst].
  by rewrite nibbles_value by (apply hex_value_range; done).
Qed.

Lemma utf8_tail cp n k :
  0 <= cp -> 0 <= n -> k = 2 ^ n ->
  uwrap 8 (128 + uwrap 8 (Z.land (Z.shiftr cp n) 63)) = 128 + cp / k mod 64.
Proof.
  intros Hcp Hn ->. rewrite Z.shiftr_div_pow2 by done. change 63 with (Z.ones 6).
  rewrite Z.land_ones by lia. change (2 ^ 6) with 64.
  pose proof (Z.mod_pos_bound (cp / 2 ^ n) 64). rewrite !uwrap_small by (rewrite ?uwrap_small; lia). done.
Qed.

Lemma utf8_head cp b n k :
  0 <= cp -> 0 <= n -> k = 2 ^ n -> 0 <= b -> b + cp / k < 256 ->
  uwrap 8 (b + uwrap 8 (Z.shiftr cp n)) = b + cp / k.
Proof.
  intros Hcp Hn -> Hb Hlt. rewrite Z.shiftr_div_pow2 by done.
  assert (0 <= cp / 2 ^ n) by (apply Z.div_pos; lia).
  rewrite !uwrap_small by (rewrite ?uwrap_small; lia). done.
Qed.

Lemma write_codepoint_eq m cp wp :
  0 <= cp < 0x110000 ->
  write_codepoint_utf8 m cp wp = m' ← store m wp (utf8 cp); Some (true, m', wp + zlen (utf8 cp)).
Proof.
  intros Hcp. unfold write_codepoint_utf8, utf8.
  destruct (cp <=? 127) eqn:E1; zify_bool; [by rewrite uwrap_small by lia|].
  destruct (cp <=? 2047) eqn:E2; zify_bool.
  { rewrite (utf8_tail cp 0 1), (utf8_head cp 192 6 64) by (done || dlia). by rewrite Z.div_1_r. }
  destruct (cp <=? 65535) eqn:E3; zify_bool.
  { rewrite (utf8_tail cp 0 1), (utf8_tail cp 6 64), (utf8_head cp 224 12 4096) by (done || dlia).
    by rewrite Z.div_1_r. }
  rewrite (proj2 (Z.leb_le cp 2097151)) by lia.
  rewrite (utf8_tail cp 0 1), (utf8_tail cp 6 64), (utf8_tail cp 12 4096), (utf8_head cp 240 18 262144)
    by (done || dlia).
  by rewrite Z.div_1_r.
Qed.

Lemma utf8_length cp : 0 <= cp < 0x110000 -> 1 <= zlen (utf8 cp) <= if cp <? 65536 then 3 else 4.
Proof. intros. unfold utf8. repeat case_if; zify_bool; rewrite ?zlen_cons, ?zlen_nil; lia. Qed.

Lemma utf8_bytes cp : 0 <= cp < 0x110000 -> bytes_ok (utf8 cp).
Proof.
  intros. unfold utf8. repeat case_if; zify_bool; repeat constructor; unfold is_byte; dlia.
Qed.

(** ** One escape *)

Lemma read_unit_Some bs v r :
  read_unit bs = Some (v, r) -> exists ds, bs = ds ++ r /\ zlen ds = 6 /\ 0 <= v < 65536.
Proof.
  unfold read_unit. destruct (seq (expect 92) (expect 117) bs) as [t|] eqn:E; [|done]. cbn [mbind option_bind].
  intros (ds & -> & Hl & Hv)%read_hex4_Some. apply seq_Some in E as (u & ->%expect_Some & ->%expect_Some).
  exists (92 :: 117 :: ds). split_and!; [done|rewrite !zlen_cons; lia|lia..].
Qed.

Lemma read_unit_run m E bs :
  holds m E bs ->
  match read_unit bs with
  | Some (v, r) =>
      not_utf16_escape m (rest_buf E bs) = Some false /\
      get_uint16_from_hex4 m (data (rest_buf E bs) + 2) = Some (Some v) /\
      gg_buffer_substr_ptr (rest_buf E bs) 6 SIZE_MAX = rest_buf E r
  | None =>
      not_utf16_escape m (rest_buf E bs) = Some true \/
      (not_utf16_escape m (rest_buf E bs) = Some false /\
       get_uint16_from_hex4 m (data (rest_buf E bs) + 2) = Some None)
  end.
Proof.
  intros Hb. unfold not_utf16_escape, read_unit. cbn [rest_buf len data].
  destruct (zlen bs <? 6) eqn:E6; zify_bool.
  { assert (read_unit bs = None) as Hn.
    { destruct (read_unit bs) as [[v r]|] eqn:Hr; [|done].
      apply read_unit_Some in Hr as (ds & -> & ? & _). zlen_lia. }
    unfold read_unit in Hn. rewrite Hn. by left. }
  do 6 (destruct bs as [|? bs]; [rewrite ?zlen_cons, zlen_nil in E6; lia|]).
  pose proof Hb as (Hl & _ & Hmax).
  apply (loadz_sub _ _ _ _ 2 4) in Hl; [|lia..]. change (ztake 4 _) with [z1; z2; z3; z4] in Hl.
  pose proof (holds_cons _ _ _ _ Hb) as (Hb1 & -> & _). cbn [mbind option_bind].
  pose proof (holds_cons _ _ _ _ Hb1) as (_ & H1 & _).
  replace (E - zlen (z :: z0 :: z1 :: z2 :: z3 :: z4 :: bs) + 1)
    with (E - zlen (z0 :: z1 :: z2 :: z3 :: z4 :: bs)) by (rewrite !zlen_cons; lia).
  rewrite H1. unfold seq, expect, satisfy. cbn [mbind option_bind].
  rewrite (Z.eqb_sym z), (Z.eqb_sym z0). destruct (92 =? z); cbn [negb mbind option_bind]; [|by left].
  destruct (117 =? z0); cbn [negb mbind option_bind]; [|by left].
  rewrite (get_uint16_eq _ _ _ _ _ _ Hl). cbn [read_hex4].
  destruct (is_hex z1 && is_hex z2 && is_hex z3 && is_hex z4); [|by right].
  split_and!; [done|done|]. rewrite (rest_buf_advance m); [done|done|lia].
Qed.

(** The shape of the results: [None] is a result of [false]. *)
Definition escapes (m : mem) (E wp : Z) (res : option (bytes * bytes))
    (call : option (bool * mem * BufPtr * Z)) : Prop :=
  match res with
  | Some (x, r) => call = m' ← store m wp x; Some (true, m', rest_buf E r, wp + zlen x)
  | None => exists b, call = Some (false, m, b, wp)
  end.

Lemma unescape_unicode_Some bs x r :
  unescape_unicode bs = Some (x, r) ->
  exists e, bs = e ++ r /\ 1 <= zlen x <= zlen e /\ bytes_ok x.
Proof.
  unfold unescape_unicode. destruct (read_unit bs) as [[hi t]|] eqn:E1; [|done]. cbn [mbind option_bind].
  apply read_unit_Some in E1 as (ds & -> & Hl & Hhi). destruct (high_surrogate hi) eqn:Eh.
  - destruct (read_unit t) as [[lo t']|] eqn:E2; [|done]. cbn [mbind option_bind].
    destruct (low_surrogate lo) eqn:El; [|done]. intros [= <- <-].
    apply read_unit_Some in E2 as (ds' & -> & Hl' & Hlo).
    unfold high_surrogate, low_surrogate, in_range in *. zify_bool. exists (ds ++ ds').
    rewrite <- app_assoc, zlen_app. split; [done|]. split; [|apply utf8_bytes; lia].
    pose proof (utf8_length (0x10000 + (hi - 0xD800) * 0x400 + (lo - 0xDC00)) ltac:(lia)) as Hu.
    case_if_in Hu; lia.
  - destruct (low_surrogate hi) eqn:El; [done|]. intros [= <- <-]. exists ds. split; [done|].
    split; [|apply utf8_bytes; lia]. pose proof (utf8_length hi ltac:(lia)) as Hu. case_if_in Hu; lia.
Qed.

Lemma utf16_escape_run m E bs wp :
  holds m E bs -> escapes m E wp (unescape_unicode bs) (str_conv_handle_utf16_escape m (rest_buf E bs) wp).
Proof.
  intros Hb. unfold unescape_unicode, str_conv_handle_utf16_escape.
  pose proof (read_unit_run m E bs Hb) as H1. destruct (read_unit bs) as [[hi r]|] eqn:E1; cbn [mbind option_bind].
  2:{ destruct H1 as [->|[-> Hg]]; cbn [mbind option_bind]; [by eexists|]. rewrite Hg. by eexists. }
  destruct H1 as (-> & Hg & Hadv). cbn [mbind option_bind]. rewrite Hg. cbn [mbind option_bind]. rewrite Hadv.
  apply read_unit_Some in E1 as (ds & -> & _ & Hhi).
  unfold high_surrogate, low_surrogate, in_range. destruct ((0xD800 <=? hi) && (hi <=? 0xDBFF)) eqn:Eh; zify_bool.
  - assert (holds m E r) as Hr by (eapply holds_suffix; [done|by exists ds]).
    pose proof (read_unit_run m E r Hr) as H2.
    destruct (read_unit r) as [[lo r']|] eqn:E2; cbn [mbind option_bind].
    2:{ destruct H2 as [->|[-> Hg2]]; cbn [mbind option_bind]; [by eexists|]. rewrite Hg2. by eexists. }
    destruct H2 as (-> & Hg2 & Hadv2). cbn [mbind option_bind]. rewrite Hg2. cbn [mbind option_bind].
    apply read_unit_Some in E2 as (ds' & -> & _ & Hlo).
    rewrite !Z.leb_antisym, <- negb_orb.
    destruct ((lo <? 56320) || (57343 <? lo)) eqn:El; cbn [negb]; [by eexists|]. zify_bool.
    rewrite Hadv2. rewrite Z.shiftl_mul_pow2 by lia. rewrite (uwrap_small 32 (hi - 55296)) by lia.
    rewrite (uwrap_small 32 (_ * _)) by lia. rewrite (uwrap_small 32 (_ * _ + _)) by lia.
    rewrite (uwrap_small 32 (_ + 65536)) by lia. rewrite write_codepoint_eq by lia.
    replace ((hi - 55296) * 2 ^ 10 + (lo - 56320) + 65536) with (65536 + (hi - 55296) * 1024 + (lo - 56320)) by lia.
    cbn [escapes]. by destruct (store m wp _).
  - destruct ((0xDC00 <=? hi) && (hi <=? 0xDFFF)); [by eexists|]. rewrite write_codepoint_eq by lia.
    cbn [escapes]. by destruct (store m wp _).
Qed.

Lemma escape_char_byte c v : escape_char c = Some v -> is_byte v.
Proof. unfold escape_char, is_byte. repeat case_if; intros; simplify_eq; lia. Qed.

Lemma unescape_one_Some bs x r :
  unescape_one bs = Some (x, r) -> exists e, bs = e ++ r /\ 1 <= zlen x <= zlen e /\ bytes_ok x.
Proof.
  destruct bs as [|a [|c t]]; [done..|]. cbn [unescape_one]. case_if; [apply unescape_unicode_Some|].
  destruct (escape_char c) as [v|] eqn:Ev; [|done]. intros [= <- <-]. exists [a; c].
  split; [done|]. split; [done|]. constructor; [by eapply escape_char_byte|constructor].
Qed.

Lemma handle_escape_run m E t wp :
  holds m E (92 :: t) ->
  escapes m E wp (unescape_one (92 :: t)) (str_conv_handle_escape m (rest_buf E (92 :: t)) wp).
Proof.
  intros Hb. unfold str_conv_handle_escape. cbn [rest_buf len data unescape_one].
  destruct t as [|c t]; [by eexists|].
  assert (zlen (92 :: c :: t) <? 2 = false) as -> by (rewrite !zlen_cons; apply Z.ltb_ge; zlen_lia).
  pose proof (holds_cons _ _ _ _ Hb) as (Hb1 & -> & _). cbn [mbind option_bind].
  pose proof (holds_cons _ _ _ _ Hb1) as (_ & H1 & _).
  replace (E - zlen (92 :: c :: t) + 1) with (E - zlen (c :: t)) by (rewrite !zlen_cons; lia).
  rewrite H1, Z.eqb_refl. cbn [negb mbind option_bind]. destruct (c =? 117) eqn:Ec.
  - by apply utf16_escape_run.
  - destruct (escape_char c) as [v|]; [|by eexists]. cbn [mbind option_bind escapes].
    change (mkBuf (E - zlen (92 :: c :: t)) (zlen (92 :: c :: t))) with (rest_buf E (92 :: c :: t)).
    rewrite (rest_buf_advance m) by (done || (rewrite !zlen_cons; zlen_lia)). done.
Qed.

(** ** The loop *)

Lemma unescape_enough n k bs : (length bs <= n)%nat -> (length bs <= k)%nat -> unescape n bs = unescape k bs.
Proof.
  revert k bs. induction n as [|n IH]; intros k bs Hn Hk.
  { destruct bs; [|simpl in Hn; lia]. by destruct k. }
  destruct bs as [|b t]; [by destruct k|]. destruct k as [|k]; [simpl in Hk; lia|]. cbn [unescape].
  simpl in Hn, Hk. case_if.
  - destruct (unescape_one (b :: t)) as [[x r]|] eqn:Eo; [|done]. cbn [mbind option_bind].
    apply unescape_one_Some in Eo as (e & He & Hx & _). apply (f_equal zlen) in He.
    rewrite zlen_cons, zlen_app in He. unfold zlen in *. rewrite (IH k r) by lia. done.
  - rewrite (IH k t) by lia. done.
Qed.

Lemma string_value_nil : string_value [] = Some [].
Proof. done. Qed.

Lemma string_value_cons b t :
  string_value (b :: t) =
    if b =? 92 then '(x, r) ← unescape_one (b :: t); y ← string_value r; Some (x ++ y)
    else y ← string_value t; Some (b :: y).
Proof.
  unfold string_value at 1. cbn [length unescape]. case_if; [|done].
  destruct (unescape_one (b :: t)) as [[x r]|] eqn:Eo; [|done]. cbn [mbind option_bind].
  apply unescape_one_Some in Eo as (e & He & Hx & _). apply (f_equal zlen) in He.
  rewrite zlen_cons, zlen_app in He. unfold zlen, string_value in *.
  rewrite (unescape_enough (length t) (length r) r) by lia. done.
Qed.

Lemma string_value_Some bs x : string_value bs = Some x -> zlen x <= zlen bs.
Proof.
  revert x. induction (well_founded_ltof _ length bs) as [bs _ IH]. unfold ltof in IH. intros x.
  destruct bs as [|b t]; [by intros [= <-]|]. rewrite string_value_cons. case_if.
  - destruct (unescape_one (b :: t)) as [[y r]|] eqn:Eo; [|done]. cbn [mbind option_bind].
    destruct (string_value r) as [z|] eqn:Ez; [|done]. cbn [mbind option_bind]. intros [= <-].
    apply unescape_one_Some in Eo as (e & He & Hy & _). rewrite He in *.
    apply IH in Ez; [rewrite !zlen_app; lia|]. rewrite length_app. unfold zlen in *. lia.
  - destruct (string_value t) as [z|] eqn:Ez; [|done]. cbn [mbind option_bind]. intros [= <-].
    apply IH in Ez; [rewrite !zlen_cons; lia|simpl; lia].
Qed.

(** Text that is not changed is still there. *)
Lemma holds_changes W m m' E bs :
  holds m E bs -> changes W m m' -> (forall x, E - zlen bs <= x < E -> ~ W x) -> holds m' E bs.
Proof.
  intros (Hl & Hok & Hmax) Hc Hd. split; [|done]. rewrite <- Hl. eapply changes_loadz; [exact Hc|].
  intros x Hx. apply Hd. lia.
Qed.

(** The result of unescaping from [wp] on. *)
Definition unescaped (m m' : mem) (E wp wp' : Z) (bs : bytes) : Prop :=
  changes (zrange wp E) m m' /\
  match string_value bs with
  | Some x => wp' = wp + zlen x /\ loadz m' wp (zlen x) = Some x
  | None => True
  end.

Lemma unescape_loop_run fuel m E bs wp :
  holds m E bs -> wp <= E - zlen bs -> mapped m wp (E - wp) -> (length bs <= fuel)%nat ->
  exists m' wp', unescape_loop fuel m (rest_buf E bs) wp =
      Some (bool_decide (is_Some (string_value bs)), m', wp') /\ unescaped m m' E wp wp' bs.
Proof.
  revert m bs wp. induction fuel as [|fuel IH]; intros m bs wp Hb Hwp Hm Hf.
  { destruct bs; [|simpl in Hf; lia]. exists m, wp. split; [done|]. split; [apply changes_refl|].
    rewrite string_value_nil, zlen_nil, Z.add_0_r. done. }
  destruct bs as [|b t].
  { exists m, wp. split; [done|]. split; [apply changes_refl|].
    rewrite string_value_nil, zlen_nil, Z.add_0_r. done. }
  cbn [unescape_loop rest_buf len data].
  assert (zlen (b :: t) <=? 0 = false) as -> by (apply Z.leb_gt; zlen_lia).
  pose proof (holds_cons _ _ _ _ Hb) as (Hb1 & -> & Hbyte). cbn [mbind option_bind].
  change (mkBuf (E - zlen (b :: t)) (zlen (b :: t))) with (rest_buf E (b :: t)).
  (* what remains after [x] was written over a part [e] of the text *)
  assert (forall x e r m1, b :: t = e ++ r -> 1 <= zlen x <= zlen e -> store m wp x = Some m1 ->
    exists m' wp', unescape_loop fuel m1 (rest_buf E r) (wp + zlen x) =
        Some (bool_decide (is_Some (string_value r)), m', wp') /\
      changes (zrange wp E) m m' /\
      forall y, string_value r = Some y -> wp' = wp + zlen (x ++ y) /\ loadz m' wp (zlen (x ++ y)) = Some (x ++ y))
    as Hrest.
  { intros x e r m1 He Hx Hst. pose proof (f_equal zlen He) as Hz. rewrite zlen_app in Hz.
    rewrite zlen_cons in Hz, Hwp. pose proof (store_changes _ _ _ _ Hst) as Hc. pose proof (zlen_nonneg r).
    destruct (IH m1 r (wp + zlen x)) as (m' & wp' & Hl & Hch & Hres).
    - eapply holds_changes; [eapply holds_suffix; [exact Hb|rewrite He; by exists e]|exact Hc|].
      unfold zrange. intros y ??. lia.
    - lia.
    - eapply changes_mapped; [exact Hc|]. eapply mapped_mono; [exact Hm|lia|lia].
    - simpl in Hf. unfold zlen in *. lia.
    - exists m', wp'. split; [exact Hl|]. split.
      + eapply changes_trans; (eapply changes_sub; [eassumption|]); unfold zrange; lia.
      + intros y Hy. rewrite Hy in Hres. destruct Hres as [-> Hly]. rewrite zlen_app. split; [lia|].
        apply loadz_app; [zlen_lia..| |exact Hly].
        erewrite changes_loadz; [by eapply loadz_store_same|exact Hch|]. unfold zrange. lia. }
  unfold unescaped. rewrite string_value_cons. destruct (b =? 92) eqn:Eb.
  - apply Z.eqb_eq in Eb. subst b. pose proof (handle_escape_run m E t wp Hb) as He.
    destruct (unescape_one (92 :: t)) as [[x r]|] eqn:Eo; cbn [escapes mbind option_bind] in *.
    + apply unescape_one_Some in Eo as (e & Het & Hx & _).
      assert (is_Some (store m wp x)) as [m1 Hst].
      { destruct (store_Some m wp x) as [m1 ?]; [|by exists m1]. eapply mapped_mono; [exact Hm|lia|].
        apply (f_equal zlen) in Het. rewrite zlen_app in Het. pose proof (zlen_nonneg r). lia. }
      rewrite Hst in He. cbn [mbind option_bind] in He. rewrite He. cbn [mbind option_bind negb].
      destruct (Hrest x e r m1 Het Hx Hst) as (m' & wp' & Hl & Hc & Hres). exists m', wp'. rewrite Hl.
      destruct (string_value r) as [y|]; cbn [mbind option_bind]; (split; [done|]; split; [done|]); [|done].
      by apply Hres.
    + destruct He as [b ->]. cbn [mbind option_bind negb]. exists m, wp. split; [done|].
      split; [apply changes_refl|done].
  - assert (is_Some (store m wp [b])) as [m1 Hst].
    { destruct (store_Some m wp [b]) as [m1 ?]; [|by exists m1]. eapply mapped_mono; [exact Hm|lia|].
      rewrite zlen_cons in Hwp. change (zlen [b]) with 1. zlen_lia. }
    rewrite Hst. cbn [mbind option_bind].
    assert (gg_buffer_substr_ptr (rest_buf E (b :: t)) 1 SIZE_MAX = rest_buf E t) as ->.
    { rewrite (rest_buf_advance m) by (done || zlen_lia). done. }
    destruct (Hrest [b] [b] t m1 eq_refl ltac:(done) Hst) as (m' & wp' & Hl & Hc & Hres). exists m', wp'.
    change (zlen [b]) with 1 in Hl. rewrite Hl.
    destruct (string_value t) as [y|]; cbn [mbind option_bind]; (split; [done|]; split; [done|]); [|done].
    by apply Hres.
Qed.

(** The string is written at the start of its text. *)
Lemma unescape_string_run m E raw :
  holds m E raw ->
  exists m' str, unescape_string m (rest_buf E raw) = Some (bool_decide (is_Some (string_value raw)), m', str) /\
    changes (zrange (E - zlen raw) E) m m' /\
    forall x, string_value raw = Some x -> str = mkBuf (E - zlen raw) (zlen x) /\ buf_bytes m' str = Some x.
Proof.
  intros Hb. unfold unescape_string. cbn [rest_buf len data]. rewrite to_nat_zlen.
  change (mkBuf (E - zlen raw) (zlen raw)) with (rest_buf E raw).
  destruct (unescape_loop_run (length raw) m E raw (E - zlen raw)) as (m' & wp & -> & Hc & Hv); [done|lia| |lia|].
  { replace (E - (E - zlen raw)) with (zlen raw) by lia. apply (rest_buf_mapped _ _ _ Hb). }
  cbn [mbind option_bind]. eexists m', _. split; [done|]. split; [done|]. intros x Hx. rewrite Hx in *.
  rewrite bool_decide_true by (by eexists). destruct Hv as [-> Hv].
  apply string_value_Some in Hx as Hle. destruct Hb as (_ & _ & Hmax). unfold SIZE_MAX in Hmax.
  rewrite uwrap_small by zlen_lia. replace (E - zlen raw + zlen x - (E - zlen raw)) with (zlen x) by lia. done.
Qed.
