(* ===== verification/JsonStored.v ===== *)
(** Values in memory: when an object of the SDK denotes a JSON value, and that
    the canonical form of a stored map stores the canonical map. *)

From Stdlib Require Import Sorted.
From S2P Require Import Prelude Memory Buffer Object Map Canonical JsonValue.

(** ** Objects that denote values

    The bytes of the object are given; the strings and arrays it refers to lie
    in the region [R]. *)

(** The rest of a region, without [n] addresses from [a] on. *)
Definition apart (R : Z -> Prop) (a n : Z) (x : Z) : Prop := R x /\ ~ (a <= x < a + n).

Section region.
Context (R : Z -> Prop) (m : mem).

Definition inside (a n : Z) : Prop := forall x, a <= x < a + n -> R x.

Definition string_at (b : BufPtr) (bs : bytes) : Prop :=
  buf_bytes m b = Some bs /\ 0 <= len b /\ inside (data b) (len b).
End region.

(** An array lies in the region, and what its elements refer to lies apart from
    it, so that writing to an element leaves the value that it had. *)
Fixpoint represents (R : Z -> Prop) (m : mem) (v : jvalue) (o : GgObject) : Prop :=
  match v with
  | JNull => unpack o = Some VNull
  | JBool b => unpack o = Some (VBool b)
  | JI64 z => unpack o = Some (VI64 z)
  | JF64 bits => unpack o = Some (VF64 bits)
  | JStr bs => exists b, unpack o = Some (VBuf b) /\ string_at R m b bs
  | JArr vs => exists a, unpack o = Some (VList (mkList a (zlen vs))) /\
      inside R a (sizeof_GgObject * zlen vs) /\
      (fix elems R vs p := match vs with
        | [] => True
        | v :: vs => (exists o, read_obj m p = Some o /\ represents R m v o) /\ elems R vs (p + sizeof_GgObject)
        end) (apart R a (sizeof_GgObject * zlen vs)) vs a
  | JObj kvs => exists a, unpack o = Some (VMap (mkMap a (zlen kvs))) /\
      inside R a (sizeof_GgKV * zlen kvs) /\
      (fix members R kvs p := match kvs with
        | [] => True
        | (k, v) :: kvs => (exists kv, read_kv m p = Some kv /\ string_at R m (gg_kv_key kv) k /\
            represents R m v (zdrop (gg_kv_val 0) kv)) /\ members R kvs (p + sizeof_GgKV)
        end) (apart R a (sizeof_GgKV * zlen kvs)) kvs a
  end.

Section stored.
Context (R : Z -> Prop) (m : mem).

(** The elements of a list from [p] on. *)
Fixpoint elems_at (vs : list jvalue) (p : Z) : Prop :=
  match vs with
  | [] => True
  | v :: vs => (exists o, read_obj m p = Some o /\ represents R m v o) /\ elems_at vs (p + sizeof_GgObject)
  end.

(** A pair that denotes a member. *)
Definition pair_represents (kv : bytes * jvalue) (pair : GgKV) : Prop :=
  string_at R m (gg_kv_key pair) kv.1 /\ represents R m kv.2 (zdrop (gg_kv_val 0) pair).

Fixpoint members_at (kvs : list (bytes * jvalue)) (p : Z) : Prop :=
  match kvs with
  | [] => True
  | kv :: kvs => (exists pair, read_kv m p = Some pair /\ pair_represents kv pair) /\ members_at kvs (p + sizeof_GgKV)
  end.
End stored.

Lemma represents_JArr R m vs o :
  represents R m (JArr vs) o <->
  exists p, unpack o = Some (VList (mkList p (zlen vs))) /\ inside R p (sizeof_GgObject * zlen vs) /\
    elems_at (apart R p (sizeof_GgObject * zlen vs)) m vs p.
Proof.
  cbn [represents]. assert (forall R p, (fix elems R vs p := match vs with
        | [] => True
        | v :: vs => (exists o, read_obj m p = Some o /\ represents R m v o) /\ elems R vs (p + sizeof_GgObject)
        end) R vs p = elems_at R m vs p) as He; [|by setoid_rewrite He].
  clear R. intros R. induction vs as [|v vs IH]; intros p; [done|]. cbn [elems_at]. by rewrite IH.
Qed.

Lemma represents_JObj R m kvs o :
  represents R m (JObj kvs) o <->
  exists p, unpack o = Some (VMap (mkMap p (zlen kvs))) /\ inside R p (sizeof_GgKV * zlen kvs) /\
    members_at (apart R p (sizeof_GgKV * zlen kvs)) m kvs p.
Proof.
  cbn [represents]. assert (forall R p, (fix members R kvs p := match kvs with
        | [] => True
        | (k, v) :: kvs => (exists kv, read_kv m p = Some kv /\ string_at R m (gg_kv_key kv) k /\
            represents R m v (zdrop (gg_kv_val 0) kv)) /\ members R kvs (p + sizeof_GgKV)
        end) R kvs p = members_at R m kvs p) as He; [|by setoid_rewrite He].
  clear R. intros R. induction kvs as [|[k v] kvs IH]; intros p; [done|]. cbn [members_at]. by rewrite IH.
Qed.

Lemma jvalue_ind' (P : jvalue -> Prop) :
  P JNull -> (forall b, P (JBool b)) -> (forall z, P (JI64 z)) -> (forall z, P (JF64 z)) ->
  (forall bs, P (JStr bs)) -> (forall vs, Forall P vs -> P (JArr vs)) ->
  (forall kvs, Forall (fun kv => P kv.2) kvs -> P (JObj kvs)) -> forall v, P v.
Proof.
  intros H1 H2 H3 H4 H5 H6 H7. fix IH 1. intros [| | | | |vs|kvs].
  - exact H1.
  - apply H2.
  - apply H3.
  - apply H4.
  - apply H5.
  - apply H6. induction vs as [|v vs IHvs]; constructor; [apply IH|exact IHvs].
  - apply H7. induction kvs as [|[k v] kvs IHkvs]; constructor; [apply IH|exact IHkvs].
Qed.

(** ** Framing *)

(** The memory is the same on [R]. *)
Definition agrees (R : Z -> Prop) (m m' : mem) : Prop := forall x, R x -> m' !! x = m !! x.

Lemma changes_agrees (W R : Z -> Prop) m m' : changes W m m' -> (forall x, R x -> ~ W x) -> agrees R m m'.
Proof. intros [H _] Hd x Hx. by apply H, Hd. Qed.

Lemma apart_sub (R R' : Z -> Prop) a n : (forall x, R x -> R' x) -> forall x, apart R a n x -> apart R' a n x.
Proof. intros Hs x [? ?]. split; [by apply Hs|done]. Qed.

Lemma apart_in R a n x : apart R a n x -> R x.
Proof. by intros [? _]. Qed.

Lemma agrees_apart R m m' a n : agrees R m m' -> agrees (apart R a n) m m'.
Proof. intros H x Hx. by eapply H, apart_in. Qed.

(** The arrays are the same, and so are the elements. *)
Lemma elems_at_frame R R' m m' vs p :
  Forall (fun v => forall o, represents R m v o -> represents R' m' v o) vs ->
  (forall x, p <= x < p + sizeof_GgObject * zlen vs -> m' !! x = m !! x) -> elems_at R m vs p -> elems_at R' m' vs p.
Proof.
  intros Hf. revert p. induction Hf as [|v vs Hv _ IH]; intros p Hi; [done|]. cbn [elems_at].
  rewrite zlen_cons in Hi. pose proof (zlen_nonneg vs) as Hn. unfold sizeof_GgObject in *.
  intros [(o & Hr & Ho) H]. split.
  - exists o. split; [|by apply Hv]. unfold read_obj in *. rewrite <- Hr. apply loadz_ext.
    intros x Hx. apply Hi. unfold sizeof_GgObject in Hx. lia.
  - apply IH; [|done]. intros x Hx. apply Hi. lia.
Qed.

Lemma members_at_frame R R' m m' kvs p :
  (forall b bs, string_at R m b bs -> string_at R' m' b bs) ->
  Forall (fun kv => forall o, represents R m kv.2 o -> represents R' m' kv.2 o) kvs ->
  (forall x, p <= x < p + sizeof_GgKV * zlen kvs -> m' !! x = m !! x) -> members_at R m kvs p -> members_at R' m' kvs p.
Proof.
  intros Hs Hf. revert p. induction Hf as [|kv kvs Hv _ IH]; intros p Hi; [done|]. cbn [members_at].
  rewrite zlen_cons in Hi. pose proof (zlen_nonneg kvs) as Hn. unfold sizeof_GgKV in *.
  intros [(pair & Hr & Hk & Ho) H]. split.
  - exists pair. split; [|split; [by apply Hs|by apply Hv]]. unfold read_kv in *. rewrite <- Hr.
    apply loadz_ext. intros x Hx. apply Hi. unfold sizeof_GgKV in Hx. lia.
  - apply IH; [|done]. intros x Hx. apply Hi. lia.
Qed.

Lemma inside_sub (R R' : Z -> Prop) p n : (forall x, R x -> R' x) -> inside R p n -> inside R' p n.
Proof. intros Hsub H x Hx. by apply Hsub, H. Qed.

Lemma string_at_frame (R R' : Z -> Prop) m m' (Hsub : forall x, R x -> R' x) (Hag : agrees R m m') b bs :
  string_at R m b bs -> string_at R' m' b bs.
Proof.
  intros (Hb & Hl & Hi). split_and!; [|done|intros x Hx; by apply Hsub, Hi].
  unfold buf_bytes in *. rewrite <- Hb. apply loadz_ext. intros x Hx. by apply Hag, Hi.
Qed.

Lemma represents_frame (R R' : Z -> Prop) m m' (Hsub : forall x, R x -> R' x) (Hag : agrees R m m') v o :
  represents R m v o -> represents R' m' v o.
Proof.
  revert R R' Hsub Hag o. induction v as [| | | |bs|vs IH|kvs IH] using jvalue_ind'; intros R R' Hsub Hag o; try done.
  - intros (b & Hu & Hs). exists b. split; [done|]. by eapply string_at_frame.
  - rewrite !represents_JArr. intros (p & Hu & Hi & He). exists p. split; [done|]. split; [by eapply inside_sub|].
    eapply elems_at_frame; [|intros x Hx; by apply Hag, Hi|exact He]. eapply Forall_impl; [exact IH|]. cbv beta.
    intros v Hv. apply Hv; [by apply apart_sub|by apply agrees_apart].
  - rewrite !represents_JObj. intros (p & Hu & Hi & He). exists p. split; [done|]. split; [by eapply inside_sub|].
    eapply members_at_frame; [| |intros x Hx; by apply Hag, Hi|exact He].
    + apply string_at_frame; [by apply apart_sub|by apply agrees_apart].
    + eapply Forall_impl; [exact IH|]. cbv beta. intros v Hv. apply Hv; [by apply apart_sub|by apply agrees_apart].
Qed.

Lemma pair_represents_frame (R R' : Z -> Prop) m m' (Hsub : forall x, R x -> R' x) (Hag : agrees R m m') kv pair :
  pair_represents R m kv pair -> pair_represents R' m' kv pair.
Proof. intros [Hk Hv]. split; [by eapply string_at_frame|by eapply represents_frame]. Qed.

(** In the same memory, a larger region. *)
Section sub.
Context (R R' : Z -> Prop) (m : mem) (Hsub : forall x, R x -> R' x).

Lemma elems_at_sub vs p : elems_at R m vs p -> elems_at R' m vs p.
Proof using Hsub.
  revert p. induction vs as [|v vs IH]; intros p; [done|]. intros [(o & Hr & Ho) H]. split; [|by apply IH].
  exists o. split; [done|]. by eapply represents_frame.
Qed.

Lemma members_at_sub kvs p : members_at R m kvs p -> members_at R' m kvs p.
Proof using Hsub.
  revert p. induction kvs as [|kv kvs IH]; intros p; [done|]. intros [(pair & Hr & Ho) H]. split; [|by apply IH].
  exists pair. split; [done|]. by eapply pair_represents_frame.
Qed.
End sub.

(** ** Canonical form

    The pairs of an array, as [Canonical] has them. *)

Lemma first_occs_members (P : bytes * jvalue -> slot -> Prop) seen kvs l :
  (forall kv s, P kv s -> kv.1 = skey s) ->
  Forall2 P kvs l -> Forall2 P (first_members seen kvs) (first_occs seen l).
Proof.
  intros HP Hf. revert seen. induction Hf as [|kv s kvs l Hkv _ IH]; intros seen; [constructor|].
  cbn [first_members first_occs]. rewrite (HP _ _ Hkv). case_decide; [apply IH|]. by constructor.
Qed.

Lemma canonical_list_members (P : bytes * jvalue -> slot -> Prop) kvs l :
  (forall kv s, P kv s -> kv.1 = skey s) ->
  Forall2 P kvs l -> Forall2 P (canonical_members kvs) (canonical_list l).
Proof.
  intros HP Hf. destruct (canonical_list_spec l) as [Hs Hp].
  apply (first_occs_members P []) in Hf; [|done]. apply Forall2_flip in Hf.
  destruct (Permutation_Forall2 (symmetry Hp) Hf) as (kvs' & Hp' & Hf'). apply Forall2_flip in Hf'.
  assert (kvs' = canonical_members kvs) as ->; [|done].
  apply canonical_members_unique; [|by symmetry]. clear -HP Hs Hf'. revert Hs Hf'. generalize (canonical_list l). clear l. intros l Hs Hf'.
  induction Hf' as [|kv s kvs l Hkv Hf IH]; [constructor|]. apply StronglySorted_inv in Hs as [Hs Hl].
  apply SSorted_cons; [by apply IH|]. clear IH Hs. unfold member_lt. rewrite (HP _ _ Hkv).
  induction Hf as [|kv' s' kvs l Hkv' _ IH]; [constructor|]. apply Forall_cons in Hl as [? Hl].
  constructor; [by rewrite (HP _ _ Hkv')|by apply IH].
Qed.

Section canonicalize.
Context (R : Z -> Prop) (a cap : Z) (pruned : BufPtr) (Hpruned : 0 <= len pruned <= UINT16_MAX).

(** A member and the pair that stores it. *)
Definition stores (m : mem) (kv : bytes * jvalue) (s : slot) : Prop :=
  kv.1 = skey s /\ zlen (raw s) = sizeof_GgKV /\ pair_represents R m kv (raw s).

Lemma read_kv_at m x y : x = y -> read_kv m x = read_kv m y.
Proof. by intros ->. Qed.

Lemma members_slots m kvs p :
  members_at R m kvs p ->
  exists l, Forall2 (stores m) kvs l /\ forall i s, rd l i = Some s -> read_kv m (p + sizeof_GgKV * i) = Some (raw s).
Proof.
  revert p. induction kvs as [|kv kvs IH]; intros p H.
  { exists []. split; [constructor|]. intros i s Hi. apply rd_Some in Hi. unfold zlen in Hi. simpl in Hi. lia. }
  destruct H as [(pair & Hr & Hp) H]. destruct (IH _ H) as (l & Hf & Hl). exists (mkSlot pair kv.1 :: l). split.
  - constructor; [|done]. split_and!; [done| |exact Hp]. unfold read_kv in Hr. by apply loadz_zlen in Hr.
  - intros i s Hi. destruct (decide (i = 0)) as [->|].
    + injection Hi as <-. by rewrite Z.mul_0_r, Z.add_0_r.
    + pose proof (rd_Some _ _ _ Hi). rewrite rd_cons in Hi by lia. rewrite <- (Hl _ _ Hi). apply read_kv_at. lia.
Qed.

Lemma slots_members m kvs l p :
  Forall2 (stores m) kvs l ->
  (forall i s, rd l i = Some s -> read_kv m (p + sizeof_GgKV * i) = Some (raw s)) -> members_at R m kvs p.
Proof.
  intros Hf. revert p. induction Hf as [|kv s kvs l (_ & _ & Hkv) _ IH]; intros p Hl; [done|]. split.
  - exists (raw s). split; [|done]. rewrite <- (Hl 0 s eq_refl). apply read_kv_at. lia.
  - apply IH. intros i t Hi. pose proof (rd_Some _ _ _ Hi). rewrite <- (Hl (i + 1) t).
    + apply read_kv_at. lia.
    + rewrite rd_cons by lia. by replace (i + 1 - 1) with i by lia.
Qed.

(** Putting a stored map in canonical form. *)
Lemma canonicalize_members m kvs :
  zlen kvs <= cap -> mapped m a (sizeof_GgKV * cap) -> (forall x, R x -> ~ (a <= x < a + sizeof_GgKV * cap)) ->
  members_at R m kvs a ->
  exists m', gg_map_canonicalize_shallow pruned m (mkMap a (zlen kvs)) =
      Some (m', mkMap a (zlen (canonical_members kvs))) /\
    members_at R m' (canonical_members kvs) a /\ changes (zrange a (a + sizeof_GgKV * cap)) m m'.
Proof using Hpruned.
  intros Hcap Hm Hd Hk. destruct (members_slots _ _ _ Hk) as (l & Hf & Hl).
  assert (zlen kvs = zlen l) as Hz by (unfold zlen; by rewrite (Forall2_length _ _ _ Hf)).
  assert (slots_at a cap m l) as Hs.
  { split; [lia|]. split; [done|]. intros i s Hi. split; [by apply Hl|].
    pose proof (rd_Some _ _ _ Hi). unfold rd in Hi. case_if_in Hi; [lia|].
    destruct (Forall2_lookup_r _ _ _ _ _ Hf Hi) as (kv & _ & Hkey & Hlen & (Hb & Hnn & Hin) & _).
    split_and!; [done|by rewrite <- Hkey|done|]. intros x Hx. by apply Hd, Hin. }
  destruct (canonicalize_refines a cap pruned Hpruned m l Hs) as (m' & He & Hs' & Hfr).
  assert (Forall2 (stores m) (canonical_members kvs) (canonical_list l)) as Hf'.
  { apply canonical_list_members; [by intros ?? [? _]|done]. }
  assert (zlen (canonical_members kvs) = zlen (canonical_list l)) as Hz'.
  { unfold zlen. by rewrite (Forall2_length _ _ _ Hf'). }
  exists m'. rewrite Hz, He, Hz'. split; [done|]. destruct Hs' as (_ & Hm' & Hl'). split.
  - apply (slots_members m' _ (canonical_list l)); [|intros i s Hi; by apply Hl'].
    eapply Forall2_impl; [exact Hf'|]. intros kv s (? & ? & ?). split_and!; [done..|].
    eapply pair_represents_frame; [| |done]; [done|]. intros x Hx. by apply Hfr, Hd.
  - split; [exact Hfr|]. intros x Hx.
    destruct (decide (a <= x < a + sizeof_GgKV * cap)); [by apply Hm'|by rewrite Hfr].
Qed.
End canonicalize.
