(* ===== verification/JsonContainers.v ===== *)
(** The parts of the JSON decoder ([src/json_decode.c]) on strings, numbers, arrays
    and objects implement [eval]: each either fails as [eval] says, or builds an
    object that represents the value, out of the text and of free memory of the
    arena. They are proved for any [take_json_val] that satisfies its contract
    [take_ok] on shorter texts. *)

From S2P Require Import Prelude Memory Buffer Object Map Canonical Visit Arena JsonParse JsonGrammar JsonAccept JsonDecode JsonValue JsonUnescape JsonStored.

(** ** Arenas *)

Definition free (a : GgArena) : Z := capacity a - index a.

(** The same arena later on. *)
Definition arena_le (a a' : GgArena) : Prop :=
  arena_mem a' = arena_mem a /\ capacity a' = capacity a /\ index a <= index a' /\ arena_ok a'.

Lemma arena_le_refl a : arena_ok a -> arena_le a a.
Proof. intros. unfold arena_le. split_and!; done || lia. Qed.

Lemma arena_le_trans a b c : arena_le a b -> arena_le b c -> arena_le a c.
Proof.
  intros (H1 & H2 & ? & ?) (H3 & H4 & ? & ?). unfold arena_le. rewrite H3, H4. split_and!; done || lia.
Qed.

Definition taken (a : GgArena) (n : Z) : GgArena := mkArena (arena_mem a) (capacity a) (index a + n).

Lemma arena_alloc_bytes a n :
  arena_ok a -> 0 <= n <= PTRDIFF_MAX ->
  gg_arena_alloc (Some a) n 1 =
    Some (if free a <? n then (Some a, NULL) else (Some (taken a n), arena_mem a + index a)) /\
  (free a <? n = false -> arena_le a (taken a n)).
Proof.
  intros Ha Hn. pose proof Ha as (Hm & Hi & Hc & Hs). unfold free. split.
  - rewrite gg_arena_alloc_eq by (done || unfold UINT32_MAX; lia). unfold alloc_at, align_up.
    rewrite Z.mod_1_r, Z.add_0_r. destruct (_ <? n) eqn:E; zify_bool.
    + by rewrite (proj2 (Z.leb_gt _ _)) by lia.
    + by rewrite (proj2 (Z.leb_le _ _)) by lia.
  - intros E. zify_bool. unfold arena_le, arena_ok, taken. simpl. lia.
Qed.

(** ** Matching *)

Lemma match_recognised m E p f bs :
  holds m E bs -> recognises m E p f -> loops_ok p = true -> guarded p = true -> height p <= JSON_HEIGHT ->
  match_parser m p (rest_buf E bs) =
    Some (match f bs with Some r => (true, rest_buf E r) | None => (false, rest_buf E bs) end).
Proof.
  intros. unfold match_parser. cbn [rest_buf len].
  change (mkBuf (E - zlen bs) (zlen bs)) with (rest_buf E bs).
  rewrite (recognised_call m E p f) by done. by destruct (f bs).
Qed.

Lemma match_char m E c r : holds m E (c :: r) -> match_parser m (PARSER_CHAR c) (rest_buf E (c :: r)) = Some (true, rest_buf E r).
Proof.
  intros H. rewrite (match_recognised m E _ (expect c)); [|done|apply recognises_char|done|done|by vm_compute].
  by rewrite (proj2 (expect_Some _ _ _) eq_refl).
Qed.

(** A character that does not continue a number. *)
Definition number_char (c : Z) : bool :=
  is_dec c || (c =? 46) || (c =? 101) || (c =? 69) || (c =? 43) || (c =? 45).

Definition ends_number (m : mem) (p : Z) : Prop := exists c, m !! p = Some c /\ number_char c = false.

(** The bytes that reading from a text changes or refers to: the part of the
    text that is read, and what is taken from the arena. *)
Definition used (E : Z) (bs r : bytes) (a a' : GgArena) : Z -> Prop := fun x =>
  zrange (E - zlen bs) (E - zlen r) x \/ zrange (arena_mem a + index a) (arena_mem a + index a') x.

(** The text lies in memory apart from the free memory of the arena. *)
Definition ready (m : mem) (E : Z) (bs : bytes) (a : GgArena) : Prop :=
  holds m E bs /\ zlen bs <= UINT16_MAX /\ 0 <= E - zlen bs /\ E <= SIZE_MAX /\ arena_ok a /\
  mapped m (arena_mem a + index a) (free a) /\
  disj (E - zlen bs) (zlen bs) (arena_mem a + index a) (free a).

Lemma ready_later m m' W E bs r a a' :
  ready m E bs a -> r `suffix_of` bs -> arena_le a a' -> changes W m m' ->
  (forall x, E - zlen r <= x < E -> ~ W x) -> ready m' E r a'.
Proof.
  intros (Hb & Hl & H0 & Hmax & Ha & Hm & Hd) Hs (Hm1 & Hc1 & Hi1 & Ha1) Hch Hw.
  assert (zlen r <= zlen bs) as Hz by (apply suffix_length in Hs; unfold zlen; lia).
  unfold ready, free, disj in *. rewrite Hm1, Hc1. split_and!; [|lia|lia|lia|done| |lia].
  - eapply holds_changes; [by eapply holds_suffix|exact Hch|exact Hw].
  - eapply changes_mapped; [exact Hch|]. eapply mapped_mono; [exact Hm|lia|lia].
Qed.

(** Between an iteration and the next: the text that is left, which a closing
    character follows, and the cells [[p, p + n)] that are left. *)
Definition loop_ready (m : mem) (E : Z) (bs : bytes) (a : GgArena) (p n : Z) : Prop :=
  ready m E bs a /\ ends_number m E /\ mapped m p n /\
  disj (E - zlen bs) (zlen bs + 1) (arena_mem a + index a) (free a) /\
  disj p n (E - zlen bs) (zlen bs + 1) /\ disj p n (arena_mem a + index a) (free a).

(** Goals about regions. *)
Ltac region :=
  unfold loop_ready, ready, arena_le, arena_ok, used, free, disj, zrange, inside in *; cbn [arena_mem capacity index] in *;
  intros; zlen_lia.

Section spec.
Context (strtod : mem -> Z -> Z * bool) (to_f64 : bytes -> Z * bool).

(** [strtod] reads the longest text of a number. *)
Definition strtod_reads : Prop := forall m p text,
  parse_number text = Some (SNum text true, []) -> zlen text <= UINT16_MAX ->
  loadz m p (zlen text) = Some text -> ends_number m (p + zlen text) ->
  strtod m p = to_f64 text /\ 0 <= (to_f64 text).1 < 2 ^ 64.

Hypothesis Hstrtod : strtod_reads.

(** The result of decoding that [W] and the outcome [res] specify. *)
Definition yields (W : Z -> Prop) (m : mem) (a : GgArena) (res : outcome (jvalue * Z))
    (err : GgError) (m' : mem) (a' : GgArena) (o : option GgObject) : Prop :=
  arena_le a a' /\ changes W m m' /\
  match res with
  | Ok (v, f) => err = GG_ERR_OK /\ f = free a' /\
      exists o', o = Some o' /\ zlen o' = sizeof_GgObject /\ bytes_ok o' /\ represents W m' v o'
  | Fail e => err = e /\ e <> GG_ERR_OK /\ o = None
  | Stuck => False
  end.

Lemma yields_sub (W W' : Z -> Prop) m a res err m' a' o :
  yields W m a res err m' a' o -> (forall x, W x -> W' x) -> yields W' m a res err m' a' o.
Proof.
  intros (Ha & Hc & H) Hs. split; [done|]. split; [by eapply changes_sub|]. destruct res as [[v f]| |]; [|done..].
  destruct H as (-> & -> & o' & -> & Hz & Hok & Hd). split_and!; try done. exists o'. split_and!; try done.
  by eapply represents_frame.
Qed.

(** *** Leaves *)

Lemma yields_pack W m a v w m' o :
  arena_ok a -> changes W m m' -> objval_ok w -> pack w = Some o ->
  (unpack o = Some w -> represents W m' v o) ->
  yields W m a (Ok (v, free a)) GG_ERR_OK m' a (Some o).
Proof.
  intros Ha Hc Hw Hp Hd. destruct (pack_layout w o Hw Hp) as (bs & t & Hbs & -> & Hok).
  split; [by apply arena_le_refl|]. split; [done|]. split; [done|]. split; [done|]. eexists. split; [done|].
  split; [rewrite zlen_app, Hbs; done|]. split; [done|]. apply Hd. by apply unpack_pack.
Qed.

Lemma decode_str_run m E raw a :
  ready m E raw a ->
  exists err m' o, decode_json_str m (rest_buf E raw) true = Some (err, m', o) /\
    yields (zrange (E - zlen raw) E) m a (eval to_f64 (SStr raw) (free a)) err m' a o.
Proof.
  intros (Hb & Hl & H0 & Hmax & Ha & Hm & Hd). unfold decode_json_str.
  destruct (unescape_string_run m E raw Hb) as (m' & str & -> & Hc & Hs). cbn [mbind option_bind eval].
  destruct (string_value raw) as [x|] eqn:Ex.
  - rewrite bool_decide_true by (by eexists). cbn [negb]. destruct (Hs x eq_refl) as [-> Hx].
    apply string_value_Some in Ex. pose proof (zlen_nonneg x). pose proof (zlen_nonneg raw).
    assert (objval_ok (VBuf (mkBuf (E - zlen raw) (zlen x)))) as Hok by (simpl; lia).
    destruct (pack_fits _ Hok) as [o Ho]. cbn [pack] in Ho. rewrite Ho. cbn [mbind option_bind].
    exists GG_ERR_OK, m', (Some o). split; [done|]. eapply yields_pack; [done|done|exact Hok|exact Ho|].
    intros Hu. eexists. split; [exact Hu|]. split; [done|]. simpl. split; [lia|]. intros y Hy. unfold zrange. lia.
  - rewrite bool_decide_false by (intros [? ?]; done). exists GG_ERR_PARSE, m', None. split; [done|].
    split; [by apply arena_le_refl|]. by split.
Qed.

(** The last part of [decode_json_number]: an integer or a double. *)
Definition number_value (m : mem) (content : BufPtr) (real : bool) : option (GgError * option GgObject) :=
  if negb real then
    str ← buf_bytes m content;
    match gg_str_to_int64 str with
    | Ok val => Some (GG_ERR_OK, Some (gg_obj_i64 val))
    | Fail parse_ret => Some (parse_ret, None)
    | Stuck => None
    end
  else
    let '(val, range_error) := strtod m (data content) in
    if (range_error : bool) then Some (GG_ERR_RANGE, None)
    else Some (GG_ERR_OK, Some (gg_obj_f64 val)).

Lemma number_value_run m E text real a :
  ready m E text a -> parse_number text = Some (SNum text real, []) -> (real = true -> ends_number m E) ->
  exists err o, number_value m (rest_buf E text) real = Some (err, o) /\
    yields (fun _ => False) m a (eval to_f64 (SNum text real) (free a)) err m a o.
Proof using Hstrtod.
  intros ((Hload & _) & Hl & _ & _ & Ha & _) Hp Hend. unfold number_value, buf_bytes. cbn [rest_buf data len].
  destruct real; cbn [negb eval].
  - destruct (Hstrtod m (E - zlen text) text Hp Hl Hload) as [-> Hrange].
    { replace (E - zlen text + zlen text) with E by lia. by apply Hend. }
    destruct (to_f64 text) as [bits [|]].
    + eexists _, _. split; [done|]. split; [by apply arena_le_refl|]. by split.
    + eexists _, _. split; [done|]. eapply (yields_pack _ _ _ _ (VF64 bits)); [done|done|exact Hrange|done|done].
  - rewrite Hload. cbn [mbind option_bind]. pose proof (gg_str_to_int64_not_stuck text) as Hns.
    destruct (gg_str_to_int64 text) as [z|e|] eqn:Ez; [| |done]; cbn [mbind outcome_bind].
    + eexists _, _. split; [done|]. apply gg_str_to_int64_Ok_inv in Ez as [_ Hz].
      eapply (yields_pack _ _ _ _ (VI64 z)); [done|done|exact Hz|done|done].
    + eexists _, _. split; [done|]. split; [by apply arena_le_refl|]. split; [done|]. split; [done|].
      split; [|done]. intros ->. by eapply gg_str_to_int64_fails.
Qed.

(** The parts of the text are matched again to tell the two. *)
Lemma decode_number_eq m E text real :
  holds m E text -> parse_number text = Some (SNum text real, []) ->
  decode_json_number strtod m (rest_buf E text) true = number_value m (rest_buf E text) real.
Proof.
  intros Hb Hp. unfold parse_number in Hp. destruct (int_part text) as [r1|] eqn:E1; [|done].
  cbn [mbind option_bind] in Hp. injection Hp as _ Hreal _.
  assert (holds m E r1) as Hb1 by (eapply holds_suffix; [exact Hb|by eapply int_part_shrinks]).
  assert (holds m E (optional frac_part r1)) as Hb2.
  { eapply holds_suffix; [exact Hb1|]. apply optional_suffix, _. }
  unfold decode_json_number.
  rewrite (match_recognised m E _ int_part); [|done|apply recognises_int_part|done|done|by vm_compute].
  rewrite E1. cbn [mbind option_bind negb].
  rewrite (match_recognised m E _ frac_part); [|done|apply recognises_frac_part|done|done|by vm_compute].
  cbn [mbind option_bind]. unfold optional in *.
  destruct (frac_part r1) as [r2|]; cbn [default mbind option_bind] in *;
    (rewrite (match_recognised m E _ exp_part); [|done|apply recognises_exp_part|done|done|by vm_compute]).
  - destruct (exp_part r2); cbn in Hreal |- *; by rewrite <- Hreal.
  - destruct (exp_part r1); cbn in Hreal |- *; by rewrite <- Hreal.
Qed.

(** *** Loops over the items of a container *)

(** The text of a real number is followed by something else. *)
Definition ends (m : mem) (E : Z) (s : jsyn) (r : bytes) : Prop :=
  match s with SNum _ true => ends_number m (E - zlen r) | _ => True end.

(** The contract of [take_json_val] for texts shorter than [L]. *)
Definition take_ok (take : mem -> BufPtr -> GgArena -> bool -> option (GgError * decoded)) (L : nat) : Prop :=
  forall m E bs a, ready m E bs a -> (length bs < L)%nat ->
    match parse_json bs with
    | None => take m (rest_buf E bs) a true = Some (GG_ERR_PARSE, mkDecoded m a (rest_buf E bs) None)
    | Some (s, r) => ends m E s r -> exists err m' a' o,
        take m (rest_buf E bs) a true = Some (err, mkDecoded m' a' (rest_buf E r) o) /\
        yields (used E bs r a a') m a (eval to_f64 s (free a)) err m' a' o
    end.

Lemma suffix_zlen {A} (r t : list A) : r `suffix_of` t -> zlen r <= zlen t.
Proof. intros ?%suffix_length. unfold zlen. lia. Qed.

Lemma loop_ready_later W m m' E bs r a a' p n k :
  loop_ready m E bs a p n -> r `suffix_of` bs -> arena_le a a' -> changes W m m' -> 0 <= k <= n ->
  (forall x, W x -> used E bs r a a' x \/ p <= x < p + k) -> loop_ready m' E r a' (p + k) (n - k).
Proof.
  intros H Hs Ha Hc Hk Hw. pose proof (suffix_zlen _ _ Hs) as Hz. pose proof (zlen_nonneg r) as Hn.
  destruct H as (Hr & (c & He & Hnum) & Hm & Hd1 & Hd2 & Hd3).
  assert (forall x, E - zlen r <= x <= E -> ~ W x) as Hout.
  { intros x Hx Hwx. apply Hw in Hwx. region. }
  split_and!.
  - eapply ready_later; [exact Hr|done|exact Ha|exact Hc|]. intros x Hx. apply Hout. lia.
  - exists c. split; [|done]. rewrite <- He. apply Hc, Hout. lia.
  - eapply changes_mapped; [exact Hc|]. eapply mapped_mono; [exact Hm|lia|lia].
  - region.
  - region.
  - region.
Qed.

Lemma parse_list_Some {A} (item : reader A) after n bs xs r :
  parse_list item after n bs = Some (xs, r) ->
  exists k x r1 xs', n = S k /\ item bs = Some (x, r1) /\ xs = x :: xs' /\
    ((xs' = [] /\ r1 = r) \/
     (exists r2, r1 = 44 :: r2 /\ xs' <> [] /\ parse_list item after k (after r2) = Some (xs', r))).
Proof.
  destruct n as [|n]; [done|]. cbn [parse_list]. destruct (item bs) as [[x r1]|] eqn:Ei; [|done].
  cbn [mbind option_bind]. destruct (expect 44 r1) as [r2|] eqn:E2.
  - apply expect_Some in E2 as ->. destruct (parse_list item after n (after r2)) as [[xs' r3]|] eqn:El; [|done].
    cbn [mbind option_bind]. intros [= <- <-]. exists n, x, (44 :: r2), xs'. split_and!; try done. right.
    exists r2. split_and!; try done. intros ->. destruct n as [|n]; [done|]. cbn [parse_list] in El.
    destruct (item (after r2)) as [[y r4]|]; [|done]. cbn [mbind option_bind] in El.
    destruct (expect 44 r4); [|done]. by destruct (parse_list item after n _) as [[? ?]|].
  - intros [= <- <-]. exists n, x, r1, []. split_and!; try done. by left.
Qed.

Lemma changes_union W W1 W2 m1 m2 m3 :
  changes W1 m1 m2 -> changes W2 m2 m3 -> (forall x, W1 x -> W x) -> (forall x, W2 x -> W x) -> changes W m1 m3.
Proof. intros H1 H2 Hs1 Hs2. eapply changes_trans; eapply changes_sub; eassumption. Qed.

(** The item is followed by a comma or by the closing character. *)
Lemma item_ends m E bs a p n s r :
  loop_ready m E bs a p n -> r `suffix_of` bs -> r = [] \/ (exists r2, r = 44 :: r2) -> ends m E s r.
Proof.
  intros ((Hb & _) & Hc & _) Hs Hr. destruct s as [| ? [|] | | | | |]; try done. cbn [ends].
  destruct Hr as [->|[r2 ->]].
  - by rewrite zlen_nil, Z.sub_0_r.
  - pose proof (holds_suffix _ _ _ _ Hb Hs) as Hb'. apply holds_cons in Hb' as (_ & H & _). by exists 44.
Qed.

Section containers.
Context (take : mem -> BufPtr -> GgArena -> bool -> option (GgError * decoded)) (L : nat) (Htake : take_ok take L).

(** The result of a loop, whose items are stored from [p] on. *)
Definition loop_yields {A} (stored : (Z -> Prop) -> mem -> list A -> Z -> Prop) (E : Z) (bs : bytes) (p n : Z)
    (m : mem) (a : GgArena) (res : outcome (list A * Z)) (k : Z) (err : GgError) (m' : mem) (a' : GgArena) : Prop :=
  arena_le a a' /\ changes (fun x => used E bs [] a a' x \/ zrange p (p + n) x) m m' /\
  match res with
  | Ok (vs, f) => err = GG_ERR_OK /\ f = free a' /\ zlen vs = k /\ stored (used E bs [] a a') m' vs p
  | Fail e => err = e /\ e <> GG_ERR_OK
  | Stuck => False
  end.

Lemma array_loop_run n bs ss m E a items i cnt :
  parse_list parse_json (fun r => r) n bs = Some (ss, []) -> (length bs < L)%nat ->
  loop_ready m E bs a (items + sizeof_GgObject * i) (sizeof_GgObject * zlen ss) ->
  i + zlen ss = cnt -> items <> NULL ->
  exists err m' a', array_loop take (length ss) i cnt m (rest_buf E bs) a items = Some (err, m', a') /\
    loop_yields elems_at E bs (items + sizeof_GgObject * i) (sizeof_GgObject * zlen ss) m a
      (eval_elems to_f64 ss (free a)) (zlen ss) err m' a'.
Proof using Htake.
  intros Hp HL Hready Hcnt Hnn. revert n bs m a i Hp HL Hready Hcnt.
  induction ss as [|s ss IH]; intros n bs m a i Hp HL Hready Hcnt.
  { apply parse_list_Some in Hp as (? & ? & ? & ? & ? & ? & ? & _). done. }
  apply parse_list_Some in Hp as (k & s' & r1 & ss' & -> & Hitem & [= <- <-] & Hnext).
  destruct (parse_json_shorter _ _ _ Hitem) as [Hsuf Hlen]. pose proof (suffix_zlen _ _ Hsuf) as Hz.
  set (p := items + sizeof_GgObject * i) in *. rewrite zlen_cons in Hready, Hcnt |- *.
  pose proof (zlen_nonneg ss) as Hnss.
  pose proof (Htake m E bs a ltac:(apply Hready) HL) as Ht. rewrite Hitem in Ht.
  destruct Ht as (err & m1 & a1 & o & Hcall & Ha1 & Hc1 & Hres).
  { eapply item_ends; [exact Hready|done|]. destruct Hnext as [[_ ->]|(r2 & -> & _)]; eauto. }
  cbn [array_loop length]. rewrite (proj2 (Z.eqb_neq items NULL)) by done. cbn [negb]. rewrite Hcall.
  cbn [mbind option_bind]. cbn [eval_elems].
  destruct (eval to_f64 s (free a)) as [[v f]|e|]; [| |done].
  2:{ destruct Hres as (-> & He & ->). rewrite bool_decide_false by done. cbn [negb mbind option_bind outcome_bind].
      exists e, m1, a1. split; [done|]. split; [done|]. split; [|done]. eapply changes_sub; [exact Hc1|].
      clear -Hz. region. }
  destruct Hres as (-> & -> & o' & -> & Hzo & Hok & Hrep).
  assert (loop_ready m1 E r1 a1 (p + 0) (sizeof_GgObject * (1 + zlen ss) - 0)) as Hready1.
  { eapply loop_ready_later; [exact Hready|done|done|exact Hc1|unfold sizeof_GgObject; lia|]. by left. }
  rewrite Z.add_0_r, Z.sub_0_r in Hready1.
  destruct (store_Some m1 p o') as [m2 Hst].
  { rewrite Hzo. eapply mapped_mono; [apply Hready1|lia|unfold sizeof_GgObject; lia]. }
  fold p. rewrite Hst. cbn [mbind option_bind outcome_bind]. rewrite bool_decide_true by done. cbn [negb].
  pose proof (store_changes _ _ _ _ Hst) as Hc2. rewrite Hzo in Hc2.
  assert (changes (fun x => used E bs r1 a a1 x \/ zrange p (p + sizeof_GgObject) x) m m2) as Hc12.
  { eapply changes_union; [exact Hc1|exact Hc2|by left|by right]. }
  assert (read_obj m2 p = Some o') as Hread.
  { unfold read_obj. rewrite <- Hzo. by eapply loadz_store_same. }
  (* what is stored remains *)
  assert (forall (W W' : Z -> Prop) m' , changes W m2 m' ->
    (forall x, used E bs r1 a a1 x \/ zrange p (p + sizeof_GgObject) x -> ~ W x) ->
    (forall x, used E bs r1 a a1 x -> W' x) ->
    read_obj m' p = Some o' /\ represents W' m' v o') as Hkeep.
  { intros W W' m' Hc Hd Hs. split.
    - rewrite <- Hread. unfold read_obj. eapply changes_loadz; [exact Hc|]. intros x Hx. apply Hd. by right.
    - eapply (represents_frame (used E bs r1 a a1) _ m2); [done| |].
      + eapply changes_agrees; [exact Hc|]. intros x Hx. apply Hd. by left.
      + eapply represents_frame; [| |exact Hrep]; [done|]. eapply changes_agrees; [exact Hc2|].
        clear -Hready Ha1 Hz Hnss. unfold sizeof_GgObject in *. region. }
  destruct Hnext as [[-> ->]|(r2 & -> & Hne & Hlist)].
  - change (zlen (@nil jsyn)) with 0 in *. rewrite (proj2 (Z.eqb_eq _ _)) by lia.
    cbn [negb array_loop mbind option_bind eval_elems outcome_bind]. exists GG_ERR_OK, m2, a1. split; [done|].
    split; [done|]. split.
    { eapply changes_sub; [exact Hc12|]. intros x [?|?]; [by left|right]. by rewrite Z.add_0_r. }
    split_and!; [done..|]. cbn [elems_at]. split; [|done]. exists o'.
    apply (Hkeep (fun _ => False)); [done|tauto|done].
  - assert (0 < zlen ss) as Hpos by (destruct ss; [done|rewrite zlen_cons; zlen_lia]).
    rewrite (proj2 (Z.eqb_neq _ _)) by lia. cbn [negb].
    assert (loop_ready m2 E (44 :: r2) a1 (p + sizeof_GgObject) (sizeof_GgObject * (1 + zlen ss) - sizeof_GgObject))
      as Hready2.
    { eapply loop_ready_later; [exact Hready|done|done|exact Hc12|unfold sizeof_GgObject; lia|]. done. }
    rewrite (match_char m2 E 44 r2) by apply Hready2. cbn [mbind option_bind].
    replace (sizeof_GgObject * (1 + zlen ss) - sizeof_GgObject) with (sizeof_GgObject * zlen ss) in Hready2 by lia.
    assert (r2 `suffix_of` 44 :: r2) as Hs2 by by exists [44].
    destruct (IH k r2 m2 a1 (i + 1)) as (err & m' & a' & Hloop & Ha' & Hc' & Hres).
    { exact Hlist. }
    { simpl in Hlen. lia. }
    { replace (items + sizeof_GgObject * (i + 1)) with (p + sizeof_GgObject + 0) by (unfold p; lia).
      rewrite <- (Z.sub_0_r (sizeof_GgObject * zlen ss)).
      eapply (loop_ready_later (fun _ => False)); [exact Hready2|done|apply arena_le_refl, Ha1|apply changes_refl| |done].
      unfold sizeof_GgObject. lia. }
    { lia. }
    replace (items + sizeof_GgObject * (i + 1)) with (p + sizeof_GgObject) in * by (unfold p; lia).
    exists err, m', a'. split; [exact Hloop|]. rewrite zlen_cons in Hz. split; [by eapply arena_le_trans|]. split.
    { eapply changes_union; [exact Hc12|exact Hc'|..]; clear -Ha1 Ha' Hz Hnss; pose proof (zlen_nonneg r2);
        unfold sizeof_GgObject; region. }
    destruct (eval_elems to_f64 ss (free a1)) as [[vs f]|e|]; cbn [mbind outcome_bind]; [|done..].
    destruct Hres as (-> & -> & Hzv & Hst'). split_and!; [done|done|rewrite zlen_cons; lia|]. cbn [elems_at]. split.
    + exists o'. eapply Hkeep; [exact Hc'|..]; clear -Hready Ha1 Ha' Hz Hnss; pose proof (zlen_nonneg r2);
        unfold sizeof_GgObject in *; region.
    + eapply elems_at_sub; [|exact Hst']. clear -Ha1 Ha' Hz. region.
Qed.

(** The contents of an array. *)
Lemma decode_array_run m E c ss a :
  c = [] /\ ss = [] \/ parse_elems parse_json c = Some (ss, []) -> (length c < L)%nat ->
  ready m E c a -> ends_number m E -> disj (E - zlen c) (zlen c + 1) (arena_mem a + index a) (free a) ->
  exists err m' a' o, decode_json_array take m (rest_buf E c) (zlen ss) a true = Some (err, m', a', o) /\
    yields (used E c [] a a') m a (eval to_f64 (SArr ss) (free a)) err m' a' o.
Proof using Htake.
  intros Hp HL Hready Hend Hd. rewrite eval_SArr. pose proof Hready as (_ & Hlc & _ & _ & Ha & Hm & _).
  assert (zlen ss <= UINT16_MAX) as Hcount.
  { destruct Hp as [[-> ->]|Hp]; [done|]. apply parse_list_count in Hp; [|apply parse_json_shorter|done].
    unfold zlen in *. lia. }
  pose proof (zlen_nonneg ss) as Hnss. unfold decode_json_array, UINT16_MAX in *.
  destruct ss as [|s ss].
  { change (zlen (@nil jsyn)) with 0. change (Z.to_nat 0) with O.
    cbn [Z.ltb Z.compare andb mbind option_bind from_option id array_loop].
    rewrite bool_decide_true by done. cbn [negb].
    assert (objval_ok (VList (mkList NULL 0))) as Hok0 by (simpl; unfold NULL, SIZE_MAX, UINT16_MAX; lia).
    destruct (pack_fits _ Hok0) as [o Ho]. cbn [pack] in Ho. rewrite Ho. cbn [mbind option_bind]. pose proof Ha as Hok. unfold arena_ok in Hok.
    rewrite (proj2 (Z.ltb_ge _ _)) by (unfold free, sizeof_GgObject; lia).
    cbn [eval_elems mbind outcome_bind]. rewrite Z.mul_0_r, Z.sub_0_r.
    eexists GG_ERR_OK, m, a, _. split; [done|].
    eapply (yields_pack _ _ _ _ (VList (mkList NULL 0))); [done|apply changes_refl|exact Hok0|exact Ho|].
    intros Hu. apply represents_JArr. exists NULL. split; [done|]. split; [|done]. intros x Hx. region. }
  destruct Hp as [[_ ?]|Hp]; [done|]. unfold parse_elems in Hp. set (l := s :: ss) in *.
  assert (0 < zlen l) as Hpos by (unfold l; rewrite zlen_cons; zlen_lia).
  rewrite (proj2 (Z.ltb_lt 0 _)) by done. cbn [andb].
  rewrite (uwrap_small 64) by (unfold sizeof_GgObject; lia). rewrite (Z.mul_comm (zlen l)).
  destruct (arena_alloc_bytes a (sizeof_GgObject * zlen l) Ha) as [-> Htaken].
  { unfold PTRDIFF_MAX, sizeof_GgObject. lia. }
  cbn [mbind option_bind]. destruct (free a <? sizeof_GgObject * zlen l) eqn:Efree; cbn [from_option id].
  { rewrite Z.eqb_refl. eexists _, _, _, _. split; [done|]. split; [by apply arena_le_refl|].
    split; [apply changes_refl|]. done. }
  specialize (Htaken eq_refl). zify_bool. set (p := arena_mem a + index a) in *.
  assert (0 < p <= SIZE_MAX) as Hp0 by (clear -Ha; unfold p; region).
  rewrite (proj2 (Z.eqb_neq p NULL)) by (unfold NULL; lia).
  assert (loop_ready m E c (taken a (sizeof_GgObject * zlen l)) (p + sizeof_GgObject * 0) (sizeof_GgObject * zlen l))
    as Hloop.
  { rewrite Z.mul_0_r, Z.add_0_r. split.
    { eapply ready_later; [exact Hready|done|exact Htaken|apply (changes_refl (fun _ => False))|tauto]. }
    split; [done|]. split; [eapply mapped_mono; [exact Hm|lia|lia]|].
    clear -Hd Hready Efree Hpos. unfold taken, sizeof_GgObject, p in *. region. }
  destruct (array_loop_run (length c) c l m E (taken a (sizeof_GgObject * zlen l)) p 0 (zlen l))
    as (err & m' & a' & Hrun & Ha' & Hc & Hres); [done|done|exact Hloop|lia|unfold NULL; lia|].
  rewrite to_nat_zlen, Hrun. cbn [mbind option_bind].
  assert (free (taken a (sizeof_GgObject * zlen l)) = free a - sizeof_GgObject * zlen l) as Hfree.
  { unfold free, taken. simpl. lia. }
  rewrite Hfree in Hres. rewrite Z.mul_0_r, Z.add_0_r in *.
  assert (arena_le a a') as Hle by by eapply arena_le_trans.
  assert (forall x, used E c [] (taken a (sizeof_GgObject * zlen l)) a' x \/ zrange p (p + sizeof_GgObject * zlen l) x ->
    used E c [] a a' x) as Hsub.
  { clear -Ha' Hpos. unfold taken, sizeof_GgObject, p in *. region. }
  destruct (eval_elems to_f64 l (free a - sizeof_GgObject * zlen l)) as [[vs f]|e|]; cbn [mbind outcome_bind]; [| |done].
  - destruct Hres as (-> & -> & Hzv & Hst). rewrite bool_decide_true by done. cbn [negb].
    assert (objval_ok (VList (mkList p (zlen l)))) as Hok by (simpl; unfold UINT16_MAX; lia).
    destruct (pack_fits _ Hok) as [o Ho]. cbn [pack] in Ho. rewrite Ho. cbn [mbind option_bind]. eexists _, m', a', (Some o). split; [done|].
    assert (arena_ok a') as Hok' by apply Ha'.
    destruct (yields_pack (used E c [] a a') m a' (JArr vs) (VList (mkList p (zlen l))) m' o Hok') as (_ & Hch & _ & _ & Hrep).
    + eapply changes_sub; [exact Hc|exact Hsub].
    + exact Hok.
    + exact Ho.
    + intros Hu. apply represents_JArr. exists p. rewrite Hzv. split; [exact Hu|]. split.
      * intros x Hx. apply Hsub. by right.
      * eapply elems_at_sub; [|exact Hst]. intros x Hx. split; [apply Hsub; by left|].
        clear -Hd Hready Ha' Hpos Hx. unfold taken, sizeof_GgObject, p in *. revert x Hx. region.
    + split; [done|]. split; [done|]. done.
  - destruct Hres as (-> & He). rewrite bool_decide_false by done. cbn [negb].
    eexists _, m', a', None. split; [done|]. split; [done|]. split; [|done].
    eapply changes_sub; [exact Hc|exact Hsub].
Qed.

(** *** Maps *)

(** An iteration of the loop of [decode_json_object], up to its comma. *)
Definition object_step (m : mem) (buf_copy : BufPtr) (arena : GgArena) (pairs i : Z)
    : option (GgError * mem * GgArena * BufPtr) :=
  '(ret, d) ← take m buf_copy arena true;
  let '(mkDecoded m arena buf_copy key_obj) := d in
  if negb (bool_decide (ret = GG_ERR_OK)) then Some (ret, m, arena, buf_copy) else
  let key_obj := default GG_OBJ_NULL key_obj in
  ty ← gg_obj_type key_obj;
  if negb (bool_decide (ty = GG_TYPE_BUF)) then Some (GG_ERR_PARSE, m, arena, buf_copy) else
  let kv := pairs + sizeof_GgKV * i in
  key ← gg_obj_into_buf key_obj;
  kv_bytes ← read_kv m kv;
  kv_bytes ← gg_kv_set_key kv_bytes key;
  m ← store m kv kv_bytes;
  '(matches, buf_copy) ← match_parser m (PARSER_CHAR 58) buf_copy;
  if negb matches then Some (GG_ERR_PARSE, m, arena, buf_copy) else
  '(ret, d) ← take m buf_copy arena true;
  let '(mkDecoded m arena buf_copy o) := d in
  m ← match o with Some o => store m (gg_kv_val kv) o | None => Some m end;
  Some (ret, m, arena, buf_copy).

Lemma object_loop_S n i cnt m buf arena pairs :
  pairs <> NULL ->
  object_loop take (S n) i cnt m buf arena pairs =
    '(ret, m, arena, buf) ← object_step m buf arena pairs i;
    if negb (bool_decide (ret = GG_ERR_OK)) then Some (ret, m, arena) else
    '(matches, buf) ← (if negb (i =? cnt - 1) then match_parser m (PARSER_CHAR 44) buf else Some (true, buf));
    if negb matches then Some (GG_ERR_PARSE, m, arena)
    else object_loop take n (i + 1) cnt m buf arena pairs.
Proof.
  intros Hp. cbn [object_loop]. unfold object_step. rewrite (proj2 (Z.eqb_neq pairs NULL)) by done. cbn [negb].
  destruct (take m buf arena true) as [[ret [m1 a1 b1 o1]]|]; cbn [mbind option_bind]; [|done].
  case_bool_decide; cbn [negb mbind option_bind]; [|by rewrite bool_decide_false].
  destruct (gg_obj_type _) as [ty|]; cbn [mbind option_bind]; [|done].
  destruct (negb (bool_decide (ty = GG_TYPE_BUF))); cbn [mbind option_bind]; [done|].
  destruct (gg_obj_into_buf _) as [key|]; cbn [mbind option_bind]; [|done].
  destruct (read_kv _ _) as [kvb|]; cbn [mbind option_bind]; [|done].
  destruct (gg_kv_set_key kvb key) as [kvb'|]; cbn [mbind option_bind]; [|done].
  destruct (store m1 _ kvb') as [m2|]; cbn [mbind option_bind]; [|done].
  destruct (match_parser m2 _ b1) as [[mt b2]|]; cbn [mbind option_bind]; [|done].
  destruct mt; cbn [negb mbind option_bind]; [|done].
  destruct (take m2 b2 a1 true) as [[ret2 [m3 a3 b3 o3]]|]; cbn [mbind option_bind]; [|done].
  by destruct (match o3 with Some o => _ | None => _ end).
Qed.

Lemma parse_string_json bs k r : parse_string (skip_ws bs) = Some (k, r) -> parse_json bs = Some (SStr k, skip_ws r).
Proof.
  intros H. rewrite parse_json_eq. pose proof H as H'. apply parse_string_Some in H' as [He _]. rewrite He in *.
  cbn [parse_item Z.eqb Pos.eqb]. unfold reader_map. by rewrite H.
Qed.

Lemma unpack_VBuf o b : unpack o = Some (VBuf b) -> gg_obj_type o = Some GG_TYPE_BUF /\ gg_obj_into_buf o = Some b.
Proof.
  unfold unpack. destruct (gg_obj_type o) as [[]|]; cbn [mbind option_bind]; try done; intros H;
    apply fmap_Some in H as (x & H & [= ->]). done.
Qed.

Lemma into_buf_range o b :
  bytes_ok o -> zlen o = sizeof_GgObject -> gg_obj_into_buf o = Some b ->
  0 <= data b <= SIZE_MAX /\ 0 <= len b <= UINT16_MAX.
Proof.
  intros Hok Hz. unfold gg_obj_into_buf. destruct (assert_type o GG_TYPE_BUF); [|done]. intros [= <-].
  cbn [data len]. unfold SIZE_MAX, UINT16_MAX, sizeof_GgObject in *.
  pose proof (le_val_range (ztake 8 o) ltac:(by apply bytes_ok_take)) as H1.
  pose proof (le_val_range (ztake 2 (zdrop 8 o)) ltac:(by apply bytes_ok_take, bytes_ok_drop)) as H2.
  rewrite zlen_take, zlen_drop, Hz in H2. rewrite zlen_take, Hz in H1.
  change (2 ^ _) with 18446744073709551616 in H1. change (2 ^ _) with 65536 in H2. lia.
Qed.

Lemma set_key_bytes kv key :
  zlen kv = sizeof_GgKV -> 0 <= len key <= UINT16_MAX ->
  gg_kv_set_key kv key = Some (ptr_len_bytes (data key) (len key) ++ zdrop 10 kv).
Proof.
  intros Hz Hk. rewrite <- (ztake_zdrop 10 kv) at 1. apply gg_kv_set_key_layout; [|done].
  rewrite zlen_take, Hz. done.
Qed.

(** The value of a member. *)
Definition eval_member (kv : bytes * jsyn) (f : Z) : outcome (bytes * jvalue * Z) :=
  match string_value kv.1 with
  | None => Fail GG_ERR_PARSE
  | Some k => '(v, f) ← eval to_f64 kv.2 f; Ok (k, v, f)
  end.

Lemma eval_members_cons kv kvs f :
  eval_members to_f64 (kv :: kvs) f =
    '(kv, f) ← eval_member kv f; '(kvs, f) ← eval_members to_f64 kvs f; Ok (kv :: kvs, f).
Proof.
  destruct kv as [k s]. cbn [eval_members]. unfold eval_member. cbn [fst snd].
  destruct (string_value k); [|done]. by destruct (eval to_f64 s f) as [[v f']| |].
Qed.

(** The pair [p] stores a key over the bytes [old], then a value. *)
Lemma pair_stored W m1 m2 m3 m4 p b old o :
  zlen old = 11 -> zlen o = 11 -> 0 <= data b <= SIZE_MAX -> 0 <= len b <= UINT16_MAX ->
  store m1 p (ptr_len_bytes (data b) (len b) ++ old) = Some m2 -> changes W m2 m3 ->
  (forall x, p <= x < p + sizeof_GgKV -> ~ W x) -> store m3 (gg_kv_val p) o = Some m4 ->
  exists pair, read_kv m4 p = Some pair /\ gg_kv_key pair = b /\ zdrop (gg_kv_val 0) pair = o.
Proof.
  intros Hold Ho Hd Hl Hs2 Hc Hw Hs4. exists (ptr_len_bytes (data b) (len b) ++ o). split; [|split].
  - apply (loadz_app m4 p 10 11); [lia..| |].
    + assert (loadz m2 p 10 = Some (ptr_len_bytes (data b) (len b))) as H2.
      { apply loadz_store_same in Hs2. rewrite zlen_app, Hold, zlen_ptr_len_bytes in Hs2.
        apply (loadz_sub _ _ _ _ 0 10) in Hs2; [|lia..]. rewrite zdrop_0, Z.add_0_r in Hs2.
        by rewrite ztake_app_exact in Hs2. }
      rewrite <- H2. apply store_changes in Hs4. rewrite (changes_loadz _ _ _ _ _ Hs4).
      2:{ unfold zrange, gg_kv_val. lia. }
      eapply changes_loadz; [exact Hc|]. intros x Hx. apply Hw. unfold sizeof_GgKV. lia.
    + apply loadz_store_same in Hs4. rewrite Ho in Hs4. unfold gg_kv_val in Hs4.
      by replace (p + 10) with (p + 8 + 2) by lia.
  - by apply gg_kv_key_layout.
  - by apply zdrop_app_exact.
Qed.

Lemma member_run m E bs a pairs i n k s r :
  parse_member parse_json (skip_ws bs) = Some (k, s, r) -> (length bs < L)%nat ->
  loop_ready m E bs a (pairs + sizeof_GgKV * i) n -> sizeof_GgKV <= n ->
  r = [] \/ (exists r2, r = 44 :: r2) ->
  exists err m' a' b, object_step m (rest_buf E bs) a pairs i = Some (err, m', a', b) /\
    arena_le a a' /\
    changes (fun x => used E bs r a a' x \/ zrange (pairs + sizeof_GgKV * i) (pairs + sizeof_GgKV * i + sizeof_GgKV) x) m m' /\
    match eval_member (k, s) (free a) with
    | Ok (kv, f) => err = GG_ERR_OK /\ f = free a' /\ b = rest_buf E r /\
        exists pair, read_kv m' (pairs + sizeof_GgKV * i) = Some pair /\ pair_represents (used E bs r a a') m' kv pair
    | Fail e => err = e /\ e <> GG_ERR_OK
    | Stuck => False
    end.
Proof using Htake.
  set (p := pairs + sizeof_GgKV * i). intros Hp HL Hready Hn Hr. unfold parse_member in Hp.
  destruct (parse_string (skip_ws bs)) as [[k' r1]|] eqn:Ek; [|done]. cbn [mbind option_bind] in Hp.
  destruct (expect 58 (skip_ws r1)) as [r2|] eqn:Ec; [|done]. cbn [mbind option_bind] in Hp.
  destruct (parse_json r2) as [[s' r']|] eqn:Ev; [|done]. cbn [mbind option_bind] in Hp. injection Hp as -> -> ->.
  apply parse_string_json in Ek. apply expect_Some in Ec. rewrite Ec in Ek.
  destruct (parse_json_shorter _ _ _ Ek) as [Hs1 Hl1]. destruct (parse_json_shorter _ _ _ Ev) as [Hs2 Hl2].
  pose proof (suffix_zlen _ _ Hs1) as Hz1. pose proof (suffix_zlen _ _ Hs2) as Hz2. pose proof (zlen_nonneg r) as Hzr.
  rewrite zlen_cons in Hz1. unfold sizeof_GgKV in Hn.
  (* the key *)
  pose proof (Htake m E bs a ltac:(apply Hready) HL) as Ht. rewrite Ek in Ht.
  destruct (Ht I) as (err & m1 & a1 & o1 & Hcall & Ha1 & Hc1 & Hres). clear Ht.
  unfold object_step, eval_member. fold p. rewrite Hcall. cbn [mbind option_bind fst snd]. cbn [eval] in Hres.
  assert (forall x, used E bs (58 :: r2) a a1 x -> used E bs r a a1 x) as Hsub1.
  { clear -Hz2 Hz1. region. }
  destruct (string_value k) as [x|].
  2:{ destruct Hres as (-> & He & _). exists GG_ERR_PARSE, m1, a1, (rest_buf E (58 :: r2)).
      split; [done|]. split; [done|]. split; [|done]. eapply changes_sub; [exact Hc1|]. intros y Hy. left. by apply Hsub1. }
  destruct Hres as (-> & Hf1 & o1' & -> & Hzo1 & Hok1 & b & Hunpack & Hstr).
  apply unpack_VBuf in Hunpack as [Hty Hinto]. destruct (into_buf_range _ _ Hok1 Hzo1 Hinto) as [Hbd Hbl].
  rewrite bool_decide_true by done. cbn [negb from_option id]. rewrite Hty. cbn [mbind option_bind].
  rewrite bool_decide_true by done. cbn [negb]. rewrite Hinto. cbn [mbind option_bind].
  assert (loop_ready m1 E (58 :: r2) a1 (p + 0) (n - 0)) as Hready1.
  { eapply loop_ready_later; [exact Hready|done|done|exact Hc1|lia|]. by left. }
  rewrite Z.add_0_r, Z.sub_0_r in Hready1.
  assert (mapped m1 p 21) as Hmp by (eapply mapped_mono; [apply Hready1|lia|lia]).
  destruct (loadz_mapped _ _ _ Hmp) as [kvb Hkvb]. apply loadz_zlen in Hkvb as Hzkv. cbn in Hzkv.
  change (read_kv m1 p) with (loadz m1 p 21). rewrite Hkvb. cbn [mbind option_bind].
  rewrite set_key_bytes by done. cbn [mbind option_bind].
  assert (zlen (zdrop 10 kvb) = 11) as Hold by (rewrite zlen_drop; lia).
  destruct (store_Some m1 p (ptr_len_bytes (data b) (len b) ++ zdrop 10 kvb)) as [m2 Hst2].
  { by rewrite zlen_app, Hold, zlen_ptr_len_bytes. }
  rewrite Hst2. cbn [mbind option_bind].
  pose proof (store_changes _ _ _ _ Hst2) as Hc2. rewrite zlen_app, Hold, zlen_ptr_len_bytes in Hc2.
  (* the colon and the value *)
  assert (loop_ready m2 E (58 :: r2) a1 (p + 21) (n - 21)) as Hready2.
  { eapply loop_ready_later; [exact Hready1|done|apply arena_le_refl, Ha1|exact Hc2|lia|]. by right. }
  rewrite (match_char m2 E 58 r2) by apply Hready2. cbn [mbind option_bind negb].
  assert (r2 `suffix_of` 58 :: r2) as Hs3 by by exists [58].
  assert (ready m2 E r2 a1) as Hr2.
  { eapply (ready_later _ _ (fun _ => False)); [apply Hready2|done|apply arena_le_refl, Ha1|apply changes_refl|tauto]. }
  pose proof (Htake m2 E r2 a1 Hr2) as Ht. rewrite Ev in Ht.
  destruct Ht as (err & m3 & a2 & o2 & Hcall2 & Ha2 & Hc3 & Hres).
  { simpl in Hl1. lia. }
  { eapply item_ends; [exact Hready2| |done]. by etrans. }
  rewrite Hcall2. cbn [mbind option_bind]. rewrite Hf1.
  assert (arena_le a a2) as Ha12 by by eapply arena_le_trans.
  assert (changes (fun x => used E bs r a a2 x \/ zrange p (p + sizeof_GgKV) x) m m3) as Hc13.
  { eapply changes_union; [exact Hc1|eapply (changes_union (fun x => used E r2 r a1 a2 x \/ zrange p (p + 21) x));
      [exact Hc2|exact Hc3|by right|by left]|..]; clear -Ha1 Ha2 Hz1 Hz2 Hzr; unfold sizeof_GgKV; region. }
  destruct (eval to_f64 s (free a1)) as [[v f]|e|]; cbn [mbind outcome_bind]; [| |done].
  2:{ destruct Hres as (-> & He & ->). eexists _, m3, a2, _. split; [done|]. split; [done|]. by split. }
  destruct Hres as (-> & -> & o2' & -> & Hzo2 & Hok2 & Hrep).
  assert (mapped m3 (gg_kv_val p) (zlen o2')) as Hmv.
  { eapply changes_mapped; [exact Hc3|]. eapply changes_mapped; [exact Hc2|].
    eapply mapped_mono; [exact Hmp|..]; rewrite ?Hzo2; unfold gg_kv_val, sizeof_GgObject; lia. }
  destruct (store_Some _ _ _ Hmv) as [m4 Hst4]. rewrite Hst4. cbn [mbind option_bind].
  pose proof (store_changes _ _ _ _ Hst4) as Hc4. rewrite Hzo2 in Hc4.
  assert (forall x, used E bs r a a2 x \/ used E r2 r a1 a2 x -> ~ (p <= x < p + 21)) as Hout.
  { clear -Hready Hn Ha1 Ha2 Hz1 Hz2 Hzr. region. }
  eexists _, m4, a2, _. split; [done|]. split; [done|]. split.
  { eapply changes_union; [exact Hc13|exact Hc4|done|]. unfold zrange, gg_kv_val, sizeof_GgObject, sizeof_GgKV. lia. }
  split_and!; [done..|].
  destruct (pair_stored _ _ _ _ m4 _ _ _ _ Hold Hzo2 Hbd Hbl Hst2 Hc3) as (pair & Hpair & Hkey & Hval); [|done|].
  { intros y Hy Hu. eapply Hout; [by right|exact Hy]. }
  exists pair. split; [exact Hpair|]. unfold pair_represents. rewrite Hkey, Hval. cbn [fst snd]. split.
  - eapply (string_at_frame (used E bs (58 :: r2) a a1) _ m1); [| |exact Hstr].
    + clear -Hz1 Hz2 Ha1 Ha2. region.
    + eapply (changes_agrees (fun x => used E r2 r a1 a2 x \/ zrange p (p + 21) x)).
      * eapply changes_union; [exact Hc2|eapply changes_union; [exact Hc3|exact Hc4|..]|..]; cycle 2.
        -- intros y Hy. right. exact Hy.
        -- intros y Hy. exact Hy.
        -- intros y Hy. by left.
        -- unfold zrange, gg_kv_val, sizeof_GgObject. right. lia.
      * clear -Hready Hn Ha1 Ha2 Hz1 Hz2 Hzr. region.
  - eapply (represents_frame (used E r2 r a1 a2) _ m3); [| |exact Hrep].
    + clear -Hz1 Hz2 Ha1 Ha2. region.
    + eapply changes_agrees; [exact Hc4|]. intros y Hy Hz. eapply Hout; [by right|].
      unfold zrange, gg_kv_val, sizeof_GgObject in Hz. lia.
Qed.

Lemma object_loop_run n bs kvs m E a pairs i cnt :
  parse_list (parse_member parse_json) skip_ws n (skip_ws bs) = Some (kvs, []) -> (length bs < L)%nat ->
  loop_ready m E bs a (pairs + sizeof_GgKV * i) (sizeof_GgKV * zlen kvs) ->
  i + zlen kvs = cnt -> pairs <> NULL ->
  exists err m' a', object_loop take (length kvs) i cnt m (rest_buf E bs) a pairs = Some (err, m', a') /\
    loop_yields members_at E bs (pairs + sizeof_GgKV * i) (sizeof_GgKV * zlen kvs) m a
      (eval_members to_f64 kvs (free a)) (zlen kvs) err m' a'.
Proof using Htake.
  intros Hp HL Hready Hcnt Hnn. revert n bs m a i Hp HL Hready Hcnt.
  induction kvs as [|[k s] kvs IH]; intros n bs m a i Hp HL Hready Hcnt.
  { apply parse_list_Some in Hp as (? & ? & ? & ? & ? & ? & ? & _). done. }
  apply parse_list_Some in Hp as (j & ks & r1 & kvs' & -> & Hitem & [= <- <-] & Hnext).
  pose proof (parse_member_shorter _ parse_json_shorter _ _ _ Hitem) as [Hsuf Hlen].
  pose proof (skip_ws_suffix bs) as Hws. pose proof (suffix_length _ _ Hws) as Hlws.
  assert (r1 `suffix_of` bs) as Hsuf' by by etrans. pose proof (suffix_zlen _ _ Hsuf') as Hz.
  set (p := pairs + sizeof_GgKV * i) in *. rewrite zlen_cons in Hready, Hcnt |- *.
  pose proof (zlen_nonneg kvs) as Hnss.
  destruct (member_run m E bs a pairs i (sizeof_GgKV * (1 + zlen kvs)) k s r1 Hitem HL Hready)
    as (err & m2 & a1 & b & Hcall & Ha1 & Hc12 & Hres).
  { unfold sizeof_GgKV. lia. }
  { destruct Hnext as [[_ ->]|(r2 & -> & _)]; eauto. }
  fold p in Hc12, Hres. cbn [length]. rewrite object_loop_S by done. rewrite Hcall, eval_members_cons.
  cbn [mbind option_bind]. destruct (eval_member (k, s) (free a)) as [[kv f]|e|]; cbn [mbind outcome_bind]; [| |done].
  2:{ destruct Hres as (-> & He). rewrite bool_decide_false by done. cbn [negb].
      exists e, m2, a1. split; [done|]. split; [done|]. split; [|done]. eapply changes_sub; [exact Hc12|].
      clear -Hz Hnss. unfold sizeof_GgKV. region. }
  destruct Hres as (-> & -> & -> & pair & Hread & Hrep). rewrite bool_decide_true by done. cbn [negb].
  (* what is stored remains *)
  assert (forall (W W' : Z -> Prop) m', changes W m2 m' ->
    (forall x, used E bs r1 a a1 x \/ zrange p (p + sizeof_GgKV) x -> ~ W x) ->
    (forall x, used E bs r1 a a1 x -> W' x) ->
    exists pair, read_kv m' p = Some pair /\ pair_represents W' m' kv pair) as Hkeep.
  { intros W W' m' Hc Hd Hs. exists pair. split.
    - rewrite <- Hread. unfold read_kv. eapply changes_loadz; [exact Hc|]. intros x Hx. apply Hd. by right.
    - eapply pair_represents_frame; [exact Hs| |exact Hrep]. eapply changes_agrees; [exact Hc|].
      intros x Hx. apply Hd. by left. }
  destruct Hnext as [[-> ->]|(r2 & -> & Hne & Hlist)].
  - change (zlen (@nil (bytes * jsyn))) with 0 in *. rewrite (proj2 (Z.eqb_eq _ _)) by lia.
    cbn [negb length object_loop mbind option_bind eval_members outcome_bind].
    exists GG_ERR_OK, m2, a1. split; [done|]. split; [done|]. split.
    { eapply changes_sub; [exact Hc12|]. intros x [?|?]; [by left|right]. by rewrite Z.add_0_r. }
    split_and!; [done..|]. cbn [members_at]. split; [|done].
    apply (Hkeep (fun _ => False)); [done|tauto|done].
  - assert (0 < zlen kvs) as Hpos by (destruct kvs; [done|rewrite zlen_cons; zlen_lia]).
    rewrite (proj2 (Z.eqb_neq _ _)) by lia. cbn [negb].
    assert (loop_ready m2 E (44 :: r2) a1 (p + sizeof_GgKV) (sizeof_GgKV * (1 + zlen kvs) - sizeof_GgKV)) as Hready2.
    { eapply loop_ready_later; [exact Hready|done|done|exact Hc12|unfold sizeof_GgKV; lia|]. done. }
    rewrite (match_char m2 E 44 r2) by apply Hready2. cbn [mbind option_bind].
    replace (sizeof_GgKV * (1 + zlen kvs) - sizeof_GgKV) with (sizeof_GgKV * zlen kvs) in Hready2 by lia.
    assert (r2 `suffix_of` 44 :: r2) as Hs2 by by exists [44].
    destruct (IH j r2 m2 a1 (i + 1)) as (err & m' & a' & Hloop & Ha' & Hc' & Hres).
    { exact Hlist. }
    { simpl in Hlen. lia. }
    { replace (pairs + sizeof_GgKV * (i + 1)) with (p + sizeof_GgKV + 0) by (unfold p; lia).
      rewrite <- (Z.sub_0_r (sizeof_GgKV * zlen kvs)).
      eapply (loop_ready_later (fun _ => False)); [exact Hready2|done|apply arena_le_refl, Ha1|apply changes_refl| |done].
      unfold sizeof_GgKV. lia. }
    { lia. }
    replace (pairs + sizeof_GgKV * (i + 1)) with (p + sizeof_GgKV) in * by (unfold p; lia).
    exists err, m', a'. split; [exact Hloop|]. rewrite zlen_cons in Hz. split; [by eapply arena_le_trans|]. split.
    { eapply changes_union; [exact Hc12|exact Hc'|..]; clear -Ha1 Ha' Hz Hnss; pose proof (zlen_nonneg r2);
        unfold sizeof_GgKV; region. }
    destruct (eval_members to_f64 kvs (free a1)) as [[vs f]|e|]; cbn [mbind outcome_bind]; [|done..].
    destruct Hres as (-> & -> & Hzv & Hst'). split_and!; [done|done|rewrite zlen_cons; lia|]. cbn [members_at]. split.
    + eapply Hkeep; [exact Hc'|..]; clear -Hready Ha1 Ha' Hz Hnss; pose proof (zlen_nonneg r2);
        unfold sizeof_GgKV in *; region.
    + eapply members_at_sub; [|exact Hst']. clear -Ha1 Ha' Hz. region.
Qed.

(** The contents of an object, put in canonical form at the end. *)
Lemma decode_object_run pruned m E c kvs a :
  0 <= len pruned <= UINT16_MAX ->
  c = [] /\ kvs = [] \/ parse_members parse_json c = Some (kvs, []) -> (length c < L)%nat ->
  ready m E c a -> ends_number m E -> disj (E - zlen c) (zlen c + 1) (arena_mem a + index a) (free a) ->
  exists err m' a' o, decode_json_object pruned take m (rest_buf E c) (zlen kvs) a true = Some (err, m', a', o) /\
    yields (used E c [] a a') m a (eval to_f64 (SObj kvs) (free a)) err m' a' o.
Proof using Htake.
  intros Hpruned Hp HL Hready Hend Hd. rewrite eval_SObj. pose proof Hready as (_ & Hlc & _ & _ & Ha & Hm & _).
  assert (zlen kvs <= UINT16_MAX) as Hcount.
  { destruct Hp as [[-> ->]|Hp]; [done|]. apply parse_list_count in Hp; [unfold zlen in *; lia|..].
    - apply parse_member_shorter, parse_json_shorter.
    - apply skip_ws_suffix. }
  pose proof (zlen_nonneg kvs) as Hnss. unfold decode_json_object, UINT16_MAX in *.
  destruct kvs as [|kv0 kvs].
  { change (zlen (@nil (bytes * jsyn))) with 0. change (Z.to_nat 0) with O.
    cbn [Z.ltb Z.compare andb mbind option_bind from_option id object_loop].
    rewrite bool_decide_true by done. cbn [negb].
    assert (objval_ok (VMap (mkMap NULL 0))) as Hok0 by (simpl; unfold NULL, SIZE_MAX, UINT16_MAX; lia).
    destruct (pack_fits _ Hok0) as [o Ho]. cbn [pack] in Ho. pose proof Ha as Hok. unfold arena_ok in Hok.
    destruct (canonicalize_members (fun _ => False) NULL 0 pruned Hpruned m []) as (m' & He & _ & Hch);
      [done|intros x; lia|tauto|done|]. change (zlen (canonical_members _)) with 0 in He. change (zlen _) with 0 in He.
    rewrite He. cbn [mbind option_bind]. rewrite Ho. cbn [mbind option_bind].
    rewrite (proj2 (Z.ltb_ge _ _)) by (unfold free, sizeof_GgKV; lia).
    cbn [eval_members mbind outcome_bind]. rewrite Z.mul_0_r, Z.sub_0_r.
    eexists GG_ERR_OK, m', a, _. split; [done|].
    eapply (yields_pack _ _ _ _ (VMap (mkMap NULL 0))); [done| |exact Hok0|exact Ho|].
    { eapply changes_sub; [exact Hch|]. unfold zrange, NULL. lia. }
    intros Hu. apply represents_JObj. exists NULL. split; [done|]. split; [|done]. intros x Hx. region. }
  destruct Hp as [[_ ?]|Hp]; [done|]. unfold parse_members in Hp. set (l := kv0 :: kvs) in *.
  assert (skip_ws c = c) as Hws.
  { apply parse_list_Some in Hp as (? & ? & ? & ? & _ & Hp & _). unfold parse_member in Hp.
    destruct (parse_string c) as [[? ?]|] eqn:Es; [|done]. by apply parse_string_Some in Es as [-> _]. }
  assert (0 < zlen l) as Hpos by (unfold l; rewrite zlen_cons; zlen_lia).
  rewrite (proj2 (Z.ltb_lt 0 _)) by done. cbn [andb].
  rewrite (uwrap_small 64) by (unfold sizeof_GgKV; lia). rewrite (Z.mul_comm (zlen l)).
  destruct (arena_alloc_bytes a (sizeof_GgKV * zlen l) Ha) as [-> Htaken].
  { unfold PTRDIFF_MAX, sizeof_GgKV. lia. }
  cbn [mbind option_bind]. destruct (free a <? sizeof_GgKV * zlen l) eqn:Efree; cbn [from_option id].
  { rewrite Z.eqb_refl. eexists _, _, _, _. split; [done|]. split; [by apply arena_le_refl|].
    split; [apply changes_refl|]. done. }
  specialize (Htaken eq_refl). zify_bool. set (p := arena_mem a + index a) in *.
  assert (0 < p <= SIZE_MAX) as Hp0 by (clear -Ha; unfold p; region).
  rewrite (proj2 (Z.eqb_neq p NULL)) by (unfold NULL; lia).
  assert (loop_ready m E c (taken a (sizeof_GgKV * zlen l)) (p + sizeof_GgKV * 0) (sizeof_GgKV * zlen l)) as Hloop.
  { rewrite Z.mul_0_r, Z.add_0_r. split.
    { eapply ready_later; [exact Hready|done|exact Htaken|apply (changes_refl (fun _ => False))|tauto]. }
    split; [done|]. split; [eapply mapped_mono; [exact Hm|lia|lia]|].
    clear -Hd Hready Efree Hpos. unfold taken, sizeof_GgKV, p in *. region. }
  destruct (object_loop_run (length c) c l m E (taken a (sizeof_GgKV * zlen l)) p 0 (zlen l))
    as (err & m' & a' & Hrun & Ha' & Hc & Hres); [by rewrite Hws|done|exact Hloop|lia|unfold NULL; lia|].
  rewrite to_nat_zlen, Hrun. cbn [mbind option_bind].
  assert (free (taken a (sizeof_GgKV * zlen l)) = free a - sizeof_GgKV * zlen l) as Hfree.
  { unfold free, taken. simpl. lia. }
  rewrite Hfree in Hres. rewrite Z.mul_0_r, Z.add_0_r in *.
  assert (arena_le a a') as Hle by by eapply arena_le_trans.
  assert (forall x, used E c [] (taken a (sizeof_GgKV * zlen l)) a' x \/ zrange p (p + sizeof_GgKV * zlen l) x ->
    used E c [] a a' x) as Hsub.
  { clear -Ha' Hpos. unfold taken, sizeof_GgKV, p in *. region. }
  destruct (eval_members to_f64 l (free a - sizeof_GgKV * zlen l)) as [[vs f]|e|]; cbn [mbind outcome_bind]; [| |done].
  2:{ destruct Hres as (-> & He). rewrite bool_decide_false by done. cbn [negb].
      eexists _, m', a', None. split; [done|]. split; [done|]. split; [|done].
      eapply changes_sub; [exact Hc|exact Hsub]. }
  destruct Hres as (-> & -> & Hzv & Hst). rewrite bool_decide_true by done. cbn [negb].
  destruct (canonicalize_members (used E c [] (taken a (sizeof_GgKV * zlen l)) a') p (zlen l) pruned Hpruned m' vs)
    as (m2 & Hcan & Hst2 & Hc2).
  { lia. }
  { eapply changes_mapped; [exact Hc|]. eapply mapped_mono; [exact Hm|lia|lia]. }
  { clear -Hd Hready Ha' Hpos. unfold taken, sizeof_GgKV, p in *. region. }
  { done. }
  rewrite Hzv in Hcan. rewrite Hcan. cbn [mbind option_bind].
  pose proof (zlen_canonical_members vs) as Hcl. pose proof (zlen_nonneg (canonical_members vs)) as Hcn.
  assert (objval_ok (VMap (mkMap p (zlen (canonical_members vs))))) as Hok by (simpl; unfold UINT16_MAX; lia).
  destruct (pack_fits _ Hok) as [o Ho]. cbn [pack] in Ho. rewrite Ho. cbn [mbind option_bind].
  eexists _, m2, a', (Some o). split; [done|].
  assert (arena_ok a') as Hok' by apply Ha'.
  assert (changes (used E c [] a a') m m2) as Hch2.
  { eapply changes_union; [exact Hc|exact Hc2|exact Hsub|]. intros x Hx. apply Hsub. by right. }
  destruct (yields_pack (used E c [] a a') m a' (JObj (canonical_members vs)) (VMap (mkMap p (zlen (canonical_members vs))))
    m2 o Hok') as (_ & _ & _ & _ & Hrep).
  - exact Hch2.
  - exact Hok.
  - exact Ho.
  - intros Hu. apply represents_JObj. exists p. split; [exact Hu|]. split.
    + intros x Hx. apply Hsub. right. unfold zrange, sizeof_GgKV in *. lia.
    + eapply members_at_sub; [|exact Hst2]. intros x Hx. split; [apply Hsub; by left|].
      clear -Hd Hready Ha' Hpos Hx Hcl Hzv. unfold taken, sizeof_GgKV, p in *. revert x Hx. region.
  - split; [done|]. split; [done|]. done.
Qed.
End containers.
End spec.
