(* ===== verification/JsonMaps.v ===== *)
(** JSON objects in memory as the maps of [Map]: looking up keys and validating
    schemas, in terms of the members of the JSON object. *)

From S2P Require Import Prelude Memory Buffer Object JsonValue Map JsonStored.

(** The type of an object that represents a value. *)
Definition jtype (v : jvalue) : GgObjectType :=
  match v with
  | JNull => GG_TYPE_NULL
  | JBool _ => GG_TYPE_BOOLEAN
  | JI64 _ => GG_TYPE_I64
  | JF64 _ => GG_TYPE_F64
  | JStr _ => GG_TYPE_BUF
  | JArr _ => GG_TYPE_LIST
  | JObj _ => GG_TYPE_MAP
  end.

(** The first member with a key. *)
Definition jget (key : bytes) (kvs : list (bytes * jvalue)) : option jvalue :=
  snd <$> (snd <$> list_find (fun kv => kv.1 = key) kvs).

Lemma unpack_type o v : unpack o = Some v ->
  gg_obj_type o = Some match v with
    | VNull => GG_TYPE_NULL | VBool _ => GG_TYPE_BOOLEAN | VI64 _ => GG_TYPE_I64 | VF64 _ => GG_TYPE_F64
    | VBuf _ => GG_TYPE_BUF | VList _ => GG_TYPE_LIST | VMap _ => GG_TYPE_MAP end /\
  match v with
  | VBuf b => gg_obj_into_buf o = Some b
  | VList l => gg_obj_into_list o = Some l
  | VMap m => gg_obj_into_map o = Some m
  | _ => True
  end.
Proof.
  unfold unpack. destruct (gg_obj_type o) as [ty|]; [|done]. cbn [mbind option_bind]. intros Hu.
  destruct ty; [by injection Hu as <-|..]; apply fmap_Some in Hu as (x & Hx & ->); done.
Qed.

Section maps.
Context (R : Z -> Prop) (m : mem).

Lemma represents_type v o : represents R m v o -> gg_obj_type o = Some (jtype v).
Proof.
  destruct v as [| | | |bs|vs|kvs]; intros Hr.
  1-4: by apply unpack_type in Hr as [Hr _].
  - destruct Hr as (b & Hr & _). by apply unpack_type in Hr as [Hr _].
  - apply represents_JArr in Hr as (p & Hr & _). by apply unpack_type in Hr as [Hr _].
  - apply represents_JObj in Hr as (p & Hr & _). by apply unpack_type in Hr as [Hr _].
Qed.

Lemma represents_str bs o : represents R m (JStr bs) o ->
  exists b, gg_obj_into_buf o = Some b /\ string_at R m b bs.
Proof. intros (b & Hr & Hs). exists b. by apply unpack_type in Hr as [_ Hr]. Qed.

(** The members of a JSON object in an array of pairs. *)
Definition json_map_at (map : GgMap) (kvs : list (bytes * jvalue)) : Prop :=
  map_len map = zlen kvs /\ inside R (pairs map) (sizeof_GgKV * zlen kvs) /\
  members_at (apart R (pairs map) (sizeof_GgKV * zlen kvs)) m kvs (pairs map).

Lemma json_map_members map kvs : json_map_at map kvs -> members_at R m kvs (pairs map).
Proof. intros (_ & _ & Hm). eapply members_at_sub; [|exact Hm]. apply apart_in. Qed.

Lemma represents_map kvs o : represents R m (JObj kvs) o ->
  exists map, gg_obj_into_map o = Some map /\ json_map_at map kvs.
Proof.
  rewrite represents_JObj. intros (p & Hr & Hi & Hm). exists (mkMap p (zlen kvs)).
  by apply unpack_type in Hr as [_ Hr].
Qed.

(** The entries of the map. *)
Fixpoint json_entries (a : Z) (kvs : list (bytes * jvalue)) : list entry :=
  match kvs with
  | [] => []
  | kv :: kvs => mkEnt kv.1 (gg_kv_val a) (jtype kv.2) :: json_entries (a + sizeof_GgKV) kvs
  end.

Lemma zlen_json_entries a kvs : zlen (json_entries a kvs) = zlen kvs.
Proof. revert a. induction kvs as [|kv kvs IH]; intros a; [done|]. cbn [json_entries]. by rewrite !zlen_cons, IH. Qed.

Lemma read_kv_value a pair : read_kv m a = Some pair -> read_obj m (gg_kv_val a) = Some (zdrop (gg_kv_val 0) pair).
Proof.
  unfold read_kv, read_obj, gg_kv_val. intros Hp. pose proof (loadz_zlen _ _ _ _ Hp) as Hz.
  apply (loadz_sub _ _ _ _ 10 sizeof_GgObject) in Hp; [|done..].
  replace (a + 8 + 2) with (a + 10) by lia. rewrite Hp. f_equal. change (0 + 8 + 2) with 10.
  apply ztake_all. unfold sizeof_GgKV, sizeof_GgObject in *. zlen_lia.
Qed.

Lemma members_entries a kvs : members_at R m kvs a -> entries_at m a (json_entries a kvs).
Proof.
  revert a. induction kvs as [|[k v] kvs IH]; intros a; [done|]. cbn [members_at json_entries entries_at fst snd].
  intros ((pair & Hp & (Hk & Hl & _) & Hv) & Hrest). cbn [fst snd eval ekey etype] in *.
  split_and!; [by exists pair|done| |by apply IH].
  exists (zdrop (gg_kv_val 0) pair). split; [by apply read_kv_value|by apply represents_type].
Qed.

(** What is found under a key. *)
Lemma json_lookup a kvs key : members_at R m kvs a ->
  match lookup_first key (json_entries a kvs) with
  | Some e => exists v o, jget key kvs = Some v /\ etype e = jtype v /\ read_obj m (eval e) = Some o /\ represents R m v o /\
      exists i, 0 <= i < zlen kvs /\ eval e = gg_kv_val (a + sizeof_GgKV * i)
  | None => jget key kvs = None
  end.
Proof.
  revert a. induction kvs as [|[k v] kvs IH]; intros a; [done|]. cbn [members_at json_entries].
  intros ((pair & Hp & _ & Hv) & Hrest). specialize (IH _ Hrest). rewrite lookup_first_cons. cbn [ekey fst snd] in *.
  unfold jget in *. cbn [list_find fst]. pose proof (zlen_nonneg kvs). case_decide as Hk.
  - rewrite bool_decide_true by done. exists v, (zdrop (gg_kv_val 0) pair). cbn [eval etype].
    split_and!; [done|done|by apply read_kv_value|done|]. exists 0. rewrite zlen_cons. split; [lia|]. f_equal. lia.
  - rewrite bool_decide_false by done. destruct (lookup_first key _) as [e|].
    + destruct IH as (v' & o & Hj & Ht & Ho & Hr & i & Hi & He). exists v', o. split_and!; [|done|done|done|].
      * by destruct (list_find _ kvs) as [[j x]|].
      * exists (i + 1). rewrite zlen_cons. split; [lia|]. rewrite He. f_equal. lia.
    + by destruct (list_find _ kvs) as [[j x]|].
Qed.

End maps.

Section positive.
Context (R : Z -> Prop) (m : mem) (Rpos : forall x, R x -> 0 < x).

Lemma json_map_positive map kvs : json_map_at R m map kvs -> kvs <> [] -> 0 < pairs map.
Proof using Rpos.
  intros (_ & Hi & _) Hne. apply Rpos, Hi. destruct kvs as [|kv kvs]; [done|]. rewrite zlen_cons.
  pose proof (zlen_nonneg kvs). unfold sizeof_GgKV. lia.
Qed.

Lemma json_map_entries map kvs : json_map_at R m map kvs -> kvs <> [] -> map_at m map (json_entries (pairs map) kvs).
Proof using Rpos.
  intros Hm Hne. pose proof (json_map_positive _ _ Hm Hne). pose proof (json_map_members _ _ _ _ Hm) as Hk. destruct Hm as (Hl & _).
  pose proof (zlen_nonneg kvs). split_and!; [lia|by rewrite zlen_json_entries|by eapply members_entries|done].
Qed.

(** Validating a schema. *)
Lemma json_validate map kvs schema vars : json_map_at R m map kvs ->
  gg_map_validate m map schema vars = Some (validate_spec (json_entries (pairs map) kvs) schema vars).
Proof using Rpos.
  intros Hm. destruct (decide (kvs = [])) as [->|Hne].
  - destruct Hm as (Hl & _). change (zlen []) with 0 in Hl. revert vars.
    induction schema as [|s schema IH]; intros vars; [done|]. cbn [gg_map_validate validate_spec json_entries].
    unfold gg_map_get. rewrite Hl. cbn [Z.to_nat map_get_loop mbind option_bind negb].
    unfold check_entry. cbn [lookup_first list_find fmap option_fmap option_map].
    destruct (se_required s); cbn [mbind option_bind negb]; [done|by apply IH|by apply IH].
  - by apply gg_map_validate_spec, json_map_entries.
Qed.

(** One entry of a schema, in terms of the JSON object: an error, null for what
    is missing, or the value and where its object is. *)
Definition json_check (kvs : list (bytes * jvalue)) (s : GgMapSchemaEntry) : GgError + option jvalue :=
  match jget (se_key s) kvs, se_required s with
  | None, GG_REQUIRED => inl GG_ERR_NOENTRY
  | None, _ => inr None
  | Some v, GG_MISSING => inl GG_ERR_PARSE
  | Some v, _ => if decide (se_type s = GG_TYPE_NULL \/ se_type s = jtype v) then inr (Some v) else inl GG_ERR_PARSE
  end.

(** The object of a value at [p], in the region, and apart from the value's parts. *)
Definition value_at (p : Z) (v : jvalue) : Prop :=
  0 < p /\ inside R p sizeof_GgObject /\ exists o, read_obj m p = Some o /\ represents (apart R p sizeof_GgObject) m v o.

Lemma value_represents p v : value_at p v -> exists o, read_obj m p = Some o /\ represents R m v o.
Proof using Type.
  intros (_ & _ & o & Ho & Hr). exists o. split; [done|]. eapply represents_frame; [|by intros ?|exact Hr]. apply apart_in.
Qed.

Lemma json_check_entry map kvs s : json_map_at R m map kvs ->
  match json_check kvs s with
  | inl e => check_entry (json_entries (pairs map) kvs) s = inl e
  | inr None => check_entry (json_entries (pairs map) kvs) s = inr NULL
  | inr (Some v) => exists p, check_entry (json_entries (pairs map) kvs) s = inr p /\ value_at p v
  end.
Proof using Rpos.
  intros (Hl & Hi & Hm). pose proof (json_lookup _ _ _ _ (se_key s) Hm) as H. unfold json_check, check_entry.
  destruct (lookup_first _ _) as [e|].
  - destruct H as (v & o & -> & -> & Ho & Hr & i & Hi' & He).
    assert (0 < eval e) as Hpos.
    { assert (0 < pairs map); [|unfold gg_kv_val, sizeof_GgKV in He; lia].
      apply Rpos, Hi. pose proof (zlen_nonneg kvs). unfold sizeof_GgKV. lia. }
    assert (value_at (eval e) v).
    { split; [done|]. split.
      { intros x Hx. apply Hi. unfold gg_kv_val, sizeof_GgKV, sizeof_GgObject in *. lia. }
      exists o. split; [done|]. eapply represents_frame; [|by intros ?|exact Hr]. intros x [HR Hx]. split; [done|].
      unfold gg_kv_val, sizeof_GgKV, sizeof_GgObject in *. lia. }
    destruct (se_required s); [case_decide|case_decide|]; try done; by exists (eval e).
  - rewrite H. by destruct (se_required s).
Qed.

(** What a schema finds at [p]. *)
Definition json_found (kvs : list (bytes * jvalue)) (s : GgMapSchemaEntry) (p : Z) : Prop :=
  match json_check kvs s with
  | inl _ => False
  | inr None => p = NULL
  | inr (Some v) => value_at p v
  end.

(** The first error of a schema. *)
Fixpoint json_schema (kvs : list (bytes * jvalue)) (schema : list GgMapSchemaEntry) : option GgError :=
  match schema with
  | [] => None
  | s :: schema => match json_check kvs s with inl e => Some e | inr _ => json_schema kvs schema end
  end.

Lemma json_check_error kvs s e : json_check kvs s = inl e -> e <> GG_ERR_OK.
Proof. unfold json_check. destruct (jget _ _), (se_required s); try case_decide; congruence. Qed.

Lemma json_validated map kvs schema :
  json_map_at R m map kvs -> bool_decide (NoDup (NULL :: (se_value <$> schema))) = true ->
  exists ret vars, gg_map_validate m map schema ∅ = Some (ret, vars) /\
    match json_schema kvs schema with
    | Some e => ret = e /\ e <> GG_ERR_OK
    | None => ret = GG_ERR_OK /\ Forall (fun s => exists p, vars !! se_value s = Some p /\ json_found kvs s p) schema
    end.
Proof using Rpos.
  intros Hm Hnd%bool_decide_eq_true. rewrite (json_validate _ _ _ _ Hm). destruct (validate_spec _ schema ∅) as [ret vars] eqn:E.
  exists ret, vars. split; [done|]. revert E. generalize (∅ : gmap Z Z). intros vars0 E.
  assert (match json_schema kvs schema with
    | Some e => ret = e /\ e <> GG_ERR_OK
    | None => ret = GG_ERR_OK /\ Forall (fun s => exists p, vars !! se_value s = Some p /\ json_found kvs s p) schema /\
        (forall x, x ∉ se_value <$> schema -> vars !! x = vars0 !! x)
    end) as H; [|by destruct (json_schema kvs schema); [|destruct H as (? & ? & _)]].
  revert vars0 E. induction schema as [|s schema IH]; intros vars0 E; [by injection E as <- <-|].
  cbn [validate_spec json_schema fmap list_fmap] in *. apply NoDup_cons in Hnd as [Hnull Hnd]. apply NoDup_cons in Hnd as [Hs Hnd].
  pose proof (json_check_entry map kvs s Hm) as Hc. unfold json_found.
  assert (NULL ∉ se_value <$> schema /\ se_value s <> NULL) as [Hnull' Hne] by set_solver.
  assert (forall p, check_entry (json_entries (pairs map) kvs) s = inr p ->
    (match json_check kvs s with inl _ => False | inr None => p = NULL
     | inr (Some v) => value_at p v end) ->
    match json_schema kvs schema with
    | Some e => ret = e /\ e <> GG_ERR_OK
    | None => ret = GG_ERR_OK /\ Forall (fun s => exists p, vars !! se_value s = Some p /\ json_found kvs s p) (s :: schema) /\
        (forall x, x ∉ se_value s :: (se_value <$> schema) -> vars !! x = vars0 !! x)
    end) as Hnext.
  { intros p Hp Hfound. rewrite Hp in E. specialize (IH ltac:(by constructor) _ E).
    destruct (json_schema kvs schema); [done|]. destruct IH as (-> & Hall & Hout). split; [done|].
    assert (forall x, set_var vars0 (se_value s) p !! x = if decide (x = se_value s) then Some p else vars0 !! x) as Hset.
    { intros x. unfold set_var. rewrite (proj2 (Z.eqb_neq _ _)) by done. case_decide as Hx;
        [by rewrite Hx, lookup_insert_eq|by rewrite lookup_insert_ne by done]. }
    split.
    - constructor; [|done]. exists p. split; [|done]. rewrite Hout by done. rewrite Hset. by rewrite decide_True.
    - intros x Hx. rewrite Hout by set_solver. rewrite Hset. rewrite decide_False; [done|set_solver]. }
  destruct (json_check kvs s) as [e|[v|]] eqn:Ec.
  - rewrite Hc in E. injection E as <- <-. split; [done|]. by eapply json_check_error.
  - destruct Hc as (p & Hp & Hv). by apply (Hnext p Hp).
  - by apply (Hnext NULL Hc).
Qed.
End positive.
