(* ===== verification/Claim.v ===== *)
(** Claiming an object for an arena ([gg_arena_claim_obj] of [src/arena.c]): the
    visit that moves its strings, lists and maps into the arena makes a deep
    copy, or reports that there is no room. *)

From S2P Require Import Prelude Memory Buffer Io Object Map Visit Arena JsonValue JsonStored JsonContainers JsonMaps.

(** ** The size of a value *)

(** What a copy takes in an arena. *)
Fixpoint jclaim (v : jvalue) : Z :=
  match v with
  | JStr bs => zlen bs
  | JArr vs => foldr (fun v acc => sizeof_GgObject + jclaim v + acc) 0 vs
  | JObj kvs => foldr (fun kv acc => sizeof_GgKV + (zlen kv.1 + jclaim kv.2) + acc) 0 kvs
  | _ => 0
  end.

(** The subobjects and the depth that the visitor counts. *)
Fixpoint jsubs (v : jvalue) : Z :=
  match v with
  | JArr vs => foldr (fun v acc => 1 + jsubs v + acc) 0 vs
  | JObj kvs => foldr (fun kv acc => 2 + jsubs kv.2 + acc) 0 kvs
  | _ => 0
  end.

Fixpoint jdepth (v : jvalue) : nat :=
  match v with
  | JArr vs => S (foldr (fun v acc => Nat.max (jdepth v) acc) O vs)
  | JObj kvs => S (foldr (fun kv acc => Nat.max (jdepth kv.2) acc) O kvs)
  | _ => 1
  end.

(** Strings have lengths that an object can hold. *)
Fixpoint jfits (v : jvalue) : bool :=
  match v with
  | JStr bs => zlen bs <=? UINT16_MAX
  | JArr vs => forallb jfits vs
  | JObj kvs => forallb (fun kv => (zlen kv.1 <=? UINT16_MAX) && jfits kv.2) kvs
  | _ => true
  end.

Lemma jsubs_nonneg v : 0 <= jsubs v.
Proof.
  induction v as [| | | |bs|vs IH|kvs IH] using jvalue_ind'; cbn [jsubs]; try done.
  - induction IH as [|v vs Hv _ IH]; cbn [foldr]; lia.
  - induction IH as [|v vs Hv _ IH]; cbn [foldr]; lia.
Qed.

Lemma jclaim_nonneg v : 0 <= jclaim v.
Proof.
  induction v as [| | | |bs|vs IH|kvs IH] using jvalue_ind'; cbn [jclaim]; try done; [apply zlen_nonneg|..].
  - induction IH as [|v vs Hv _ IH]; cbn [foldr]; unfold sizeof_GgObject in *; lia.
  - induction IH as [|v vs Hv _ IH]; cbn [foldr]; [done|]. pose proof (zlen_nonneg v.1). unfold sizeof_GgKV in *. lia.
Qed.

(** The sums over the elements of a container. *)
Definition total {X} (f : X -> Z) (xs : list X) : Z := foldr (fun x acc => f x + acc) 0 xs.

Lemma total_nonneg {X} (f : X -> Z) xs : (forall x, 0 <= f x) -> 0 <= total f xs.
Proof. intros Hf. induction xs as [|x xs IH]; [done|]. cbn. pose proof (Hf x). unfold total in IH. lia. Qed.

Lemma jclaim_arr vs : jclaim (JArr vs) = sizeof_GgObject * zlen vs + total jclaim vs.
Proof.
  cbn [jclaim]. induction vs as [|v vs IH]; [done|]. cbn [foldr total]. unfold total in IH. rewrite IH, zlen_cons. lia.
Qed.
Lemma jclaim_obj kvs : jclaim (JObj kvs) = sizeof_GgKV * zlen kvs + total (fun kv => zlen kv.1 + jclaim kv.2) kvs.
Proof.
  cbn [jclaim]. induction kvs as [|kv kvs IH]; [done|]. cbn [foldr total]. unfold total in IH. rewrite IH, zlen_cons. lia.
Qed.
Lemma jsubs_arr vs : jsubs (JArr vs) = zlen vs + total jsubs vs.
Proof.
  cbn [jsubs]. induction vs as [|v vs IH]; [done|]. cbn [foldr total]. unfold total in IH. rewrite IH, zlen_cons. lia.
Qed.
Lemma jsubs_obj kvs : jsubs (JObj kvs) = 2 * zlen kvs + total (fun kv => jsubs kv.2) kvs.
Proof.
  cbn [jsubs]. induction kvs as [|kv kvs IH]; [done|]. cbn [foldr total]. unfold total in IH. rewrite IH, zlen_cons. lia.
Qed.

(** ** The handlers *)

Definition claim_handlers : GgObjectVisitHandlers (option GgArena) :=
  mkHandlers None None None None (Some claim_buf) (Some claim_list) None None (Some claim_map) (Some claim_map_key) None None.

Section claim.
(** The block of the arena, and the region where the source lies, apart from
    the block. *)
Context (A C : Z) (HA : 0 < A) (HC : 0 <= C <= UINT32_MAX) (HAC : A + C <= SIZE_MAX).
Context (R : Z -> Prop) (HR : forall x, R x -> ~ zrange A (A + C) x).

(** The arena at an index, its free part, and what is used between two indices. *)
Definition arena (i : Z) : GgArena := mkArena A C i.
Definition free_part (i : Z) : Z -> Prop := zrange (A + i) (A + C).
Definition between (i j : Z) : Z -> Prop := zrange (A + i) (A + j).

Lemma arena_fine i : 0 <= i <= C -> arena_ok (arena i).
Proof using All. intros Hi. unfold arena_ok, arena. cbn [arena_mem index capacity]. lia. Qed.

Lemma free_alloc i size : 0 <= i <= C -> 0 <= size <= PTRDIFF_MAX ->
  gg_arena_alloc (Some (arena i)) size 1 =
    Some (if size <=? C - i then (Some (arena (i + size)), A + i) else (Some (arena i), NULL)).
Proof using All.
  intros Hi Hsize. rewrite gg_arena_alloc_eq by (done || by apply arena_fine). unfold alloc_at, align_up, arena.
  cbn [arena_mem index capacity]. rewrite Z.mod_1_r, Z.add_0_r.
  destruct (size <=? C - i) eqn:E; zify_bool; [rewrite (proj2 (Z.leb_le _ _)) by lia|rewrite (proj2 (Z.leb_gt _ _)) by lia]; done.
Qed.

Lemma not_owned i x : 0 <= i <= C -> R x -> gg_arena_owns (Some (arena i)) x = false.
Proof using All.
  intros Hi Hx. apply not_true_iff_false. rewrite (gg_arena_owns_spec _ _ (arena_fine i Hi)). exact (HR x Hx).
Qed.

(** Claiming a string of the source. *)
Lemma claim_buf_run i m b bs : 0 <= i <= C -> mapped m A C -> string_at R m b bs -> zlen bs <= UINT16_MAX ->
  exists e m' b' j, gg_arena_claim_buf m b (Some (arena i)) = Some (e, m', b', Some (arena j)) /\
    changes (free_part i) m m' /\ i <= j <= C /\ 0 <= len b' <= UINT16_MAX /\
    if zlen bs <=? C - i
    then e = GG_ERR_OK /\ j = i + zlen bs /\ string_at (between i j) m' b' bs /\ 0 <= data b' <= SIZE_MAX
    else e = GG_ERR_NOMEM.
Proof using All.
  intros Hi Hm (Hb & Hl & Hin) Hfit. pose proof (loadz_zlen _ _ _ _ Hb) as Hz. rewrite Z.max_r in Hz by done.
  unfold gg_arena_claim_buf. destruct (gg_arena_owns (Some (arena i)) (data b)) eqn:Hown.
  { assert (len b = 0) as H0.
    { destruct (decide (len b = 0)) as [?|Hne]; [done|]. rewrite not_owned in Hown; [done|done|]. apply Hin. lia. }
    apply (gg_arena_owns_spec _ _ (arena_fine i Hi)) in Hown. cbn [arena arena_mem capacity] in Hown.
    exists GG_ERR_OK, m, b, i. rewrite (proj2 (Z.leb_le _ _)) by lia. unfold UINT16_MAX in *.
    split_and!; try done; try lia. split_and!; [done|done|]. intros x Hx. lia. }
  destruct (len b =? 0) eqn:H0; zify_bool.
  { assert (bs = []) as -> by (apply zlen_zero; lia). exists GG_ERR_OK, m, (mkBuf NULL 0), i.
    rewrite (proj2 (Z.leb_le _ _)) by (cbn; lia). rewrite Z.add_0_r. split_and!; try done; try lia. split_and!; [done|done|]. intros x Hx. cbn in Hx. lia. }
  rewrite free_alloc by (unfold PTRDIFF_MAX, UINT16_MAX in *; lia). rewrite Hz.
  destruct (len b <=? C - i) eqn:E; zify_bool; cbn [mbind option_bind].
  - rewrite (proj2 (Z.eqb_neq _ _)) by (unfold NULL; lia). unfold memcpy. unfold buf_bytes in Hb. rewrite Hb.
    cbn [mbind option_bind]. destruct (store_Some m (A + i) bs) as [m' Hst]; [intros x Hx; apply Hm; lia|].
    rewrite Hst. cbn [mbind option_bind]. exists GG_ERR_OK, m', (mkBuf (A + i) (len b)), (i + len b). cbn [data len].
    pose proof (store_changes _ _ _ _ Hst) as Hch. rewrite Hz in Hch.
    split_and!; try done; try lia.
    + eapply changes_sub; [exact Hch|]. unfold free_part, zrange. lia.
    + split_and!; [|done|].
      * unfold buf_bytes. cbn [data len]. rewrite <- Hz. by eapply loadz_store_same.
      * intros x Hx. unfold between, zrange. cbn [data len] in Hx. lia.
  - exists GG_ERR_NOMEM, m, b, i. unfold UINT16_MAX in *. rewrite Z.eqb_refl. split_and!; try done; lia.
Qed.

(** What claiming something leaves: the copy, which takes [cost] bytes, or an
    error: [GG_ERR_NOMEM] only without room for the copy, and [GG_ERR_RANGE]
    only if the source is not within the [limits]. [W] is where the source
    object lies, which then refers to the copy. *)
Definition refusal (limits room : bool) (e : GgError) : Prop :=
  (room = false /\ e = GG_ERR_NOMEM) \/ (limits = false /\ e = GG_ERR_RANGE).

Definition copied (i n : Z) (m : mem) (W : Z -> Prop) (limits : bool) (cost subs : Z) (dst : (Z -> Prop) -> mem -> Prop)
    (r : vresult (option GgArena)) : Prop :=
  exists e n' m' j, r = Some (e, (n', (m', Some (arena j)))) /\ i <= j <= C /\
    changes (fun x => W x \/ free_part i x) m m' /\
    if limits && (cost <=? C - i) then e = GG_ERR_OK /\ n' = n + subs /\ j = i + cost /\ dst (between i j) m'
    else refusal limits (cost <=? C - i) e.

Lemma copied_refused i n m W (limits : bool) cost subs dst e n' m' j :
  i <= j <= C -> changes (fun x => W x \/ free_part i x) m m' -> refusal limits (cost <=? C - i) e ->
  copied i n m W limits cost subs dst (Some (e, (n', (m', Some (arena j))))).
Proof using Type.
  intros Hj Hch He. exists e, n', m', j. assert (limits && (cost <=? C - i) = false) as ->; [|done].
  destruct He as [[-> _]|[-> _]]; [apply andb_false_r|done].
Qed.

Lemma refusal_sub (l1 l2 f1 f2 : bool) e :
  refusal l1 f1 e -> (l2 = true -> l1 = true) -> (f2 = true -> f1 = true) -> refusal l2 f2 e.
Proof using Type.
  intros [[-> He]|[-> He]] Hl Hf; [left|right]; (split; [|done]).
  - destruct f2; [by discriminate Hf|done].
  - destruct l2; [by discriminate Hl|done].
Qed.

Lemma refusal_error limits room e : refusal limits room e -> e <> GG_ERR_OK.
Proof using Type. by intros [[_ ->]|[_ ->]]. Qed.

(** ** The elements of a container *)

Section elems.
Context {X : Type} (sz : Z) (cost subs : X -> Z) (depth : X -> nat) (d : nat).
Context (Hsz : 0 < sz) (Hcost : forall x, 0 <= cost x) (Hsubs : forall x, 0 <= subs x).
(** The visitor's limits on an element and on several. *)
Definition item_limits (n : Z) (x : X) : bool := (depth x <=? d)%nat && (n + subs x <=? 255).
Definition deepest (xs : list X) : nat := foldr (fun x acc => Nat.max (depth x) acc) O xs.
Definition limits_of (n : Z) (xs : list X) : bool := (deepest xs <=? d)%nat && (n + total subs xs <=? 255).

Lemma limits_cons n x xs : 0 <= n -> limits_of n (x :: xs) = item_limits n x && limits_of (n + subs x) xs.
Proof using Hsubs.
  intros Hn. unfold limits_of, item_limits. cbn [deepest foldr total]. fold (deepest xs) (total subs xs).
  pose proof (Hsubs x). pose proof (total_nonneg subs xs Hsubs).
  apply eq_true_iff_eq. rewrite !andb_true_iff, !Nat.leb_le, !Z.leb_le. lia.
Qed.

Lemma limits_nil n : n <= 255 -> limits_of n [] = true.
Proof using Type. intros Hn. unfold limits_of. cbn. apply Z.leb_le. lia. Qed.

(** An element of the source, and one of the copy, at an address. *)
Context (src : mem -> Z -> X -> Prop) (dst : (Z -> Prop) -> mem -> Z -> X -> Prop).
Context (src_frame : forall m m' q x, src m q x -> agrees (fun y => R y \/ zrange q (q + sz) y) m m' -> src m' q x).
Context (dst_frame : forall Rg Rg' m m' q x, dst Rg m q x -> (forall y, Rg y -> Rg' y) ->
  agrees (fun y => Rg y \/ zrange q (q + sz) y) m m' -> dst Rg' m' q x).
Context (read : vstate (option GgArena) -> option (Z * Z)) (before : Z -> Z -> Visit.step (option GgArena))
  (elem : Z -> Z -> Z) (rec : Z -> Z -> vstate (option GgArena) -> vresult (option GgArena)).

Fixpoint each_at (P : Z -> X -> Prop) (q : Z) (xs : list X) : Prop :=
  match xs with [] => True | x :: xs => P q x /\ each_at P (q + sz) xs end.

Lemma each_at_impl (P Q : Z -> X -> Prop) q xs :
  (forall q' x, q <= q' -> q' + sz <= q + sz * zlen xs -> P q' x -> Q q' x) -> each_at P q xs -> each_at Q q xs.
Proof using Hsz.
  revert q. induction xs as [|x xs IH]; intros q HPQ; [done|]. cbn [each_at]. rewrite zlen_cons in HPQ. pose proof (zlen_nonneg xs).
  intros [H1 H2]. split; [apply HPQ; [lia|nia|done]|]. apply IH; [|done]. intros q' y Hq1 Hq2. apply HPQ; lia.
Qed.

(** One element: the handlers that precede it, and its visit. *)
Definition item_run (base idx n : Z) (st : vstate (option GgArena)) : vresult (option GgArena) :=
  '(e, st) ← before base idx st;
  if negb (bool_decide (e = GG_ERR_OK)) then Some (e, (n, st)) else rec n (elem base idx) st.

Lemma elems_rec_item k idx n st base count : read st = Some (count, base) -> idx <> count ->
  elems_rec read before elem (list_fin claim_handlers) rec (S k) idx n st =
    '(e, (n, st)) ← item_run base idx n st;
    if negb (bool_decide (e = GG_ERR_OK)) then Some (e, (n, st))
    else elems_rec read before elem (list_fin claim_handlers) rec k (idx + 1) n st.
Proof using Type.
  intros Hr Hi. cbn [elems_rec]. rewrite Hr. cbn [mbind option_bind]. rewrite (proj2 (Z.eqb_neq _ _)) by done. unfold item_run.
  destruct (before base idx st) as [[e st1]|]; [|done]. cbn [mbind option_bind].
  case_bool_decide as He; cbn [negb]; [done|]. cbn [mbind option_bind]. by rewrite bool_decide_false.
Qed.

Context (ok : X -> Prop) (base N : Z) (P : Z -> Prop) (m0 : mem).
Context (Hread : forall m ar, agrees P m0 m -> read (m, ar) = Some (N, base)).
Context (Hitem : forall idx n m i x, 0 <= i <= C -> mapped m A C -> src m (base + sz * idx) x -> ok x ->
  (forall y, zrange (base + sz * idx) (base + sz * idx + sz) y -> ~ R y /\ ~ free_part i y) ->
  0 <= n <= 255 ->
  copied i n m (zrange (base + sz * idx) (base + sz * idx + sz)) (item_limits n x) (cost x) (subs x) (fun Rg m' => dst Rg m' (base + sz * idx) x)
    (item_run base idx n (m, Some (arena i)))).

Lemma elems_claimed xs idx n m i :
  0 <= i <= C -> mapped m A C -> agrees P m0 m -> idx + zlen xs = N ->
  each_at (src m) (base + sz * idx) xs -> Forall ok xs ->
  (forall y, zrange (base + sz * idx) (base + sz * N) y -> ~ R y /\ ~ free_part i y /\ ~ P y) ->
  (forall y, P y -> ~ free_part i y) -> 0 <= n <= 255 ->
  copied i n m (zrange (base + sz * idx) (base + sz * N)) (limits_of n xs) (total cost xs) (total subs xs)
    (fun Rg m' => each_at (dst Rg m') (base + sz * idx) xs)
    (elems_rec read before elem (list_fin claim_handlers) rec (length xs) idx n (m, Some (arena i))).
Proof using All.
  intros Hi Hm Hag HN Hsrc Hok Hap HP Hn. revert idx n m i Hi Hm Hag HN Hsrc Hap HP Hn.
  induction Hok as [|x xs Hx Hok IH]; intros idx n m i Hi Hm Hag HN Hsrc Hap HP Hn.
  { exists GG_ERR_OK, n, m, i. cbn [length elems_rec]. rewrite Hread by done. cbn [mbind option_bind].
    rewrite zlen_nil in HN. rewrite (proj2 (Z.eqb_eq _ _)) by lia. split; [done|]. split; [lia|]. split; [done|].
    rewrite limits_nil by lia. cbn [total foldr andb]. rewrite (proj2 (Z.leb_le _ _)) by lia. rewrite !Z.add_0_r. done. }
  rewrite zlen_cons in HN. pose proof (zlen_nonneg xs) as Hz. cbn [each_at] in Hsrc. destruct Hsrc as [Hs1 Hs2].
  rewrite limits_cons by lia. cbn [total foldr]. fold (total subs xs) (total cost xs) in *.
  pose proof (total_nonneg cost xs Hcost). pose proof (total_nonneg subs xs Hsubs). pose proof (Hcost x). pose proof (Hsubs x).
  assert (base + sz * idx + sz <= base + sz * N) as Hend by nia.
  destruct (Hitem idx n m i x Hi Hm Hs1 Hx) as (e & n1 & m1 & j & Hrun & Hj & Hch & Hres).
  { intros y Hy. destruct (Hap y) as (? & ? & ?); [unfold zrange in *; lia|done]. }
  { done. }
  cbn [length]. rewrite (elems_rec_item _ _ _ _ base N) by (by apply Hread || lia). rewrite Hrun. cbn [mbind option_bind].
  assert (changes (fun y => zrange (base + sz * idx) (base + sz * N) y \/ free_part i y) m m1) as Hch'.
  { eapply changes_sub; [exact Hch|]. unfold zrange. intros y [Hy|Hy]; [left; lia|by right]. }
  destruct (item_limits n x && (cost x <=? C - i)) eqn:E.
  2:{ rewrite bool_decide_false by by eapply refusal_error. cbn [negb]. apply copied_refused; [done|done|].
      eapply refusal_sub; [exact Hres|by intros [? _]%andb_true_iff|]. rewrite !Z.leb_le. lia. }
  apply andb_true_iff in E as [El E]. zify_bool. rewrite El. cbn [andb].
  destruct Hres as (-> & -> & -> & Hdst). rewrite bool_decide_true by done. cbn [negb].
  assert (n + subs x <= 255) as Hn' by (unfold item_limits in El; zify_bool; lia).
  destruct (IH (idx + 1) (n + subs x) m1 (i + cost x)) as (e2 & n2 & m2 & j2 & Hrun2 & Hj2 & Hch2 & Hres2).
  - lia.
  - eapply changes_mapped; [exact Hch|exact Hm].
  - intros y Hy. rewrite <- (Hag y Hy). apply Hch. intros [Hy'|Hy']; [|by apply (HP y)].
    destruct (Hap y) as (_ & _ & HnP); [unfold zrange in *; lia|done].
  - lia.
  - replace (base + sz * (idx + 1)) with (base + sz * idx + sz) by lia. eapply each_at_impl; [|exact Hs2].
    intros q' x' Hq1 Hq2 Hsrc. eapply src_frame; [exact Hsrc|]. intros y Hy. apply Hch.
    assert (zrange q' (q' + sz) y -> zrange (base + sz * idx) (base + sz * N) y) as Hin by (unfold zrange; nia).
    intros [Hy'|Hy'].
    + destruct Hy as [Hy|Hy]; [|unfold zrange in *; lia]. destruct (Hap y) as (HnR & _); [unfold zrange in *; lia|done].
    + destruct Hy as [Hy|Hy]; [|by destruct (Hap y (Hin Hy)) as (_ & ? & _)].
      apply (HR y Hy). unfold free_part, zrange in *. lia.
  - intros y Hy. destruct (Hap y) as (? & Hf & ?); [unfold zrange in *; lia|]. split_and!; try done.
    intros Hf'. apply Hf. unfold free_part, zrange in *. lia.
  - intros y Hy Hf. apply (HP y Hy). unfold free_part, zrange in *. lia.
  - lia.
  - exists e2, n2, m2, j2. split; [exact Hrun2|]. split; [lia|]. split.
    { eapply changes_trans; [exact Hch'|]. eapply changes_sub; [exact Hch2|]. unfold free_part, zrange. intros y [Hy|Hy]; [left|right]; lia. }
    replace (total cost xs <=? C - (i + cost x)) with (cost x + total cost xs <=? C - i) in Hres2
      by (destruct (cost x + total cost xs <=? C - i) eqn:E2; zify_bool; symmetry; [apply Z.leb_le|apply Z.leb_gt]; lia).
    destruct (limits_of (n + subs x) xs && (cost x + total cost xs <=? C - i)) eqn:E2; [|done]. destruct Hres2 as (-> & -> & -> & Hdst2).
    split_and!; [done|lia|lia|]. cbn [each_at]. split.
    + eapply dst_frame; [exact Hdst| |].
      * unfold between, zrange. intros y Hy. lia.
      * intros y Hy. apply Hch2. unfold between, free_part, zrange in *. intros [Hy'|Hy'].
        -- destruct Hy as [Hy|Hy]; [|lia]. destruct (Hap y) as (_ & Hf & _); [lia|]. apply Hf. lia.
        -- destruct Hy as [Hy|Hy]; [lia|]. destruct (Hap y) as (_ & Hf & _); [lia|]. apply Hf. lia.
    + replace (base + sz * idx + sz) with (base + sz * (idx + 1)) by lia. eapply each_at_impl; [|exact Hdst2].
      intros q' x' _ _ Hd. eapply dst_frame; [exact Hd| |done]. unfold between, zrange. intros y Hy. lia.
Qed.
End elems.

(** ** The array of a container *)

(** [claim_list] and [claim_map], by the size of an element. *)
Definition claim_array (sz : Z) (mk : Z -> Z -> option GgObject) (a cnt obj : Z) : Visit.step (option GgArena) := fun '(m, arena) =>
  if gg_arena_owns arena a then Some (GG_ERR_OK, (m, arena)) else
  if cnt =? 0 then
    o ← mk NULL 0;
    m ← store m obj o;
    Some (GG_ERR_OK, (m, arena))
  else
    '(arena, new_mem) ← gg_arena_alloc arena (cnt * sz) 1;
    if new_mem =? NULL then Some (GG_ERR_NOMEM, (m, arena)) else
    m ← memcpy m new_mem a (cnt * sz);
    o ← mk new_mem cnt;
    m ← store m obj o;
    Some (GG_ERR_OK, (m, arena)).

Lemma claim_array_run sz mk i m a cnt p o :
  0 < sz <= 100 -> 0 <= cnt <= 255 -> 0 <= i <= C -> mapped m A C -> inside R a (sz * cnt) -> mapped m a (sz * cnt) ->
  (forall b l, 0 <= b <= SIZE_MAX -> 0 <= l <= UINT16_MAX -> exists o', mk b l = Some o' /\ zlen o' = sizeof_GgObject) ->
  read_obj m p = Some o -> (forall y, zrange p (p + sizeof_GgObject) y -> ~ R y /\ ~ free_part i y) ->
  exists e m1 j, claim_array sz mk a cnt p (m, Some (arena i)) = Some (e, (m1, Some (arena j))) /\ i <= j <= C /\
    changes (fun y => zrange p (p + sizeof_GgObject) y \/ free_part i y) m m1 /\
    if sz * cnt <=? C - i then
      e = GG_ERR_OK /\ j = i + sz * cnt /\ exists base o1, read_obj m1 p = Some o1 /\
        ((o1 = o /\ base = a) \/ (mk base cnt = Some o1 /\ 0 <= base <= SIZE_MAX)) /\
        inside (between i j) base (sz * cnt) /\
        (forall k n, 0 <= k -> 0 < n -> k + n <= sz * cnt -> loadz m1 (base + k) n = loadz m (a + k) n)
    else e = GG_ERR_NOMEM.
Proof using All.
  intros Hsz Hcnt Hi Hm Hin Hma Hmk Ho Hp. unfold claim_array.
  assert (mapped m p sizeof_GgObject) as Hmp by by eapply loadz_is_mapped.
  assert (0 <= sz * cnt <= 25500) as Hsize by nia.
  assert (cnt <> 0 -> 0 < sz * cnt) as Hpos by nia.
  destruct (gg_arena_owns (Some (arena i)) a) eqn:Hown.
  { assert (cnt = 0) as ->.
    { destruct (decide (cnt = 0)) as [?|Hne]; [done|]. rewrite not_owned in Hown; [done|done|]. apply Hin. specialize (Hpos Hne). lia. }
    exists GG_ERR_OK, m, i. rewrite Z.mul_0_r. rewrite (proj2 (Z.leb_le _ _)) by lia. split; [done|]. split; [lia|]. split; [done|].
    split; [done|]. split; [lia|]. exists a, o. split; [done|]. split; [by left|]. split; [intros y Hy; lia|]. intros; lia. }
  destruct (cnt =? 0) eqn:H0; zify_bool.
  { subst cnt. destruct (Hmk NULL 0) as (o1 & Ho1 & Hz); [by vm_compute|by vm_compute|]. rewrite Ho1. cbn [mbind option_bind].
    destruct (store_Some m p o1) as [m1 Hst]; [by rewrite Hz|]. rewrite Hst. cbn [mbind option_bind].
    pose proof (store_changes _ _ _ _ Hst) as Hch. rewrite Hz in Hch.
    exists GG_ERR_OK, m1, i. rewrite Z.mul_0_r. rewrite (proj2 (Z.leb_le _ _)) by lia. split; [done|]. split; [lia|]. split.
    { eapply changes_sub; [exact Hch|]. intros y Hy. by left. }
    split; [done|]. split; [lia|]. exists NULL, o1. split; [unfold read_obj; rewrite <- Hz; by eapply loadz_store_same|].
    split; [right; by split; [|vm_compute]|]. split; [intros y Hy; lia|]. intros; lia. }
  specialize (Hpos H0). rewrite free_alloc by (unfold PTRDIFF_MAX; lia). rewrite (Z.mul_comm cnt sz).
  destruct (sz * cnt <=? C - i) eqn:E; zify_bool; cbn [mbind option_bind].
  2:{ exists GG_ERR_NOMEM, m, i. rewrite Z.eqb_refl. split; [done|]. split; [lia|]. done. }
  rewrite (proj2 (Z.eqb_neq _ _)) by (unfold NULL; lia). destruct (loadz_mapped _ _ _ Hma) as [bs Hbs].
  unfold memcpy. rewrite Hbs. cbn [mbind option_bind]. pose proof (loadz_zlen _ _ _ _ Hbs) as Hz. rewrite Z.max_r in Hz by lia.
  destruct (store_Some m (A + i) bs) as [m1 Hst1]; [intros y Hy; apply Hm; lia|]. rewrite Hst1. cbn [mbind option_bind].
  destruct (Hmk (A + i) cnt) as (o1 & Ho1 & Hz1); [unfold SIZE_MAX in *; lia|unfold UINT16_MAX; lia|]. rewrite Ho1. cbn [mbind option_bind].
  destruct (store_Some m1 p o1) as [m2 Hst2].
  { rewrite Hz1. eapply changes_mapped; [by eapply store_changes|done]. }
  rewrite Hst2. cbn [mbind option_bind].
  pose proof (store_changes _ _ _ _ Hst1) as Hch1. rewrite Hz in Hch1.
  pose proof (store_changes _ _ _ _ Hst2) as Hch2. rewrite Hz1 in Hch2.
  exists GG_ERR_OK, m2, (i + sz * cnt). split; [done|]. split; [lia|]. split.
  { eapply changes_trans; (eapply changes_sub; [eassumption|]); unfold free_part, zrange; intros y Hy; [right|left]; lia. }
  split; [done|]. split; [done|]. exists (A + i), o1.
  split; [unfold read_obj; rewrite <- Hz1; by eapply loadz_store_same|].
  split; [right; split; [done|unfold SIZE_MAX in *; lia]|]. split; [intros y Hy; unfold between, zrange; lia|].
  intros k n Hk Hn Hkn. rewrite (changes_loadz _ _ _ _ _ Hch2).
  2:{ intros y Hy Hy'. destruct (Hp y Hy') as [_ Hf]. apply Hf. unfold free_part, zrange. lia. }
  pose proof (loadz_store_same _ _ _ _ Hst1) as Hnew. rewrite Hz in Hnew.
  rewrite (loadz_sub _ _ _ _ k n Hnew) by lia. by rewrite (loadz_sub _ _ _ _ k n Hbs) by lia.
Qed.

(** ** Objects *)

(** An object that denotes a value, at an address. *)
Definition obj_rep (Rg : Z -> Prop) (m : mem) (q : Z) (v : jvalue) : Prop :=
  exists o, read_obj m q = Some o /\ represents Rg m v o.

Definition pair_rep (Rg : Z -> Prop) (m : mem) (q : Z) (kv : bytes * jvalue) : Prop :=
  exists pair, read_kv m q = Some pair /\ pair_represents Rg m kv pair.

Lemma elems_each Rg m vs q : elems_at Rg m vs q <-> each_at sizeof_GgObject (obj_rep Rg m) q vs.
Proof using Type. revert q. induction vs as [|v vs IH]; intros q; [done|]. cbn [elems_at each_at]. by rewrite IH. Qed.

Lemma members_each Rg m kvs q : members_at Rg m kvs q <-> each_at sizeof_GgKV (pair_rep Rg m) q kvs.
Proof using Type. revert q. induction kvs as [|kv kvs IH]; intros q; [done|]. cbn [members_at each_at]. by rewrite IH. Qed.

Lemma each_mapped {X} sz (P : Z -> X -> Prop) m q xs : 0 < sz ->
  (forall q x, P q x -> mapped m q sz) -> each_at sz P q xs -> mapped m q (sz * zlen xs).
Proof using Type.
  intros Hsz HP. revert q. induction xs as [|x xs IH]; intros q He y Hy; [rewrite zlen_nil in Hy; lia|]. cbn [each_at] in He.
  destruct He as [H1 H2]. rewrite zlen_cons in Hy. destruct (Z_lt_le_dec y (q + sz)).
  - apply (HP _ _ H1). lia.
  - apply (IH _ H2). lia.
Qed.

(** Elements that were copied with their array. *)
Lemma each_moved {X} sz (P P' : Z -> X -> Prop) a b xs : 0 < sz ->
  (forall k x, 0 <= k -> k + sz <= sz * zlen xs -> P (a + k) x -> P' (b + k) x) ->
  each_at sz P a xs -> each_at sz P' b xs.
Proof using Type.
  intros Hsz. revert a b. induction xs as [|x xs IH]; intros a b HP; [done|]. cbn [each_at]. rewrite zlen_cons in HP.
  pose proof (zlen_nonneg xs). intros [H1 H2]. split.
  - rewrite <- (Z.add_0_r b). apply HP; [lia|nia|]. by rewrite Z.add_0_r.
  - apply (IH (a + sz) (b + sz)); [|done]. intros k y Hk Hle. rewrite <- !Z.add_assoc. apply HP; lia.
Qed.

Lemma obj_rep_frame Rg Rg' m m' q v : obj_rep Rg m q v -> (forall y, Rg y -> Rg' y) ->
  agrees (fun y => Rg y \/ zrange q (q + sizeof_GgObject) y) m m' -> obj_rep Rg' m' q v.
Proof using Type.
  intros (o & Ho & Hr) Hsub Hag. exists o. split.
  - unfold read_obj in *. rewrite <- Ho. apply loadz_ext. intros y Hy. apply Hag. by right.
  - eapply represents_frame; [exact Hsub| |exact Hr]. intros y Hy. apply Hag. by left.
Qed.

Lemma pair_rep_frame Rg Rg' m m' q kv : pair_rep Rg m q kv -> (forall y, Rg y -> Rg' y) ->
  agrees (fun y => Rg y \/ zrange q (q + sizeof_GgKV) y) m m' -> pair_rep Rg' m' q kv.
Proof using Type.
  intros (pair & Ho & Hr) Hsub Hag. exists pair. split.
  - unfold read_kv in *. rewrite <- Ho. apply loadz_ext. intros y Hy. apply Hag. by right.
  - eapply pair_represents_frame; [exact Hsub| |exact Hr]. intros y Hy. apply Hag. by left.
Qed.

(** The visitor's limits on a value. *)
Definition value_limits (d : nat) (n : Z) (v : jvalue) : bool := item_limits jsubs jdepth d n v.

Lemma leaf_limits d n v : n <= 255 -> jdepth v = 1%nat -> jsubs v = 0 -> value_limits (S d) n v = true.
Proof using Type.
  intros Hn Hd Hs. unfold value_limits, item_limits. rewrite Hd, Hs. cbn [Nat.leb andb]. apply Z.leb_le. lia.
Qed.

(** Objects without parts. *)
Lemma claim_leaf d i n m p o v : 0 <= i <= C -> n <= 255 -> jdepth v = 1%nat -> jclaim v = 0 -> jsubs v = 0 -> represents R m v o ->
  (forall Rg, represents Rg m v o) -> read_obj m p = Some o ->
  copied i n m (zrange p (p + sizeof_GgObject)) (value_limits (S d) n v) (jclaim v) (jsubs v) (fun Rg m' => obj_rep Rg m' p v)
    (Some (GG_ERR_OK, (n, (m, Some (arena i))))).
Proof using Type.
  intros Hi Hn Hd Hc Hs Hr Hall Ho. exists GG_ERR_OK, n, m, i. rewrite leaf_limits by done. cbn [andb]. rewrite Hc, Hs. rewrite (proj2 (Z.leb_le _ _)) by lia.
  rewrite !Z.add_0_r. split; [done|]. split; [lia|]. split; [done|]. split_and!; try done. exists o. by split.
Qed.

(** Strings: the object at [p] is rewritten. *)
Lemma claim_string i n m p o b bs : 0 <= i <= C -> mapped m A C -> read_obj m p = Some o -> string_at R m b bs ->
  zlen bs <= UINT16_MAX -> (forall y, zrange p (p + sizeof_GgObject) y -> ~ R y /\ ~ free_part i y) ->
  copied i n m (zrange p (p + sizeof_GgObject)) true (zlen bs) 0 (fun Rg m' => obj_rep Rg m' p (JStr bs))
    (with_count n (claim_buf b p (m, Some (arena i)))).
Proof using All.
  intros Hi Hm Ho Hs Hfit Hp. destruct (claim_buf_run i m b bs Hi Hm Hs Hfit) as (e & m1 & b' & j & Hrun & Hch & Hj & Hl & Hres).
  unfold claim_buf. rewrite Hrun. cbn [mbind option_bind].
  assert (exists o1, gg_obj_buf b' = Some o1 /\ zlen o1 = sizeof_GgObject) as (o1 & Ho1 & Hz).
  { unfold gg_obj_buf. rewrite ptr_len_eq by done. eexists. split; [done|]. done. }
  rewrite Ho1. cbn [mbind option_bind]. destruct (store_Some m1 p o1) as [m2 Hst].
  { rewrite Hz. eapply changes_mapped; [exact Hch|]. by eapply loadz_is_mapped. }
  rewrite Hst. cbn [mbind option_bind with_count]. pose proof (store_changes _ _ _ _ Hst) as Hch2. rewrite Hz in Hch2.
  exists e, n, m2, j. split; [done|]. split; [done|]. split.
  { eapply changes_trans; (eapply changes_sub; [eassumption|]); intros y Hy; [by right|by left]. }
  cbn [andb]. destruct (zlen bs <=? C - i); [|by left]. destruct Hres as (-> & -> & Hs' & Hd). rewrite Z.add_0_r. split_and!; try done.
  exists o1. split; [unfold read_obj; rewrite <- Hz; by eapply loadz_store_same|].
  cbn [represents]. exists b'. split; [by apply (unpack_pack (VBuf b')); [split|]|].
  eapply string_at_frame; [| |exact Hs']; [done|]. intros y Hy. apply Hch2. intros Hy'.
  destruct (Hp y Hy') as [_ Hf]. apply Hf. unfold between, free_part, zrange in *. lia.
Qed.

(** The visit of a value copies it. *)
Definition claimable (d : nat) (v : jvalue) : Prop := forall n m p i o,
  0 <= i <= C -> mapped m A C -> read_obj m p = Some o -> represents R m v o ->
  (forall y, zrange p (p + sizeof_GgObject) y -> ~ R y /\ ~ free_part i y) -> 0 <= n <= 255 ->
  copied i n m (zrange p (p + sizeof_GgObject)) (value_limits d n v) (jclaim v) (jsubs v) (fun Rg m' => obj_rep Rg m' p v)
    (visit_rec claim_handlers d n p (m, Some (arena i))).

Lemma claim_map_before base idx st : map_before claim_handlers base idx st =
  (pair ← read_kv st.1 (map_kv base idx); claim_map_key (gg_kv_key pair) (map_kv base idx) st).
Proof using Type. unfold map_before. by destruct (idx =? 0). Qed.

(** A pair: its key and its value. *)
Lemma claim_pair d base idx n m i kv : claimable d kv.2 -> 0 <= i <= C -> mapped m A C ->
  pair_rep R m (map_kv base idx) kv -> zlen kv.1 <= UINT16_MAX ->
  (forall y, zrange (map_kv base idx) (map_kv base idx + sizeof_GgKV) y -> ~ R y /\ ~ free_part i y) ->
  0 <= n <= 255 ->
  copied i n m (zrange (map_kv base idx) (map_kv base idx + sizeof_GgKV))
    (item_limits (fun kv : bytes * jvalue => jsubs kv.2) (fun kv : bytes * jvalue => jdepth kv.2) d n kv) (zlen kv.1 + jclaim kv.2) (jsubs kv.2)
    (fun Rg m' => pair_rep Rg m' (map_kv base idx) kv)
    (item_run (map_before claim_handlers) map_elem (visit_rec claim_handlers d) base idx n (m, Some (arena i))).
Proof using All.
  intros Hv Hi Hm (pair & Hpair & Hkey & Hval) Hfit Hp Hn. set (q := map_kv base idx) in *.
  change (item_limits _ _ d n kv) with (value_limits d n kv.2).
  pose proof (zlen_nonneg kv.1). pose proof (jclaim_nonneg kv.2).
  unfold item_run. rewrite claim_map_before. fold q. cbn [fst]. rewrite Hpair. cbn [mbind option_bind].
  destruct (claim_buf_run i m _ _ Hi Hm Hkey Hfit) as (e & m1 & b' & j & Hrun & Hch1 & Hj & Hl & Hres).
  unfold claim_map_key. rewrite Hrun. cbn [mbind option_bind].
  assert (read_kv m1 q = Some pair) as Hpair1.
  { unfold read_kv in *. rewrite <- Hpair. apply (changes_loadz _ _ _ _ _ Hch1). intros y Hy. by apply Hp. }
  pose proof (loadz_zlen _ _ _ _ Hpair) as Hz. change (Z.max 0 sizeof_GgKV) with sizeof_GgKV in Hz.
  rewrite Hpair1. cbn [mbind option_bind]. rewrite set_key_bytes by done. cbn [mbind option_bind].
  set (pair2 := ptr_len_bytes (data b') (len b') ++ zdrop 10 pair).
  assert (zlen pair2 = sizeof_GgKV) as Hz2.
  { unfold pair2. rewrite zlen_app, zlen_ptr_len_bytes, zlen_drop, Hz. done. }
  destruct (store_Some m1 q pair2) as [m2 Hst].
  { rewrite Hz2. eapply changes_mapped; [exact Hch1|]. by eapply loadz_is_mapped. }
  rewrite Hst. cbn [mbind option_bind]. pose proof (store_changes _ _ _ _ Hst) as Hch2. rewrite Hz2 in Hch2.
  assert (changes (fun y => zrange q (q + sizeof_GgKV) y \/ free_part i y) m m2) as Hch.
  { eapply changes_trans; (eapply changes_sub; [eassumption|]); intros y Hy; [by right|by left]. }
  destruct (zlen kv.1 <=? C - i) eqn:E; zify_bool.
  2:{ subst e. apply copied_refused; [done|done|]. left. split; [apply Z.leb_gt; lia|done]. }
  destruct Hres as (-> & -> & Hkey1 & Hd). cbn [mbind option_bind]. rewrite bool_decide_true by done. cbn [negb].
  pose proof (loadz_store_same _ _ _ _ Hst) as Hq2. rewrite Hz2 in Hq2.
  assert (read_obj m2 (q + 10) = Some (zdrop 10 pair)) as Hobj.
  { unfold read_obj. rewrite (loadz_sub _ _ _ _ 10 sizeof_GgObject Hq2) by done. f_equal. unfold pair2.
    rewrite zdrop_app_exact by done. apply ztake_all. rewrite zlen_drop, Hz. done. }
  destruct (Hv n m2 (q + 10) (i + zlen kv.1) (zdrop 10 pair)) as (e & n' & m3 & k & Hrun3 & Hk & Hch3 & Hres3).
  - lia.
  - eapply changes_mapped; [exact Hch|done].
  - exact Hobj.
  - eapply represents_frame; [| |exact Hval]; [done|]. intros y Hy. apply Hch. intros [Hy'|Hy']; [exact (proj1 (Hp y Hy') Hy)|].
    apply (HR y Hy). unfold free_part, zrange in *. lia.
  - intros y Hy. destruct (Hp y) as [? Hf]; [unfold zrange, sizeof_GgObject, sizeof_GgKV in *; lia|]. split; [done|].
    intros Hf'. apply Hf. unfold free_part, zrange in *. lia.
  - done.
  - unfold map_elem, gg_kv_val. fold q. replace (q + 8 + 2) with (q + 10) by lia. rewrite Hrun3.
    exists e, n', m3, k. split; [done|]. split; [lia|]. split.
    { eapply changes_trans; [exact Hch|]. eapply changes_sub; [exact Hch3|]. unfold free_part, zrange, sizeof_GgObject, sizeof_GgKV.
      intros y [Hy|Hy]; [left|right]; lia. }
    replace (jclaim kv.2 <=? C - (i + zlen kv.1)) with (zlen kv.1 + jclaim kv.2 <=? C - i) in Hres3
      by (destruct (zlen kv.1 + jclaim kv.2 <=? C - i) eqn:E2; zify_bool; symmetry; [apply Z.leb_le|apply Z.leb_gt]; lia).
    destruct (_ && (zlen kv.1 + jclaim kv.2 <=? C - i)); [|done]. destruct Hres3 as (-> & -> & -> & o3 & Ho3 & Hr3).
    split_and!; [done|done|lia|]. exists (ptr_len_bytes (data b') (len b') ++ o3).
    assert (loadz m3 q 10 = Some (ptr_len_bytes (data b') (len b'))) as Hq3.
    { rewrite (changes_loadz _ _ _ _ _ Hch3).
      - replace q with (q + 0) by lia. rewrite (loadz_sub _ _ _ _ 0 10 Hq2) by done. done.
      - intros y Hy [Hy'|Hy']; [unfold zrange in *; lia|]. destruct (Hp y) as [_ Hf]; [unfold zrange, sizeof_GgKV; lia|].
        apply Hf. unfold free_part, zrange in *. lia. }
    split; [by apply (loadz_app m3 q 10 11)|]. split.
    + rewrite gg_kv_key_layout by done. eapply string_at_frame; [| |exact Hkey1].
      * unfold between, zrange. intros y Hy. lia.
      * intros y Hy. unfold between, free_part, zrange in *.
        assert (m2 !! y = m1 !! y) as <-.
        { apply Hch2. intros Hy'. destruct (Hp y Hy') as [_ Hf]. apply Hf. lia. }
        apply Hch3. intros [Hy'|Hy']; [|lia]. destruct (Hp y) as [_ Hf]; [unfold sizeof_GgObject, sizeof_GgKV in *; lia|]. apply Hf. lia.
    + change (gg_kv_val 0) with 10. rewrite zdrop_app_exact by done. eapply represents_frame; [| |exact Hr3]; [|done].
      unfold between, zrange. intros y Hy. lia.
Qed.

(** ** Lists and maps *)

Section container.
Context {X : Type} (sz : Z) (cost subs : X -> Z) (depth : X -> nat) (d : nat).
Context (Hsz : 0 < sz <= 100) (Hcost : forall x, 0 <= cost x) (Hsubs : forall x, 0 <= subs x).
Context (rep : (Z -> Prop) -> mem -> Z -> X -> Prop).
Context (rep_frame : forall Rg Rg' m m' q x, rep Rg m q x -> (forall y, Rg y -> Rg' y) ->
  agrees (fun y => Rg y \/ zrange q (q + sz) y) m m' -> rep Rg' m' q x).
(** What is at an address moves with its bytes. *)
Context (rep_move : forall m m' q q' x, rep R m q x -> agrees R m m' -> loadz m' q' sz = loadz m q sz -> rep R m' q' x).
Context (rep_mapped : forall m q x, rep R m q x -> mapped m q sz).
Context (mk : Z -> Z -> option GgObject)
  (Hmk : forall b l, 0 <= b <= SIZE_MAX -> 0 <= l <= UINT16_MAX -> exists o', mk b l = Some o' /\ zlen o' = sizeof_GgObject).
Context (read : vstate (option GgArena) -> option (Z * Z)) (before : Z -> Z -> Visit.step (option GgArena))
  (elem : Z -> Z -> Z) (rec : Z -> Z -> vstate (option GgArena) -> vresult (option GgArena)) (ok : X -> Prop).
Context (Hitem : forall base idx n m i x, 0 <= i <= C -> mapped m A C -> rep R m (base + sz * idx) x -> ok x ->
  (forall y, zrange (base + sz * idx) (base + sz * idx + sz) y -> ~ R y /\ ~ free_part i y) ->
  0 <= n <= 255 ->
  copied i n m (zrange (base + sz * idx) (base + sz * idx + sz)) (item_limits subs depth d n x) (cost x) (subs x) (fun Rg m' => rep Rg m' (base + sz * idx) x)
    (item_run before elem rec base idx n (m, Some (arena i)))).
(** The container: where its array is and its object. *)
Context (a : Z) (xs : list X) (p : Z) (o : GgObject).
Definition refers (base : Z) (o1 : GgObject) : Prop :=
  (o1 = o /\ base = a) \/ (mk base (zlen xs) = Some o1 /\ 0 <= base <= SIZE_MAX).
Context (Hread : forall m ar base o1, read_obj m p = Some o1 -> refers base o1 -> read (m, ar) = Some (zlen xs, base)).

Lemma container_claimed n c m i : 0 <= i <= C -> mapped m A C -> inside R a (sz * zlen xs) -> each_at sz (rep R m) a xs ->
  Forall ok xs -> read_obj m p = Some o -> (forall y, zrange p (p + sizeof_GgObject) y -> ~ R y /\ ~ free_part i y) ->
  0 <= n -> 0 <= c -> zlen xs <= 255 -> n + c <= 255 ->
  copied i n m (zrange p (p + sizeof_GgObject)) (limits_of subs depth d (n + c) xs) (sz * zlen xs + total cost xs) (c + total subs xs)
    (fun Rg m' => exists base o1, read_obj m' p = Some o1 /\ refers base o1 /\ inside Rg base (sz * zlen xs) /\
       each_at sz (rep (apart Rg base (sz * zlen xs)) m') base xs)
    ('(e, st) ← claim_array sz mk a (zlen xs) p (m, Some (arena i));
     if negb (bool_decide (e = GG_ERR_OK)) then Some (e, (n + c, st)) else
     elems_rec read before elem (list_fin claim_handlers) rec (length xs) 0 (n + c) st).
Proof using All.
  intros Hi Hm Hin Hsrc Hok Ho Hp Hn Hc Hlen Hnc. pose proof (zlen_nonneg xs) as Hz.
  assert (mapped m a (sz * zlen xs)) as Hma.
  { eapply each_mapped; [|apply rep_mapped|exact Hsrc]. lia. }
  pose proof (total_nonneg cost xs Hcost). pose proof (total_nonneg subs xs Hsubs).
  destruct (claim_array_run sz mk i m a (zlen xs) p o Hsz (conj Hz Hlen) Hi Hm Hin Hma Hmk Ho Hp)
    as (e & m1 & j & Hrun & Hj & Hch & Hres). rewrite Hrun. cbn [mbind option_bind].
  assert (0 <= sz * zlen xs) by nia.
  destruct (sz * zlen xs <=? C - i) eqn:E; zify_bool.
  2:{ subst e. cbn [bool_decide negb]. apply copied_refused; [done|done|]. left. split; [apply Z.leb_gt; lia|done]. }
  destruct Hres as (-> & -> & base & o1 & Ho1 & Href & Hins & Hmoved). rewrite bool_decide_true by done. cbn [negb].
  assert (forall y, zrange base (base + sz * zlen xs) y -> between i (i + sz * zlen xs) y) as Harr.
  { intros y Hy. apply Hins. exact Hy. }
  destruct (elems_claimed sz cost subs depth d ltac:(lia) Hcost Hsubs (rep R) rep
    ltac:(intros m' m'' q x Hr Hag; by eapply rep_frame) rep_frame read before elem rec ok base (zlen xs)
    (zrange p (p + sizeof_GgObject)) m1) with (xs := xs) (idx := 0) (n := n + c) (m := m1) (i := i + sz * zlen xs)
    as (e & n' & m2 & k & Hrun2 & Hk & Hch2 & Hres2).
  - intros m' ar Hag. eapply Hread; [|exact Href]. unfold read_obj in *. rewrite <- Ho1. by apply loadz_ext.
  - intros idx n' m' i' x. apply Hitem.
  - lia.
  - eapply changes_mapped; [exact Hch|done].
  - done.
  - lia.
  - rewrite Z.mul_0_r, Z.add_0_r. eapply each_moved; [lia| |exact Hsrc]. intros k x Hk Hle Hr.
    eapply rep_move; [exact Hr| |apply Hmoved; lia]. intros y Hy. apply Hch. intros [Hy'|Hy']; [exact (proj1 (Hp y Hy') Hy)|].
    apply (HR y Hy). unfold free_part, zrange in *. lia.
  - exact Hok.
  - rewrite Z.mul_0_r, Z.add_0_r. intros y Hy. specialize (Harr y Hy). unfold between, free_part, zrange in *. split_and!.
    + intros HRy. apply (HR y HRy). unfold zrange. lia.
    + lia.
    + intros HPy. destruct (Hp y HPy) as [_ Hf]. apply Hf. lia.
  - intros y Hy Hf. destruct (Hp y Hy) as [_ Hf']. apply Hf'. unfold free_part, zrange in *. lia.
  - lia.
  - rewrite Hrun2. rewrite Z.mul_0_r, Z.add_0_r in Hch2, Hres2. exists e, n', m2, k. split; [done|]. split; [lia|].
    assert (forall y, zrange base (base + sz * zlen xs) y \/ free_part (i + sz * zlen xs) y -> free_part i y) as Hfree.
    { intros y [Hy|Hy]; [specialize (Harr y Hy)|]; unfold between, free_part, zrange in *; lia. }
    split.
    { eapply changes_trans; [exact Hch|]. eapply changes_sub; [exact Hch2|]. intros y Hy. right. by apply Hfree. }
    replace (total cost xs <=? C - (i + sz * zlen xs)) with (sz * zlen xs + total cost xs <=? C - i) in Hres2
      by (destruct (sz * zlen xs + total cost xs <=? C - i) eqn:E2; zify_bool; symmetry; [apply Z.leb_le|apply Z.leb_gt]; lia).
    destruct (_ && (sz * zlen xs + total cost xs <=? C - i)); [|done]. destruct Hres2 as (-> & -> & -> & Hdst).
    split_and!; [done|lia|lia|]. exists base, o1. split.
    { unfold read_obj in *. rewrite <- Ho1. apply (changes_loadz _ _ _ _ _ Hch2). intros y Hy Hy'.
      destruct (Hp y Hy) as [_ Hf]. by apply Hf, Hfree. }
    split; [exact Href|]. split.
    + intros y Hy. specialize (Hins y Hy). unfold between, zrange in *. lia.
    + eapply each_at_impl; [lia| |exact Hdst]. intros q x _ _ Hr. eapply rep_frame; [exact Hr| |done].
      intros y Hy. split; [unfold between, zrange in *; lia|]. intros Hy'. specialize (Harr y Hy'). unfold between, zrange in *. lia.
Qed.
End container.

(** ** The whole visit *)

Lemma mk_obj t (b l : Z) : 0 <= b <= SIZE_MAX -> 0 <= l <= UINT16_MAX ->
  exists o, (src ← ptr_len b l; Some (tagged src t)) = Some o /\ zlen o = sizeof_GgObject.
Proof using Type. intros Hb Hl. rewrite ptr_len_eq by done. by eexists. Qed.

Lemma obj_rep_move m m' q q' v : obj_rep R m q v -> agrees R m m' ->
  loadz m' q' sizeof_GgObject = loadz m q sizeof_GgObject -> obj_rep R m' q' v.
Proof using Type.
  intros (o & Ho & Hr) Hag Hl. exists o. unfold read_obj in *. rewrite Hl. split; [done|]. by eapply represents_frame.
Qed.

Lemma pair_rep_move m m' q q' kv : pair_rep R m q kv -> agrees R m m' ->
  loadz m' q' sizeof_GgKV = loadz m q sizeof_GgKV -> pair_rep R m' q' kv.
Proof using Type.
  intros (pair & Ho & Hr) Hag Hl. exists pair. unfold read_kv in *. rewrite Hl. split; [done|]. by eapply pair_represents_frame.
Qed.

Lemma claim_list_array l obj st : claim_list l obj st = claim_array sizeof_GgObject (fun b n => gg_obj_list (mkList b n)) (items l) (list_len l) obj st.
Proof using Type. by destruct st. Qed.

Lemma claim_map_array l obj st : claim_map l obj st = claim_array sizeof_GgKV (fun b n => gg_obj_map (mkMap b n)) (pairs l) (map_len l) obj st.
Proof using Type. by destruct st. Qed.

Lemma max_elems {X} (f : X -> nat) x xs d : x ∈ xs -> (foldr (fun y acc => Nat.max (f y) acc) O xs <= d)%nat -> (f x <= d)%nat.
Proof using Type. induction 1; cbn [foldr]; lia. Qed.

Lemma unpack_scalar o v : unpack o = Some v ->
  match v with
  | VBool b => gg_obj_into_bool o = Some b
  | VI64 z => gg_obj_into_i64 o = Some z
  | VF64 f => gg_obj_into_f64 o = Some f
  | _ => True
  end.
Proof using Type.
  unfold unpack. destruct (gg_obj_type o) as [[]|]; cbn [mbind option_bind]; try done; intros H;
    first [by injection H as <-|by apply fmap_Some in H as (x & Hx & ->)].
Qed.

(** The limits on a container are those on its elements, once these are counted. *)
Lemma list_limits d n vs : value_limits (S d) n (JArr vs) = limits_of jsubs jdepth d (n + zlen vs) vs.
Proof using Type.
  unfold value_limits, item_limits, limits_of. rewrite jsubs_arr, Z.add_assoc. f_equal.
Qed.

Lemma map_limits d n kvs : value_limits (S d) n (JObj kvs) =
  limits_of (fun kv : bytes * jvalue => jsubs kv.2) (fun kv : bytes * jvalue => jdepth kv.2) d (n + 2 * zlen kvs) kvs.
Proof using Type.
  unfold value_limits, item_limits, limits_of. rewrite jsubs_obj, Z.add_assoc. f_equal.
Qed.

Lemma over_limits {X} (subs : X -> Z) depth d n xs : (forall x, 0 <= subs x) -> 255 < n -> limits_of subs depth d n xs = false.
Proof using Type.
  intros Hs Hn. unfold limits_of. pose proof (total_nonneg subs xs Hs). rewrite (proj2 (Z.leb_gt (n + _) 255)) by lia. apply andb_false_r.
Qed.

Lemma claim_list_value d vs : Forall (claimable d) vs -> claimable (S d) (JArr vs).
Proof using All.
  intros Hok n m p i o Hi Hm Ho Hr Hp Hn. cbn [visit_rec fst]. rewrite Ho. cbn [mbind option_bind].
  rewrite (represents_type _ _ _ _ Hr). cbn [jtype mbind option_bind].
  pose proof Hr as Hr0. rewrite represents_JArr in Hr0. destruct Hr0 as (a & Hu & Hin & He). pose proof (unpack_type _ _ Hu) as [_ Hl]. cbn in Hl. rewrite Hl.
  pose proof (zlen_nonneg vs). rewrite list_limits.
  cbn [mbind option_bind list_len]. rewrite (proj2 (Z.leb_le _ _)) by lia. cbn [gg_asserts mbind option_bind].
  unfold GG_MAX_OBJECT_SUBOBJECTS. destruct (255 <? n + zlen vs) eqn:Hfull; zify_bool.
  { pose proof (over_limits jsubs jdepth d (n + zlen vs) vs jsubs_nonneg Hfull) as Hl'.
    apply copied_refused; [lia|done|by right]. }
  cbn [TRY_HANDLER claim_handlers on_list].
  rewrite claim_list_array. cbn [items list_len]. rewrite jclaim_arr, jsubs_arr, to_nat_zlen.
  assert (forall base, 0 <= base <= SIZE_MAX -> objval_ok (VList (mkList base (zlen vs)))) as Hfits.
  { intros base Hb. cbn [objval_ok items list_len]. unfold UINT16_MAX. lia. }
  edestruct (container_claimed sizeof_GgObject jclaim jsubs jdepth d) with (rep := obj_rep) (ok := (claimable d)) (xs := vs) (n := n)
    (mk := fun b n => gg_obj_list (mkList b n)) (a := a) (p := p) (o := o) (m := m) (i := i)
    (read := read_list (C := option GgArena) p) (before := list_before claim_handlers) (elem := list_elem) (rec := visit_rec claim_handlers d) (c := (zlen vs))
    as (e & n' & m' & j & Hrun & Hj & Hch & Hres);
    [done|apply jclaim_nonneg|apply jsubs_nonneg|intros; by eapply obj_rep_frame|intros; by eapply obj_rep_move|..|exact Hi|exact Hm|exact Hin|apply elems_each; eapply elems_at_sub; [apply apart_in|exact He]
    |exact Hok|exact Ho|exact Hp|exact (proj1 Hn)|lia|lia|lia|].
  - intros m' q x (o' & Ho' & _). by eapply loadz_is_mapped.
  - apply mk_obj.
  - intros base idx n' m' i' x Hi' Hm' (o' & Ho' & Hr') Hx Hap Hn'. unfold item_run.
    assert (list_before claim_handlers base idx (m', Some (arena i')) = Some (GG_ERR_OK, (m', Some (arena i')))) as ->
      by (unfold list_before; by destruct (idx =? 0)).
    cbn [mbind option_bind]. rewrite bool_decide_true by done. cbn [negb]. by eapply Hx.
  - intros m' ar base o1 Ho1 Href. unfold read_list. cbn [fst]. rewrite Ho1. cbn [mbind option_bind].
    destruct Href as [[-> ->]|[Hmk Hb]]; [by rewrite Hl|].
    pose proof (unpack_pack _ _ (Hfits base Hb) Hmk) as [_ Hu1]%unpack_type. cbn in Hu1. by rewrite Hu1.
  - exists e, n', m', j. split; [exact Hrun|]. split; [done|]. split; [done|].
    destruct (_ && (_ <=? _)); [|done]. destruct Hres as (-> & -> & -> & base & o1 & Ho1 & Href & Hins & Heach).
    split_and!; [done..|]. exists o1. split; [done|]. rewrite represents_JArr. exists base. split; [|split; [done|by apply elems_each]].
    destruct Href as [[-> ->]|[Hmk Hb]]; [done|]. exact (unpack_pack _ _ (Hfits base Hb) Hmk).
Qed.

Lemma claim_map_value d kvs : Forall (fun kv : bytes * jvalue => zlen kv.1 <=? UINT16_MAX = true /\ claimable d kv.2) kvs -> claimable (S d) (JObj kvs).
Proof using All.
  intros Hok n m p i o Hi Hm Ho Hr Hp Hn. cbn [visit_rec fst]. rewrite Ho. cbn [mbind option_bind].
  rewrite (represents_type _ _ _ _ Hr). cbn [jtype mbind option_bind].
  pose proof Hr as Hr0. rewrite represents_JObj in Hr0. destruct Hr0 as (a & Hu & Hin & He). pose proof (unpack_type _ _ Hu) as [_ Hl]. cbn in Hl. rewrite Hl.
  pose proof (zlen_nonneg kvs). rewrite map_limits.
  cbn [mbind option_bind map_len]. rewrite (proj2 (Z.leb_le _ _)) by lia. cbn [gg_asserts mbind option_bind].
  unfold GG_MAX_OBJECT_SUBOBJECTS. destruct (255 <? n + 2 * zlen kvs) eqn:Hfull; zify_bool.
  { pose proof (over_limits (fun kv : bytes * jvalue => jsubs kv.2) (fun kv : bytes * jvalue => jdepth kv.2) d (n + 2 * zlen kvs) kvs
      ltac:(intros; apply jsubs_nonneg) Hfull) as Hl'.
    apply copied_refused; [lia|done|by right]. }
  cbn [TRY_HANDLER claim_handlers on_map].
  rewrite claim_map_array. cbn [pairs map_len]. rewrite jclaim_obj, jsubs_obj, to_nat_zlen.
  assert (forall base, 0 <= base <= SIZE_MAX -> objval_ok (VMap (mkMap base (zlen kvs)))) as Hfits.
  { intros base Hb. cbn [objval_ok pairs map_len]. unfold UINT16_MAX. lia. }
  edestruct (container_claimed sizeof_GgKV (fun kv : bytes * jvalue => zlen kv.1 + jclaim kv.2) (fun kv : bytes * jvalue => jsubs kv.2) (fun kv : bytes * jvalue => jdepth kv.2) d) with (rep := pair_rep) (ok := (fun kv : bytes * jvalue => zlen kv.1 <=? UINT16_MAX = true /\ claimable d kv.2)) (xs := kvs) (n := n)
    (mk := fun b n => gg_obj_map (mkMap b n)) (a := a) (p := p) (o := o) (m := m) (i := i)
    (read := read_map (C := option GgArena) p) (before := map_before claim_handlers) (elem := map_elem) (rec := visit_rec claim_handlers d) (c := (2 * zlen kvs))
    as (e & n' & m' & j & Hrun & Hj & Hch & Hres);
    [done|intros kv; pose proof (zlen_nonneg kv.1); pose proof (jclaim_nonneg kv.2); lia|intros; apply jsubs_nonneg|intros; by eapply pair_rep_frame|intros; by eapply pair_rep_move|..|exact Hi|exact Hm|exact Hin|apply members_each; eapply members_at_sub; [apply apart_in|exact He]
    |exact Hok|exact Ho|exact Hp|exact (proj1 Hn)|lia|lia|lia|].
  - intros m' q x (o' & Ho' & _). by eapply loadz_is_mapped.
  - apply mk_obj.
  - intros base idx n' m' i' kv Hi' Hm' Hkv [Hfit Hx] Hap Hn'. apply claim_pair; try done. by apply Z.leb_le.
  - intros m' ar base o1 Ho1 Href. unfold read_map. cbn [fst]. rewrite Ho1. cbn [mbind option_bind].
    destruct Href as [[-> ->]|[Hmk Hb]]; [by rewrite Hl|].
    pose proof (unpack_pack _ _ (Hfits base Hb) Hmk) as [_ Hu1]%unpack_type. cbn in Hu1. by rewrite Hu1.
  - exists e, n', m', j. split; [exact Hrun|]. split; [done|]. split; [done|].
    destruct (_ && (_ <=? _)); [|done]. destruct Hres as (-> & -> & -> & base & o1 & Ho1 & Href & Hins & Heach).
    split_and!; [done..|]. exists o1. split; [done|]. rewrite represents_JObj. exists base. split; [|split; [done|by apply members_each]].
    destruct Href as [[-> ->]|[Hmk Hb]]; [done|]. exact (unpack_pack _ _ (Hfits base Hb) Hmk).
Qed.

Lemma jdepth_pos v : (1 <= jdepth v)%nat.
Proof using Type. destruct v; cbn; lia. Qed.

Lemma claim_all v d : jfits v = true -> claimable d v.
Proof using All.
  revert d. induction v as [|b|z|z|bs|vs IH|kvs IH] using jvalue_ind'; intros [|d] Hfit;
    try (intros n m p i o Hi Hm Ho Hr Hp Hn; cbn [visit_rec]; apply copied_refused; [lia|done|by right]).
  6: { apply claim_list_value. cbn [jfits] in Hfit. rewrite forallb_forall in Hfit. rewrite Forall_forall in IH |- *. intros x Hx.
    apply (IH x Hx), Hfit, list_elem_of_In, Hx. }
  6: { apply claim_map_value. cbn [jfits] in Hfit. rewrite forallb_forall in Hfit. rewrite Forall_forall in IH |- *. intros kv Hx.
    pose proof (Hfit kv ltac:(by apply list_elem_of_In)) as [Hk Hv]%andb_true_iff. split; [done|]. by apply (IH kv Hx). }
  all: intros n m p i o Hi Hm Ho Hr Hp Hn; cbn [visit_rec fst]; rewrite Ho;
    cbn [mbind option_bind]; rewrite (represents_type _ _ _ _ Hr); cbn [jtype mbind option_bind].
  1: apply (claim_leaf d i n m p o); [done|lia|done..].
  1-3: (pose proof (unpack_scalar _ _ Hr) as Hs; cbn in Hs; rewrite Hs; apply (claim_leaf d i n m p o); [done|lia|done..]).
  destruct (represents_str _ _ _ _ Hr) as (b & Hb & Hs). rewrite Hb. cbn [jfits] in Hfit. zify_bool.
  rewrite leaf_limits by (done || lia). by apply (claim_string i n m p o).
Qed.
End claim.

(** The claim of an object, for any value that it denotes. *)
Lemma arena_claim_run (m : mem) (obj : Z) (a : GgArena) (R : Z -> Prop) (v : jvalue) (o : GgObject) :
  arena_ok a -> mapped m (arena_mem a) (capacity a) ->
  (forall x, R x -> ~ zrange (arena_mem a) (arena_mem a + capacity a) x) ->
  read_obj m obj = Some o -> represents R m v o ->
  (forall x, zrange obj (obj + sizeof_GgObject) x -> ~ R x /\ ~ zrange (arena_mem a + index a) (arena_mem a + capacity a) x) ->
  jfits v = true ->
  exists e m' a', gg_arena_claim_obj m obj (Some a) = Some (e, (m', Some a')) /\
    arena_ok a' /\ arena_mem a' = arena_mem a /\ capacity a' = capacity a /\ index a <= index a' /\
    changes (fun x => zrange obj (obj + sizeof_GgObject) x \/ zrange (arena_mem a + index a) (arena_mem a + capacity a) x) m m' /\
    let limits := value_limits (Z.to_nat GG_MAX_OBJECT_DEPTH) 0 v in
    if limits && (jclaim v <=? capacity a - index a) then
      e = GG_ERR_OK /\ index a' = index a + jclaim v /\
      exists o', read_obj m' obj = Some o' /\ represents (zrange (arena_mem a + index a) (arena_mem a + index a')) m' v o'
    else refusal limits (jclaim v <=? capacity a - index a) e.
Proof.
  destruct a as [A C i]. cbn [arena_mem capacity index]. intros (HA & Hi & HC & HAC) Hm HR Ho Hr Hp Hf.
  cbn [arena_mem capacity index] in *.
  destruct (claim_all A C HA (conj (Z.le_trans _ _ _ (proj1 Hi) (proj2 Hi)) HC) HAC R HR v (Z.to_nat GG_MAX_OBJECT_DEPTH) Hf 0 m obj i o Hi Hm Ho Hr Hp ltac:(done))
    as (e & n & m' & j & Hrun & Hj & Hch & Hres).
  exists e, m', (mkArena A C j). split; [by apply gg_obj_visit_rec in Hrun|]. split; [unfold arena_ok; cbn; lia|].
  cbn [arena_mem capacity index]. split_and!; [done|done|lia|done|]. cbv zeta.
  destruct (_ && (jclaim v <=? C - i)); [|done]. destruct Hres as (-> & _ & -> & Hrep). done.
Qed.

(** C34: Claiming an object none of whose parts lies in the arena makes a deep
    copy of it there: when the object has at most 255 subobjects and 15 levels
    and its parts fit, every string, key and array that it consists of, and
    nothing else, is copied to the unused part of the arena, which shrinks by
    exactly their sizes, and the object then denotes the same value with all of
    its parts in the arena. An object within the limits that does not fit is
    [GG_ERR_NOMEM]; one beyond the limits that would fit is [GG_ERR_RANGE]; one
    that is beyond the limits and does not fit is one of the two. Only the object
    itself and the unused part of the arena are written. *)
Theorem arena_claim_obj_exact (m : mem) (obj : Z) (a : GgArena) (R : Z -> Prop) (v : jvalue) (o : GgObject) :
  arena_ok a -> mapped m (arena_mem a) (capacity a) ->
  (forall x, R x -> ~ zrange (arena_mem a) (arena_mem a + capacity a) x) ->
  read_obj m obj = Some o -> represents R m v o ->
  (forall x, zrange obj (obj + sizeof_GgObject) x -> ~ R x /\ ~ zrange (arena_mem a + index a) (arena_mem a + capacity a) x) ->
  jfits v = true ->
  exists e m' a', gg_arena_claim_obj m obj (Some a) = Some (e, (m', Some a')) /\ arena_ok a' /\
    changes (fun x => zrange obj (obj + sizeof_GgObject) x \/ zrange (arena_mem a + index a) (arena_mem a + capacity a) x) m m' /\
    let limits := (jdepth v <=? Z.to_nat GG_MAX_OBJECT_DEPTH)%nat && (jsubs v <=? GG_MAX_OBJECT_SUBOBJECTS) in
    if limits && (jclaim v <=? capacity a - index a) then
      e = GG_ERR_OK /\ a' = mkArena (arena_mem a) (capacity a) (index a + jclaim v) /\
      exists o', read_obj m' obj = Some o' /\ represents (zrange (arena_mem a + index a) (arena_mem a + index a')) m' v o'
    else if limits then e = GG_ERR_NOMEM
    else if jclaim v <=? capacity a - index a then e = GG_ERR_RANGE
    else e = GG_ERR_NOMEM \/ e = GG_ERR_RANGE.
Proof.
  intros Ha Hm HR Ho Hr Hp Hf.
  destruct (arena_claim_run m obj a R v o Ha Hm HR Ho Hr Hp Hf) as (e & m' & a' & Hrun & Ha' & H1 & H2 & H3 & Hch & Hres).
  exists e, m', a'. split_and!; [done..|]. cbv zeta in *. unfold value_limits, item_limits in Hres. rewrite Z.add_0_l in Hres.
  unfold GG_MAX_OBJECT_SUBOBJECTS. destruct (_ && (jsubs v <=? 255)); destruct (jclaim v <=? _); cbn [andb] in Hres |- *.
  2: { by destruct Hres as [[_ ?]|[? _]]. }
  2: { by destruct Hres as [[? _]|[_ ?]]. }
  2: { destruct Hres as [[_ ?]|[_ ?]]; [by left|by right]. }
  destruct Hres as (-> & H4 & Hrep).
  destruct a' as [A' C' i']. cbn [arena_mem capacity index] in *. by subst.
Qed.

(** The object [{"k":"hi"}], whose parts lie below 400. *)
Definition claimed_value : jvalue := JObj [(GG_STR "k", JStr (GG_STR "hi"))].
Definition claim_mem : mem :=
  put (put (put (zeroed 4096 64) 10 (GG_STR "khi"))
    100 (default [] (o ← gg_obj_buf (mkBuf 11 2); gg_kv (mkBuf 10 1) o)))
    500 (default [] (gg_obj_map (mkMap 100 1))).

Lemma arena_claim_obj_exact_witness :
  exists e m' a', gg_arena_claim_obj claim_mem 500 (Some (mkArena 4096 64 3)) = Some (e, (m', Some a')) /\ arena_ok a' /\
    changes (fun x => zrange 500 (500 + sizeof_GgObject) x \/ zrange (4096 + 3) (4096 + 64) x) claim_mem m' /\
    let limits := (jdepth claimed_value <=? Z.to_nat GG_MAX_OBJECT_DEPTH)%nat && (jsubs claimed_value <=? GG_MAX_OBJECT_SUBOBJECTS) in
    if limits && (jclaim claimed_value <=? 64 - 3) then
      e = GG_ERR_OK /\ a' = mkArena 4096 64 (3 + jclaim claimed_value) /\
      exists o', read_obj m' 500 = Some o' /\ represents (zrange (4096 + 3) (4096 + index a')) m' claimed_value o'
    else if limits then e = GG_ERR_NOMEM
    else if jclaim claimed_value <=? 64 - 3 then e = GG_ERR_RANGE
    else e = GG_ERR_NOMEM \/ e = GG_ERR_RANGE.
Proof.
  refine (arena_claim_obj_exact claim_mem 500 (mkArena 4096 64 3) (zrange 1 400) claimed_value
    (default [] (gg_obj_map (mkMap 100 1))) _ _ _ _ _ _ _).
  - by vm_compute.
  - intros x Hx. cbn [arena_mem capacity] in Hx.
    assert (bool_decide (Forall (fun y => is_Some (claim_mem !! y)) (seqZ 4096 64)) = true) as Hall by by vm_compute.
    apply bool_decide_eq_true in Hall. rewrite Forall_forall in Hall. apply Hall, elem_of_seqZ. lia.
  - cbn [arena_mem capacity]. unfold zrange. lia.
  - by vm_compute.
  - unfold claimed_value. rewrite represents_JObj. exists 100. split; [by vm_compute|].
    assert (forall a n, 1 <= a -> a + n <= 400 -> inside (zrange 1 400) a n) as Hin by (intros a n H1 H2 x Hx; unfold zrange; lia).
    split; [by apply Hin|]. assert (forall a n, 1 <= a -> a + n <= 100 -> inside (apart (zrange 1 400) 100 (sizeof_GgKV * zlen [(GG_STR "k", JStr (GG_STR "hi"))])) a n)
      as Hin2 by (intros a n H1 H2 x Hx; unfold apart, zrange; lia).
    cbn [members_at]. split; [|done]. eexists. split; [by vm_compute|]. split.
    + split_and!; [by vm_compute|by vm_compute|by apply Hin2; vm_compute].
    + cbn [snd represents]. eexists. split; [by vm_compute|]. split_and!; [by vm_compute|by vm_compute|by apply Hin2; vm_compute].
  - cbn [arena_mem capacity index]. unfold zrange, sizeof_GgObject. lia.
  - done.
Defined.
