(* ===== verification/ObjectCompare.v ===== *)
(** Comparing objects ([unity/gg_test/object_compare.c]), as the tests and the
    mock server do: an iteration over two objects at once, with an explicit
    stack, which reports where they differ. The decision and the report of
    where the objects differ, which ends the function, are kept apart: the
    decision is shown to be always reached. *)

From Stdlib Require Import SpecFloat.
From S2P Require Import Prelude Memory Double Buffer Io EsRpc Object Map Visit JsonValue JsonStored JsonContainers JsonMaps Claim.

(** ** Doubles *)

Definition DBL_EPSILON : spec_float := S754_finite false (2 ^ 52) (-104).
Definition fmin (x y : spec_float) : spec_float :=
  if isnan x then y else if isnan y then x else if SFltb x y then x else y.

(** ** Operations *)

Definition bool_eq (lhs rhs : bool) : bool := Bool.eqb lhs rhs.
Definition int_eq (lhs rhs : Z) : bool := lhs =? rhs.

Definition float_eq (lhs_bits rhs_bits : Z) : bool :=
  let lhs := double_of lhs_bits in
  let rhs := double_of rhs_bits in
  if negb (Bool.eqb (isnan lhs) (isnan rhs)) then false else
  let error := SFabs (fsub lhs rhs) in
  if SFleb error DBL_EPSILON then true else
  SFleb error (fmul DBL_EPSILON (fmin (SFabs lhs) (SFabs rhs))).

Definition buf_eq (m : mem) (lhs rhs : BufPtr) : option bool :=
  a ← buf_bytes m lhs; b ← buf_bytes m rhs; Some (gg_buffer_eq a b).

(** One level of [lhs_state] and of [rhs_objs]; the levels are a list, the
    current one first. *)
Record eq_level := mkEqLevel { lhs_obj : Z; rhs_obj : Z; eq_state : IterLevelState; eq_index : Z }.

(** The answer, with the levels on which [print_state] is called before it is
    returned, if it is. *)
Definition eq_answer : Type := bool * option (list eq_level).

Section compare.
(** The arguments, as local variables, lie at [lhs] and [rhs]. *)
Context (m : mem) (lhs rhs : Z).

(** The loop of [print_state] over the levels below the current one. Each map is
    the one at [obj[0]], since its index is [i - i]. *)
Fixpoint print_levels (below : list eq_level) : option unit :=
  match below with
  | [] => Some tt
  | lv :: below =>
      match eq_state lv with
      | LEVEL_LIST => print_levels below
      | LEVEL_MAP =>
          obj ← read_obj m lhs;
          map ← gg_obj_into_map obj;
          _ ← read_kv m (pairs map + sizeof_GgKV * eq_index lv);
          print_levels below
      | LEVEL_DEFAULT => Some tt
      end
  end.

Definition print_state (below : list eq_level) : option unit := print_levels below.

(** [print_state(&lhs_state); return false;] *)
Definition differ (below : list eq_level) : option eq_answer := Some (false, Some below).

(** The loop of [gg_obj_eq], one iteration per unit of fuel. *)
Fixpoint eq_loop (fuel : nat) (levels : list eq_level) (subobjects : Z) : option eq_answer :=
  match fuel, levels with
  | O, _ | _, [] => None
  | S fuel, mkEqLevel l r cur_state lhs_index :: below =>
      let leave := match below with [] => Some (true, None) | _ => eq_loop fuel below subobjects end in
      let enter l' r' :=
        if GG_MAX_OBJECT_DEPTH - 1 <=? zlen below then differ below
        else eq_loop fuel (mkEqLevel l' r' LEVEL_DEFAULT 0 ::
                           mkEqLevel l r cur_state (uwrap 8 (lhs_index + 1)) :: below) subobjects in
      l_obj ← read_obj m l;
      r_obj ← read_obj m r;
      match cur_state with
      | LEVEL_DEFAULT =>
          lty ← gg_obj_type l_obj;
          rty ← gg_obj_type r_obj;
          if negb (bool_decide (lty = rty)) then differ below else
          match lty with
          | GG_TYPE_NULL => leave
          | GG_TYPE_BOOLEAN =>
              a ← gg_obj_into_bool l_obj; b ← gg_obj_into_bool r_obj;
              if negb (bool_eq a b) then differ below else leave
          | GG_TYPE_I64 =>
              a ← gg_obj_into_i64 l_obj; b ← gg_obj_into_i64 r_obj;
              if negb (int_eq a b) then differ below else leave
          | GG_TYPE_F64 =>
              a ← gg_obj_into_f64 l_obj; b ← gg_obj_into_f64 r_obj;
              if negb (float_eq a b) then Some (false, None) else leave
          | GG_TYPE_BUF =>
              a ← gg_obj_into_buf l_obj; b ← gg_obj_into_buf r_obj;
              eq ← buf_eq m a b;
              if negb eq then differ below else leave
          | GG_TYPE_LIST =>
              lhs_list ← gg_obj_into_list l_obj;
              if GG_MAX_OBJECT_SUBOBJECTS - subobjects <? list_len lhs_list then differ below else
              let subobjects := uwrap 8 (subobjects + uwrap 8 (list_len lhs_list)) in
              rhs_list ← gg_obj_into_list r_obj;
              if negb (list_len lhs_list =? list_len rhs_list) then differ below else
              eq_loop fuel (mkEqLevel l r LEVEL_LIST lhs_index :: below) subobjects
          | GG_TYPE_MAP =>
              lhs_map ← gg_obj_into_map l_obj;
              if (GG_MAX_OBJECT_SUBOBJECTS - subobjects) / 2 <? map_len lhs_map then differ below else
              let subobjects := uwrap 8 (subobjects + uwrap 8 (map_len lhs_map * 2)) in
              rhs_map ← gg_obj_into_map r_obj;
              if negb (map_len lhs_map =? map_len rhs_map) then differ below else
              eq_loop fuel (mkEqLevel l r LEVEL_MAP lhs_index :: below) subobjects
          end
      | LEVEL_LIST =>
          lhs_list ← gg_obj_into_list l_obj;
          if lhs_index =? list_len lhs_list then leave else
          rhs_list ← gg_obj_into_list r_obj;
          enter (items lhs_list + sizeof_GgObject * lhs_index) (items rhs_list + sizeof_GgObject * lhs_index)
      | LEVEL_MAP =>
          lhs_map ← gg_obj_into_map l_obj;
          if lhs_index =? map_len lhs_map then leave else
          rhs_map ← gg_obj_into_map r_obj;
          let kv := pairs lhs_map + sizeof_GgKV * lhs_index in
          let rhs_kv := pairs rhs_map + sizeof_GgKV * lhs_index in
          lhs_pair ← read_kv m kv;
          rhs_pair ← read_kv m rhs_kv;
          eq ← buf_eq m (gg_kv_key lhs_pair) (gg_kv_key rhs_pair);
          if negb eq then differ below else
          enter (gg_kv_val kv) (gg_kv_val rhs_kv)
      end
  end.

Definition decide_eq : option eq_answer := eq_loop VISIT_FUEL [mkEqLevel lhs rhs LEVEL_DEFAULT 0] 0.

(** What is returned, after the report. *)
Definition returned_eq (answer : eq_answer) : option bool :=
  _ ← match answer.2 with Some below => print_state below | None => Some tt end;
  Some answer.1.

Definition gg_obj_eq : option bool := answer ← decide_eq; returned_eq answer.
End compare.

(** ** Equality of values *)

Fixpoint all2 {X Y} (f : X -> Y -> bool) (xs : list X) (ys : list Y) : bool :=
  match xs, ys with
  | [], [] => true
  | x :: xs, y :: ys => f x y && all2 f xs ys
  | _, _ => false
  end.

(** The members of objects are compared in order. *)
Fixpoint jeq (v w : jvalue) : bool :=
  match v, w with
  | JNull, JNull => true
  | JBool a, JBool b => bool_eq a b
  | JI64 a, JI64 b => int_eq a b
  | JF64 a, JF64 b => float_eq a b
  | JStr a, JStr b => bool_decide (a = b)
  | JArr vs, JArr ws => all2 jeq vs ws
  | JObj kvs, JObj lws => all2 (fun kv lw => bool_decide (kv.1 = lw.1) && jeq kv.2 lw.2) kvs lws
  | _, _ => false
  end.

(** A value with a map in it. *)
Fixpoint jmaps (v : jvalue) : bool :=
  match v with
  | JArr vs => existsb jmaps vs
  | JObj _ => true
  | _ => false
  end.

Lemma all2_length {X Y} (f : X -> Y -> bool) xs ys : all2 f xs ys = true -> length xs = length ys.
Proof. revert ys. induction xs as [|x xs IH]; intros [|y ys]; [done..|]. cbn [all2]. intros [_ H]%andb_true_iff. cbn. by rewrite (IH ys). Qed.

Section proof.
Context (m : mem).

Definition anywhere (x : Z) : Prop := True.

Definition is_map_level (lv : eq_level) : bool := match eq_state lv with LEVEL_MAP => true | _ => false end.

(** Refusing: the answer is that the objects differ, and the report has a level
    of a map only if a map is involved. *)
Definition refused (maps : bool) (res : option eq_answer) : Prop :=
  exists report, res = Some (false, report) /\
    forall below, report = Some below -> existsb is_map_level below = true -> maps = true.

Lemma differ_refused below (maps : bool) : (existsb is_map_level below = true -> maps = true) -> refused maps (differ below).
Proof using Type. intros Hmaps. exists (Some below). split; [done|]. by intros ? [= <-]. Qed.

(** What follows when an object is done. *)
Definition resume_eq (fuel : nat) (below : list eq_level) (sub : Z) : option eq_answer :=
  match below with [] => Some (true, None) | _ => eq_loop m fuel below sub end.

(** [compares] in at most [bound] iterations: equal, with the new count of
    subobjects, or refused. *)
Definition compares (levels below : list eq_level) (sub : Z) (equal maps : bool) (cost bound subs : Z) : Prop :=
  if equal then exists k, Z.of_nat k <= cost /\ forall fuel, eq_loop m (k + fuel) levels sub = resume_eq fuel below (sub + subs)
  else exists k res, Z.of_nat k <= bound /\ refused maps res /\ forall fuel, eq_loop m (k + fuel) levels sub = res.

(** An object, from its first iteration. *)
Definition fits_eq (v : jvalue) (below : list eq_level) (sub : Z) : bool :=
  (sub + jsubs v <=? GG_MAX_OBJECT_SUBOBJECTS) && (Z.of_nat (jdepth v) <=? GG_MAX_OBJECT_DEPTH - zlen below).

Definition comparable (v : jvalue) : Prop := forall w l r lo ro below sub,
  read_obj m l = Some lo -> read_obj m r = Some ro -> represents anywhere m v lo -> represents anywhere m w ro ->
  0 <= sub <= 255 -> zlen below <= 14 ->
  compares (mkEqLevel l r LEVEL_DEFAULT 0 :: below) below sub (jeq v w && fits_eq v below sub)
    (existsb is_map_level below || jmaps v) (2 + 3 * jsubs v) (2 + 3 * (255 - sub)) (jsubs v).

(** One iteration that is followed by another configuration, or ends. *)
Lemma compares_step levels1 levels2 below sub sub2 equal maps cost bound subs subs2 :
  (forall fuel, eq_loop m (S fuel) levels1 sub = eq_loop m fuel levels2 sub2) -> sub2 + subs2 = sub + subs ->
  compares levels2 below sub2 equal maps (cost - 1) (bound - 1) subs2 -> compares levels1 below sub equal maps cost bound subs.
Proof using Type.
  intros Hstep Hsub H. unfold compares in *. destruct equal.
  - destruct H as (k & Hk & Hrun). exists (S k). split; [lia|]. intros fuel. cbn [Nat.add]. by rewrite Hstep, Hrun, Hsub.
  - destruct H as (k & res & Hk & Hr & Hrun). exists (S k), res. split; [lia|]. split; [done|]. intros fuel. cbn [Nat.add].
    by rewrite Hstep, Hrun.
Qed.

Lemma compares_refused levels below sub (maps : bool) cost bound subs res : 1 <= bound ->
  (forall fuel, eq_loop m (S fuel) levels sub = res) -> refused maps res -> compares levels below sub false maps cost bound subs.
Proof using Type. intros Hb Hrun Hr. exists 1%nat, res. split; [lia|]. split; [done|]. exact Hrun. Qed.

Lemma compares_done levels below sub maps cost bound : 1 <= cost ->
  (forall fuel, eq_loop m (S fuel) levels sub = resume_eq fuel below sub) -> compares levels below sub true maps cost bound 0.
Proof using Type. intros Hc Hrun. exists 1%nat. split; [lia|]. intros fuel. rewrite Z.add_0_r. apply Hrun. Qed.

Lemma compares_fails levels below below2 sub (maps maps2 : bool) cost cost2 bound bound2 subs subs2 :
  bound <= bound2 -> (maps = true -> maps2 = true) ->
  compares levels below sub false maps cost bound subs -> compares levels below2 sub false maps2 cost2 bound2 subs2.
Proof using Type.
  intros Hb Hmaps (k & res & Hk & (report & Hr & Hm) & Hrun). exists k, res. split; [lia|]. split; [|done].
  exists report. split; [done|]. intros ? Hrep Ht. by eapply Hmaps, Hm.
Qed.

(** An object of a container that is equal, and the rest of the container. *)
Lemma compares_then levels lv below sub equal maps maps2 cost cost2 bound bound2 subs subs2 :
  compares levels (lv :: below) sub true maps cost bound subs ->
  compares (lv :: below) below (sub + subs) equal maps2 cost2 bound2 subs2 ->
  compares levels below sub equal maps2 (cost + cost2) (cost + bound2) (subs + subs2).
Proof using Type.
  intros (k & Hk & Hrun) H2. unfold compares in *. destruct equal.
  - destruct H2 as (k2 & Hk2 & Hrun2). exists (k + k2)%nat. split; [lia|]. intros fuel.
    rewrite <- Nat.add_assoc, Hrun. cbn [resume_eq]. by rewrite Hrun2, Z.add_assoc.
  - destruct H2 as (k2 & res & Hk2 & Hr & Hrun2). exists (k + k2)%nat, res. split; [lia|]. split; [done|]. intros fuel.
    rewrite <- Nat.add_assoc, Hrun. cbn [resume_eq]. by rewrite Hrun2.
Qed.

Lemma compares_weaken levels below sub equal (maps maps2 : bool) cost cost2 bound bound2 subs :
  cost <= cost2 -> bound <= bound2 -> (maps = true -> maps2 = true) ->
  compares levels below sub equal maps cost bound subs -> compares levels below sub equal maps2 cost2 bound2 subs.
Proof using Type.
  intros Hc Hb Hmaps H. destruct equal; [|by eapply compares_fails].
  destruct H as (k & Hk & Hrun). exists k. split; [lia|done].
Qed.

(** ** The elements of containers *)

Section elems.
Context {X : Type} (sz : Z) (s : IterLevelState) (addr : Z -> Z -> Z) (val : X -> jvalue) (key_eq : X -> X -> bool) (rep : Z -> X -> Prop).
Context (Hmap : s = LEVEL_MAP \/ s = LEVEL_LIST).
Context (l r bl br N : Z) (HN : 0 <= N <= 255).
(** An iteration on the container. *)
Context (Hend : forall fuel idx below sub, idx = N ->
  eq_loop m (S fuel) (mkEqLevel l r s idx :: below) sub = resume_eq fuel below sub).
Context (Hnext : forall fuel idx below sub x y, idx <> N -> rep (bl + sz * idx) x -> rep (br + sz * idx) y ->
  eq_loop m (S fuel) (mkEqLevel l r s idx :: below) sub =
    if negb (key_eq x y) then differ below else
    if GG_MAX_OBJECT_DEPTH - 1 <=? zlen below then differ below
    else eq_loop m fuel (mkEqLevel (addr bl idx) (addr br idx) LEVEL_DEFAULT 0 :: mkEqLevel l r s (uwrap 8 (idx + 1)) :: below) sub).
Context (Hval : forall b idx x, rep (b + sz * idx) x -> exists o, read_obj m (addr b idx) = Some o /\ represents anywhere m (val x) o).

Definition deepest (xs : list X) : nat := foldr (fun x acc => Nat.max (jdepth (val x)) acc) O xs.

Lemma elems_compared (xs ys : list X) idx below sub (maps : bool) :
  Forall (fun x => comparable (val x)) xs -> each_at sz rep (bl + sz * idx) xs -> each_at sz rep (br + sz * idx) ys ->
  length xs = length ys -> 0 <= idx -> idx + zlen xs = N -> 0 <= sub <= 255 -> zlen below <= 14 ->
  (s = LEVEL_MAP \/ existsb is_map_level below = true \/ existsb (fun x => jmaps (val x)) xs = true -> maps = true) ->
  compares (mkEqLevel l r s idx :: below) below sub
    (all2 (fun x y => key_eq x y && jeq (val x) (val y)) xs ys &&
     ((sub + total (fun x => jsubs (val x)) xs <=? 255) && (Z.of_nat (deepest xs) <=? 14 - zlen below)))
    maps (1 + 3 * zlen xs + 3 * total (fun x => jsubs (val x)) xs) (1 + 3 * zlen xs + 3 * (255 - sub))
    (total (fun x => jsubs (val x)) xs).
Proof using All.
  intros Hok. revert ys idx sub. induction Hok as [|x xs Hx Hok IH]; intros [|y ys] idx sub Hxs Hys Hlen Hidx HidxN Hsub Hbelow Hmaps;
    try done.
  - cbn [all2 total deepest foldr andb]. rewrite zlen_nil in HidxN. change (zlen (@nil X)) with 0. pose proof (zlen_nonneg below).
    rewrite (proj2 (Z.leb_le (sub + 0) 255)) by lia. rewrite (proj2 (Z.leb_le (Z.of_nat 0) (14 - zlen below))) by (cbn; lia). cbn [andb].
    apply compares_done; [lia|]. intros fuel. apply Hend. lia.
  - cbn [each_at] in Hxs, Hys. destruct Hxs as [Hx1 Hxs]. destruct Hys as [Hy1 Hys]. rewrite zlen_cons in *. injection Hlen as Hlen.
    pose proof (zlen_nonneg xs). pose proof (zlen_nonneg below). cbn [all2 total deepest foldr existsb] in *. fold (deepest xs).
    fold (total (fun x => jsubs (val x)) xs) in *. pose proof (total_nonneg (fun x => jsubs (val x)) xs ltac:(intros; apply jsubs_nonneg)).
    pose proof (jsubs_nonneg (val x)). pose proof (jdepth_pos (val x)).
    assert (forall fuel, eq_loop m (S fuel) (mkEqLevel l r s idx :: below) sub = _) as Hstep
      by (intros fuel; apply (Hnext fuel idx below sub x y); [lia|done..]).
    assert (refused maps (differ below)) as Hdiffer.
    { apply differ_refused. intros Hb. apply Hmaps. by right; left. }
    destruct (key_eq x y) eqn:Hkey; cbn [negb andb] in *; [|eapply compares_refused; [lia|exact Hstep|done]].
    destruct (GG_MAX_OBJECT_DEPTH - 1 <=? zlen below) eqn:Hdeep; unfold GG_MAX_OBJECT_DEPTH in Hdeep; zify_bool.
    { match goal with |- compares _ _ _ ?b _ _ _ _ => assert (b = false) as -> end.
      { rewrite (proj2 (Z.leb_gt _ (14 - zlen below))) by lia. by rewrite !andb_false_r. }
      eapply compares_refused; [lia|exact Hstep|done]. }
    rewrite (uwrap_small 8 (idx + 1)) in Hstep by lia.
    destruct (Hval bl idx x Hx1) as (lo & Hlo & Hrl). destruct (Hval br idx y Hy1) as (ro & Hro & Hrr).
    pose proof (Hx (val y) _ _ lo ro (mkEqLevel l r s (idx + 1) :: below) sub Hlo Hro Hrl Hrr Hsub ltac:(rewrite zlen_cons; lia)) as Hone.
    assert (existsb is_map_level (mkEqLevel l r s (idx + 1) :: below) || jmaps (val x) = true -> maps = true) as Hm1.
    { cbn [existsb]. unfold is_map_level at 1. cbn [eq_state]. intros Ht. apply Hmaps.
      destruct Hmap as [->| ->]; [by left|]. cbn [orb] in Ht. apply orb_true_iff in Ht as [Ht|Ht]; [by right; left|].
      right; right. by rewrite Ht. }
    destruct (jeq (val x) (val y) && fits_eq (val x) (mkEqLevel l r s (idx + 1) :: below) sub) eqn:Heq;
      unfold fits_eq, GG_MAX_OBJECT_SUBOBJECTS, GG_MAX_OBJECT_DEPTH in Heq; rewrite zlen_cons in Heq.
    + apply andb_true_iff in Heq as [Hjeq [Hs Hd]%andb_true_iff]. apply Z.leb_le in Hs, Hd. rewrite Hjeq. cbn [andb].
      replace (Z.of_nat (Nat.max (jdepth (val x)) (deepest xs)) <=? 14 - zlen below) with (Z.of_nat (deepest xs) <=? 14 - zlen below)
        by (apply eq_true_iff_eq; rewrite !Z.leb_le; lia).
      rewrite Z.add_assoc. eapply compares_step; [exact Hstep|reflexivity|].
      eapply compares_weaken; [| | |eapply compares_then; [exact Hone|]].
      4: { apply (IH ys (idx + 1) (sub + jsubs (val x))); try done; try lia.
           - by replace (bl + sz * (idx + 1)) with (bl + sz * idx + sz) by lia.
           - by replace (br + sz * (idx + 1)) with (br + sz * idx + sz) by lia.
           - intros Hor. apply Hmaps. destruct Hor as [?|[?|Ht]]; [by left|by right; left|right; right]. by rewrite Ht, orb_true_r. }
      * lia.
      * lia.
      * done.
    + match goal with |- compares _ _ _ ?b _ _ _ _ => assert (b = false) as -> end.
      { apply not_true_iff_false. intros [[Hj _]%andb_true_iff [Hs Hd]%andb_true_iff]%andb_true_iff. apply Z.leb_le in Hs, Hd.
        rewrite Hj in Heq. cbn [andb] in Heq. apply not_true_iff_false in Heq. apply Heq.
        apply andb_true_iff. rewrite !Z.leb_le. lia. }
      eapply compares_step; [exact Hstep|reflexivity|]. eapply compares_fails; [|exact Hm1|exact Hone]. lia.
Qed.
End elems.

(** ** Objects *)

Section object.
Context (l r : Z) (lo ro : GgObject) (below : list eq_level) (sub : Z) (v w : jvalue).
Context (Hlo : read_obj m l = Some lo) (Hro : read_obj m r = Some ro).
Context (Hrl : represents anywhere m v lo) (Hrr : represents anywhere m w ro) (Hsub : 0 <= sub <= 255) (Hbelow : zlen below <= 14).

(** The comparison of the two objects with the answer [equal], whenever it fits. *)
Definition object_compares (equal : bool) : Prop :=
  compares (mkEqLevel l r LEVEL_DEFAULT 0 :: below) below sub (equal && fits_eq v below sub)
    (existsb is_map_level below || jmaps v) (2 + 3 * jsubs v) (2 + 3 * (255 - sub)) (jsubs v).

Lemma differ_here : refused (existsb is_map_level below || jmaps v) (differ below).
Proof using Type. apply differ_refused. intros ->. done. Qed.

Lemma types_differ : jtype v <> jtype w -> object_compares false.
Proof using All.
  intros Hty. eapply compares_refused; [lia| |apply differ_here]. intros fuel. cbn [eq_loop]. rewrite Hlo, Hro.
  cbn [mbind option_bind]. rewrite (represents_type _ _ _ _ Hrl), (represents_type _ _ _ _ Hrr). cbn [mbind option_bind].
  by rewrite bool_decide_false.
Qed.

(** Objects without parts. *)
Lemma scalars_compare (equal : bool) res : jsubs v = 0 -> jdepth v = 1%nat ->
  refused (existsb is_map_level below || jmaps v) res ->
  (forall fuel, eq_loop m (S fuel) (mkEqLevel l r LEVEL_DEFAULT 0 :: below) sub = if equal then resume_eq fuel below sub else res) ->
  object_compares equal.
Proof using All.
  intros Hs Hd Hres Hrun. pose proof (zlen_nonneg below). unfold object_compares, fits_eq, GG_MAX_OBJECT_SUBOBJECTS, GG_MAX_OBJECT_DEPTH.
  rewrite Hs, Hd, (proj2 (Z.leb_le (sub + 0) 255)) by lia. rewrite (proj2 (Z.leb_le (Z.of_nat 1) (15 - zlen below))) by lia.
  rewrite andb_true_r. destruct equal; [by apply compares_done; [lia|]|]. eapply compares_refused; [lia|exact Hrun|done].
Qed.
End object.

Ltac scalars Hlo Hro Hrl Hrr := intros fuel; cbn [eq_loop]; rewrite Hlo, Hro; cbn [mbind option_bind];
  rewrite (represents_type _ _ _ _ Hrl), (represents_type _ _ _ _ Hrr); cbn [mbind option_bind jtype];
  rewrite bool_decide_true by reflexivity; cbn [negb].

Lemma compare_scalar v : match v with JArr _ | JObj _ => False | _ => True end -> comparable v.
Proof using Type.
  intros Hv w l r lo ro below sub Hlo Hro Hrl Hrr Hsub Hbelow.
  change (object_compares l r below sub v (jeq v w)).
  destruct (decide (jtype v = jtype w)) as [Hty|Hty].
  2:{ assert (jeq v w = false) as -> by (destruct v, w; try reflexivity; exfalso; by apply Hty). by eapply (types_differ l r lo ro). }
  pose proof (differ_here below v) as Hd.
  assert (forall b, refused b (Some (false, None))) as Hf by (intros b; exists None; by split).
  assert (refused (existsb is_map_level below || jmaps v) (if v is JF64 _ then Some (false, None) else differ below)) as Hres
    by (destruct v; first [exact Hd|apply Hf]).
  destruct v as [|x|x|x|x| |]; try contradiction; destruct w as [|y|y|y|y| |]; try discriminate Hty; cbn [jeq];
    refine (scalars_compare l r lo ro below sub _ _ Hlo Hro Hrl Hrr Hsub Hbelow _ _ eq_refl eq_refl Hres _); scalars Hlo Hro Hrl Hrr;
    clear Hd Hf Hres Hty.
  - by destruct below.
  - rewrite (unpack_scalar _ _ Hrl : gg_obj_into_bool lo = Some x), (unpack_scalar _ _ Hrr : gg_obj_into_bool ro = Some y).
    cbn [mbind option_bind]. by destruct (bool_eq x y), below.
  - rewrite (unpack_scalar _ _ Hrl : gg_obj_into_i64 lo = Some x), (unpack_scalar _ _ Hrr : gg_obj_into_i64 ro = Some y).
    cbn [mbind option_bind]. by destruct (int_eq x y), below.
  - rewrite (unpack_scalar _ _ Hrl : gg_obj_into_f64 lo = Some x), (unpack_scalar _ _ Hrr : gg_obj_into_f64 ro = Some y).
    cbn [mbind option_bind]. by destruct (float_eq x y), below.
  - destruct (represents_str _ _ _ _ Hrl) as (a & -> & Ha & _). destruct (represents_str _ _ _ _ Hrr) as (b & -> & Hb & _).
    cbn [mbind option_bind]. unfold buf_eq. rewrite Ha, Hb. cbn [mbind option_bind]. rewrite gg_buffer_eq_decide.
    by destruct (bool_decide (x = y)), below.
Qed.

Lemma compare_list vs : Forall comparable vs -> comparable (JArr vs).
Proof using Type.
  intros Hok w l r lo ro below sub Hlo Hro Hrl Hrr Hsub Hbelow.
  change (object_compares l r below sub (JArr vs) (jeq (JArr vs) w)).
  destruct (decide (GG_TYPE_LIST = jtype w)) as [Hty|Hty].
  2:{ assert (jeq (JArr vs) w = false) as -> by (destruct w; try reflexivity; exfalso; by apply Hty). by eapply (types_differ l r lo ro). }
  destruct w as [| | | | |ws|]; try discriminate Hty. clear Hty. cbn [jeq].
  pose proof (differ_here below (JArr vs)) as Hdiffer.
  pose proof (represents_type _ _ _ _ Hrl) as Htl. pose proof (represents_type _ _ _ _ Hrr) as Htr.
  rewrite represents_JArr in Hrl, Hrr. destruct Hrl as (a & [_ Ha]%unpack_type & _ & Hea). destruct Hrr as (b & [_ Hb]%unpack_type & _ & Heb).
  cbn in Ha, Hb. pose proof (zlen_nonneg vs). pose proof (zlen_nonneg below).
  pose proof (total_nonneg jsubs vs ltac:(apply jsubs_nonneg)).
  eassert (forall fuel, eq_loop m (S fuel) (mkEqLevel l r LEVEL_DEFAULT 0 :: below) sub = _) as Hstep.
  { intros fuel. cbn [eq_loop]. rewrite Hlo, Hro. cbn [mbind option_bind]. rewrite Htl, Htr. cbn [mbind option_bind jtype].
    rewrite bool_decide_true by done. cbn [negb]. rewrite Ha, Hb. cbn [mbind option_bind list_len]. reflexivity. }
  unfold object_compares, fits_eq, GG_MAX_OBJECT_SUBOBJECTS, GG_MAX_OBJECT_DEPTH in *. rewrite jsubs_arr.
  destruct (255 - sub <? zlen vs) eqn:Hfull; zify_bool.
  { match goal with |- compares _ _ _ ?e _ _ _ _ => assert (e = false) as -> end.
    { rewrite (proj2 (Z.leb_gt (sub + _) 255)) by lia. by rewrite andb_false_r. }
    eapply compares_refused; [lia|exact Hstep|done]. }
  rewrite (uwrap_small 8 (zlen vs)), (uwrap_small 8 (sub + zlen vs)) in Hstep by lia.
  destruct (zlen vs =? zlen ws) eqn:Hlen; cbn [negb] in Hstep; zify_bool.
  2:{ assert (all2 jeq vs ws = false) as ->.
      { apply not_true_iff_false. intros Hall%all2_length. unfold zlen in Hlen. lia. }
      eapply compares_refused; [lia|exact Hstep|done]. }
  eapply compares_step; [exact Hstep|symmetry; apply Z.add_assoc|].
  pose proof (elems_compared sizeof_GgObject LEVEL_LIST (fun b idx => b + sizeof_GgObject * idx) (fun v => v) (fun _ _ => true)
    (obj_rep anywhere m) (or_intror eq_refl) l r a b (zlen vs) ltac:(lia)) as Helems.
  replace (sub + (zlen vs + total jsubs vs) <=? 255) with (sub + zlen vs + total jsubs vs <=? 255) by (f_equal; lia).
  replace (Z.of_nat (jdepth (JArr vs)) <=? 15 - zlen below) with (Z.of_nat (deepest (fun v => v) vs) <=? 14 - zlen below)
    by (apply eq_true_iff_eq; rewrite !Z.leb_le; cbn [jdepth]; unfold deepest; lia).
  eapply compares_weaken; [| | |apply Helems with (sub := sub + zlen vs) (idx := 0) (ys := ws) (maps := existsb is_map_level below || jmaps (JArr vs))].
  - unfold total. lia.
  - lia.
  - done.
  - intros fuel idx below' sub' ->. cbn [eq_loop]. rewrite Hlo, Hro. cbn [mbind option_bind]. rewrite Ha. cbn [mbind option_bind list_len].
    by rewrite Z.eqb_refl.
  - intros fuel idx below' sub' x y Hne _ _. cbn [eq_loop]. rewrite Hlo, Hro. cbn [mbind option_bind]. rewrite Ha, Hb.
    cbn [mbind option_bind list_len items negb]. by rewrite (proj2 (Z.eqb_neq _ _)).
  - done.
  - done.
  - rewrite Z.add_0_r. apply elems_each. eapply elems_at_sub; [done|eassumption].
  - rewrite Z.add_0_r. apply elems_each. eapply elems_at_sub; [done|eassumption].
  - unfold zlen in Hlen. lia.
  - done.
  - done.
  - lia.
  - done.
  - cbn [jmaps]. intros [?|[->|Hm]]; [done|done|]. change (existsb jmaps vs = true) in Hm. by rewrite Hm, orb_true_r.
Qed.

Lemma compare_map kvs : Forall (fun kv => comparable kv.2) kvs -> comparable (JObj kvs).
Proof using Type.
  intros Hok w l r lo ro below sub Hlo Hro Hrl Hrr Hsub Hbelow.
  change (object_compares l r below sub (JObj kvs) (jeq (JObj kvs) w)).
  destruct (decide (GG_TYPE_MAP = jtype w)) as [Hty|Hty].
  2:{ assert (jeq (JObj kvs) w = false) as -> by (destruct w; try reflexivity; exfalso; by apply Hty). by eapply (types_differ l r lo ro). }
  destruct w as [| | | | | |lws]; try discriminate Hty. clear Hty. cbn [jeq].
  pose proof (differ_here below (JObj kvs)) as Hdiffer.
  pose proof (represents_type _ _ _ _ Hrl) as Htl. pose proof (represents_type _ _ _ _ Hrr) as Htr.
  rewrite represents_JObj in Hrl, Hrr. destruct Hrl as (a & [_ Ha]%unpack_type & _ & Hea). destruct Hrr as (b & [_ Hb]%unpack_type & _ & Heb).
  cbn in Ha, Hb. pose proof (zlen_nonneg kvs). pose proof (zlen_nonneg below).
  set (subs := total (fun kv : bytes * jvalue => jsubs kv.2) kvs).
  assert (0 <= subs) by (apply total_nonneg; intros; apply jsubs_nonneg).
  eassert (forall fuel, eq_loop m (S fuel) (mkEqLevel l r LEVEL_DEFAULT 0 :: below) sub = _) as Hstep.
  { intros fuel. cbn [eq_loop]. rewrite Hlo, Hro. cbn [mbind option_bind]. rewrite Htl, Htr. cbn [mbind option_bind jtype].
    rewrite bool_decide_true by done. cbn [negb]. rewrite Ha, Hb. cbn [mbind option_bind map_len]. reflexivity. }
  unfold object_compares, fits_eq, GG_MAX_OBJECT_SUBOBJECTS, GG_MAX_OBJECT_DEPTH in *. rewrite jsubs_obj. fold subs.
  pose proof (Z.div_mod (255 - sub) 2 ltac:(done)). pose proof (Z.mod_pos_bound (255 - sub) 2 ltac:(done)).
  destruct ((255 - sub) / 2 <? zlen kvs) eqn:Hfull; zify_bool.
  { match goal with |- compares _ _ _ ?e _ _ _ _ => assert (e = false) as -> end.
    { rewrite (proj2 (Z.leb_gt (sub + _) 255)) by lia. by rewrite andb_false_r. }
    eapply compares_refused; [lia|exact Hstep|done]. }
  rewrite (uwrap_small 8 (zlen kvs * 2)), (uwrap_small 8 (sub + _)) in Hstep by lia.
  destruct (zlen kvs =? zlen lws) eqn:Hlen; cbn [negb] in Hstep; zify_bool.
  2:{ match goal with |- compares _ _ _ (?e && _) _ _ _ _ => assert (e = false) as -> end.
      { apply not_true_iff_false. intros Hall%all2_length. unfold zlen in Hlen. lia. }
      eapply compares_refused; [lia|exact Hstep|done]. }
  eapply compares_step with (subs2 := subs); [exact Hstep|lia|].
  pose proof (elems_compared sizeof_GgKV LEVEL_MAP (fun b idx => gg_kv_val (b + sizeof_GgKV * idx)) snd
    (fun x y : bytes * jvalue => bool_decide (x.1 = y.1)) (pair_rep anywhere m) (or_introl eq_refl) l r a b (zlen kvs) ltac:(lia)) as Helems.
  replace (sub + (2 * zlen kvs + subs) <=? 255) with (sub + zlen kvs * 2 + subs <=? 255) by (f_equal; lia).
  replace (Z.of_nat (jdepth (JObj kvs)) <=? 15 - zlen below) with (Z.of_nat (deepest snd kvs) <=? 14 - zlen below)
    by (apply eq_true_iff_eq; rewrite !Z.leb_le; cbn [jdepth]; unfold deepest; lia).
  eapply compares_weaken; [| | |apply Helems with (sub := sub + zlen kvs * 2) (idx := 0) (ys := lws) (maps := existsb is_map_level below || jmaps (JObj kvs))].
  - unfold subs, total. lia.
  - lia.
  - done.
  - intros fuel idx below' sub' ->. cbn [eq_loop]. rewrite Hlo, Hro. cbn [mbind option_bind]. rewrite Ha. cbn [mbind option_bind map_len].
    by rewrite Z.eqb_refl.
  - intros fuel idx below' sub' x y Hne (px & Hpx & Hkx & _) (py & Hpy & Hky & _). cbn [eq_loop]. rewrite Hlo, Hro. cbn [mbind option_bind].
    rewrite Ha, Hb. cbn [mbind option_bind map_len pairs]. rewrite (proj2 (Z.eqb_neq _ _)) by done. rewrite Hpx, Hpy. cbn [mbind option_bind].
    unfold buf_eq. rewrite (proj1 Hkx), (proj1 Hky). cbn [mbind option_bind]. by rewrite gg_buffer_eq_decide.
  - intros b' idx x (px & Hpx & _ & Hvx). exists (zdrop (gg_kv_val 0) px). split; [|done].
    pose proof (loadz_zlen _ _ _ _ Hpx) as Hz. change (Z.max 0 sizeof_GgKV) with sizeof_GgKV in Hz.
    unfold read_obj, gg_kv_val. replace (b' + sizeof_GgKV * idx + 8 + 2) with (b' + sizeof_GgKV * idx + 10) by lia.
    rewrite (loadz_sub _ _ _ _ 10 sizeof_GgObject Hpx) by done. f_equal. apply ztake_all. rewrite zlen_drop, Hz. done.
  - done.
  - rewrite Z.add_0_r. apply members_each. eapply members_at_sub; [done|eassumption].
  - rewrite Z.add_0_r. apply members_each. eapply members_at_sub; [done|eassumption].
  - unfold zlen in Hlen. lia.
  - done.
  - done.
  - lia.
  - done.
  - cbn [jmaps]. intros _. apply orb_true_r.
Qed.

Lemma compare_all v : comparable v.
Proof using Type.
  induction v as [| | | |bs|vs IH|kvs IH] using jvalue_ind'; try (by apply compare_scalar);
    [by apply compare_list|by apply compare_map].
Qed.
End proof.

(** ** The result *)

(** A report without levels of maps does not fail. *)
Lemma print_lists m lhs below : existsb is_map_level below = false -> print_levels m lhs below = Some tt.
Proof.
  induction below as [|lv below IH]; [done|]. cbn [existsb print_levels]. unfold is_map_level at 1.
  destruct (eq_state lv); [done|exact IH|done].
Qed.


(** The objects [{"a":[1]}] at 500 and 600, with an array of pairs each. *)
Definition compared_mem : mem :=
  put (put (put (put (put (put (zeroed 400 0) 10 (GG_STR "a"))
    20 (gg_obj_i64 1))
    100 (default [] (o ← gg_obj_list (mkList 20 1); gg_kv (mkBuf 10 1) o)))
    200 (default [] (gg_kv (mkBuf 10 1) (gg_obj_i64 1))))
    500 (default [] (gg_obj_map (mkMap 100 1)))) 600 (default [] (gg_obj_map (mkMap 200 1))).

Definition compared_value : jvalue := JObj [(GG_STR "a", JArr [JI64 1])].


(** The report reads past the pairs of a map: [elem_index] has been advanced by
    the time that a value is compared. Here [{"a":[1]}] and [{"a":1}] differ. *)
Example print_state_out_of_bounds : gg_obj_eq compared_mem 500 600 = None.
Proof. by vm_compute. Qed.

(** An infinity is not equal to itself, since the difference is not a number. *)
Example float_eq_infinity : float_eq 0x7ff0000000000000 0x7ff0000000000000 = false.
Proof. by vm_compute. Qed.

(** Nor is [NaN], whose comparison with a number is decided before. *)
Example float_eq_nan : float_eq 0x7ff8000000000000 0x7ff8000000000000 = false.
Proof. by vm_compute. Qed.
