(* ===== verification/JsonDecodeSpec.v ===== *)
(** The JSON decoder implements its specification: [gg_json_decode_destructive]
    of [src/json_decode.c] accepts the texts of the grammar, fails as [eval]
    says, and otherwise builds an object that represents the value of the text,
    out of the text and of free memory of the arena. *)

From S2P Require Import Prelude Memory Buffer Object Map Canonical Visit Arena JsonParse JsonGrammar JsonAccept JsonDecode JsonValue JsonUnescape JsonStored JsonContainers.

Section decode.
Context (strtod : mem -> Z -> Z * bool) (to_f64 : bytes -> Z * bool) (pruned : BufPtr).
Hypothesis Hstrtod : strtod_reads strtod to_f64.
Hypothesis Hpruned : 0 <= len pruned <= UINT16_MAX.

(** A part of a text. *)
Lemma ready_part m E pre x post a :
  ready m E (pre ++ x ++ post) a -> ready m (E - zlen post) x a.
Proof.
  intros (Hb & Hl & H0 & Hmax & Ha & Hm & Hd). pose proof Hb as (Hload & Hok & Hsz).
  rewrite !zlen_app in *. pose proof (zlen_nonneg pre). pose proof (zlen_nonneg x). pose proof (zlen_nonneg post).
  unfold ready, disj in *. split_and!; [|lia|lia|lia|done|done|lia].
  split; [|split; [|lia]].
  - apply (loadz_sub _ _ _ _ (zlen pre) (zlen x)) in Hload; [|lia..].
    rewrite zdrop_app_exact, ztake_app_exact in Hload by done. rewrite <- Hload. f_equal. lia.
  - apply bytes_ok_app in Hok as [_ Hok]. by apply bytes_ok_app in Hok as [? _].
Qed.

(** The closing character follows the contents of a container. *)
Lemma container_ready m E opening pre w c closing r a :
  ready m E (pre ++ opening :: w ++ c ++ closing :: r) a -> number_char closing = false ->
  ready m (E - zlen (closing :: r)) c a /\ ends_number m (E - zlen (closing :: r)) /\
  disj (E - zlen (closing :: r) - zlen c) (zlen c + 1) (arena_mem a + index a) (free a).
Proof.
  intros H Hn. assert (ready m E ((pre ++ opening :: w) ++ c ++ closing :: r) a) as H'.
  { by rewrite <- app_assoc. }
  split; [by eapply ready_part|]. destruct H as (Hb & _ & _ & _ & _ & _ & Hd). split.
  - exists closing. split; [|done]. assert (holds m E (closing :: r)) as Hc.
    { eapply holds_suffix; [exact Hb|]. exists (pre ++ opening :: w ++ c). rewrite <- app_assoc. simpl.
      by rewrite <- app_assoc. }
    by apply holds_cons in Hc as (_ & ? & _).
  - unfold disj in *. rewrite !zlen_app, !zlen_cons, !zlen_app, !zlen_cons in Hd. rewrite zlen_cons. zlen_lia.
Qed.

(** White space ends a number, too. *)
Lemma ends_number_ws m E t : holds m E t -> ends_number m (E - zlen (skip_ws t)) -> ends_number m (E - zlen t).
Proof.
  intros Hb H. destruct t as [|c t]; [done|]. destruct (is_ws c) eqn:Ec.
  - exists c. apply holds_cons in Hb as (_ & -> & _). split; [done|]. unfold is_ws in Ec. unfold number_char, is_dec, in_range.
    lia.
  - enough (skip_ws (c :: t) = c :: t) as He by by rewrite He in H.
    unfold skip_ws. rewrite many_eq by apply _. cbn [satisfy]. by rewrite Ec.
Qed.

Lemma part_rest E x r : part E x r = rest_buf (E - zlen r) x.
Proof. unfold part, rest_buf. rewrite zlen_app. f_equal. lia. Qed.

Lemma take_json_val_ok fuel : take_ok to_f64 (take_json_val strtod pruned fuel) fuel.
Proof using Hstrtod Hpruned.
  induction fuel as [|fuel IH]; intros m E bs a Hready Hlen; [lia|]. cbn [take_json_val rest_buf len].
  change (mkBuf (E - zlen bs) (zlen bs)) with (rest_buf E bs).
  pose proof (value_call m E bs (Some PARSE_RESULT_INIT) ltac:(apply Hready)) as Hv.
  destruct (parse_json bs) as [[s r]|] eqn:Ep.
  2:{ destruct Hv as [o' ->]; [by intros ? [= <-]|]. cbn [mbind option_bind negb]. done. }
  intros Hends. destruct Hv as (o' & t & -> & Hr & Ht & out & -> & Hrep); [by intros ? [= <-]|].
  cbn [mbind option_bind negb]. pose proof (skip_ws_suffix bs) as [w Hw].
  pose proof (skip_ws_suffix t) as Hst. rewrite <- Hr in Hst. pose proof (suffix_zlen _ _ Hst) as Hz.
  pose proof (zlen_nonneg r) as Hzr. rewrite Hw in Hready.
  assert (arena_ok a) as Ha by apply Hready.
  assert (forall v w o, objval_ok w -> pack w = Some o -> (forall W m, unpack o = Some w -> represents W m v o) ->
    eval to_f64 s (free a) = Ok (v, free a) ->
    exists err m' a' o', Some (GG_ERR_OK, mkDecoded m a (rest_buf E r) (Some o)) =
        Some (err, mkDecoded m' a' (rest_buf E r) o') /\
      yields (used E bs r a a') m a (eval to_f64 s (free a)) err m' a' o') as Hsimple.
  { intros v x o Hx Ho Hv ->. eexists _, _, _, _. split; [done|].
    eapply yields_pack; [done|apply changes_refl|exact Hx|exact Ho|]. apply Hv. }
  destruct s as [raw|text real|kvs|ss| | |]; cbn [reports] in Hrep.
  - destruct Hrep as (Hu & -> & ->). rewrite Hu in *. rewrite part_rest.
    destruct (decode_str_run to_f64 m (E - zlen (34 :: t)) raw a) as (err & m' & o & -> & Hy).
    { eapply (ready_part m E (w ++ [34]) raw). rewrite <- app_assoc. exact Hready. }
    cbn [mbind option_bind]. eexists _, _, _, _. split; [done|]. eapply yields_sub; [exact Hy|].
    apply (f_equal zlen) in Hw. rewrite zlen_app, zlen_cons, zlen_app, zlen_cons in Hw.
    clear -Hw Hz Hzr. rewrite zlen_cons. region.
  - destruct Hrep as (Hp & Hu & -> & ->). rewrite Hu in *. rewrite part_rest.
    assert (ready m (E - zlen t) text a) as Hready' by by eapply ready_part.
    assert (parse_number text = Some (SNum text real, [])) as Hp'.
    { by apply (parse_number_cut text t (SNum text real) []). }
    rewrite (decode_number_eq _ _ _ _ real) by (done || apply Hready').
    destruct (number_value_run strtod to_f64 Hstrtod m (E - zlen t) text real a Hready' Hp') as (err & o & -> & Hy).
    { intros ->. cbn [ends] in Hends. rewrite Hr in Hends. eapply ends_number_ws; [|exact Hends].
      eapply holds_suffix; [apply Hready|]. exists (w ++ text). by rewrite app_assoc. }
    cbn [mbind option_bind]. eexists _, _, _, _. split; [done|]. by eapply yields_sub.
  - destruct Hrep as (u & c & Hu & -> & -> & Hcount & Hitems). rewrite Hu, Hcount in *. rewrite part_rest.
    destruct (container_ready m E 123 w u c 125 t a Hready eq_refl) as (Hr1 & Hr2 & Hr3).
    apply (f_equal length) in Hw. rewrite length_app in Hw. simpl in Hw. rewrite !length_app in Hw. simpl in Hw.
    destruct (decode_object_run to_f64 _ fuel IH pruned m (E - zlen (125 :: t)) c kvs a)
      as (err & m' & a' & o & -> & Hy); [done|done|lia|done|done|done|].
    cbn [mbind option_bind]. eexists _, _, _, _. split; [done|]. eapply yields_sub; [exact Hy|].
    clear -Hz Hzr Hw. assert (zlen c + 1 + zlen t <= zlen bs) by (unfold zlen; lia). rewrite zlen_cons. region.
  - destruct Hrep as (u & c & Hu & -> & -> & Hcount & Hitems). rewrite Hu, Hcount in *. rewrite part_rest.
    destruct (container_ready m E 91 w u c 93 t a Hready eq_refl) as (Hr1 & Hr2 & Hr3).
    apply (f_equal length) in Hw. rewrite length_app in Hw. simpl in Hw. rewrite !length_app in Hw. simpl in Hw.
    destruct (decode_array_run to_f64 _ fuel IH m (E - zlen (93 :: t)) c ss a)
      as (err & m' & a' & o & -> & Hy); [done|lia|done|done|done|].
    cbn [mbind option_bind]. eexists _, _, _, _. split; [done|]. eapply yields_sub; [exact Hy|].
    clear -Hz Hzr Hw. assert (zlen c + 1 + zlen t <= zlen bs) by (unfold zlen; lia). rewrite zlen_cons. region.
  - rewrite Hrep. by apply (Hsimple (JBool true) (VBool true)).
  - rewrite Hrep. by apply (Hsimple (JBool false) (VBool false)).
  - rewrite Hrep. by apply (Hsimple JNull VNull).
Qed.

(** The object is stored last. *)
Lemma json_decode_run m E bs a obj :
  ready m E bs a -> obj <> NULL -> mapped m obj sizeof_GgObject ->
  disj obj sizeof_GgObject (E - zlen bs) (zlen bs) ->
  disj obj sizeof_GgObject (arena_mem a + index a) (free a) ->
  (forall s r, parse_json bs = Some (s, r) -> ends m E s r) ->
  exists err m' a', gg_json_decode_destructive strtod pruned m (rest_buf E bs) (Some a) obj = Some (err, m', Some a') /\
    changes (fun x => zrange (E - zlen bs) E x \/ zrange (arena_mem a + index a) (arena_mem a + capacity a) x \/
                      zrange obj (obj + sizeof_GgObject) x) m m' /\
    match json_value to_f64 bs (free a) with
    | Ok (v, f) => err = GG_ERR_OK /\ arena_le a a' /\ free a' = f /\
        exists o, read_obj m' obj = Some o /\ represents (used E bs [] a a') m' v o
    | Fail e => err = e /\ e <> GG_ERR_OK /\ a' = a
    | Stuck => False
    end.
Proof using Hstrtod Hpruned.
  intros Hready Hnn Hm Hd1 Hd2 Hends. unfold gg_json_decode_destructive, json_value. cbn [from_option id].
  assert ((length bs < decode_fuel (rest_buf E bs))%nat) as Hf.
  { unfold decode_fuel. cbn [rest_buf len]. rewrite to_nat_zlen. lia. }
  pose proof (take_json_val_ok (decode_fuel (rest_buf E bs)) m E bs a Hready Hf) as Ht.
  rewrite (proj2 (Z.eqb_neq obj NULL)) by done. cbn [negb].
  destruct (parse_json bs) as [[s r]|] eqn:Ep.
  2:{ rewrite Ht. cbn [mbind option_bind]. rewrite bool_decide_false by done. cbn [negb].
      eexists _, m, a. split; [done|]. by split. }
  destruct (Ht (Hends s r eq_refl)) as (err & m1 & a1 & o & -> & Ha & Hc & Hres).
  destruct (parse_json_shorter _ _ _ Ep) as [Hs _]. apply suffix_zlen in Hs. pose proof (zlen_nonneg r) as Hzr.
  cbn [mbind option_bind].
  assert (forall x, used E bs r a a1 x -> zrange (E - zlen bs) E x \/
    zrange (arena_mem a + index a) (arena_mem a + capacity a) x \/ zrange obj (obj + sizeof_GgObject) x) as Hsub.
  { clear -Hs Hzr Ha. region. }
  destruct (eval to_f64 s (free a)) as [[v f]|e|]; cbn [mbind outcome_bind]; [| |done].
  2:{ destruct Hres as (-> & He & ->). cbn [mbind option_bind]. rewrite bool_decide_false by done. cbn [negb].
      eexists _, m1, a. split; [done|]. split; [by eapply changes_sub|done]. }
  destruct Hres as (-> & -> & o' & -> & Hzo & _ & Hrep).
  destruct (store_Some m1 obj o') as [m2 Hst].
  { rewrite Hzo. by eapply changes_mapped. }
  rewrite Hst. cbn [mbind option_bind rest_buf len]. rewrite bool_decide_true by done. cbn [negb].
  pose proof (store_changes _ _ _ _ Hst) as Hc2. rewrite Hzo in Hc2.
  assert (changes (fun x => zrange (E - zlen bs) E x \/ zrange (arena_mem a + index a) (arena_mem a + capacity a) x \/
    zrange obj (obj + sizeof_GgObject) x) m m2) as Hch.
  { eapply changes_union; [exact Hc|exact Hc2|exact Hsub|tauto]. }
  case_bool_decide as Hnil.
  - subst r. change (0 <? zlen []) with false. cbn [fmap option_fmap option_map].
    eexists _, m2, a1. split; [done|]. split; [done|]. split_and!; [done..|]. exists o'. split.
    + unfold read_obj. rewrite <- Hzo. by eapply loadz_store_same.
    + eapply represents_frame; [done| |exact Hrep]. eapply changes_agrees; [exact Hc2|].
      clear -Hs Hzr Ha Hd1 Hd2. region.
  - rewrite (proj2 (Z.ltb_lt 0 (zlen r))).
    2:{ destruct r; [done|]. rewrite zlen_cons. zlen_lia. }
    eexists _, m2, a. by split.
Qed.

(** A real number that is the whole text: what follows it in memory is not
    known, and so neither is its value. *)
Lemma take_real_run fuel m E bs a text r :
  ready m E bs a -> parse_json bs = Some (SNum text true, r) ->
  exists err o, take_json_val strtod pruned (S fuel) m (rest_buf E bs) a true =
      Some (err, mkDecoded m a (rest_buf E r) o) /\
    ((err = GG_ERR_RANGE /\ o = None) \/ (err = GG_ERR_OK /\ exists z, o = Some (gg_obj_f64 z))).
Proof using Type.
  intros Hready Ep. cbn [take_json_val rest_buf len]. change (mkBuf (E - zlen bs) (zlen bs)) with (rest_buf E bs).
  pose proof (value_call m E bs (Some PARSE_RESULT_INIT) ltac:(apply Hready)) as Hv. rewrite Ep in Hv.
  destruct Hv as (o' & t & -> & Hr & Ht & out & -> & Hrep); [by intros ? [= <-]|].
  cbn [mbind option_bind negb reports] in *. pose proof (skip_ws_suffix bs) as [w Hw]. rewrite Hw in Hready.
  destruct Hrep as (Hp & Hu & -> & ->). rewrite Hu in *. rewrite part_rest.
  assert (ready m (E - zlen t) text a) as Hready' by by eapply ready_part.
  assert (parse_number text = Some (SNum text true, [])) as Hp' by by apply (parse_number_cut text t (SNum text true) []).
  rewrite (decode_number_eq _ _ _ _ true) by (done || apply Hready'). unfold number_value. cbn [negb].
  destruct (strtod m _) as [z [|]]; cbn [mbind option_bind]; eexists _, _; (split; [done|]); [by left|].
  right. split; [done|]. by eexists.
Qed.

Lemma zlen_obj_f64 z : zlen (gg_obj_f64 z) = sizeof_GgObject.
Proof using Type. unfold gg_obj_f64. by rewrite tagged_word. Qed.

(** Whatever the text, decoding ends, and its result is a value or a double. *)
Lemma json_decode_any m E bs a obj :
  ready m E bs a -> obj <> NULL -> mapped m obj sizeof_GgObject ->
  disj obj sizeof_GgObject (E - zlen bs) (zlen bs) ->
  disj obj sizeof_GgObject (arena_mem a + index a) (free a) ->
  exists err m' a', gg_json_decode_destructive strtod pruned m (rest_buf E bs) (Some a) obj = Some (err, m', Some a') /\
    changes (fun x => zrange (E - zlen bs) E x \/ zrange (arena_mem a + index a) (arena_mem a + capacity a) x \/
                      zrange obj (obj + sizeof_GgObject) x) m m' /\
    (err = GG_ERR_OK -> exists o, read_obj m' obj = Some o /\
       ((exists v, arena_le a a' /\ represents (used E bs [] a a') m' v o) \/ gg_obj_type o = Some GG_TYPE_F64)).
Proof using Hstrtod Hpruned.
  intros Hready Hnn Hm Hd1 Hd2.
  assert ((forall s r, parse_json bs = Some (s, r) -> ends m E s r) \/
    exists text r, parse_json bs = Some (SNum text true, r)) as [Hends|(text & r & Ep)].
  { destruct (parse_json bs) as [[[| text [] | | | | | ] r]|]; try (left; by intros ? ? [= <- <-]); eauto. }
  - destruct (json_decode_run m E bs a obj Hready Hnn Hm Hd1 Hd2 Hends) as (err & m' & a' & Hr & Hc & Hres).
    exists err, m', a'. split; [done|]. split; [done|]. intros ->.
    destruct (json_value to_f64 bs (free a)) as [[v f]|e|]; [|by destruct Hres as (<- & ? & _)|done].
    destruct Hres as (_ & Hle & _ & o & Ho & Hrep). exists o. split; [done|]. left. by exists v.
  - destruct (take_real_run (Z.to_nat (len (rest_buf E bs))) m E bs a text r Hready Ep) as (err & o & Ht & Hres).
    unfold gg_json_decode_destructive. cbn [from_option id]. rewrite (proj2 (Z.eqb_neq obj NULL)) by done.
    unfold decode_fuel. cbn [negb]. rewrite Ht. cbn [mbind option_bind].
    destruct Hres as [[-> ->]|(-> & z & ->)].
    + exists GG_ERR_RANGE, m, a. split; [done|]. split; [apply changes_refl|done].
    + destruct (store_Some m obj (gg_obj_f64 z)) as [m1 Hs]; [by rewrite zlen_obj_f64|].
      rewrite Hs. cbn [mbind option_bind]. rewrite bool_decide_true by done. cbn [negb].
      pose proof (store_changes _ _ _ _ Hs) as Hc. rewrite zlen_obj_f64 in Hc.
      assert (changes (fun x => zrange (E - zlen bs) E x \/ zrange (arena_mem a + index a) (arena_mem a + capacity a) x \/
                      zrange obj (obj + sizeof_GgObject) x) m m1) as Hch by (eapply changes_sub; [exact Hc|tauto]).
      case_if; eexists _, m1, _; (split; [done|]); (split; [done|]); [done|]. intros _.
      exists (gg_obj_f64 z). split; [|right].
      * unfold read_obj. rewrite <- (zlen_obj_f64 z). by eapply loadz_store_same.
      * by apply into_word.
Qed.
End decode.

(** ** A [strtod] that satisfies the hypothesis

    It reads the characters of a number, as many as there are; the value is a
    function of these characters. *)

(** What a recogniser consumes are characters of a number. *)
Class Numeric (f : recogniser) : Prop :=
  numeric : forall bs r, f bs = Some r -> exists x, bs = x ++ r /\ Forall (fun c => number_char c = true) x.

#[export] Instance satisfy_numeric q : (forall c, q c = true -> number_char c = true) -> Numeric (satisfy q).
Proof. intros Hq bs r (c & -> & Hc)%satisfy_Some. exists [c]. split; [done|]. constructor; [by apply Hq|constructor]. Qed.
#[export] Instance expect_numeric c : number_char c = true -> Numeric (expect c).
Proof. intros Hc. apply satisfy_numeric. by intros ? <-%Z.eqb_eq. Qed.
#[export] Instance seq_numeric f g : Numeric f -> Numeric g -> Numeric (seq f g).
Proof.
  intros Hf Hg bs r (t & (x & -> & Hx)%Hf & (y & -> & Hy)%Hg)%seq_Some. exists (x ++ y).
  rewrite <- app_assoc. split; [done|by apply Forall_app].
Qed.
#[export] Instance alt_numeric f g : Numeric f -> Numeric g -> Numeric (alt f g).
Proof. unfold alt. intros Hf Hg bs r. destruct (f bs) eqn:E; [intros [= <-]; by apply Hf|apply Hg]. Qed.
#[export] Instance optional_numeric f : Numeric f -> Numeric (always (optional f)).
Proof.
  intros Hf bs r [= <-]. unfold optional. destruct (f bs) eqn:E; [by apply Hf|].
  exists []. split; [done|constructor].
Qed.
#[export] Instance many_numeric f : Progress f -> Numeric f -> Numeric (always (many f)).
Proof.
  intros Hp Hf bs r [= <-]. induction bs as [bs E|bs r E IH] using (many_ind f Hp); rewrite many_eq, E by done.
  - exists []. split; [done|constructor].
  - apply Hf in E as (x & -> & Hx). destruct IH as (y & Hr & Hy). exists (x ++ y).
    rewrite <- app_assoc, <- Hr. split; [done|by apply Forall_app].
Qed.

Lemma number_text_chars text s : parse_number text = Some (s, []) -> Forall (fun c => number_char c = true) text.
Proof.
  intros Hp. destruct (parse_number_eq text) as [Hn _]. rewrite Hp in Hn. cbn in Hn.
  assert (forall c, is_dec c = true -> number_char c = true) as Hdec by (unfold number_char; intros c ->; done).
  assert (Numeric (satisfy is_dec)) by by apply satisfy_numeric.
  assert (Numeric number) as Hnum.
  { unfold number, int_part, frac_part, exp_part, digits. repeat apply seq_numeric || apply alt_numeric || apply optional_numeric || apply many_numeric || apply expect_numeric || apply satisfy_numeric || apply _; try done.
    - intros c. unfold in_range, number_char, is_dec. unfold in_range. lia.
    - intros c. unfold number_char. lia.
    - intros c. unfold number_char. lia. }
  apply Hnum in Hn as (x & -> & Hx). by rewrite app_nil_r.
Qed.

Fixpoint scan_number (n : nat) (m : mem) (p : Z) : bytes :=
  match n with
  | O => []
  | S n => match m !! p with
           | Some c => if number_char c then c :: scan_number n m (p + 1) else []
           | None => []
           end
  end.

Definition scan_value (text : bytes) : Z * bool := (uwrap 64 (le_val text), false).
Definition scan_strtod (m : mem) (p : Z) : Z * bool := scan_value (scan_number (Z.to_nat 65536) m p).

Lemma scan_number_text n m p text :
  Forall (fun c => number_char c = true) text -> (length text < n)%nat ->
  load m p (length text) = Some text -> ends_number m (p + zlen text) -> scan_number n m p = text.
Proof.
  revert p text. induction n as [|n IH]; intros p text Hf Hn Hl He; [lia|]. cbn [scan_number].
  destruct text as [|c text].
  - rewrite zlen_nil, Z.add_0_r in He. destruct He as (c & -> & Hc). by rewrite Hc.
  - apply Forall_cons in Hf as [Hc Hf]. cbn [length] in Hl. rewrite load_S in Hl. simpl in Hn.
    destruct (m !! p) as [b|]; [|done]. cbn [mbind option_bind] in Hl.
    destruct (load m (p + 1) (length text)) as [t|] eqn:Et; [|done]. injection Hl as -> ->. rewrite Hc. f_equal.
    apply IH; [done|lia|done|]. rewrite zlen_cons in He. by replace (p + 1 + zlen text) with (p + (1 + zlen text)) by lia.
Qed.

Lemma scan_strtod_reads : strtod_reads scan_strtod scan_value.
Proof.
  intros m p text Hp Hz Hl He. split; [|by apply (uwrap_range 64)]. unfold scan_strtod. f_equal.
  apply scan_number_text; [by eapply number_text_chars| |by unfold loadz, zlen in Hl; rewrite Nat2Z.id in Hl|done].
  unfold zlen, UINT16_MAX in Hz. lia.
Qed.

(** * Properties *)

(** C11: the JSON decoder is exact. It fails with [GG_ERR_PARSE] on a text that is
    not a JSON value (possibly with white space around it), on an invalid escape
    and on trailing content; with [GG_ERR_RANGE] or [GG_ERR_PARSE] on a number
    that does not fit; with [GG_ERR_NOMEM] when the arrays of its lists and maps
    do not fit in the arena: the first of these in the order of the text.
    Otherwise the object represents the value of the text, with maps in canonical
    form (each key with its first value, in increasing order), its strings in the
    text itself and its arrays in what was taken from the arena. Nothing else is
    written, and a failure leaves the arena as it was. *)
Theorem json_decode_exact strtod to_f64 pruned m E bs a obj :
  strtod_reads strtod to_f64 -> 0 <= len pruned <= UINT16_MAX ->
  ready m E bs a -> obj <> NULL -> mapped m obj sizeof_GgObject ->
  disj obj sizeof_GgObject (E - zlen bs) (zlen bs) ->
  disj obj sizeof_GgObject (arena_mem a + index a) (free a) ->
  (forall s r, parse_json bs = Some (s, r) -> ends m E s r) ->
  exists err m' a', gg_json_decode_destructive strtod pruned m (rest_buf E bs) (Some a) obj = Some (err, m', Some a') /\
    changes (fun x => zrange (E - zlen bs) E x \/ zrange (arena_mem a + index a) (arena_mem a + capacity a) x \/
                      zrange obj (obj + sizeof_GgObject) x) m m' /\
    match json_value to_f64 bs (free a) with
    | Ok (v, f) => err = GG_ERR_OK /\ arena_le a a' /\ free a' = f /\
        exists o, read_obj m' obj = Some o /\ represents (used E bs [] a a') m' v o
    | Fail e => err = e /\ e <> GG_ERR_OK /\ a' = a
    | Stuck => False
    end.
Proof. intros Hs Hp. by apply json_decode_run. Qed.

Definition example_text : bytes := quoted "{ `b`:[-7, 1.5], `a`:`x\n`, `b`:null}".
Definition example_mem : mem :=
  put (put (put ∅ 1000 example_text) 2000 (repeat 0 100)) 3000 (repeat 0 11).

Lemma example_ready : ready example_mem 1037 example_text (mkArena 2000 100 0).
Proof.
  split_and!.
  - split_and!; [by vm_compute|by apply (bool_decide_unpack _); vm_compute|by vm_compute].
  - by vm_compute.
  - by vm_compute.
  - by vm_compute.
  - repeat split; by vm_compute.
  - apply (loadz_is_mapped _ _ _ (repeat 0 100)). by vm_compute.
  - left. by vm_compute.
Qed.

Lemma json_decode_exact_witness :
  exists m' a', gg_json_decode_destructive scan_strtod (mkBuf 500 8) example_mem (rest_buf 1037 example_text)
      (Some (mkArena 2000 100 0)) 3000 = Some (GG_ERR_OK, m', Some a') /\
    free a' = 15 /\
    exists o, read_obj m' 3000 = Some o /\
      represents (used 1037 example_text [] (mkArena 2000 100 0) a') m'
        (JObj [(GG_STR "a", JStr [120; 10]); (GG_STR "b", JArr [JI64 (-7); JF64 3485233])]) o.
Proof.
  destruct (json_decode_exact scan_strtod scan_value (mkBuf 500 8) example_mem 1037 example_text (mkArena 2000 100 0) 3000)
    as (err & m' & a' & He & _ & H).
  - apply scan_strtod_reads.
  - split; by vm_compute.
  - apply example_ready.
  - done.
  - apply (loadz_is_mapped _ _ _ (repeat 0 11)). by vm_compute.
  - right. by vm_compute.
  - right. by vm_compute.
  - intros s r Hp. vm_compute in Hp. by injection Hp as <- <-.
  - assert (json_value scan_value example_text (free (mkArena 2000 100 0)) =
      Ok (JObj [(GG_STR "a", JStr [120; 10]); (GG_STR "b", JArr [JI64 (-7); JF64 3485233])], 15)) as Hv by by vm_compute.
    rewrite Hv in H. destruct H as (-> & _ & Hf & o & Ho & Hr). exists m', a'. split; [exact He|].
    split; [exact Hf|]. exists o. by split.
Defined.
