(* ===== verification/JsonRoundtrip.v ===== *)
(** The JSON encoder and decoder ([src/json_encode.c], [src/json_decode.c]) are
    inverse: the text that the encoder writes for an object decodes to the value
    of the object. *)

From S2P Require Import Prelude Memory Buffer Io Object Map Canonical Visit Arena Vector JsonEncode JsonParse JsonGrammar JsonAccept JsonDecode JsonValue JsonUnescape JsonStored JsonContainers JsonDecodeSpec.

(** ** Numbers before other characters *)

(** The text does not continue a number. *)
Definition stop (k : bytes) : Prop := match k with [] => True | c :: _ => number_char c = false end.

(** What is read of a number does not depend on what follows it. *)
Class Stops (f : recogniser) : Prop := stops : forall x k, stop k -> f (x ++ k) = (fun r => r ++ k) <$> f x.

#[export] Instance satisfy_stops q : (forall c, q c = true -> number_char c = true) -> Stops (satisfy q).
Proof.
  intros Hq [|c x] k Hk; cbn; [|by destruct (q c)]. destruct k as [|c k]; [done|]. cbn in *.
  destruct (q c) eqn:E; [|done]. apply Hq in E. congruence.
Qed.
#[export] Instance seq_stops f g : Stops f -> Stops g -> Stops (seq f g).
Proof. intros Hf Hg x k Hk. unfold seq. rewrite Hf by done. destruct (f x) as [t|]; [|done]. by apply Hg. Qed.
#[export] Instance alt_stops f g : Stops f -> Stops g -> Stops (alt f g).
Proof. intros Hf Hg x k Hk. unfold alt. rewrite Hf by done. destruct (f x); [done|]. by apply Hg. Qed.
#[export] Instance optional_stops f : Stops f -> Stops (always (optional f)).
Proof. intros Hf x k Hk. unfold always, optional. rewrite Hf by done. by destruct (f x). Qed.
#[export] Instance many_stops f : Progress f -> Stops f -> Stops (always (many f)).
Proof.
  intros Hp Hf x k Hk. unfold always. cbn [fmap option_fmap option_map]. f_equal.
  induction x as [x E|x r E IH] using (many_ind f Hp); rewrite (many_eq f (x ++ k)), (many_eq f x), Hf, E by done.
  - done.
  - exact IH.
Qed.

Lemma is_dec_number c : is_dec c = true -> number_char c = true.
Proof. unfold number_char. by intros ->. Qed.

Local Ltac chars_of_numbers :=
  intros ?; unfold number_char, is_dec, in_range; rewrite ?orb_true_iff, ?andb_true_iff, ?Z.eqb_eq, ?Z.leb_le; lia.

#[export] Instance expect_stops c : number_char c = true -> Stops (expect c).
Proof. intros Hc. apply satisfy_stops. by intros ? <-%Z.eqb_eq. Qed.
#[export] Instance int_part_stops : Stops int_part.
Proof.
  apply seq_stops; [by apply optional_stops, expect_stops|]. apply alt_stops; [by apply expect_stops|].
  apply seq_stops; [apply satisfy_stops; chars_of_numbers|].
  apply many_stops; [apply _|]. apply satisfy_stops, is_dec_number.
Qed.
#[export] Instance frac_part_stops : Stops frac_part.
Proof. apply seq_stops; [by apply expect_stops|]. apply many_stops; [apply _|]. apply satisfy_stops, is_dec_number. Qed.
#[export] Instance exp_part_stops : Stops exp_part.
Proof.
  apply seq_stops; [apply satisfy_stops; chars_of_numbers|].
  apply seq_stops; [apply optional_stops, satisfy_stops; chars_of_numbers|].
  apply seq_stops; [apply satisfy_stops, is_dec_number|].
  apply many_stops; [apply _|]. apply satisfy_stops, is_dec_number.
Qed.

Lemma parse_number_stops x real k :
  parse_number x = Some (SNum x real, []) -> stop k -> parse_number (x ++ k) = Some (SNum x real, k).
Proof.
  unfold parse_number. intros Hp Hk. rewrite int_part_stops by done.
  destruct (int_part x) as [r1|]; [|done]. cbn [mbind option_bind fmap option_fmap option_map] in *.
  pose proof (frac_part_stops r1 k Hk) as Hf. pose proof (optional_stops frac_part _ r1 k Hk) as Hof.
  unfold always in Hof. cbn in Hof. injection Hof as Hof. rewrite Hof, Hf.
  pose proof (exp_part_stops (optional frac_part r1) k Hk) as He.
  pose proof (optional_stops exp_part _ (optional frac_part r1) k Hk) as Hoe.
  unfold always in Hoe. cbn in Hoe. injection Hoe as Hoe. rewrite Hoe, He.
  injection Hp as Hx Hr Hn. rewrite Hn in *. cbn [app]. rewrite upto_app. do 3 f_equal.
  rewrite <- Hr. by destruct (frac_part r1), (exp_part _).
Qed.

(** The decimal notation of an integer is a number without a fraction. *)
Lemma digits_all ds : Forall is_digit ds -> digits ds = [].
Proof.
  induction 1 as [|d ds Hd _ IH]; [done|]. unfold digits in *. rewrite many_eq by apply _. cbn [satisfy].
  unfold is_digit in Hd. assert (is_dec d = true) as -> by (unfold is_dec, in_range; lia). exact IH.
Qed.

Lemma dec_from_bound ds acc : Forall is_digit ds -> dec_from acc ds < (acc + 1) * 10 ^ zlen ds.
Proof.
  intros Hds. revert acc. induction Hds as [|c l Hc _ IH]; intros acc.
  { change (zlen (@nil Z)) with 0. unfold dec_from. simpl. lia. }
  rewrite dec_from_cons, zlen_cons, Z.pow_add_r by zlen_lia. unfold is_digit in Hc.
  specialize (IH (10 * acc + (c - 48))). assert (0 < 10 ^ zlen l) by (apply Z.pow_pos_nonneg; zlen_lia).
  change (10 ^ 1) with 10. nia.
Qed.

Lemma int_part_digits n : 0 <= n < 10 ^ 20 -> 
  exists d ds, digits_before 20 n [] = d :: ds /\ is_digit d /\ Forall is_digit ds /\ (d = 48 -> ds = []).
Proof.
  intros Hn. destruct (digits_before_20 n Hn) as (Hne & Hds & Hv & _ & Hge & H0).
  destruct (digits_before 20 n []) as [|d ds]; [done|]. apply Forall_cons in Hds as [Hd Hds].
  exists d, ds. split_and!; [done..|]. intros ->. destruct Hge as [->|Hge].
  { specialize (H0 eq_refl). rewrite zlen_cons in H0. apply zlen_zero. lia. }
  destruct ds as [|e ds]; [done|]. exfalso.
  assert (dec_value (48 :: e :: ds) < 10 ^ zlen (e :: ds)) as Hlt.
  { unfold dec_value. rewrite dec_from_cons. change (10 * 0 + (48 - 48)) with 0. pose proof (dec_from_bound (e :: ds) 0 Hds). lia. }
  rewrite zlen_cons in Hge. replace (1 + zlen (e :: ds) - 1) with (zlen (e :: ds)) in Hge by lia. lia.
Qed.

Lemma unsigned_int_part d ds :
  is_digit d -> Forall is_digit ds -> (d = 48 -> ds = []) ->
  alt (expect 48) (seq (satisfy (in_range 49 57)) (always digits)) (d :: ds) = Some [].
Proof.
  intros Hd Hds H0. unfold alt, seq, always, expect. cbn [satisfy]. unfold is_digit in Hd.
  destruct (48 =? d) eqn:E; zify_bool; [by rewrite H0|].
  assert (in_range 49 57 d = true) as -> by (unfold in_range; lia). cbn [mbind option_bind].
  by rewrite digits_all.
Qed.

Lemma format_i64_number z : in_int64 z -> parse_number (format_i64 z) = Some (SNum (format_i64 z) false, []).
Proof.
  unfold in_int64, INT64_MIN, INT64_MAX. intros Hz.
  assert (int_part (format_i64 z) = Some []) as Hi.
  { unfold format_i64, int_part. apply seq_Some. case_if.
    - destruct (int_part_digits (- z)) as (d & ds & -> & Hd & Hds & H0); [lia|].
      exists (d :: ds). split; [done|by apply unsigned_int_part].
    - destruct (int_part_digits z) as (d & ds & -> & Hd & Hds & H0); [lia|].
      exists (d :: ds). split; [|by apply unsigned_int_part]. unfold always, optional, expect. cbn [satisfy].
      unfold is_digit in Hd. by rewrite (proj2 (Z.eqb_neq _ _)) by lia. }
  unfold parse_number. rewrite Hi. cbn [mbind option_bind]. unfold optional, frac_part, exp_part, seq. cbn.
  unfold upto. rewrite zlen_nil, Z.sub_0_r. by rewrite ztake_all by done.
Qed.

(** The first character of a number. *)
Lemma parse_number_head x s r :
  parse_number x = Some (s, r) -> exists c y, x = c :: y /\ (c = 45 \/ is_digit c).
Proof.
  unfold parse_number. destruct (int_part x) as [r1|] eqn:Ei; [|done]. intros _. unfold int_part in Ei.
  apply seq_Some in Ei as (t & Ht & Ei). unfold always, optional in Ht. injection Ht as Ht.
  destruct x as [|c y].
  { cbn in Ht. subst t. done. }
  exists c, y. split; [done|]. unfold expect in Ht. cbn [satisfy] in Ht.
  destruct (45 =? c) eqn:E; zify_bool; [by left|right]. cbn in Ht. subst t. unfold alt, expect in Ei.
  cbn [satisfy] in Ei. unfold is_digit. destruct (48 =? c) eqn:E0; zify_bool; [lia|].
  unfold seq in Ei. cbn [satisfy] in Ei. unfold in_range in Ei. destruct ((49 <=? c) && (c <=? 57)) eqn:E1; [|done]. lia.
Qed.

(** ** Strings

    What the decoder accepts between the escapes: UTF-8, where a code unit may
    also be one that needs an escape in a string. *)

Definition utf8_char : recogniser := fun bs =>
  match bs with b :: r => if (0 <=? b) && (b <=? 127) then Some r else codepoint bs | [] => None end.

Definition utf8_ok (bs : bytes) : bool := bool_decide (many utf8_char bs = []).

#[export] Instance utf8_char_progress : Progress utf8_char.
Proof.
  intros [|b bs] r; [done|]. cbn [utf8_char]. case_if; [intros [= <-]; simpl; lia|]. apply codepoint_progress.
Qed.

Definition escaped (bs : bytes) : bytes := concat (json_char <$> bs).

Lemma escaped_app xs ys : escaped (xs ++ ys) = escaped xs ++ escaped ys.
Proof. unfold escaped. by rewrite fmap_app, concat_app. Qed.

(** Code units from 128 on are written as they are. *)
Lemma escaped_high xs : Forall (fun b => 128 <= b) xs -> escaped xs = xs.
Proof.
  induction 1 as [|b xs Hb _ IH]; [done|]. unfold escaped in *. cbn [fmap list_fmap concat]. rewrite IH.
  unfold json_char. rewrite (proj2 (Z.eqb_neq b 34)), (proj2 (Z.eqb_neq b 92)), (proj2 (Z.leb_gt b 31)) by lia. done.
Qed.

Lemma hex_digit_hex v : 0 <= v < 16 -> is_hex (hex_digit v) = true /\ hex_value (hex_digit v) = v.
Proof.
  intros Hv. unfold hex_digit, is_hex, is_dec, in_range, hex_value. destruct (v <? 10) eqn:E; zify_bool.
  - split; [lia|]. rewrite (proj2 (Z.leb_le _ _)) by lia. lia.
  - split; [lia|]. rewrite (proj2 (Z.leb_gt _ _)), (proj2 (Z.leb_le _ 70)) by lia. lia.
Qed.

(** A fact on bytes that is decided by looking at each of them. *)
Lemma byte_cases (q : Z -> bool) : forallb (fun n => q (Z.of_nat n)) (List.seq 0 256) = true -> forall b, is_byte b -> q b = true.
Proof.
  intros H b Hb. rewrite forallb_forall in H. unfold is_byte in Hb. specialize (H (Z.to_nat b)).
  rewrite Z2Nat.id in H by lia. apply H, in_seq. lia.
Qed.

Lemma ascii_unit b : 0 <= b <= 127 -> is_continuation b = false /\ utf8_len b = Some 1.
Proof.
  intros Hb. assert (is_byte b) as Hb' by (unfold is_byte; lia).
  apply (byte_cases (fun b => (128 <=? b) || negb (is_continuation b) && bool_decide (utf8_len b = Some 1))) in Hb';
    [|by vm_compute].
  rewrite (proj2 (Z.leb_gt _ _)) in Hb' by lia. cbn [orb] in Hb'. zify_bool. by apply bool_decide_eq_true_1 in H0.
Qed.

Lemma continuation_high b : is_byte b -> is_continuation b = true -> 128 <= b.
Proof.
  intros Hb Hc. apply (byte_cases (fun b => negb (is_continuation b) || (128 <=? b))) in Hb; [|by vm_compute].
  rewrite Hc in Hb. cbn [negb orb] in Hb. by apply Z.leb_le.
Qed.

(** One escaped or plain character of ASCII. *)
Lemma ascii_char b k :
  0 <= b <= 127 -> alt codepoint escape (json_char b ++ k) = Some k /\
    forall y, string_value k = Some y -> string_value (json_char b ++ k) = Some (b :: y).
Proof.
  intros Hb. unfold json_char. destruct (b =? 34) eqn:E1; zify_bool.
  { subst b. split; [done|]. intros y Hy. cbn [app]. rewrite string_value_cons. cbn [Z.eqb Pos.eqb].
    cbn [unescape_one Z.eqb Pos.eqb escape_char orb mbind option_bind]. by rewrite Hy. }
  destruct (b =? 92) eqn:E2; zify_bool.
  { subst b. split; [done|]. intros y Hy. cbn [app]. rewrite string_value_cons. cbn [Z.eqb Pos.eqb].
    cbn [unescape_one Z.eqb Pos.eqb escape_char orb mbind option_bind]. by rewrite Hy. }
  destruct (b <=? 31) eqn:E3; zify_bool.
  - destruct (hex_digit_hex (b / 16)) as [H1 H1']; [dlia|]. destruct (hex_digit_hex (b mod 16)) as [H2 H2']; [dlia|].
    cbn [app]. split.
    + unfold alt at 1. cbn [codepoint Z.leb Z.compare Pos.compare Pos.compare_cont Z.eqb Pos.eqb orb].
      unfold escape, seq, alt, expect, hex4, seq. cbn [satisfy Z.eqb Pos.eqb mbind option_bind is_simple_escape orb].
      cbn. rewrite H1. cbn. by rewrite H2.
    + intros y Hy. rewrite string_value_cons. cbn [Z.eqb Pos.eqb unescape_one].
      unfold unescape_unicode, read_unit, seq, expect. cbn [satisfy Z.eqb Pos.eqb mbind option_bind read_hex4].
      change (is_hex 48) with true. rewrite H1, H2. cbn [andb mbind option_bind].
      change (hex_value 48) with 0. rewrite H1', H2'. replace (((0 * 16 + 0) * 16 + b / 16) * 16 + b mod 16) with b by dlia.
      unfold high_surrogate, low_surrogate, in_range. rewrite (proj2 (Z.leb_gt 55296 b)), (proj2 (Z.leb_gt 56320 b)) by lia.
      cbn [andb mbind option_bind]. rewrite Hy. cbn [mbind option_bind]. unfold utf8.
      by rewrite (proj2 (Z.leb_le b 127)) by lia.
  - cbn [app]. split.
    + unfold alt. assert (codepoint (b :: k) = Some k) as ->; [|done]. apply codepoint_Some.
      destruct (ascii_unit b Hb) as [Hc Hu]. exists b, k, 1. split_and!; try done; zlen_lia.
    + intros y Hy. rewrite string_value_cons. rewrite (proj2 (Z.eqb_neq _ _)) by done. by rewrite Hy.
Qed.

Lemma string_value_high xs e y :
  Forall (fun b => 128 <= b) xs -> string_value e = Some y -> string_value (xs ++ e) = Some (xs ++ y).
Proof.
  intros Hf He. induction Hf as [|b xs Hb _ IH]; [done|]. cbn [app]. rewrite string_value_cons.
  rewrite (proj2 (Z.eqb_neq _ _)) by lia. by rewrite IH.
Qed.

Lemma escaped_parses bs k :
  bytes_ok bs -> utf8_ok bs = true ->
  chars (escaped bs ++ 34 :: k) = 34 :: k /\ string_value (escaped bs) = Some bs.
Proof.
  intros Hok Hu. apply bool_decide_eq_true_1 in Hu.
  induction bs as [bs E|bs r E IH] using (many_ind utf8_char utf8_char_progress);
    rewrite many_eq, E in Hu by apply _.
  { subst bs. split; [|done]. cbn [escaped fmap list_fmap concat app]. unfold chars. by rewrite many_eq by apply _. }
  assert (forall e, escaped bs = e ++ escaped r -> alt codepoint escape (e ++ escaped r ++ 34 :: k) = Some (escaped r ++ 34 :: k) ->
    (forall y, string_value (escaped r) = Some y -> string_value (e ++ escaped r) = Some (ztake (zlen bs - zlen r) bs ++ y)) ->
    r `suffix_of` bs ->
    chars (escaped bs ++ 34 :: k) = 34 :: k /\ string_value (escaped bs) = Some bs) as Hstep.
  { intros e -> He Hv [x Hx]. rewrite <- app_assoc. assert (bytes_ok r) as Hr.
    { rewrite Hx in Hok. by apply bytes_ok_app in Hok as [_ ?]. }
    destruct (IH Hr Hu) as [IH1 IH2]. unfold chars in *. rewrite many_eq by apply _. rewrite He.
    split; [exact IH1|]. rewrite (Hv _ IH2). f_equal. rewrite Hx, zlen_app.
    rewrite ztake_app_exact by lia. done. }
  destruct bs as [|b t]; [done|]. cbn [utf8_char] in E. apply Forall_cons in Hok as [Hb Hok].
  destruct ((0 <=? b) && (b <=? 127)) eqn:Ea.
  - injection E as ->. zify_bool. apply (Hstep (json_char b)); [done|apply ascii_char; lia| |by exists [b]].
    intros y Hy. rewrite zlen_cons. replace (1 + zlen r - zlen r) with 1 by lia.
    apply ascii_char; [lia|done].
  - assert (128 <= b) as Hhigh by (unfold is_byte in Hb; lia).
    apply codepoint_Some in E as (b' & t' & n & [= <- <-] & H1 & H2 & H3 & H4 & H5 & H6 & H7 & ->).
    assert (Forall (fun b => 128 <= b) (b :: ztake (n - 1) t)) as Hf.
    { constructor; [done|]. apply Forall_forall. intros c Hc. apply continuation_high.
      - eapply Forall_forall; [exact Hok|]. rewrite <- (ztake_zdrop (n - 1) t). apply elem_of_app. by left.
      - rewrite forallb_forall in H7. apply H7. by apply list_elem_of_In. }
    assert (zlen (ztake (n - 1) t) = n - 1) as Hz.
    { apply utf8_len_range in H5. rewrite zlen_take. lia. }
    assert (b :: t = (b :: ztake (n - 1) t) ++ zdrop (n - 1) t) as Heq by (cbn [app]; by rewrite ztake_zdrop).
    assert (zlen (b :: t) - zlen (zdrop (n - 1) t) = n) as Hlen.
    { rewrite zlen_cons, zlen_drop. apply utf8_len_range in H5. lia. }
    apply (Hstep (b :: ztake (n - 1) t)).
    + rewrite Heq at 1. by rewrite escaped_app, escaped_high.
    + unfold alt. assert (codepoint ((b :: ztake (n - 1) t) ++ escaped (zdrop (n - 1) t) ++ 34 :: k) =
        Some (escaped (zdrop (n - 1) t) ++ 34 :: k)) as ->; [|done]. apply codepoint_Some.
      exists b, (ztake (n - 1) t ++ escaped (zdrop (n - 1) t) ++ 34 :: k), n.
      rewrite ztake_app_exact, zdrop_app_exact by done. split_and!; try done. zlen_lia.
    + intros y Hy. rewrite Hlen, Heq. rewrite (ztake_app_exact n) by (rewrite zlen_cons; lia).
      by apply string_value_high.
    + exists (b :: ztake (n - 1) t). exact Heq.
Qed.

Lemma escaped_string bs k :
  bytes_ok bs -> utf8_ok bs = true -> parse_string (json_string bs ++ k) = Some (escaped bs, k).
Proof.
  intros Hok Hu. unfold json_string. rewrite <- !app_assoc. fold (escaped bs).
  apply parse_string_Some. split; [done|]. by apply escaped_parses.
Qed.

(** ** Trees *)

Lemma skip_ws_head c x : is_ws c = false -> skip_ws (c :: x) = c :: x.
Proof. intros Hc. unfold skip_ws. rewrite many_eq by apply _. cbn [satisfy]. by rewrite Hc. Qed.

Lemma join_length xs : (length xs <= S (length (join (GG_STR ",") xs)))%nat.
Proof.
  induction xs as [|x [|y xs] IH]; [simpl; lia|simpl; lia|].
  change (join (GG_STR ",") (x :: y :: xs)) with (x ++ GG_STR "," ++ join (GG_STR ",") (y :: xs)).
  rewrite !length_app. cbn [length] in *. change (length (GG_STR ",")) with 1%nat. lia.
Qed.

(** Items that are separated by commas are read one after the other. *)
Lemma parse_list_join {A} (item : reader A) after n (xs : list (bytes * A)) k :
  xs <> [] -> (length xs <= n)%nat -> expect 44 k = None ->
  Forall (fun x => (forall k', k' = k \/ (exists y, k' = 44 :: y) -> item (x.1 ++ k') = Some (x.2, k')) /\
                   forall y, after (x.1 ++ y) = x.1 ++ y) xs ->
  parse_list item after n (join (GG_STR ",") xs.*1 ++ k) = Some (xs.*2, k).
Proof.
  intros Hne Hn Hk Hf. revert n Hne Hn. induction Hf as [|x xs [Hx _] Hxs IH]; intros n Hne Hn; [done|].
  destruct n as [|n]; [simpl in Hn; lia|]. simpl in Hn. cbn [parse_list].
  destruct xs as [|y xs].
  - cbn [fmap list_fmap join]. rewrite Hx by by left. cbn [mbind option_bind]. by rewrite Hk.
  - change (join (GG_STR ",") (x :: y :: xs).*1) with (x.1 ++ GG_STR "," ++ join (GG_STR ",") (y :: xs).*1).
    rewrite <- !app_assoc. rewrite Hx by (right; eexists; reflexivity). cbn [mbind option_bind].
    assert (expect 44 (GG_STR "," ++ join (GG_STR ",") (y :: xs).*1 ++ k) = Some (join (GG_STR ",") (y :: xs).*1 ++ k))
      as -> by done.
    assert (after (join (GG_STR ",") (y :: xs).*1 ++ k) = join (GG_STR ",") (y :: xs).*1 ++ k) as ->.
    { apply Forall_cons in Hxs as [[_ Hy] _]. cbn [fmap list_fmap]. rewrite join_cons, <- app_assoc. apply Hy. }
    rewrite IH by (done || lia). done.
Qed.

Section trees.
Context (format_f64 : Z -> bytes) (to_f64 : bytes -> Z * bool) (m : mem).

Definition contents (b : BufPtr) : bytes := default [] (buf_bytes m b).

(** The syntax of the text of a tree, its value, and the size of its arrays. *)
Fixpoint tree_syn (t : otree) : jsyn :=
  match t with
  | TNull => SNull
  | TBool b => if b then STrue else SFalse
  | TI64 z => SNum (format_i64 z) false
  | TF64 z => SNum (format_f64 z) true
  | TBuf b => SStr (escaped (contents b))
  | TList _ ts => SArr (tree_syn <$> ts)
  | TMap _ kvs => SObj ((fun kv => (escaped (contents kv.1), tree_syn kv.2)) <$> kvs)
  end.

Fixpoint tree_value (t : otree) : jvalue :=
  match t with
  | TNull => JNull
  | TBool b => JBool b
  | TI64 z => JI64 z
  | TF64 z => JF64 z
  | TBuf b => JStr (contents b)
  | TList _ ts => JArr (tree_value <$> ts)
  | TMap _ kvs => JObj (canonical_members ((fun kv => (contents kv.1, tree_value kv.2)) <$> kvs))
  end.

Fixpoint tree_size (t : otree) : Z :=
  match t with
  | TList _ ts => sizeof_GgObject * zlen ts + foldr (fun t n => tree_size t + n) 0 ts
  | TMap _ kvs => sizeof_GgKV * zlen kvs + foldr (fun kv n => tree_size kv.2 + n) 0 kvs
  | _ => 0
  end.

Definition text_ok (b : BufPtr) : Prop := bytes_ok (contents b) /\ utf8_ok (contents b) = true.

(** Strings are UTF-8; a double is formatted as a number that reads as itself. *)
Fixpoint decodable (t : otree) : Prop :=
  match t with
  | TI64 z => in_int64 z
  | TF64 z => parse_number (format_f64 z) = Some (SNum (format_f64 z) true, []) /\ to_f64 (format_f64 z) = (z, false)
  | TBuf b => text_ok b
  | TList _ ts => foldr (fun t P => decodable t /\ P) True ts
  | TMap _ kvs => foldr (fun kv P => (text_ok kv.1 /\ decodable kv.2) /\ P) True kvs
  | _ => True
  end.

Abbreviation text := (json_text format_f64 m).

Lemma text_head t : decodable t -> exists c x, text t = c :: x /\ is_ws c = false /\ c <> 93.
Proof.
  assert (forall x s, parse_number x = Some (s, []) -> exists c y, x = c :: y /\ is_ws c = false /\ c <> 93) as Hnum.
  { intros x s Hp. apply parse_number_head in Hp as (c & y & -> & Hc). exists c, y. unfold is_digit, is_ws in *.
    split; [done|]. split; lia. }
  destruct t as [|b|z|z|b|p ts|p kvs]; cbn [decodable text_of]; intros Hd; try by eexists _, _.
  - destruct b; by eexists _, _.
  - eapply Hnum. by apply format_i64_number.
  - eapply Hnum. apply Hd.
Qed.

Lemma parse_literal s str k :
  (forall c x, str = c :: x -> is_ws c = false /\ parse_item parse_json (str ++ k) = reader_of s (keyword str) (str ++ k)) ->
  str <> [] -> parse_json (str ++ k) = Some (s, skip_ws k).
Proof.
  intros H Hne. destruct str as [|c x]; [done|]. destruct (H c x eq_refl) as [Hc Hi].
  rewrite parse_json_eq. cbn [app]. rewrite skip_ws_head by done.
  change (c :: x ++ k) with ((c :: x) ++ k). rewrite Hi. unfold reader_of.
  by rewrite (proj2 (keyword_Some (c :: x) ((c :: x) ++ k) k) eq_refl).
Qed.

Lemma parse_number_item x real k :
  parse_number x = Some (SNum x real, []) -> stop k -> parse_json (x ++ k) = Some (SNum x real, skip_ws k).
Proof.
  intros Hp Hk. pose proof (parse_number_stops x real k Hp Hk) as Hk'.
  destruct (parse_number_head _ _ _ Hp) as (c & y & -> & Hc). unfold is_digit in Hc.
  rewrite parse_json_eq. cbn [app] in *. rewrite skip_ws_head by (unfold is_ws; lia). cbn [parse_item].
  do 6 (rewrite (proj2 (Z.eqb_neq c _)) by lia). by rewrite Hk'.
Qed.

(** A container whose contents start with something else than white space and
    the closing character. *)
Lemma parse_container_text {A} opening closing (items : reader (list A)) c xs k :
  is_ws closing = false ->
  c = [] /\ xs = [] \/
    (exists b y, c = b :: y /\ is_ws b = false /\ b <> closing) /\ items (c ++ closing :: k) = Some (xs, closing :: k) ->
  parse_container opening closing items (opening :: c ++ closing :: k) = Some (xs, k).
Proof.
  intros Hws H. unfold parse_container, expect. cbn [satisfy]. rewrite Z.eqb_refl. cbn [mbind option_bind].
  destruct H as [[-> ->]|[(b & y & -> & Hb & Hne) Hi]].
  - cbn [app]. rewrite skip_ws_head by done. cbn [satisfy]. by rewrite Z.eqb_refl.
  - cbn [app]. rewrite skip_ws_head by done. cbn [satisfy]. rewrite (proj2 (Z.eqb_neq closing b)) by done.
    cbn [app] in Hi. rewrite Hi. cbn [mbind option_bind satisfy]. by rewrite Z.eqb_refl.
Qed.

Lemma parse_tree t k : decodable t -> stop k -> parse_json (text t ++ k) = Some (tree_syn t, skip_ws k).
Proof.
  revert k. induction t as [|b|z|z|b|p ts IH|p kvs IH] using otree_ind'; intros k Hd Hk; cbn [text_of tree_syn decodable] in *.
  - apply parse_literal; [|done]. intros c x [= <- <-]. done.
  - destruct b; (apply parse_literal; [|done]); intros c x [= <- <-]; done.
  - apply parse_number_item; [by apply format_i64_number|done].
  - apply parse_number_item; [apply Hd|done].
  - destruct Hd as [Hok Hu]. rewrite parse_json_eq. unfold buf_text. fold (contents b).
    pose proof (escaped_string (contents b) k Hok Hu) as Hs. unfold json_string in Hs |- *.
    rewrite <- app_assoc in Hs |- *. cbn [app] in Hs |- *. rewrite skip_ws_head by done.
    cbn [parse_item Z.eqb Pos.eqb]. unfold reader_map. by rewrite Hs.
  - apply foldr_Forall in Hd. rewrite parse_json_eq. change (GG_STR "[") with [91]. change (GG_STR "]") with [93].
    cbn [app]. rewrite skip_ws_head by done. cbn [parse_item Z.eqb Pos.eqb]. unfold reader_map.
    rewrite <- app_assoc. cbn [app].
    rewrite (parse_container_text 91 93 _ _ (tree_syn <$> ts)); [done|done|].
    destruct ts as [|t ts]; [by left|]. right. split.
    + cbn [fmap list_fmap]. rewrite join_cons. apply Forall_cons in Hd as [Hd _].
      destruct (text_head t Hd) as (c & x & -> & ? & ?). eexists _, _. by split_and!.
    + unfold parse_elems. set (l := t :: ts) in *.
      replace (text <$> l) with (((fun t => (text t, tree_syn t)) <$> l).*1) by (by rewrite <- list_fmap_compose).
      replace (tree_syn <$> l) with (((fun t => (text t, tree_syn t)) <$> l).*2) by (by rewrite <- list_fmap_compose).
      apply parse_list_join; [done| |done|].
      * rewrite length_app. pose proof (join_length ((fun t => (text t, tree_syn t)) <$> l).*1) as Hj.
        rewrite !length_fmap in Hj. rewrite length_fmap. cbn [length]. lia.
      * apply Forall_fmap. rewrite Forall_forall in IH, Hd |- *. intros u Hu. cbn [fst snd compose]. split; [|done].
        intros k' Hk'. rewrite IH; [|done|by apply Hd|]; by destruct Hk' as [->|[? ->]].
  - apply foldr_Forall in Hd. rewrite parse_json_eq. change (GG_STR "{") with [123]. change (GG_STR "}") with [125].
    cbn [app]. rewrite skip_ws_head by done. cbn [parse_item Z.eqb Pos.eqb]. unfold reader_map.
    rewrite <- app_assoc. cbn [app].
    rewrite (parse_container_text 123 125 _ _ ((fun kv => (escaped (contents kv.1), tree_syn kv.2)) <$> kvs)); [done|done|].
    destruct kvs as [|kv kvs]; [by left|]. right. split.
    + cbn [fmap list_fmap]. rewrite join_cons. by eexists _, _.
    + unfold parse_members. set (l := kv :: kvs) in *.
      set (f := fun kv : BufPtr * otree => (buf_text m kv.1 ++ GG_STR ":" ++ text kv.2, (escaped (contents kv.1), tree_syn kv.2))).
      replace ((fun kv => buf_text m kv.1 ++ GG_STR ":" ++ text kv.2) <$> l) with ((f <$> l).*1) by (by rewrite <- list_fmap_compose).
      replace ((fun kv => (escaped (contents kv.1), tree_syn kv.2)) <$> l) with ((f <$> l).*2) by (by rewrite <- list_fmap_compose).
      apply parse_list_join; [done| |done|].
      * rewrite length_app. pose proof (join_length (f <$> l).*1) as Hj. rewrite !length_fmap in Hj. rewrite length_fmap. cbn [length]. lia.
      * apply Forall_fmap. rewrite Forall_forall in IH, Hd |- *. intros [b u] Hu. cbn [fst snd compose f].
        destruct (Hd _ Hu) as [[Hok Hu8] Hdu]. split; [|done]. intros k' Hk'.
        unfold parse_member. rewrite <- !app_assoc. unfold buf_text. fold (contents b).
        rewrite escaped_string by done. cbn [mbind option_bind].
        change (GG_STR ":" ++ text u ++ k') with (58 :: text u ++ k'). rewrite skip_ws_head by done.
        rewrite (proj2 (expect_Some _ _ _) eq_refl). cbn [mbind option_bind fst snd].
        rewrite (IH _ Hu); [|done|]; by destruct Hk' as [->|[? ->]].
Qed.

Lemma tree_size_nonneg t : 0 <= tree_size t.
Proof.
  induction t as [| | | | |p ts IH|p kvs IH] using otree_ind'; cbn [tree_size]; try lia.
  - assert (0 <= foldr (fun t n => tree_size t + n) 0 ts) by (induction IH; cbn [foldr]; lia).
    pose proof (zlen_nonneg ts). unfold sizeof_GgObject. lia.
  - assert (0 <= foldr (fun kv n => tree_size kv.2 + n) 0 kvs) by (induction IH; cbn [foldr]; lia).
    pose proof (zlen_nonneg kvs). unfold sizeof_GgKV. lia.
Qed.

Lemma eval_tree t f :
  decodable t -> tree_size t <= f -> eval to_f64 (tree_syn t) f = Ok (tree_value t, f - tree_size t).
Proof.
  revert f. induction t as [|b|z|z|b|p ts IH|p kvs IH] using otree_ind'; intros f Hd Hf; cbn [tree_syn tree_value decodable] in *.
  - cbn. by rewrite Z.sub_0_r.
  - destruct b; cbn; by rewrite Z.sub_0_r.
  - cbn [eval tree_size]. rewrite (gg_str_to_int64_denotes _ z) by by apply format_i64_denotes.
    rewrite bool_decide_true by done. cbn [mbind outcome_bind]. by rewrite Z.sub_0_r.
  - cbn [eval tree_size]. destruct Hd as [_ ->]. by rewrite Z.sub_0_r.
  - cbn [eval tree_size]. destruct Hd as [Hok Hu]. destruct (escaped_parses (contents b) [] Hok Hu) as [_ ->].
    by rewrite Z.sub_0_r.
  - apply foldr_Forall in Hd. rewrite eval_SArr. cbn [tree_size] in *. 
    assert (zlen (tree_syn <$> ts) = zlen ts) as -> by (unfold zlen; by rewrite length_fmap).
    assert (forall f, foldr (fun t n => tree_size t + n) 0 ts <= f ->
      eval_elems to_f64 (tree_syn <$> ts) f = Ok (tree_value <$> ts, f - foldr (fun t n => tree_size t + n) 0 ts)) as He.
    { clear f Hf. induction IH as [|t ts Ht _ IHts]; intros f Hf; cbn [foldr fmap list_fmap eval_elems] in *.
      - by rewrite Z.sub_0_r.
      - apply Forall_cons in Hd as [Hd1 Hd]. pose proof (tree_size_nonneg t).
        assert (0 <= foldr (fun t n => tree_size t + n) 0 ts) as Hn.
        { clear. induction ts as [|t ts IH]; cbn [foldr]; [lia|]. pose proof (tree_size_nonneg t). lia. }
        rewrite Ht by (done || lia). cbn [mbind outcome_bind]. rewrite IHts by (done || lia). cbn [mbind outcome_bind].
        do 2 f_equal. lia. }
    assert (0 <= foldr (fun t n => tree_size t + n) 0 ts) as Hn.
    { clear. induction ts as [|t ts IH]; cbn [foldr]; [lia|]. pose proof (tree_size_nonneg t). lia. }
    rewrite (proj2 (Z.ltb_ge _ _)) by lia. rewrite He by lia. cbn [mbind outcome_bind]. do 2 f_equal. lia.
  - apply foldr_Forall in Hd. rewrite eval_SObj. cbn [tree_size] in *.
    set (g := fun kv : BufPtr * otree => (escaped (contents kv.1), tree_syn kv.2)).
    set (h := fun kv : BufPtr * otree => (contents kv.1, tree_value kv.2)).
    assert (zlen (g <$> kvs) = zlen kvs) as -> by (unfold zlen; by rewrite length_fmap).
    set (size := foldr (fun kv n => tree_size kv.2 + n) 0).
    assert (forall kvs : list (BufPtr * otree), 0 <= size kvs) as Hn.
    { clear. intros kvs. unfold size. induction kvs as [|kv kvs IH]; cbn [foldr]; [lia|]. pose proof (tree_size_nonneg kv.2). lia. }
    assert (forall f, size kvs <= f -> eval_members to_f64 (g <$> kvs) f = Ok (h <$> kvs, f - size kvs)) as He.
    { clear f Hf. induction IH as [|[b t] kvs Ht _ IHts]; intros f Hf; cbn [fmap list_fmap eval_members] in *.
      - by rewrite Z.sub_0_r.
      - apply Forall_cons in Hd as [[[Hok Hu] Hd1] Hd]. cbn [fst snd] in *. pose proof (tree_size_nonneg t).
        change (size ((b, t) :: kvs)) with (tree_size t + size kvs) in *. specialize (Hn kvs).
        unfold g at 1. cbn [fst snd eval_members]. destruct (escaped_parses (contents b) [] Hok Hu) as [_ ->].
        rewrite Ht by (done || lia). cbn [mbind outcome_bind]. rewrite IHts by (done || lia). cbn [mbind outcome_bind].
        do 2 f_equal. lia. }
    specialize (Hn kvs) as Hn'. fold (size kvs) in Hf |- *. rewrite (proj2 (Z.ltb_ge _ _)) by lia. rewrite He by lia.
    cbn [mbind outcome_bind]. do 2 f_equal. lia.
Qed.
End trees.

(** ** The text is a byte string *)

Lemma bytes_ok_join xs : Forall bytes_ok xs -> bytes_ok (join (GG_STR ",") xs).
Proof.
  induction 1 as [|x xs Hx Hxs IH]; [constructor|]. destruct xs as [|y xs]; [done|].
  change (join (GG_STR ",") (x :: y :: xs)) with (x ++ GG_STR "," ++ join (GG_STR ",") (y :: xs)).
  apply bytes_ok_app. split; [done|]. apply bytes_ok_app. split; [|done]. by apply (bool_decide_unpack _); vm_compute.
Qed.

Lemma json_char_byte b : is_byte b -> bytes_ok (json_char b).
Proof.
  intros Hb. apply (bool_decide_unpack _). apply Is_true_true. revert b Hb. apply byte_cases. by vm_compute.
Qed.

Lemma json_string_bytes bs : bytes_ok bs -> bytes_ok (json_string bs).
Proof.
  intros Hok. unfold json_string. apply bytes_ok_app. split; [by apply (bool_decide_unpack _); vm_compute|].
  apply bytes_ok_app. split; [|by apply (bool_decide_unpack _); vm_compute].
  induction Hok as [|b bs Hb _ IH]; [constructor|]. cbn [fmap list_fmap concat].
  apply bytes_ok_app. split; [by apply json_char_byte|done].
Qed.

Lemma number_chars_bytes x : Forall (fun c => number_char c = true) x -> bytes_ok x.
Proof.
  intros H. eapply Forall_impl; [exact H|]. intros c. unfold number_char, is_dec, in_range, is_byte. lia.
Qed.

Lemma text_bytes format_f64 to_f64 m t : decodable format_f64 to_f64 m t -> bytes_ok (json_text format_f64 m t).
Proof.
  assert (forall s, bool_decide (bytes_ok (GG_STR s)) = true -> bytes_ok (GG_STR s)) as Hlit.
  { intros s H. by apply bool_decide_eq_true_1 in H. }
  induction t as [|b|z|z|b|p ts IH|p kvs IH] using otree_ind'; cbn [text_of decodable]; intros Hd.
  - by apply Hlit.
  - destruct b; by apply Hlit.
  - eapply number_chars_bytes, number_text_chars. by apply format_i64_number.
  - eapply number_chars_bytes, number_text_chars. apply Hd.
  - apply json_string_bytes, Hd.
  - apply foldr_Forall in Hd. apply bytes_ok_app. split; [by apply Hlit|]. apply bytes_ok_app.
    split; [|by apply Hlit]. apply bytes_ok_join, Forall_fmap. rewrite Forall_forall in IH, Hd |- *.
    intros t Ht. by apply IH, Hd.
  - apply foldr_Forall in Hd. apply bytes_ok_app. split; [by apply Hlit|]. apply bytes_ok_app.
    split; [|by apply Hlit]. apply bytes_ok_join, Forall_fmap. rewrite Forall_forall in IH, Hd |- *.
    intros kv Hkv. destruct (Hd _ Hkv) as [[Hk _] Hv]. cbn [compose].
    apply bytes_ok_app. split; [by apply json_string_bytes|]. apply bytes_ok_app.
    split; [by apply Hlit|by apply IH].
Qed.

(** ** Encoding, then decoding *)

(** A buffer, the free memory of an arena and an object apart from each other. *)
Definition workspace (m : mem) (buf : BufPtr) (a : GgArena) (dst : Z) : Prop :=
  0 <= data buf /\ 0 <= len buf /\ data buf + len buf <= SIZE_MAX /\ mapped m (data buf) (len buf) /\
  arena_ok a /\ mapped m (arena_mem a + index a) (free a) /\ dst <> NULL /\ mapped m dst sizeof_GgObject /\
  disj (data buf) (len buf) (arena_mem a + index a) (free a) /\
  disj dst sizeof_GgObject (data buf) (len buf) /\ disj dst sizeof_GgObject (arena_mem a + index a) (free a).

(** * Properties *)

(** C12: JSON round trip. An object within the limits on depth and subobjects,
    whose integers have at most 18 characters, is encoded into a buffer that has
    room for its text of at most 65535 bytes; decoding the buffer gives, when the
    arena has room for the arrays of the lists and maps, an object with the same
    value, except that maps are in canonical form; exactly the size of these
    arrays is taken from the arena. The strings must be UTF-8, and the text of a
    double has at most 25 characters and reads back as the double ([%#.17g] and
    [strtod] of the C library do so for finite ones); if the object is a double,
    what follows the buffer ends the number. Integers of 19 characters are
    excluded, since the encoder cuts their text (see [cut]). *)
Theorem json_roundtrip strtod to_f64 pruned format_f64 m0 m t obj buf a dst :
  strtod_reads strtod to_f64 -> 0 <= len pruned <= UINT16_MAX ->
  m0 ⊆ m -> obj_at m0 t obj -> within_limits t = true ->
  printable format_f64 m0 t -> decodable format_f64 to_f64 m0 t ->
  workspace m buf a dst -> (forall x, data buf <= x < data buf + len buf -> m0 !! x = None) ->
  let text := json_text format_f64 m0 t in
  zlen text <= len buf -> zlen text <= UINT16_MAX -> tree_size t <= free a ->
  (forall z, t = TF64 z -> ends_number m (data buf + zlen text)) ->
  exists m1 v m2 a' o,
    gg_json_encode gg_byte_vec_writer format_f64 obj (m, gg_byte_vec_init buf) = Some (GG_ERR_OK, (m1, v)) /\
    buf_bytes m1 (vbuf v) = Some text /\
    gg_json_decode_destructive strtod pruned m1 (vbuf v) (Some a) dst = Some (GG_ERR_OK, m2, Some a') /\
    free a' = free a - tree_size t /\
    read_obj m2 dst = Some o /\
    represents (used (data buf + zlen text) text [] a a') m2 (tree_value m0 t) o.
Proof.
  intros Hstrtod Hpruned Hm Hat Hw Hp Hd Hws Hb0 text Hfit Hmax Hsize Hend.
  destruct Hws as (Hb1 & Hb2 & Hb3 & Hbm & Ha & Ham & Hdst & Hdm & Hd1 & Hd2 & Hd3).
  set (vec := gg_byte_vec_init buf). pose proof (zlen_nonneg text) as Hzt.
  assert (forall s out room, aw_rel (w := gg_byte_vec_writer) (m, vec) s out room -> m0 ⊆ s.1) as Hframe.
  { apply vec_frame; [done|]. cbn. intros x Hx. apply Hb0. lia. }
  assert (vec_rel (m, vec) (m, vec) [] (len buf)) as Hinit.
  { replace (len buf) with (vcapacity vec - len (vbuf vec)) by (cbn; lia).
    apply vec_rel_init; cbn; [lia|lia|]. by rewrite Z.add_0_r, Z.sub_0_r. }
  destruct (gg_json_encode_prints gg_byte_vec_writer format_f64 m0 (m, vec) Hframe t obj Hat Hp) as [Hok _].
  destruct (Hok Hw _ _ _ Hinit) as [Hrun _]. destruct (Hrun Hfit) as ([m1 v] & He & Hr). fold text in Hr.
  destruct Hr as (_ & _ & _ & Hst & _ & _ & ->). cbn [vec gg_byte_vec_init vbuf data len vcapacity app] in *.
  rewrite Z.add_0_r in Hst. set (E := data buf + zlen text).
  pose proof (store_changes _ _ _ _ Hst) as Hc. pose proof (loadz_store_same _ _ _ _ Hst) as Hl.
  assert (mkBuf (data buf) (zlen text) = rest_buf E text) as Hbuf.
  { unfold rest_buf. f_equal. lia. }
  assert (ready m1 E text a) as Hready.
  { unfold ready. replace (E - zlen text) with (data buf) by lia. split_and!; [|lia|lia|lia|done| |].
    - split; [by replace (E - zlen text) with (data buf) by lia|]. split; [by eapply text_bytes|]. unfold SIZE_MAX in *. lia.
    - by eapply changes_mapped.
    - unfold disj in *. lia. }
  pose proof (parse_tree format_f64 to_f64 m0 t [] Hd I) as Hparse. rewrite app_nil_r in Hparse. fold text in Hparse.
  destruct (json_decode_run strtod to_f64 pruned Hstrtod Hpruned m1 E text a dst) as (err & m2 & a' & Hdec & _ & Hres).
  - done.
  - done.
  - by eapply changes_mapped.
  - unfold disj in *. replace (E - zlen text) with (data buf) by lia. lia.
  - done.
  - intros s r Hs. rewrite Hparse in Hs. injection Hs as <- <-. destruct t as [|[]|z|z| | |]; try done. cbn [tree_syn ends].
    destruct (Hend z eq_refl) as (c & Hcc & Hn). exists c. split; [|done]. rewrite <- Hcc.
    change (zlen (skip_ws [])) with 0. replace (E - 0) with (data buf + zlen text) by lia. apply Hc. unfold zrange. lia.
  - unfold json_value in Hres. rewrite Hparse, (eval_tree format_f64 to_f64 m0 t) in Hres by done.
    cbn [mbind outcome_bind] in Hres. rewrite bool_decide_true in Hres by done.
    destruct Hres as (-> & _ & Hf & o & Ho & Hrep). rewrite <- Hbuf in Hdec.
    exists m1, (mkByteVec (mkBuf (data buf) (zlen text)) (len buf)), m2, a', o.
    split_and!; [exact He|exact Hl|exact Hdec|done|done|exact Hrep].
Qed.

(** The list of a string, with a letter beyond ASCII and a double quote, and -5. *)
Definition rt_tree : otree := TList 200 [TBuf (mkBuf 10 3); TI64 (-5)].
Definition rt_mem : mem :=
  put (put (put ∅ 10 [0xC3; 0xA9; 34]) 100 (default [] (gg_obj_list (mkList 200 2))))
    200 (default [] (gg_obj_buf (mkBuf 10 3)) ++ gg_obj_i64 (-5)).
Definition rt_space : mem := put (put (put rt_mem 1000 (repeat 0 20)) 2000 (repeat 0 30)) 3000 (repeat 0 11).

Lemma rt_mem_low x : 1000 <= x -> rt_mem !! x = None.
Proof.
  intros Hx. unfold rt_mem. rewrite put_lookup. unfold over. rewrite decide_False by (vm_compute zlen; lia).
  rewrite put_lookup. unfold over. rewrite decide_False by (vm_compute zlen; lia).
  rewrite put_lookup. unfold over. by rewrite decide_False by (vm_compute zlen; lia).
Qed.

Lemma rt_space_mapped a n bs : loadz rt_space a n = Some bs -> mapped rt_space a n.
Proof. apply loadz_is_mapped. Qed.

Lemma json_roundtrip_witness :
  exists m1 v m2 a' o,
    gg_json_encode gg_byte_vec_writer (fun _ => []) 100 (rt_space, gg_byte_vec_init (mkBuf 1000 20)) =
      Some (GG_ERR_OK, (m1, v)) /\
    buf_bytes m1 (vbuf v) = Some [91; 34; 0xC3; 0xA9; 92; 34; 34; 44; 45; 53; 93] /\
    gg_json_decode_destructive scan_strtod (mkBuf 500 8) m1 (vbuf v) (Some (mkArena 2000 30 0)) 3000 =
      Some (GG_ERR_OK, m2, Some a') /\
    free a' = 8 /\ read_obj m2 3000 = Some o /\
    represents (used 1011 [91; 34; 0xC3; 0xA9; 92; 34; 34; 44; 45; 53; 93] [] (mkArena 2000 30 0) a') m2
      (JArr [JStr [0xC3; 0xA9; 34]; JI64 (-5)]) o.
Proof.
  apply (json_roundtrip scan_strtod scan_value (mkBuf 500 8) (fun _ => []) rt_mem rt_space rt_tree 100
    (mkBuf 1000 20) (mkArena 2000 30 0) 3000).
  - apply scan_strtod_reads.
  - split; by vm_compute.
  - apply (bool_decide_unpack _). by vm_compute.
  - apply obj_at_list. split; [by vm_compute|]. cbn [items_at]. split_and!; by vm_compute.
  - done.
  - cbn. split; [by eexists|]. split; [by vm_compute|done].
  - cbn [decodable foldr rt_tree]. split; [split; [apply (bool_decide_unpack _); by vm_compute|by vm_compute]|].
    split; [unfold in_int64, INT64_MIN, INT64_MAX; lia|done].
  - unfold workspace. split_and!; try by vm_compute.
    + by eapply (rt_space_mapped _ _ (repeat 0 20)); vm_compute.
    + by eapply (rt_space_mapped _ _ (repeat 0 30)); vm_compute.
    + by eapply (rt_space_mapped _ _ (repeat 0 11)); vm_compute.
    + left. by vm_compute.
    + right. by vm_compute.
    + right. by vm_compute.
  - intros x Hx. apply rt_mem_low. cbn in Hx. lia.
  - by vm_compute.
  - by vm_compute.
  - by vm_compute.
  - done.
Defined.
