(* ===== verification/File.v ===== *)
(** Files ([src/file.c]): whole reads and writes over partial ones, and the
    opening of paths one component at a time.

    The system calls are the parameter [Os] of the definitions. Calls that are
    interrupted by a signal are repeated; a definition repeats a call at most
    [retries] times in a row and is [Stuck] after that, so a theorem assumes
    that the system interrupts a call at most so often. *)

From S2P Require Import Prelude Memory Buffer Io.

(** ** The system *)

Inductive errno :=
  | EINTR | EAGAIN | ECONNRESET | EPIPE | EROFS | EINVAL | ENOENT | E_OTHER.

#[export] Instance errno_eq_dec : EqDecision errno.
Proof. solve_decision. Defined.

(** The system calls, over the states [W] of the system. A negative return
    value with [errno] is [inl]. *)
Record Os (W : Type) := mkOs {
  sys_read : Z -> Z -> W -> (errno + bytes) * W;
  sys_write : Z -> bytes -> W -> (errno + Z) * W;
  sys_close : Z -> W -> (errno + unit) * W;
  sys_fsync : Z -> W -> (errno + unit) * W;
  sys_open : bytes -> Z -> W -> (errno + Z) * W;
  sys_openat : Z -> bytes -> Z -> Z -> W -> (errno + Z) * W;
  sys_mkdirat : Z -> bytes -> Z -> W -> (errno + unit) * W;
  (** [st_size] of [fstat] *)
  sys_fstat : Z -> W -> (errno + Z) * W;
}.
Arguments sys_read {W}. Arguments sys_write {W}. Arguments sys_close {W}. Arguments sys_fsync {W}.
Arguments sys_open {W}. Arguments sys_openat {W}. Arguments sys_mkdirat {W}. Arguments sys_fstat {W}.

(** The constants of the C library used, for Linux. *)
Definition NAME_MAX : Z := 255.
Definition O_RDONLY : Z := 0.
Definition O_CREAT : Z := 0x40.
Definition O_DIRECTORY : Z := 0x10000.
Definition O_CLOEXEC : Z := 0x80000.
Definition O_PATH : Z := 0x200000.

(** ** Paths *)

(** Splits a buffer to the part before the first slash and the part after. *)
Fixpoint split_first_loop (path : bytes) (n : nat) (i : Z) : outcome (bool * bytes * bytes) :=
  match n with
  | O => Ok (false, path, gg_buffer_substr path (zlen path) SIZE_MAX)
  | S n =>
      c ← get (rd path i);
      if c =? 47
      then Ok (true, gg_buffer_substr path 0 i, gg_buffer_substr path (i + 1) SIZE_MAX)
      else split_first_loop path n (i + 1)
  end.

(** The result, [*comp] and [*rest]. *)
Definition split_path_first_comp (path : bytes) : outcome (bool * bytes * bytes) :=
  split_first_loop path (length path) 0.

Fixpoint split_last_loop (path : bytes) (i : nat) : outcome (bool * bytes * bytes) :=
  match i with
  | O => Ok (false, gg_buffer_substr path 0 0, path)
  | S i' =>
      c ← get (rd path (Z.of_nat i'));
      if c =? 47
      then Ok (true, gg_buffer_substr path 0 (Z.of_nat i'), gg_buffer_substr path (Z.of_nat i) SIZE_MAX)
      else split_last_loop path i'
  end.

(** The result, [*prefix] and [*comp]. *)
Definition split_path_last_comp (path : bytes) : outcome (bool * bytes * bytes) :=
  split_last_loop path (length path).

(** The loop, on the first [n] bytes of the path. *)
Fixpoint strip_loop (path : bytes) (n : nat) : outcome bytes :=
  match n with
  | O => Ok []
  | S n' =>
      c ← get (rd path (Z.of_nat n'));
      if c =? 47 then strip_loop path n' else Ok (ztake (Z.of_nat n) path)
  end.

Definition strip_trailing_slashes (path : bytes) : outcome bytes := strip_loop path (length path).

(** The contents of [path_comp_buf], as the string the system reads from it:
    the component up to its first NUL byte. The copy needs a byte more than
    the component. *)
Fixpoint c_string (bs : bytes) : bytes :=
  match bs with
  | [] => []
  | b :: bs => if b =? 0 then [] else b :: c_string bs
  end.

Definition path_comp_buf (comp : bytes) : outcome bytes :=
  _ ← gg_assert (zlen comp + 1 <=? NAME_MAX + 1);
  Ok (c_string comp).

(** ** Computations on the system *)

Definition sysm (W A : Type) : Type := W -> outcome A * W.

#[export] Instance sysm_ret {W} : MRet (sysm W) := fun A a w => (Ok a, w).
#[export] Instance sysm_bind {W} : MBind (sysm W) := fun A B k c w =>
  match c w with
  | (Ok a, w) => k a w
  | (Fail e, w) => (Fail e, w)
  | (Stuck, w) => (Stuck, w)
  end.

Definition fail {W A} (e : GgError) : sysm W A := fun w => (Fail e, w).
Definition lift_out {W A} (o : outcome A) : sysm W A := fun w => (o, w).

(** The error a computation ends with is handed on. *)
Definition attempt {W A} (c : sysm W A) : sysm W (GgError + A) := fun w =>
  match c w with
  | (Ok a, w) => (Ok (inr a), w)
  | (Fail e, w) => (Ok (inl e), w)
  | (Stuck, w) => (Stuck, w)
  end.

Section file.
Context {W : Type} (os : Os W) (retries : nat).

(** [do { ... } while ((ret < 0) && (errno == EINTR))] *)
Fixpoint eintr_loop {A} (n : nat) (call : W -> (errno + A) * W) (w : W) : outcome (errno + A) * W :=
  match call w with
  | (inl EINTR, w) => match n with O => (Stuck, w) | S n => eintr_loop n call w end
  | (r, w) => (Ok r, w)
  end.

(** ** Descriptors *)

Definition gg_close (fd : Z) : sysm W unit := fun w =>
  match sys_close os fd w with
  | (inr _, w) | (inl EINTR, w) => (Ok tt, w)
  | (inl _, w) => (Fail GG_ERR_FAILURE, w)
  end.

(** [GG_CLEANUP(cleanup_close, fd)]: [fd] is closed when [c] is done. *)
Definition cleanup_close {A} (fd : Z) (c : sysm W A) : sysm W A := fun w =>
  let '(r, w) := c w in (r, if 0 <=? fd then (gg_close fd w).2 else w).

Definition gg_fsync (fd : Z) : sysm W unit :=
  r ← eintr_loop retries (sys_fsync os fd);
  match r with
  | inr _ | inl EROFS | inl EINVAL => mret tt
  | inl _ => fail GG_ERR_FAILURE
  end.

(** The descriptor, or [errno]. *)
Definition openat_wrapper (dirfd : Z) (pathname : bytes) (flags mode : Z) : sysm W (errno + Z) :=
  eintr_loop retries (sys_openat os dirfd pathname flags mode).

(** [errno] in place of [GG_ERR_FAILURE]: a caller looks at it. *)
Definition gg_openat (dirfd : Z) (pathname : bytes) (flags mode : Z) : sysm W (errno + Z) :=
  eintr_loop retries (sys_openat os dirfd pathname flags mode).

Definition copy_dir_fd (dirfd flags : Z) : sysm W Z :=
  r ← openat_wrapper dirfd (GG_STR ".") (Z.lor (Z.lor O_CLOEXEC O_DIRECTORY) flags) 0;
  match r with
  | inl _ => fail GG_ERR_FAILURE
  | inr fd => mret fd
  end.

Definition gg_mkdirat (dirfd : Z) (pathname : bytes) (mode : Z) : sysm W unit :=
  parent_fd ← copy_dir_fd dirfd O_RDONLY;
  cleanup_close parent_fd (
    r ← eintr_loop retries (sys_mkdirat os parent_fd pathname mode);
    match r with
    | inl _ => fail GG_ERR_FAILURE
    | inr _ => gg_fsync parent_fd
    end).

Definition gg_dir_openat_mkdir (dirfd : Z) (pathname : bytes) (flags mode : Z) : sysm W Z :=
  r ← gg_openat dirfd pathname flags 0;
  match r with
  | inl ENOENT =>
      _ ← gg_mkdirat dirfd pathname mode;
      r ← gg_openat dirfd pathname flags 0;
      match r with
      | inl _ => fail GG_ERR_FAILURE
      | inr fd => mret fd
      end
  | inl _ => fail GG_ERR_FAILURE
  | inr fd => mret fd
  end.

(** One component of a path: both branches of [create]. *)
Definition open_component (cur_fd : Z) (comp : bytes) (flags : Z) (create : bool) : sysm W Z :=
  name ← lift_out (path_comp_buf comp);
  r ← (if create then attempt (gg_dir_openat_mkdir cur_fd name (Z.lor (Z.lor O_CLOEXEC O_DIRECTORY) flags) 493)
       else r ← gg_openat cur_fd name (Z.lor (Z.lor O_CLOEXEC O_DIRECTORY) flags) 0;
            mret (match r with inl _ => inl GG_ERR_FAILURE | inr fd => inr fd end));
  match r with
  | inl _ => fail GG_ERR_FAILURE
  | inr fd => mret fd
  end.

(** The loop of [gg_dir_openat] and what follows it; every iteration consumes
    a slash of [rest]. [cur_fd] is closed on every way out. *)
Fixpoint dir_loop (fuel : nat) (cur_fd : Z) (rest : bytes) (flags : Z) (create : bool) : sysm W Z :=
  match fuel with
  | O => lift_out Stuck
  | S fuel =>
      '(more, comp, rest) ← lift_out (split_path_first_comp rest);
      if (more : bool) then
        if zlen comp =? 0 then dir_loop fuel cur_fd rest flags create else
        r ← attempt (if NAME_MAX <? zlen comp then fail GG_ERR_RANGE
                     else open_component cur_fd comp O_PATH create);
        match r with
        | inl e => cleanup_close cur_fd (fail e)
        | inr new_fd =>
            _ ← attempt (gg_close cur_fd);
            dir_loop fuel new_fd rest flags create
        end
      else
        cleanup_close cur_fd (
          if NAME_MAX <? zlen comp then fail GG_ERR_NOMEM
          else open_component cur_fd comp flags create)
  end.

Definition gg_dir_openat (dirfd : Z) (path : bytes) (flags : Z) (create : bool) : sysm W Z :=
  rest ← lift_out (strip_trailing_slashes path);
  cur_fd ← copy_dir_fd dirfd O_PATH;
  dir_loop (S (length rest)) cur_fd rest flags create.

(** [open("/", ...)] or [open(".", ...)] *)
Definition open_base (absolute : bool) (flags : Z) : sysm W Z := fun w =>
  match sys_open os (if absolute then GG_STR "/" else GG_STR ".") flags w with
  | (inl _, w) => (Fail GG_ERR_FAILURE, w)
  | (inr fd, w) => (Ok fd, w)
  end.

(** Whether a path is absolute, and the path without its first slash. *)
Definition relative_path (path : bytes) : outcome (bool * bytes) :=
  c ← get (rd path 0);
  Ok (if c =? 47 then (true, gg_buffer_substr path 1 SIZE_MAX) else (false, path)).

Definition gg_dir_open (path : bytes) (flags : Z) (create : bool) : sysm W Z :=
  if zlen path =? 0 then fail GG_ERR_INVALID else
  '(absolute, rel_path) ← lift_out (relative_path path);
  rel_path ← lift_out (strip_trailing_slashes rel_path);
  if zlen rel_path =? 0 then
    if negb absolute then fail GG_ERR_INVALID
    else open_base true (Z.lor (Z.lor O_CLOEXEC O_DIRECTORY) flags)
  else
    base_fd ← open_base absolute
                (Z.lor (Z.lor O_CLOEXEC O_DIRECTORY) (if create then O_RDONLY else O_PATH));
    cleanup_close base_fd (gg_dir_openat base_fd rel_path flags create).

Definition gg_file_openat (dirfd : Z) (path : bytes) (flags mode : Z) : sysm W Z :=
  '(has_dir, dir, file) ← lift_out (split_path_last_comp path);
  cur_fd ← (if has_dir : bool
            then gg_dir_openat dirfd dir O_PATH (0 <? Z.land flags O_CREAT)
            else copy_dir_fd dirfd O_PATH);
  cleanup_close cur_fd (
    if NAME_MAX <? zlen file then fail GG_ERR_NOMEM else
    name ← lift_out (path_comp_buf file);
    r ← gg_openat cur_fd name (Z.lor O_CLOEXEC flags) mode;
    match r with
    | inl _ => fail GG_ERR_FAILURE
    | inr fd => mret fd
    end).

Definition gg_file_open (path : bytes) (flags mode : Z) : sysm W Z :=
  if zlen path =? 0 then fail GG_ERR_INVALID else
  '(absolute, rel_path) ← lift_out (relative_path path);
  if zlen rel_path =? 0 then fail GG_ERR_INVALID else
  base_fd ← open_base absolute (Z.lor (Z.lor O_CLOEXEC O_DIRECTORY) O_PATH);
  cleanup_close base_fd (gg_file_openat base_fd rel_path flags mode).

(** ** Reading and writing *)

(** The error, the system, the memory and [*buf]. *)
Definition gg_file_read_partial (fd : Z) (w : W) (m : mem) (buf : BufPtr)
    : option (GgError * W * mem * BufPtr) :=
  match sys_read os fd (len buf) w with
  | (inl EINTR, w) => Some (GG_ERR_RETRY, w, m, buf)
  | (inl EAGAIN, w) => Some (GG_ERR_FAILURE, w, m, buf)
  | (inl ECONNRESET, w) => Some (GG_ERR_NODATA, w, m, buf)
  | (inl _, w) => Some (GG_ERR_FAILURE, w, m, buf)
  | (inr bs, w) =>
      m ← store m (data buf) bs;
      if zlen bs =? 0 then Some (GG_ERR_NODATA, w, m, buf)
      else Some (GG_ERR_OK, w, m, gg_buffer_substr_ptr buf (zlen bs) SIZE_MAX)
  end.

(** The loop: an iteration reads something or was interrupted. *)
Fixpoint read_loop (fuel : nat) (fd : Z) (buf : BufPtr) (w : W) (m : mem) (rest : BufPtr)
    : option (GgError * W * mem * BufPtr) :=
  if len rest <=? 0 then Some (GG_ERR_OK, w, m, buf) else
  match fuel with
  | O => None
  | S fuel =>
      '(ret, w, m, rest) ← gg_file_read_partial fd w m rest;
      match ret with
      | GG_ERR_NODATA => Some (GG_ERR_OK, w, m, mkBuf (data buf) (uwrap 64 (data rest - data buf)))
      | GG_ERR_RETRY | GG_ERR_OK => read_loop fuel fd buf w m rest
      | _ => Some (ret, w, m, buf)
      end
  end.

Definition gg_file_read (fd : Z) (w : W) (m : mem) (buf : BufPtr)
    : option (GgError * W * mem * BufPtr) :=
  read_loop (retries + Z.to_nat (len buf)) fd buf w m buf.

Definition gg_file_read_exact (fd : Z) (w : W) (m : mem) (buf : BufPtr)
    : option (GgError * W * mem) :=
  '(ret, w, m, copy) ← gg_file_read fd w m buf;
  if negb (bool_decide (ret = GG_ERR_OK)) then Some (ret, w, m) else
  Some (if len buf =? len copy then GG_ERR_OK else GG_ERR_NODATA, w, m).

Definition gg_file_write_partial (fd : Z) (w : W) (buf : bytes) : GgError * W * bytes :=
  match sys_write os fd buf w with
  | (inl EINTR, w) => (GG_ERR_RETRY, w, buf)
  | (inl EAGAIN, w) => (GG_ERR_FAILURE, w, buf)
  | (inl EPIPE, w) | (inl ECONNRESET, w) => (GG_ERR_NOCONN, w, buf)
  | (inl _, w) => (GG_ERR_FAILURE, w, buf)
  | (inr n, w) => (GG_ERR_OK, w, gg_buffer_substr buf n SIZE_MAX)
  end.

Fixpoint write_loop (fuel : nat) (fd : Z) (w : W) (rest : bytes) : option (GgError * W) :=
  if zlen rest <=? 0 then Some (GG_ERR_OK, w) else
  match fuel with
  | O => None
  | S fuel =>
      let '(ret, w, rest) := gg_file_write_partial fd w rest in
      match ret with
      | GG_ERR_RETRY | GG_ERR_OK => write_loop fuel fd w rest
      | _ => Some (ret, w)
      end
  end.

Definition gg_file_write (fd : Z) (w : W) (buf : bytes) : option (GgError * W) :=
  write_loop (retries + length buf) fd w buf.

(** The error, the system, the memory and [*content]. *)
Definition gg_file_read_path_at (dirfd : Z) (path : bytes) (w : W) (m : mem) (content : BufPtr)
    : option (GgError * W * mem * BufPtr) :=
  match gg_file_openat dirfd path O_RDONLY 0 w with
  | (Stuck, _) => None
  | (Fail ret, w) => Some (ret, w, m, content)
  | (Ok fd, w) =>
      '(ret, w, m, content) ←
        match sys_fstat os fd w with
        | (inl _, w) => Some (GG_ERR_FAILURE, w, m, content)
        | (inr st_size, w) =>
            let file_size := uwrap 64 st_size in
            if len content <? file_size then Some (GG_ERR_NOMEM, w, m, content) else
            let buf := mkBuf (data content) file_size in
            '(ret, w, m) ← gg_file_read_exact fd w m buf;
            Some (ret, w, m, if bool_decide (ret = GG_ERR_OK) then buf else content)
        end;
      Some (ret, (gg_close fd w).2, m, content)
  end.

Definition gg_file_read_path (path : bytes) (w : W) (m : mem) (content : BufPtr)
    : option (GgError * W * mem * BufPtr) :=
  if zlen path =? 0 then Some (GG_ERR_INVALID, w, m, content) else
  match relative_path path with
  | Ok (absolute, rel_path) =>
      if zlen rel_path =? 0 then Some (GG_ERR_INVALID, w, m, content) else
      match open_base absolute (Z.lor (Z.lor O_CLOEXEC O_DIRECTORY) O_PATH) w with
      | (Ok base_fd, w) =>
          '(ret, w, m, content) ← gg_file_read_path_at base_fd rel_path w m content;
          Some (ret, (gg_close base_fd w).2, m, content)
      | (Fail ret, w) => Some (ret, w, m, content)
      | (Stuck, _) => None
      end
  | _ => None
  end.
End file.

(** ** Descriptors as streams

    The documented behaviour of [read] and [write] on a descriptor: a call may
    be interrupted, here at most [k] more times; [read] gives some of the bytes
    that are next, and none only at the end, which a socket may also report as
    a reset; [write] takes some of the bytes. *)

Class FdReads {W} (os : Os W) (fd : Z) := {
  (** the bytes still to come, and how many interruptions *)
  fr_rel : W -> bytes -> nat -> Prop;
  fr_read : forall w bs k n, fr_rel w bs k -> 0 < n ->
    (exists w' k', sys_read os fd n w = (inl EINTR, w') /\ k = S k' /\ fr_rel w' bs k') \/
    (exists w' got rest, sys_read os fd n w = (inr got, w') /\ bs = got ++ rest /\ zlen got <= n /\
       (got = [] -> bs = []) /\ fr_rel w' rest k) \/
    (exists w', sys_read os fd n w = (inl ECONNRESET, w') /\ bs = [] /\ fr_rel w' bs k);
}.

Class FdWrites {W} (os : Os W) (fd : Z) := {
  (** the bytes written so far, and how many interruptions to come *)
  fw_rel : W -> bytes -> nat -> Prop;
  fw_write : forall w out k bs, fw_rel w out k -> bs <> [] ->
    (exists w' k', sys_write os fd bs w = (inl EINTR, w') /\ k = S k' /\ fw_rel w' out k') \/
    (exists w' n, sys_write os fd bs w = (inr n, w') /\ 0 < n <= zlen bs /\ fw_rel w' (out ++ ztake n bs) k);
}.

Section reads.
Context {W : Type} (os : Os W) (retries : nat) (fd : Z) `{!FdReads os fd}.

(** What is left of the buffer after [done] bytes. *)
Definition after (b : BufPtr) (n : Z) : BufPtr := mkBuf (data b + n) (len b - n).

Lemma read_loop_fills fuel b w m n bs k :
  fr_rel w bs k -> 0 <= n <= len b -> len b <= SIZE_MAX -> mapped m (data b) (len b) ->
  Z.of_nat k + (len b - n) <= Z.of_nat fuel ->
  exists w' m' k', read_loop os fuel fd b w m (after b n) =
      Some (GG_ERR_OK, w', m', mkBuf (data b) (Z.min (len b) (n + zlen bs))) /\
    store m (data b + n) (ztake (len b - n) bs) = Some m' /\
    fr_rel w' (zdrop (len b - n) bs) k' /\ (k' <= k)%nat.
Proof.
  revert w m n bs k. induction fuel as [|fuel IH]; intros w m n bs k Hr Hn Hmax Hm Hf; cbn [read_loop after len].
  - rewrite (proj2 (Z.leb_le _ _)) by lia. exists w, m, k. replace (len b - n) with 0 by lia.
    change (ztake 0 bs) with (@nil Z). change (zdrop 0 bs) with bs. split_and!; [|apply store_nil|done|done].
    rewrite Z.min_l by zlen_lia. by destruct b.
  - destruct (Z.leb_spec (len b - n) 0) as [Hle|Hgt].
    + exists w, m, k. replace (len b - n) with 0 by lia.
      change (ztake 0 bs) with (@nil Z). change (zdrop 0 bs) with bs. split_and!; [|apply store_nil|done|done].
      rewrite Z.min_l by zlen_lia. by destruct b.
    + unfold gg_file_read_partial, after. cbn [len data].
      destruct (fr_read _ _ _ (len b - n) Hr Hgt) as [(w1 & k1 & -> & -> & Hr1)|
        [(w1 & got & rest & -> & -> & Hgot & Hnil & Hr1)|(w1 & -> & -> & Hr1)]].
      * cbn [mbind option_bind]. destruct (IH w1 m n bs k1) as (w' & m' & k' & H1 & H2 & H3 & H4); [done..|lia|].
        exists w', m', k'. split_and!; [done..|lia].
      * destruct (store_Some m (data b + n) got) as [m1 Hs]; [intros x Hx; apply Hm; lia|].
        rewrite Hs. cbn [mbind option_bind]. case_if.
        -- assert (got = []) as -> by by apply zlen_zero. specialize (Hnil eq_refl). simpl in Hnil. subst rest.
           cbn [mbind option_bind data]. exists w1, m1, k. cbn [app]. rewrite zlen_nil, ztake_nil, zdrop_nil.
           replace (data b + n - data b) with n by lia. rewrite uwrap_small by (unfold SIZE_MAX in *; lia).
           rewrite Z.add_0_r, Z.min_r by lia. split_and!; [done..|by rewrite store_nil in *|done|done].
        -- cbn [mbind option_bind]. pose proof (zlen_nonneg got).
           rewrite substr_ptr_rest by (cbn [len]; lia). cbn [data len].
           replace (mkBuf (data b + n + zlen got) (len b - n - zlen got)) with (after b (n + zlen got))
             by (unfold after; f_equal; lia).
           destruct (IH w1 m1 (n + zlen got) rest k) as (w' & m' & k' & H1 & H2 & H3 & H4);
             [done|lia|done|by apply (store_mapped _ _ _ _ _ _ Hs)|lia|].
           exists w', m', k'. rewrite H1, zlen_app.
           replace (n + (zlen got + zlen rest)) with (n + zlen got + zlen rest) by lia.
           replace (ztake (len b - n) (got ++ rest)) with (got ++ ztake (len b - (n + zlen got)) rest).
           2: { rewrite ztake_app_r by lia. do 2 f_equal. lia. }
           rewrite zdrop_app_r by lia. replace (len b - n - zlen got) with (len b - (n + zlen got)) by lia.
           split_and!; [done| |done|done]. rewrite store_app, Hs. cbn [mbind option_bind].
           by replace (data b + n + zlen got) with (data b + (n + zlen got)) by lia.
      * cbn [mbind option_bind data]. exists w1, m, k. rewrite zlen_nil, ztake_nil, zdrop_nil.
        replace (data b + n - data b) with n by lia. rewrite uwrap_small by (unfold SIZE_MAX in *; lia).
        rewrite Z.add_0_r, Z.min_r by lia. split_and!; [done|apply store_nil|done|done].
Qed.

Lemma file_read_fills b w m bs k :
  fr_rel w bs k -> (k <= retries)%nat -> 0 <= len b <= SIZE_MAX -> mapped m (data b) (len b) ->
  exists w' m' k', gg_file_read os retries fd w m b =
      Some (GG_ERR_OK, w', m', mkBuf (data b) (Z.min (len b) (zlen bs))) /\
    store m (data b) (ztake (len b) bs) = Some m' /\
    fr_rel w' (zdrop (len b) bs) k' /\ (k' <= retries)%nat.
Proof.
  intros Hr Hk Hl Hm. unfold gg_file_read.
  destruct (read_loop_fills (retries + Z.to_nat (len b)) b w m 0 bs k) as (w' & m' & k' & H1 & H2 & H3 & H4);
    [done|lia|lia|done|lia|].
  unfold after in H1. rewrite Z.add_0_r, Z.sub_0_r, Z.add_0_l in *.
  exists w', m', k'. destruct b. split_and!; [done..|lia].
Qed.

(** C19: Reading from a descriptor that delivers a stream of bytes in pieces, with
    interruptions, fills the buffer with the next bytes of the stream, as many
    as fit, and reports how many there were; a read of an exact length
    succeeds when the stream has that many bytes and is [GG_ERR_NODATA] when it
    ends before. Nothing outside of the buffer is written, no byte is lost. *)
Theorem file_read_exact b w m bs k :
  fr_rel w bs k -> (k <= retries)%nat -> 0 <= len b <= SIZE_MAX -> mapped m (data b) (len b) ->
  exists w' m' k',
    gg_file_read os retries fd w m b =
      Some (GG_ERR_OK, w', m', mkBuf (data b) (Z.min (len b) (zlen bs))) /\
    gg_file_read_exact os retries fd w m b =
      Some (if len b <=? zlen bs then GG_ERR_OK else GG_ERR_NODATA, w', m') /\
    store m (data b) (ztake (len b) bs) = Some m' /\ fr_rel w' (zdrop (len b) bs) k'.
Proof.
  intros Hr Hk Hl Hm. destruct (file_read_fills b w m bs k Hr Hk Hl Hm) as (w' & m' & k' & H1 & H2 & H3 & _).
  exists w', m', k'. split_and!; [done| |done|done]. unfold gg_file_read_exact. rewrite H1.
  cbn [mbind option_bind len]. rewrite bool_decide_true by done. cbn [negb]. do 3 f_equal.
  repeat case_if; try done; lia.
Qed.
End reads.

Section writes.
Context {W : Type} (os : Os W) (retries : nat) (fd : Z) `{!FdWrites os fd}.

Lemma write_loop_all fuel w out k bs :
  fw_rel w out k -> zlen bs <= SIZE_MAX -> Z.of_nat k + zlen bs <= Z.of_nat fuel ->
  exists w' k', write_loop os fuel fd w bs = Some (GG_ERR_OK, w') /\ fw_rel w' (out ++ bs) k' /\ (k' <= k)%nat.
Proof.
  revert w out k bs. induction fuel as [|fuel IH]; intros w out k bs Hw Hmax Hf; cbn [write_loop].
  - pose proof (zlen_nonneg bs). assert (bs = []) as -> by (apply zlen_zero; lia).
    exists w, k. by rewrite app_nil_r.
  - destruct (Z.leb_spec (zlen bs) 0) as [Hle|Hgt].
    + pose proof (zlen_nonneg bs). assert (bs = []) as -> by (apply zlen_zero; lia).
      exists w, k. by rewrite app_nil_r.
    + unfold gg_file_write_partial. destruct (fw_write w out k bs Hw) as [(w1 & k1 & -> & -> & Hw1)|
        (w1 & n & -> & Hn & Hw1)]; [by intros ->| |].
      * destruct (IH w1 out k1 bs) as (w' & k' & H1 & H2 & H3); [done..|lia|]. exists w', k'. split_and!; [done..|lia].
      * rewrite gg_buffer_substr_spec by lia. destruct (IH w1 (out ++ ztake n bs) k (ztake (SIZE_MAX - n) (zdrop n bs)))
          as (w' & k' & H1 & H2 & H3); [done| | |].
        { zlen_lia. } { zlen_lia. }
        exists w', k'. split_and!; [done| |done]. rewrite (ztake_all (SIZE_MAX - n)) in H2 by zlen_lia.
        by rewrite <- app_assoc, ztake_zdrop in H2.
Qed.

(** C20: Writing to a descriptor that takes a part of the bytes at a time, with
    interruptions, writes all of them, in order and once. *)
Theorem file_write_all w out k bs :
  fw_rel w out k -> (k <= retries)%nat -> zlen bs <= SIZE_MAX ->
  exists w' k', gg_file_write os retries fd w bs = Some (GG_ERR_OK, w') /\ fw_rel w' (out ++ bs) k'.
Proof.
  intros Hw Hk Hmax. destruct (write_loop_all (retries + length bs) w out k bs Hw Hmax) as (w' & k' & H1 & H2 & _).
  { unfold zlen. lia. }
  by exists w', k'.
Qed.
End writes.

(** *** An example: two bytes per read, three per write, with interruptions *)

Definition piece_os : Os (nat * bytes) := {|
  sys_read := fun _ n '(k, bs) => match k with
    | O => (inr (ztake (Z.min n 2) bs), (O, zdrop (Z.min n 2) bs))
    | S k => (inl EINTR, (k, bs)) end;
  sys_write := fun _ bs '(k, out) => match k with
    | O => (inr (Z.min 3 (zlen bs)), (O, out ++ ztake (Z.min 3 (zlen bs)) bs))
    | S k => (inl EINTR, (k, out)) end;
  sys_close := fun _ w => (inr tt, w);
  sys_fsync := fun _ w => (inr tt, w);
  sys_open := fun _ _ w => (inr 5, w);
  sys_openat := fun _ _ _ _ w => (inr 6, w);
  sys_mkdirat := fun _ _ _ w => (inr tt, w);
  sys_fstat := fun _ w => (inr 0, w);
|}.

#[export] Program Instance piece_reads fd : FdReads piece_os fd := {
  fr_rel := fun w bs k => w = (k, bs);
}.
Next Obligation.
  intros fd w bs k n -> Hn. destruct k as [|k].
  - right; left. exists (O, zdrop (Z.min n 2) bs), (ztake (Z.min n 2) bs), (zdrop (Z.min n 2) bs).
    split_and!; [done|by rewrite ztake_zdrop|zlen_lia| |done].
    intros H%(f_equal zlen). rewrite zlen_nil, zlen_take in H. apply zlen_zero. pose proof (zlen_nonneg bs). lia.
  - left. by exists (k, bs), k.
Qed.

#[export] Program Instance piece_writes fd : FdWrites piece_os fd := {
  fw_rel := fun w out k => w = (k, out);
}.
Next Obligation.
  intros fd w out k bs -> Hn. destruct k as [|k].
  - right. eexists _, (Z.min 3 (zlen bs)). split_and!; [done| |lia|done].
    assert (zlen bs <> 0) by (intros H; by apply Hn, zlen_zero). pose proof (zlen_nonneg bs). lia.
  - left. by exists (k, out), k.
Qed.

Lemma file_read_exact_witness :
  exists w' m' k', gg_file_read piece_os 3 0 (3%nat, GG_STR "hello") (zeroed 100 8) (mkBuf 100 8) =
      Some (GG_ERR_OK, w', m', mkBuf 100 5) /\
    gg_file_read_exact piece_os 3 0 (3%nat, GG_STR "hello") (zeroed 100 8) (mkBuf 100 8) =
      Some (GG_ERR_NODATA, w', m') /\
    store (zeroed 100 8) 100 (GG_STR "hello") = Some m' /\ w' = (k', []).
Proof.
  destruct (file_read_exact piece_os 3 0 (mkBuf 100 8) (3%nat, GG_STR "hello") (zeroed 100 8) (GG_STR "hello") 3)
    as (w' & m' & k' & H1 & H2 & H3 & H4).
  - done.
  - lia.
  - unfold SIZE_MAX. cbn [len]. lia.
  - apply zeroed_mapped.
  - exists w', m', k'. split_and!; [exact H1|exact H2|exact H3|exact H4].
Defined.

Lemma file_write_all_witness :
  exists w' k', gg_file_write piece_os 3 0 (2%nat, []) (GG_STR "hello") = Some (GG_ERR_OK, w') /\
    w' = (k', GG_STR "hello").
Proof.
  destruct (file_write_all piece_os 3 0 (2%nat, []) [] 2 (GG_STR "hello")) as (w' & k' & H1 & H2).
  - done.
  - lia.
  - by vm_compute.
  - exists w', k'. split; [exact H1|exact H2].
Defined.
