(* ===== verification/Socket.v ===== *)
(** Sockets ([src/socket.c], [src/socket_epoll.c]): reads and writes are those
    of files; connecting and the epoll loop. *)

From S2P Require Import Prelude Memory Buffer Io File.

(** The system calls on sockets; an [errno] is not told apart, except for the
    interruption of [epoll_wait]. *)
Record SockOs (W : Type) := mkSockOs {
  sys_socket : W -> option Z * W;
  sys_connect : Z -> bytes -> W -> bool * W;
  (** [setsockopt] with [SO_RCVTIMEO] or [SO_SNDTIMEO], in seconds *)
  sys_set_rcvtimeo : Z -> Z -> W -> bool * W;
  sys_set_sndtimeo : Z -> Z -> W -> bool * W;
  sys_epoll_create : W -> option Z * W;
  sys_epoll_add : Z -> Z -> Z -> W -> bool * W;
  (** the [data] of the events that are ready *)
  sys_epoll_wait : Z -> W -> (errno + list Z) * W;
}.
Arguments sys_socket {W}. Arguments sys_connect {W}. Arguments sys_set_rcvtimeo {W}.
Arguments sys_set_sndtimeo {W}. Arguments sys_epoll_create {W}. Arguments sys_epoll_add {W}.
Arguments sys_epoll_wait {W}.

(** [sizeof(addr.sun_path)] *)
Definition SUN_PATH_LEN : Z := 108.

Section socket.
Context {W : Type} (os : Os W) (sos : SockOs W) (retries : nat).

Definition gg_socket_read (fd : Z) (w : W) (m : mem) (buf : BufPtr) : option (GgError * W * mem) :=
  gg_file_read_exact os retries fd w m buf.

Definition gg_socket_write (fd : Z) (w : W) (buf : bytes) : option (GgError * W) :=
  gg_file_write os retries fd w buf.

(** The first step that fails decides the error; the socket is then closed. *)
Definition gg_connect (path : bytes) : sysm W Z := fun w =>
  if SUN_PATH_LEN <=? zlen path then (Fail GG_ERR_FAILURE, w) else
  (* the path is followed by the zeros of the array *)
  let sun_path := c_string path in
  let '(sockfd, w) := sys_socket sos w in
  match sockfd with
  | None => (Fail GG_ERR_FATAL, w)
  | Some sockfd =>
      let failed e w := (Fail e, (gg_close os sockfd w).2) in
      let '(ok, w) := sys_connect sos sockfd sun_path w in
      if negb ok then failed GG_ERR_FAILURE w else
      let '(ok, w) := sys_set_rcvtimeo sos sockfd 5 w in
      if negb ok then failed GG_ERR_FATAL w else
      let '(ok, w) := sys_set_sndtimeo sos sockfd 5 w in
      if negb ok then failed GG_ERR_FATAL w else
      (Ok sockfd, w)
  end.

Definition socket_reader_fn (fd : Z) (w : W) (m : mem) (buf : BufPtr)
    : option (GgError * W * mem * BufPtr) := gg_file_read os retries fd w m buf.

Definition gg_socket_reader (fd : Z) : GgReader W := Some (socket_reader_fn fd).

Definition socket_writer_fn (fd : Z) (w : W) (buf : bytes) : option (GgError * W) :=
  gg_socket_write fd w buf.

Definition gg_socket_writer (fd : Z) : GgWriter W := Some (socket_writer_fn fd).

(** ** Epoll *)

Definition gg_socket_epoll_create : sysm W Z := fun w =>
  match sys_epoll_create sos w with
  | (None, w) => (Fail GG_ERR_FAILURE, w)
  | (Some fd, w) => (Ok fd, w)
  end.

Definition gg_socket_epoll_add (epoll_fd target_fd data : Z) : sysm W unit := fun w =>
  if negb ((0 <=? epoll_fd) && (0 <=? target_fd)) then (Stuck, w) else
  let '(ok, w) := sys_epoll_add sos epoll_fd target_fd data w in
  (if ok : bool then Ok tt else Fail GG_ERR_FAILURE, w).

Section run.
(** [fd_ready]; its context is part of the system's state here. *)
Context (fd_ready : Z -> W -> option (GgError * W)).

(** The loop over the events; [GG_ERR_OK] when all of them were handled. *)
Fixpoint ready_loop (events : list Z) (w : W) : option (GgError * W) :=
  match events with
  | [] => Some (GG_ERR_OK, w)
  | data :: events => w <~ fd_ready data w ;; ready_loop events w
  end.

(** The loop only ends with an error: [None] when [fuel] waits were not enough
    to get there. *)
Fixpoint epoll_loop (fuel : nat) (epoll_fd : Z) (w : W) : option (GgError * W) :=
  match fuel with
  | O => None
  | S fuel =>
      match sys_epoll_wait sos epoll_fd w with
      | (inl EINTR, w) => epoll_loop fuel epoll_fd w
      | (inl _, w) => Some (GG_ERR_FAILURE, w)
      | (inr events, w) => w <~ ready_loop events w ;; epoll_loop fuel epoll_fd w
      end
  end.

Definition gg_socket_epoll_run (fuel : nat) (epoll_fd : Z) (w : W) : option (GgError * W) :=
  _ ← gg_asserts (0 <=? epoll_fd);
  epoll_loop fuel epoll_fd w.
End run.
End socket.

(** ** Sockets as streams

    A socket's reader meets the contract of readers, so that what holds for
    packets taken off a stream holds for packets received from a socket. *)

Section stream.
Context {W : Type} (os : Os W) (retries : nat) (fd : Z) `{!FdReads os fd}.

#[export] Program Instance socket_stream : StreamReader (gg_socket_reader os retries fd) := {
  sr_rel := fun w bs => exists k, fr_rel w bs k /\ (k <= retries)%nat;
}.
Next Obligation.
  intros w bs m b (k & Hr & Hk) Hl Hm.
  destruct (file_read_fills os retries fd b w m bs k Hr Hk Hl Hm) as (w' & m' & k' & H1 & H2 & H3 & H4).
  exists w', m'. split_and!; [exact H1|done|by exists k'].
Qed.
End stream.
