(* ===== verification/Descriptors.v ===== *)
(** File descriptors are not leaked ([src/file.c], [src/socket.c]): what the
    operations that open paths, make directories and read whole files leave
    open, on every way out. *)

From S2P Require Import Prelude Memory Buffer Io File Socket.

(** The documented behaviour of the calls on the set of open descriptors: an
    open gives a fresh one, a close removes it whatever it returns, no other
    call changes the set. *)
Class Descriptors {W} (os : Os W) := {
  fds : W -> gset Z;
  open_fds : forall path flags w r w', sys_open os path flags w = (r, w') ->
    match r with
    | inr fd => 0 <= fd /\ fd ∉ fds w /\ fds w' = {[fd]} ∪ fds w
    | inl _ => fds w' = fds w
    end;
  openat_fds : forall dirfd path flags mode w r w', sys_openat os dirfd path flags mode w = (r, w') ->
    match r with
    | inr fd => 0 <= fd /\ fd ∉ fds w /\ fds w' = {[fd]} ∪ fds w
    | inl _ => fds w' = fds w
    end;
  close_fds : forall fd w r w', sys_close os fd w = (r, w') -> fds w' = fds w ∖ {[fd]};
  read_fds : forall fd n w r w', sys_read os fd n w = (r, w') -> fds w' = fds w;
  fsync_fds : forall fd w r w', sys_fsync os fd w = (r, w') -> fds w' = fds w;
  mkdirat_fds : forall dirfd path mode w r w', sys_mkdirat os dirfd path mode w = (r, w') -> fds w' = fds w;
  fstat_fds : forall fd w r w', sys_fstat os fd w = (r, w') -> fds w' = fds w;
}.

(** The same for the calls on sockets that [gg_connect] makes. *)
Class SockDescriptors {W} (os : Os W) (sos : SockOs W) `{!Descriptors os} := {
  socket_fds : forall w r w', sys_socket sos w = (r, w') ->
    match r with
    | Some fd => 0 <= fd /\ fd ∉ fds w /\ fds w' = {[fd]} ∪ fds w
    | None => fds w' = fds w
    end;
  connect_fds : forall fd path w r w', sys_connect sos fd path w = (r, w') -> fds w' = fds w;
  set_rcvtimeo_fds : forall fd s w r w', sys_set_rcvtimeo sos fd s w = (r, w') -> fds w' = fds w;
  set_sndtimeo_fds : forall fd s w r w', sys_set_sndtimeo sos fd s w = (r, w') -> fds w' = fds w;
}.

Section descriptors.
Context {W : Type} (os : Os W) (retries : nat) `{!Descriptors os}.

(** [c] leaves open what was open; and [c] opens a fresh descriptor when it
    succeeds, nothing otherwise. *)
Definition balanced {A} (c : sysm W A) : Prop :=
  forall w o w', c w = (o, w') -> o <> Stuck -> fds w' = fds w.

(** For a result [r] that may be a descriptor. *)
Definition opened {A} (as_fd : A -> option Z) (r : outcome A) (before after : gset Z) : Prop :=
  match r with
  | Ok a => match as_fd a with
      | Some fd => 0 <= fd /\ fd ∉ before /\ after = {[fd]} ∪ before
      | None => after = before
      end
  | Fail _ => after = before
  | Stuck => True
  end.

Definition opens_as {A} (as_fd : A -> option Z) (c : sysm W A) : Prop :=
  forall w r w', c w = (r, w') -> opened as_fd r (fds w) (fds w').

Definition some_fd (fd : Z) : option Z := Some fd.
Definition right_fd {E} (r : E + Z) : option Z := match r with inr fd => Some fd | inl _ => None end.

Abbreviation opens := (opens_as some_fd).

Lemma eintr_opens n call :
  (forall w r w', call w = (r, w') -> match r with
     | inr fd => 0 <= fd /\ fd ∉ fds w /\ fds w' = {[fd]} ∪ fds w
     | inl _ => fds w' = fds w end) ->
  opens_as right_fd (eintr_loop n call).
Proof.
  intros Hcall. induction n as [|n IH]; intros w r w' H; cbn [eintr_loop] in H;
    destruct (call w) as [[e|fd] w1] eqn:E; specialize (Hcall _ _ _ E).
  - destruct e; injection H as <- <-; done.
  - by injection H as <- <-.
  - destruct (decide (e = EINTR)) as [->|He].
    + specialize (IH _ _ _ H). unfold opened in *. by rewrite Hcall in IH.
    + destruct e; try done; by injection H as <- <-.
  - by injection H as <- <-.
Qed.

Lemma eintr_balanced {A} n (call : W -> (errno + A) * W) :
  (forall w r w', call w = (r, w') -> fds w' = fds w) -> balanced (eintr_loop n call).
Proof.
  intros Hcall. induction n as [|n IH]; intros w r w' H Hr; cbn [eintr_loop] in H;
    destruct (call w) as [[e|a] w1] eqn:E; specialize (Hcall _ _ _ E).
  - destruct e; injection H as <- <-; done.
  - by injection H as <- <-.
  - destruct (decide (e = EINTR)) as [->|He]; [by rewrite (IH _ _ _ H Hr)|].
    destruct e; try done; by injection H as <- <-.
  - by injection H as <- <-.
Qed.

Lemma balanced_out {A} (r : outcome A) : balanced (lift_out r).
Proof. intros w o w' [= <- <-] _. done. Qed.

Lemma balanced_bind {A B} (c : sysm W A) (k : A -> sysm W B) :
  balanced c -> (forall a, balanced (k a)) -> balanced (c ≫= k).
Proof.
  intros Hc Hk w o w' H Ho. unfold mbind, sysm_bind in H. destruct (c w) as [[a|e|] w1] eqn:E.
  - rewrite (Hk a _ _ _ H Ho). by eapply Hc.
  - injection H as <- <-. by eapply Hc.
  - by injection H as <- <-.
Qed.

(** Before an opening, and after one. *)
Lemma opens_after {A B} f (c : sysm W A) (k : A -> sysm W B) :
  balanced c -> (forall a, opens_as f (k a)) -> opens_as f (c ≫= k).
Proof.
  intros Hc Hk w r w' H. unfold mbind, sysm_bind in H. destruct (c w) as [[a|e|] w1] eqn:E.
  - specialize (Hk a _ _ _ H). assert (fds w1 = fds w) as Hw by by eapply Hc. by rewrite Hw in Hk.
  - injection H as <- <-. cbn [opened]. by eapply Hc.
  - by injection H as <- <-.
Qed.

Lemma opens_map {A B} f g (c : sysm W A) (k : A -> sysm W B) :
  opens_as f c ->
  (forall a w, match k a w with
     | (Ok b, w') => w' = w /\ g b = f a
     | (Fail _, w') => w' = w /\ f a = None
     | (Stuck, _) => True
     end) ->
  opens_as g (c ≫= k).
Proof.
  intros Hc Hk w r w' H. unfold mbind, sysm_bind in H. destruct (c w) as [[a|e|] w1] eqn:E.
  - specialize (Hc _ _ _ E). specialize (Hk a w1). rewrite H in Hk. unfold opened in *.
    destruct r as [b|e|]; [|  |done]; destruct Hk as [-> Hk]; rewrite Hk in *; done.
  - injection H as <- <-. by apply (Hc _ _ _ E).
  - by injection H as <- <-.
Qed.

(** Another attempt after an error. *)
Lemma opens_else {E} (c : sysm W (E + Z)) (k : E + Z -> sysm W Z) :
  opens_as right_fd c -> (forall e, opens (k (inl e))) -> (forall fd w, k (inr fd) w = (Ok fd, w)) ->
  opens (c ≫= k).
Proof.
  intros Hc Hl Hr w r w' H. unfold mbind, sysm_bind in H. destruct (c w) as [[[e|fd]|e|] w1] eqn:Ec.
  - specialize (Hc _ _ _ Ec). cbn [opened right_fd] in Hc. specialize (Hl e _ _ _ H). by rewrite Hc in Hl.
  - rewrite Hr in H. injection H as <- <-. by apply (Hc _ _ _ Ec).
  - injection H as <- <-. by apply (Hc _ _ _ Ec).
  - by injection H as <- <-.
Qed.

Lemma opens_fail {A} (f : A -> option Z) e : opens_as f (fail e : sysm W A).
Proof. by intros w r w' [= <- <-]. Qed.

Lemma opens_stuck {A} (f : A -> option Z) : opens_as f (lift_out Stuck : sysm W A).
Proof. by intros w r w' [= <- <-]. Qed.

Lemma opens_attempt (c : sysm W Z) : opens c -> opens_as right_fd (attempt c).
Proof.
  intros Hc w r w' H. unfold attempt in H. destruct (c w) as [[a|e|] w1] eqn:E;
    injection H as <- <-; by apply (Hc _ _ _ E).
Qed.

Lemma close_removes fd w r w' : gg_close os fd w = (r, w') -> fds w' = fds w ∖ {[fd]}.
Proof.
  unfold gg_close. destruct (sys_close os fd w) as [r1 w1] eqn:E. apply close_fds in E.
  destruct r1 as [[]|]; by intros [= <- <-].
Qed.

(** A descriptor in use is closed at the end: what [c] opens stays. *)
Lemma cleanup_opens (c : sysm W Z) fd w r w' :
  opens c -> 0 <= fd -> fd ∈ fds w -> cleanup_close os fd c w = (r, w') -> opened some_fd r (fds w ∖ {[fd]}) (fds w').
Proof.
  intros Hc Hfd Hin. unfold cleanup_close. destruct (c w) as [r1 w1] eqn:E. rewrite (proj2 (Z.leb_le _ _)) by done.
  destruct (gg_close os fd w1) as [r2 w2] eqn:E2. intros [= <- <-]. apply close_removes in E2. cbn [snd].
  specialize (Hc _ _ _ E). rewrite E2. unfold opened, some_fd in *. destruct r1 as [a|e|]; [|by rewrite Hc|done].
  destruct Hc as (H0 & Hn & ->). split_and!; [done|set_solver|].
  assert (a <> fd) by (intros ->; done). set_solver.
Qed.

Lemma cleanup_balanced {A} (c : sysm W A) fd w r w' :
  balanced c -> 0 <= fd -> r <> Stuck -> cleanup_close os fd c w = (r, w') -> fds w' = fds w ∖ {[fd]}.
Proof.
  intros Hc Hfd Hr. unfold cleanup_close. destruct (c w) as [r1 w1] eqn:E. rewrite (proj2 (Z.leb_le _ _)) by done.
  destruct (gg_close os fd w1) as [r2 w2] eqn:E2. intros [= <- <-]. apply close_removes in E2. cbn [snd].
  by rewrite E2, (Hc _ _ _ E Hr).
Qed.

(** A descriptor opened for a part of a computation. *)
Lemma opens_then_cleanup (c : sysm W Z) (k : Z -> sysm W Z) :
  opens c -> (forall fd, opens (k fd)) -> opens (c ≫= fun fd => cleanup_close os fd (k fd)).
Proof.
  intros Hc Hk w r w' H. unfold mbind, sysm_bind in H. destruct (c w) as [[fd|e|] w1] eqn:E;
    specialize (Hc _ _ _ E).
  - destruct Hc as (H0 & Hn & Hw). apply cleanup_opens in H; [|done|done|set_solver].
    replace (fds w1 ∖ {[fd]}) with (fds w) in H by set_solver. done.
  - by injection H as <- <-.
  - by injection H as <- <-.
Qed.

Lemma opens_then_balanced {A} (c : sysm W Z) (k : Z -> sysm W A) :
  opens c -> (forall fd, balanced (k fd)) -> balanced (c ≫= fun fd => cleanup_close os fd (k fd)).
Proof.
  intros Hc Hk w r w' H Hr. unfold mbind, sysm_bind in H. destruct (c w) as [[fd|e|] w1] eqn:E;
    specialize (Hc _ _ _ E).
  - destruct Hc as (H0 & Hn & Hw). apply cleanup_balanced in H; [|done|done|done]. set_solver.
  - by injection H as <- <-.
  - by injection H as <- <-.
Qed.

(** ** The operations *)

Lemma gg_openat_opens dirfd path flags mode : opens_as right_fd (gg_openat os retries dirfd path flags mode).
Proof. apply eintr_opens. intros w r w'. apply openat_fds. Qed.

Lemma copy_dir_fd_opens dirfd flags : opens (copy_dir_fd os retries dirfd flags).
Proof.
  apply (opens_map right_fd); [apply eintr_opens; intros w r w'; apply openat_fds|]. by intros [e|fd] w.
Qed.

Lemma gg_fsync_balanced fd : balanced (gg_fsync os retries fd).
Proof.
  apply balanced_bind; [apply eintr_balanced; intros w r w'; apply fsync_fds|].
  intros [[]|]; apply balanced_out.
Qed.

Lemma gg_mkdirat_balanced dirfd path mode : balanced (gg_mkdirat os retries dirfd path mode).
Proof.
  apply opens_then_balanced; [apply copy_dir_fd_opens|]. intros fd.
  apply balanced_bind; [apply eintr_balanced; intros w r w'; apply mkdirat_fds|].
  intros [e|]; [apply balanced_out|apply gg_fsync_balanced].
Qed.

Lemma gg_dir_openat_mkdir_opens dirfd path flags mode : opens (gg_dir_openat_mkdir os retries dirfd path flags mode).
Proof.
  apply opens_else; [apply gg_openat_opens| |done].
  intros e. destruct (decide (e = ENOENT)) as [->|He]; [|destruct e; try done; apply opens_fail].
  apply opens_after; [apply gg_mkdirat_balanced|]. intros _.
  apply (opens_map right_fd); [apply gg_openat_opens|]. by intros [e|fd] w.
Qed.

Lemma open_component_opens fd comp flags create : opens (open_component os retries fd comp flags create).
Proof.
  apply opens_after; [apply balanced_out|]. intros name.
  apply (opens_map right_fd); [|by intros [e|fd'] w]. destruct create.
  - apply opens_attempt, gg_dir_openat_mkdir_opens.
  - apply (opens_map right_fd); [apply gg_openat_opens|]. by intros [e|fd'] w.
Qed.

Lemma split_first_no_fail path e : split_path_first_comp path <> Fail e.
Proof.
  unfold split_path_first_comp. generalize 0 as i. induction (length path) as [|n IH]; intros i; cbn [split_first_loop];
    [done|]. destruct (rd path i) as [c|]; cbn [get mbind outcome_bind]; [|done]. by case_if.
Qed.

Lemma dir_loop_opens fuel cur_fd rest flags create w r w' :
  0 <= cur_fd -> cur_fd ∈ fds w -> dir_loop os retries fuel cur_fd rest flags create w = (r, w') ->
  opened some_fd r (fds w ∖ {[cur_fd]}) (fds w').
Proof.
  revert cur_fd rest w. induction fuel as [|fuel IH]; intros cur_fd rest w H0 Hin H; cbn [dir_loop] in H;
    [by injection H as <- <-|].
  unfold mbind at 1, sysm_bind at 1, lift_out at 1 in H.
  destruct (split_path_first_comp rest) as [[[more comp] rest']|e|] eqn:Es;
    [|by apply split_first_no_fail in Es|by injection H as <- <-].
  destruct more.
  - destruct (zlen comp =? 0); [by apply (IH cur_fd rest')|].
    set (c := if NAME_MAX <? zlen comp then _ else _) in H.
    assert (opens c) as Hc by (unfold c; case_if; [apply opens_fail|apply open_component_opens]).
    unfold mbind at 1, sysm_bind at 1 in H.
    destruct (attempt c w) as [ra w1] eqn:Ea. pose proof (opens_attempt _ Hc _ _ _ Ea) as Ho.
    destruct ra as [[e|new_fd]|e|]; [|  |by unfold attempt in Ea; destruct (c w) as [[]]; injection Ea
                                    |by injection H as <- <-].
    + cbn [opened right_fd] in Ho. unfold cleanup_close, fail in H. rewrite (proj2 (Z.leb_le _ _)) in H by done.
      destruct (gg_close os cur_fd w1) as [r2 w2] eqn:E2. injection H as <- <-. apply close_removes in E2.
      cbn [opened snd]. by rewrite E2, Ho.
    + destruct Ho as (Hn0 & Hn & Hw1). unfold mbind at 1, sysm_bind at 1, attempt at 1 in H.
      destruct (gg_close os cur_fd w1) as [r2 w2] eqn:E2. pose proof (close_removes _ _ _ _ E2) as Hw2.
      assert (dir_loop os retries fuel new_fd rest' flags create w2 = (r, w')) as H'.
      { destruct r2; [exact H|exact H|]. unfold gg_close in E2.
        destruct (sys_close os cur_fd w1) as [[[]|] ?]; done. }
      apply IH in H'; [|done|]; [|assert (new_fd <> cur_fd) by (intros ->; done); set_solver].
      by replace (fds w ∖ {[cur_fd]}) with (fds w2 ∖ {[new_fd]}) by set_solver.
  - eapply cleanup_opens; [|done|done|exact H]. case_if; [apply opens_fail|apply open_component_opens].
Qed.

Lemma gg_dir_openat_opens dirfd path flags create : opens (gg_dir_openat os retries dirfd path flags create).
Proof.
  apply opens_after; [apply balanced_out|]. intros rest w r w' H.
  unfold mbind at 1, sysm_bind at 1 in H. destruct (copy_dir_fd os retries dirfd O_PATH w) as [[fd|e|] w1] eqn:E;
    pose proof (copy_dir_fd_opens _ _ _ _ _ E) as Ho.
  - destruct Ho as (H0 & Hn & Hw1). apply dir_loop_opens in H; [|done|set_solver].
    by replace (fds w1 ∖ {[fd]}) with (fds w) in H by set_solver.
  - by injection H as <- <-.
  - by injection H as <- <-.
Qed.

Lemma open_base_opens absolute flags : opens (open_base os absolute flags).
Proof.
  intros w r w' H. unfold open_base in H.
  destruct (sys_open os _ flags w) as [[e|fd] w1] eqn:E; apply open_fds in E; injection H as <- <-; done.
Qed.

Lemma relative_path_out path : balanced (lift_out (relative_path path)).
Proof. apply balanced_out. Qed.

Lemma gg_dir_open_opens path flags create : opens (gg_dir_open os retries path flags create).
Proof.
  unfold gg_dir_open. case_if; [apply opens_fail|].
  apply opens_after; [apply balanced_out|]. intros [absolute rel_path].
  apply opens_after; [apply balanced_out|]. intros rel_path'. case_if.
  - destruct absolute; [apply open_base_opens|apply opens_fail].
  - apply opens_then_cleanup; [apply open_base_opens|]. intros fd. apply gg_dir_openat_opens.
Qed.

Lemma gg_file_openat_opens dirfd path flags mode : opens (gg_file_openat os retries dirfd path flags mode).
Proof.
  apply opens_after; [apply balanced_out|]. intros [[has_dir dir] file].
  apply opens_then_cleanup; [destruct has_dir; [apply gg_dir_openat_opens|apply copy_dir_fd_opens]|].
  intros fd. case_if; [apply opens_fail|]. apply opens_after; [apply balanced_out|]. intros name.
  apply (opens_map right_fd); [apply gg_openat_opens|]. by intros [e|fd'] w.
Qed.

Lemma gg_file_open_opens path flags mode : opens (gg_file_open os retries path flags mode).
Proof.
  unfold gg_file_open. case_if; [apply opens_fail|].
  apply opens_after; [apply balanced_out|]. intros [absolute rel_path]. case_if; [apply opens_fail|].
  apply opens_then_cleanup; [apply open_base_opens|]. intros fd. apply gg_file_openat_opens.
Qed.

Lemma read_loop_fds fuel fd buf w m rest ret w' m' b' :
  read_loop os fuel fd buf w m rest = Some (ret, w', m', b') -> fds w' = fds w.
Proof.
  revert w m rest. induction fuel as [|fuel IH]; intros w m rest H; cbn [read_loop] in H.
  - by case_if_in H; [injection H as <- <- <- <-|].
  - case_if_in H; [by injection H as <- <- <- <-|].
    destruct (gg_file_read_partial os fd w m rest) as [[[[r w1] m1] rest1]|] eqn:Ee; [|done].
    cbn [mbind option_bind] in H. assert (fds w1 = fds w) as Hw.
    { unfold gg_file_read_partial in Ee. destruct (sys_read os fd (len rest) w) as [[e|bs] w2] eqn:Er;
        apply read_fds in Er; [destruct e; by simplify_eq|].
      destruct (store m (data rest) bs); [|done]. cbn [mbind option_bind] in Ee. case_if_in Ee; by simplify_eq. }
    destruct r; try (injection H as <- <- <- <-; done); by rewrite (IH _ _ _ H).
Qed.

Lemma read_exact_fds fd w m buf ret w' m' :
  gg_file_read_exact os retries fd w m buf = Some (ret, w', m') -> fds w' = fds w.
Proof.
  unfold gg_file_read_exact, gg_file_read. destruct (read_loop _ _ _ _ _ _ _) as [[[[r w1] m1] b1]|] eqn:E; [|done].
  cbn [mbind option_bind]. apply read_loop_fds in E. case_if; intros; by simplify_eq.
Qed.

Lemma read_path_at_fds dirfd path w m content ret w' m' content' :
  gg_file_read_path_at os retries dirfd path w m content = Some (ret, w', m', content') -> fds w' = fds w.
Proof.
  unfold gg_file_read_path_at. destruct (gg_file_openat os retries dirfd path O_RDONLY 0 w) as [[fd|e|] w1] eqn:E;
    pose proof (gg_file_openat_opens _ _ _ _ _ _ _ E) as Ho; [|intros; by simplify_eq|done].
  destruct Ho as (H0 & Hn & Hw1). destruct (sys_fstat os fd w1) as [st w2] eqn:Est. apply fstat_fds in Est.
  assert (forall w3, fds w3 = fds w2 -> fds (gg_close os fd w3).2 = fds w) as Hclose.
  { intros w3 H3. destruct (gg_close os fd w3) as [r4 w4] eqn:E4. apply close_removes in E4. cbn [snd]. set_solver. }
  destruct st as [e|st_size]; cbn [mbind option_bind]; [intros; simplify_eq; by apply Hclose|].
  case_if; cbn [mbind option_bind]; [intros; simplify_eq; by apply Hclose|].
  destruct (gg_file_read_exact _ _ _ _ _ _) as [[[r3 w3] m3]|] eqn:E3; [|done]. cbn [mbind option_bind].
  apply read_exact_fds in E3. intros; simplify_eq. by apply Hclose.
Qed.

Lemma read_path_fds path w m content ret w' m' content' :
  gg_file_read_path os retries path w m content = Some (ret, w', m', content') -> fds w' = fds w.
Proof.
  intros H. unfold gg_file_read_path in H. case_if_in H; [by simplify_eq|].
  destruct (relative_path path) as [[absolute rel_path]|e|]; [|done|done].
  case_if_in H; [by simplify_eq|].
  destruct (open_base os absolute _ w) as [[fd|e|] w1] eqn:Eb; pose proof (open_base_opens _ _ _ _ _ Eb) as Ho;
    [|by simplify_eq|done].
  destruct (gg_file_read_path_at os retries fd rel_path w1 m content) as [[[[r2 w2] m2] c2]|] eqn:E2; [|done].
  cbn [mbind option_bind] in H. simplify_eq. apply read_path_at_fds in E2.
  destruct (gg_close os fd w2) as [r3 w3] eqn:E3. apply close_removes in E3. cbn [snd].
  destruct Ho as (_ & Hn & Hw1). set_solver.
Qed.

Lemma gg_connect_opens (sos : SockOs W) `{!SockDescriptors os sos} path : opens (gg_connect os sos path).
Proof.
  intros w r w' H. unfold gg_connect in H. case_if_in H; [by injection H as <- <-|].
  destruct (sys_socket sos w) as [[fd|] w1] eqn:E1; apply socket_fds in E1; [|by injection H as <- <-].
  destruct E1 as (H0 & Hn & Hw1).
  assert (forall w2 e, fds w2 = fds w1 -> (Fail e, (gg_close os fd w2).2) = (r, w') ->
    opened some_fd r (fds w) (fds w')) as Hfail.
  { intros w2 e Hw2 Heq. injection Heq as <- <-. destruct (gg_close os fd w2) as [r3 w3] eqn:E3.
    apply close_removes in E3. cbn [opened snd]. set_solver. }
  destruct (sys_connect sos fd _ w1) as [ok2 w2] eqn:E2; apply connect_fds in E2.
  destruct ok2; cbn [negb] in H; [|by eapply Hfail].
  destruct (sys_set_rcvtimeo sos fd 5 w2) as [ok3 w3] eqn:E3; apply set_rcvtimeo_fds in E3.
  destruct ok3; cbn [negb] in H; [|by eapply Hfail; [|exact H]; congruence].
  destruct (sys_set_sndtimeo sos fd 5 w3) as [ok4 w4] eqn:E4; apply set_sndtimeo_fds in E4.
  destruct ok4; cbn [negb] in H; [|by eapply Hfail; [|exact H]; congruence].
  injection H as <- <-. cbn [opened some_fd]. split_and!; [done|done|congruence].
Qed.

(** C18: Descriptors are not leaked. Opening a file or a directory by its path
    and connecting to a socket, whatever fails on the way, and however often
    the system interrupts a call, leaves exactly the returned descriptor open
    in addition when it succeeds, and nothing when it fails; reading a whole
    file leaves nothing open. *)
Theorem open_no_leak (sos : SockOs W) `{!SockDescriptors os sos} path flags mode create w :
  opened some_fd (gg_file_open os retries path flags mode w).1 (fds w)
    (fds (gg_file_open os retries path flags mode w).2) /\
  opened some_fd (gg_dir_open os retries path flags create w).1 (fds w)
    (fds (gg_dir_open os retries path flags create w).2) /\
  opened some_fd (gg_connect os sos path w).1 (fds w) (fds (gg_connect os sos path w).2) /\
  (forall m content ret w' m' content',
     gg_file_read_path os retries path w m content = Some (ret, w', m', content') -> fds w' = fds w).
Proof.
  split_and!.
  - apply (gg_file_open_opens path flags mode w). by destruct (gg_file_open _ _ _ _ _ w).
  - apply (gg_dir_open_opens path flags create w). by destruct (gg_dir_open _ _ _ _ _ w).
  - apply (gg_connect_opens sos path w). by destruct (gg_connect _ _ _ w).
  - apply read_path_fds.
Qed.
End descriptors.

(** *** An example: a system that keeps its open descriptors *)

Definition take_fd (w : gset N) : Z * gset N := (Z.of_N (fresh w), {[fresh w]} ∪ w).

(** The descriptors open as a set of naturals. *)
Definition set_os : Os (gset N) := {|
  sys_read := fun _ _ w => (inr [], w);
  sys_write := fun _ bs w => (inr (zlen bs), w);
  sys_close := fun fd w => (inr tt, if fd <? 0 then w else w ∖ {[Z.to_N fd]});
  sys_fsync := fun _ w => (inr tt, w);
  sys_open := fun _ _ w => (inr (take_fd w).1, (take_fd w).2);
  sys_openat := fun _ path _ _ w => if bool_decide (path = GG_STR "locked") then (inl E_OTHER, w)
                                    else (inr (take_fd w).1, (take_fd w).2);
  sys_mkdirat := fun _ _ _ w => (inr tt, w);
  sys_fstat := fun _ w => (inr 0, w);
|}.

Definition set_sockets : SockOs (gset N) := {|
  sys_socket := fun w => (Some (take_fd w).1, (take_fd w).2);
  sys_connect := fun _ _ w => (true, w);
  sys_set_rcvtimeo := fun _ _ w => (true, w);
  sys_set_sndtimeo := fun _ _ w => (false, w);
  sys_epoll_create := fun w => (None, w);
  sys_epoll_add := fun _ _ _ w => (false, w);
  sys_epoll_wait := fun _ w => (inl E_OTHER, w);
|}.

Definition set_fds (w : gset N) : gset Z := set_map Z.of_N w.

Lemma take_fd_fresh w :
  0 <= (take_fd w).1 /\ (take_fd w).1 ∉ set_fds w /\ set_fds (take_fd w).2 = {[(take_fd w).1]} ∪ set_fds w.
Proof.
  unfold take_fd, set_fds. cbn [fst snd]. pose proof (is_fresh w) as Hf. split_and!; [lia| |set_solver].
  intros (n & Hn & Hin)%elem_of_map. assert (n = fresh w) as -> by lia. done.
Qed.

#[export] Program Instance set_descriptors : Descriptors set_os := { fds := set_fds }.
Next Obligation. intros path flags w r w' [= <- <-]. apply take_fd_fresh. Qed.
Next Obligation.
  intros dirfd path flags mode w r w' H. cbn in H. case_bool_decide; injection H as <- <-; [done|apply take_fd_fresh].
Qed.
Next Obligation.
  intros fd w r w' [= <- <-]. unfold set_fds. case_if.
  - apply leibniz_equiv. intros x. rewrite elem_of_difference, elem_of_singleton, elem_of_map.
    split; [intros (n & -> & ?); split; [by exists n|lia]|by intros [(n & -> & ?) _]; exists n].
  - apply leibniz_equiv. intros x. rewrite elem_of_difference, elem_of_singleton, !elem_of_map.
    split.
    + intros (n & -> & [Hn Hne]%elem_of_difference). split; [by exists n|]. intros <-. apply Hne.
      rewrite N2Z.id. set_solver.
    + intros [(n & -> & Hn) Hne]. exists n. split; [done|]. apply elem_of_difference. split; [done|].
      rewrite elem_of_singleton. intros ->. apply Hne. lia.
Qed.
Next Obligation. by intros fd n w r w' [= <- <-]. Qed.
Next Obligation. by intros fd w r w' [= <- <-]. Qed.
Next Obligation. by intros dirfd path mode w r w' [= <- <-]. Qed.
Next Obligation. by intros fd w r w' [= <- <-]. Qed.

#[export] Program Instance set_sock_descriptors : SockDescriptors set_os set_sockets.
Next Obligation. intros w r w' [= <- <-]. apply take_fd_fresh. Qed.
Next Obligation. by intros fd path w r w' [= <- <-]. Qed.
Next Obligation. by intros fd s w r w' [= <- <-]. Qed.
Next Obligation. by intros fd s w r w' [= <- <-]. Qed.

(** Connecting fails after the socket was opened, and so does opening a file
    that is locked: nothing is left open. *)
Lemma open_no_leak_witness :
  (gg_connect set_os set_sockets (GG_STR "a") ∅).1 = Fail GG_ERR_FATAL /\
  fds (gg_connect set_os set_sockets (GG_STR "a") ∅).2 = ∅ /\
  (gg_file_open set_os 0 (GG_STR "a/b/locked") O_RDONLY 0 ∅).1 = Fail GG_ERR_FAILURE /\
  fds (gg_file_open set_os 0 (GG_STR "a/b/locked") O_RDONLY 0 ∅).2 = ∅.
Proof.
  destruct (open_no_leak set_os 0 set_sockets (GG_STR "a") O_RDONLY 0 false ∅) as (_ & _ & H1 & _).
  destruct (open_no_leak set_os 0 set_sockets (GG_STR "a/b/locked") O_RDONLY 0 false ∅) as (H2 & _).
  assert ((gg_connect set_os set_sockets (GG_STR "a") ∅).1 = Fail GG_ERR_FATAL) as E1 by by vm_compute.
  assert ((gg_file_open set_os 0 (GG_STR "a/b/locked") O_RDONLY 0 ∅).1 = Fail GG_ERR_FAILURE) as E2 by by vm_compute.
  rewrite E1 in H1. rewrite E2 in H2. split_and!; [exact E1|exact H1|exact E2|exact H2].
Defined.
