(* ===== verification/Util.v ===== *)
(** Small utilities: [src/error.c], [src/math.c], [src/alloc.c], [src/init.c],
    [src/rand.c], [src/sleep.c], [src/backoff.c]. *)

From S2P Require Import Prelude Memory Buffer Object Io File.

(** ** [error.c] *)

Definition gg_strerror (err : GgError) : bytes :=
  match err with
  | GG_ERR_OK => GG_STR "OK"
  | GG_ERR_FAILURE => GG_STR "FAILURE"
  | GG_ERR_RETRY => GG_STR "RETRY"
  | GG_ERR_BUSY => GG_STR "BUSY"
  | GG_ERR_FATAL => GG_STR "FATAL"
  | GG_ERR_INVALID => GG_STR "INVALID"
  | GG_ERR_UNSUPPORTED => GG_STR "UNSUPPORTED"
  | GG_ERR_PARSE => GG_STR "PARSE"
  | GG_ERR_RANGE => GG_STR "RANGE"
  | GG_ERR_NOMEM => GG_STR "NOMEM"
  | GG_ERR_NOCONN => GG_STR "NOCONN"
  | GG_ERR_NODATA => GG_STR "NODATA"
  | GG_ERR_NOENTRY => GG_STR "NOENTRY"
  | GG_ERR_CONFIG => GG_STR "CONFIG"
  | GG_ERR_REMOTE => GG_STR "REMOTE"
  | GG_ERR_EXPECTED => GG_STR "EXPECTED"
  | GG_ERR_TIMEOUT => GG_STR "TIMEOUT"
  end.

(** ** [math.c] *)

(** Division and remainder of C truncate. *)
Definition gg_abs (i64 : Z) : Z :=
  if 0 <=? i64 then uwrap 64 i64
  else if INT32_MIN <=? i64 then uwrap 64 (- i64)
  else uwrap 64 (uwrap 64 (uwrap 64 (Z.quot i64 INT32_MIN) * uwrap 64 (- INT32_MIN)) +
                 uwrap 64 (- Z.rem i64 INT32_MIN)).

(** ** [alloc.c] *)

(** An allocator's functions; each may be null. *)
Record GgAllocVtable (C : Type) := mkVtable {
  ALLOC : option (C -> Z -> Z -> Z * C);
  FREE : option (C -> Z -> C);
}.
Arguments ALLOC {C}. Arguments FREE {C}.

Definition gg_alloc {C} (vtable : option (GgAllocVtable C)) (ctx : C) (size alignment : Z) : Z * C :=
  match vtable with
  | Some vt => match ALLOC vt with Some alloc => alloc ctx size alignment | None => (NULL, ctx) end
  | None => (NULL, ctx)
  end.

Definition gg_free {C} (vtable : option (GgAllocVtable C)) (ctx : C) (ptr : Z) : C :=
  if ptr =? NULL then ctx else
  match vtable with
  | Some vt => match FREE vt with Some free => free ctx ptr | None => ctx end
  | None => ctx
  end.

(** ** The end of a call that may exit the process *)

Inductive ended (A : Type) := Returns (a : A) | Exits.
Arguments Returns {A} a. Arguments Exits {A}.

(** ** [init.c] *)

(** The entries in memory: the function and the next entry. *)
Record GgInitEntry := mkInitEntry { init_fn : Z; next : Z }.
Abbreviation init_entries := (gmap Z GgInitEntry).

(** The entries and [init_list] after the registration. *)
Definition gg_register_init_fn (es : init_entries) (init_list : Z) (entry : Z)
    : option (init_entries * Z) :=
  e ← es !! entry;
  Some (<[entry := mkInitEntry (init_fn e) init_list]> es, entry).

Section init.
(** What the function at an address does. *)
Context {W : Type} (call : Z -> W -> GgError * W).

(** The loop of [gg_sdk_init]; an entry per unit of fuel. *)
Fixpoint init_loop (fuel : nat) (es : init_entries) (list : Z) (w : W) : option (ended W) :=
  if list =? NULL then Some (Returns w) else
  match fuel with
  | O => None
  | S fuel =>
      e ← es !! list;
      let '(ret, w) := call (init_fn e) w in
      if negb (bool_decide (ret = GG_ERR_OK)) then Some Exits
      else init_loop fuel es (next e) w
  end.

(** The result and [init_list] after the call. *)
Definition gg_sdk_init (es : init_entries) (init_list : Z) (w : W) : option (ended W * Z) :=
  r ← init_loop (size es) es init_list w;
  Some (r, NULL).
End init.

(** ** [rand.c] *)

Section rand.
Context {W : Type} (os : Os W) (retries : nat) (random_fd : Z).

(** [random_fd], the process exits without the device. *)
Definition init_urandom_fd (w : W) : ended (Z * W) :=
  match sys_open os (GG_STR "/dev/random") (Z.lor O_RDONLY O_CLOEXEC) w with
  | (inl _, _) => Exits
  | (inr random_fd, w) => Returns (random_fd, w)
  end.

(** The system and the memory; the process exits when the read fails. *)
Definition gg_rand_fill (w : W) (m : mem) (buf : BufPtr) : option (ended (W * mem)) :=
  '(ret, w, m) ← gg_file_read_exact os retries random_fd w m buf;
  Some (if bool_decide (ret = GG_ERR_OK) then Returns (w, m) else Exits).

(** The local variable [val] lies at 8 in a memory of its own. *)
Definition backoff_get_rand (w : W) : option (ended (Z * W)) :=
  r ← gg_rand_fill w (zeroed 8 8) (mkBuf 8 8);
  match r with
  | Exits => Some Exits
  | Returns (w, m) => val ← loadz m 8 8; Some (Returns (le_val val, w))
  end.
End rand.

(** ** [sleep.c] *)

(** [struct timespec]: seconds and nanoseconds. *)
Record timespec := mkTime { tv_sec : Z; tv_nsec : Z }.

Section sleep.
(** [nanosleep]: done ([None]), or [errno] and the time that remains. *)
Context {W : Type} (nanosleep : timespec -> W -> option (errno * timespec) * W).

(** The loop, repeated at most [fuel] times for interruptions. *)
Fixpoint sleep_timespec (fuel : nat) (remain : timespec) (w : W) : outcome unit * W :=
  match nanosleep remain w with
  | (None, w) => (Ok tt, w)
  | (Some (EINTR, remain), w) =>
      match fuel with O => (Stuck, w) | S fuel => sleep_timespec fuel remain w end
  | (Some _, w) => (Fail GG_ERR_FAILURE, w)
  end.

Definition gg_sleep (fuel : nat) (seconds : Z) (w : W) : outcome unit * W :=
  sleep_timespec fuel (mkTime seconds 0) w.

Definition gg_sleep_ms (fuel : nat) (ms : Z) (w : W) : outcome unit * W :=
  sleep_timespec fuel (mkTime (Z.quot ms 1000) (swrap 32 (Z.rem ms 1000 * 1000 * 1000))) w.

Definition backoff_sleep (fuel : nat) (ms : Z) (w : W) : option (ended W) :=
  match gg_sleep_ms fuel ms w with
  | (Ok _, w) => Some (Returns w)
  | (Fail _, _) => Some Exits
  | (Stuck, _) => None
  end.
End sleep.

(** ** [backoff.c] *)

Section backoff.
(** The random number and the sleep of one iteration. *)
Context {W : Type} (get_rand : W -> option (ended (Z * W))) (sleep : Z -> W -> option (ended W)).
Context (fn : W -> GgError * W).

(** The loop, an attempt per unit of fuel. [None] is also the division by
    zero, which happens when [max_ms] is 0. *)
Fixpoint backoff_loop (fuel : nat) (max_ms max_attempts current_max_ms attempts : Z) (w : W)
    : option (ended (GgError * W)) :=
  match fuel with
  | O => None
  | S fuel =>
      let '(ret, w) := fn w in
      if bool_decide (ret = GG_ERR_OK) then Some (Returns (GG_ERR_OK, w)) else
      let attempts := if negb (max_attempts =? 0) then uwrap 32 (attempts + 1) else attempts in
      if negb (max_attempts =? 0) && (attempts =? max_attempts) then Some (Returns (ret, w)) else
      r ← get_rand w;
      match r with
      | Exits => Some Exits
      | Returns (rand, w) =>
          _ ← gg_asserts (negb (current_max_ms =? 0));
          r ← sleep (uwrap 32 (rand mod current_max_ms)) w;
          match r with
          | Exits => Some Exits
          | Returns w =>
              let current_max_ms :=
                if current_max_ms <=? max_ms / 2 then uwrap 32 (current_max_ms * 2) else max_ms in
              backoff_loop fuel max_ms max_attempts current_max_ms attempts w
          end
      end
  end.

(** A null [fn] fails an assertion as well. *)
Definition gg_backoff (fuel : nat) (base_ms max_ms max_attempts : Z) (w : W)
    : option (ended (GgError * W)) :=
  _ ← gg_asserts (negb (base_ms =? 0));
  backoff_loop fuel max_ms max_attempts base_ms 0 w.
End backoff.

(** ** Absolute values *)

(** [gg_abs] is the absolute value on all of int64, the smallest value
    included. *)
Theorem gg_abs_exact z : in_int64 z -> gg_abs z = Z.abs z.
Proof.
  unfold in_int64, gg_abs, INT64_MIN, INT64_MAX, INT32_MIN. intros Hz. case_if.
  { rewrite uwrap_small by lia. lia. }
  case_if.
  { rewrite uwrap_small by lia. lia. }
  assert (Z.quot z (-2147483648) = (- z) / 2147483648) as Hq.
  { replace z with (- (- z)) at 1 by lia. change (-2147483648) with (Z.opp 2147483648).
    rewrite Z.quot_opp_opp by lia. by rewrite Z.quot_div_nonneg by lia. }
  assert (Z.rem z (-2147483648) = - ((- z) mod 2147483648)) as Hr.
  { replace z with (- (- z)) at 1 by lia. change (-2147483648) with (Z.opp 2147483648).
    rewrite Z.rem_opp_opp by lia. by rewrite Z.rem_mod_nonneg by lia. }
  rewrite Hq, Hr. pose proof (Z.div_mod (- z) 2147483648). pose proof (Z.mod_pos_bound (- z) 2147483648).
  assert (0 <= (- z) / 2147483648 <= 4294967296) by dlia.
  set (q := (- z) / 2147483648) in *. set (r := (- z) mod 2147483648) in *.
  rewrite (uwrap_small 64 q), (uwrap_small 64 (- - r)) by lia.
  change (uwrap 64 (- -2147483648)) with 2147483648. rewrite (uwrap_small 64 (q * 2147483648)) by lia.
  rewrite uwrap_small; lia.
Qed.

Lemma gg_abs_exact_witness : gg_abs INT64_MIN = 2 ^ 63.
Proof. rewrite (gg_abs_exact INT64_MIN); [done|split; by vm_compute]. Defined.

(** ** Retrying *)

Section retrying.
Context {W : Type} (get_rand : W -> option (ended (Z * W))) (sleep : Z -> W -> option (ended W)).
Context (fn : W -> GgError * W).
(** How many attempts were made, and the result of each. *)
Context (made : W -> nat) (result : nat -> GgError) (base_ms max_ms : Z).
Hypothesis attempt_made : forall w, (fn w).1 = result (made w) /\ made (fn w).2 = S (made w).
(** Random numbers come, and sleeping works for times below the bounds. *)
Hypothesis get_rand_ok : forall w, exists r w', get_rand w = Some (Returns (r, w')) /\ made w' = made w.
Hypothesis sleep_ok : forall ms w, 0 <= ms < Z.max base_ms max_ms ->
  exists w', sleep ms w = Some (Returns w') /\ made w' = made w.
Hypothesis base_pos : 0 < base_ms <= UINT32_MAX.
Hypothesis max_pos : 0 < max_ms <= UINT32_MAX.

(** The number of attempts that are made of at most [n], the first having
    number [i]. *)
Fixpoint attempts_from (n i : nat) : nat :=
  match n with
  | O => O
  | S n => if bool_decide (result i = GG_ERR_OK) then 1%nat else S (attempts_from n (S i))
  end.

Lemma next_max_range cur : 0 < cur <= Z.max base_ms max_ms ->
  0 < (if cur <=? max_ms / 2 then uwrap 32 (cur * 2) else max_ms) <= Z.max base_ms max_ms.
Proof using base_pos max_pos.
  unfold UINT32_MAX in *. intros Hc. case_if; [|lia]. rewrite uwrap_small by dlia. dlia.
Qed.

(** One turn: an attempt that fails and is not the last one. *)
Lemma backoff_turn fuel max_attempts cur attempts w :
  0 < cur <= Z.max base_ms max_ms -> result (made w) <> GG_ERR_OK ->
  (max_attempts <> 0 -> uwrap 32 (attempts + 1) <> max_attempts) ->
  exists w' cur', made w' = S (made w) /\ 0 < cur' <= Z.max base_ms max_ms /\
    backoff_loop get_rand sleep fn (S fuel) max_ms max_attempts cur attempts w =
      backoff_loop get_rand sleep fn fuel max_ms max_attempts cur'
        (if max_attempts =? 0 then attempts else uwrap 32 (attempts + 1)) w'.
Proof using attempt_made get_rand_ok sleep_ok base_pos max_pos.
  intros Hc Hfail Hmore. cbn [backoff_loop]. destruct (attempt_made w) as [Hr Hm].
  destruct (fn w) as [ret w1]. cbn [fst snd] in *. subst ret. rewrite bool_decide_false by done.
  destruct (get_rand_ok w1) as (r & w2 & Hrand & Hm2).
  destruct (sleep_ok (uwrap 32 (r mod cur)) w2) as (w3 & Hsleep & Hm3).
  { pose proof (Z.mod_pos_bound r cur). unfold UINT32_MAX in *. rewrite uwrap_small by lia. lia. }
  exists w3, (if cur <=? max_ms / 2 then uwrap 32 (cur * 2) else max_ms).
  split; [congruence|]. split; [by apply next_max_range|].
  destruct (max_attempts =? 0) eqn:E0; zify_bool; cbn [negb andb].
  - rewrite Hrand. cbn [mbind option_bind]. rewrite (proj2 (Z.eqb_neq cur 0)) by lia.
    cbn [negb gg_asserts mbind option_bind]. by rewrite Hsleep.
  - rewrite (proj2 (Z.eqb_neq _ max_attempts)) by auto. rewrite Hrand. cbn [mbind option_bind].
    rewrite (proj2 (Z.eqb_neq cur 0)) by lia. cbn [negb gg_asserts mbind option_bind]. by rewrite Hsleep.
Qed.

(** The last turn. *)
Lemma backoff_success fuel max_attempts cur attempts w :
  result (made w) = GG_ERR_OK ->
  exists w', backoff_loop get_rand sleep fn (S fuel) max_ms max_attempts cur attempts w =
    Some (Returns (GG_ERR_OK, w')) /\ made w' = S (made w).
Proof using attempt_made.
  intros Hok. cbn [backoff_loop]. destruct (attempt_made w) as [Hr Hm]. destruct (fn w) as [ret w1].
  cbn [fst snd] in *. rewrite bool_decide_true by congruence. by exists w1.
Qed.

Lemma backoff_bounded n fuel cur attempts w :
  0 < cur <= Z.max base_ms max_ms -> (0 < n)%nat -> (n <= fuel)%nat ->
  0 <= attempts -> attempts + Z.of_nat n <= UINT32_MAX ->
  exists w', backoff_loop get_rand sleep fn fuel max_ms (attempts + Z.of_nat n) cur attempts w =
      Some (Returns (result (pred (made w')), w')) /\
    made w' = (made w + attempts_from n (made w))%nat.
Proof using attempt_made get_rand_ok sleep_ok base_pos max_pos.
  revert fuel cur attempts w. induction n as [|n IH]; intros fuel cur attempts w Hc Hn Hf Ha Hmax; [lia|].
  destruct fuel as [|fuel]; [lia|]. unfold UINT32_MAX in *. cbn [attempts_from].
  destruct (decide (result (made w) = GG_ERR_OK)) as [Hok|Hfail].
  - rewrite bool_decide_true by done.
    destruct (backoff_success fuel (attempts + Z.of_nat (S n)) cur attempts w Hok) as (w' & -> & Hm).
    exists w'. rewrite Hm. cbn [pred]. rewrite Hok. split; [done|lia].
  - rewrite bool_decide_false by done. destruct n as [|n].
    + cbn [backoff_loop]. destruct (attempt_made w) as [Hr Hm]. destruct (fn w) as [ret w1]. cbn [fst snd] in *.
      subst ret. rewrite bool_decide_false by done. rewrite (proj2 (Z.eqb_neq (attempts + Z.of_nat 1) 0)) by lia.
      cbn [negb andb]. rewrite uwrap_small by lia. rewrite (proj2 (Z.eqb_eq _ _)) by lia.
      exists w1. rewrite Hm. cbn [pred attempts_from]. split; [done|lia].
    + destruct (backoff_turn fuel (attempts + Z.of_nat (S (S n))) cur attempts w Hc Hfail) as (w1 & cur' & Hm & Hc' & ->).
      { intros _. rewrite uwrap_small by lia. lia. }
      rewrite (proj2 (Z.eqb_neq _ 0)) by lia. rewrite uwrap_small by lia.
      replace (attempts + Z.of_nat (S (S n))) with (attempts + 1 + Z.of_nat (S n)) by lia.
      destruct (IH fuel cur' (attempts + 1) w1) as (w' & -> & Hm'); [done|lia|lia|lia|lia|].
      exists w'. split; [done|]. rewrite Hm', Hm. lia.
Qed.

Lemma backoff_until n fuel cur w :
  0 < cur <= Z.max base_ms max_ms -> (n < fuel)%nat -> result (made w + n) = GG_ERR_OK ->
  (forall j, (j < n)%nat -> result (made w + j) <> GG_ERR_OK) ->
  exists w', backoff_loop get_rand sleep fn fuel max_ms 0 cur 0 w = Some (Returns (GG_ERR_OK, w')) /\
    made w' = S (made w + n).
Proof using attempt_made get_rand_ok sleep_ok base_pos max_pos.
  revert fuel cur w. induction n as [|n IH]; intros fuel cur w Hc Hf Hok Hfirst; (destruct fuel as [|fuel]; [lia|]).
  - rewrite Nat.add_0_r in *. by apply backoff_success.
  - destruct (backoff_turn fuel 0 cur 0 w Hc) as (w1 & cur' & Hm & Hc' & ->).
    { specialize (Hfirst O ltac:(lia)). by rewrite Nat.add_0_r in Hfirst. }
    { done. }
    destruct (IH fuel cur' w1) as (w' & H1 & H2).
    + done.
    + lia.
    + rewrite Hm. by replace (S (made w) + n)%nat with (made w + S n)%nat by lia.
    + intros j Hj. rewrite Hm. replace (S (made w) + j)%nat with (made w + S j)%nat by lia. apply Hfirst. lia.
    + exists w'. split; [exact H1|]. rewrite H2, Hm. lia.
Qed.

(** C22: Retrying ends. With a bound on the attempts, the function is called
    until its first success or until the bound, and the result is that of its
    last call; without a bound it is called until it succeeds, if it ever does.
    Every wait is shorter than the larger of the two times given. *)
Theorem backoff_retries w :
  made w = O ->
  (forall n fuel, (0 < n)%nat -> Z.of_nat n <= UINT32_MAX -> (n <= fuel)%nat ->
    exists w', gg_backoff get_rand sleep fn fuel base_ms max_ms (Z.of_nat n) w =
      Some (Returns (result (pred (made w')), w')) /\ made w' = attempts_from n 0) /\
  (forall n fuel, result n = GG_ERR_OK -> (forall j, (j < n)%nat -> result j <> GG_ERR_OK) -> (n < fuel)%nat ->
    exists w', gg_backoff get_rand sleep fn fuel base_ms max_ms 0 w = Some (Returns (GG_ERR_OK, w')) /\
      made w' = S n).
Proof using attempt_made get_rand_ok sleep_ok base_pos max_pos.
  intros H0. unfold gg_backoff. rewrite (proj2 (Z.eqb_neq base_ms 0)) by lia.
  cbn [negb gg_asserts mbind option_bind]. split.
  - intros n fuel Hn Hmax Hf. destruct (backoff_bounded n fuel base_ms 0 w) as (w' & H1 & H2); [lia|done|done|lia|lia|].
    rewrite Z.add_0_l in H1. rewrite H0 in H2. exists w'. done.
  - intros n fuel Hok Hfirst Hf. destruct (backoff_until n fuel base_ms w) as (w' & H1 & H2); [lia|done| | |].
    + by rewrite H0.
    + intros j Hj. rewrite H0. by apply Hfirst.
    + exists w'. split; [done|]. by rewrite H2, H0.
Qed.
End retrying.

(** The third attempt succeeds; the state counts the attempts. *)
Lemma backoff_retries_witness :
  exists w', gg_backoff (fun w => Some (Returns (12345, w))) (fun _ w => Some (Returns w))
      (fun w => (if bool_decide (w = 2%nat) then GG_ERR_OK else GG_ERR_TIMEOUT, S w)) 5 10 1000 0 0%nat =
    Some (Returns (GG_ERR_OK, w')) /\ w' = 3%nat.
Proof.
  destruct (backoff_retries (fun w => Some (Returns (12345, w))) (fun _ w => Some (Returns w))
    (fun w => (if bool_decide (w = 2%nat) then GG_ERR_OK else GG_ERR_TIMEOUT, S w)) (fun w => w)
    (fun w => if bool_decide (w = 2%nat) then GG_ERR_OK else GG_ERR_TIMEOUT) 10 1000) with (w := 0%nat) as [_ H].
  - done.
  - intros w. by exists 12345, w.
  - intros ms w _. by exists w.
  - done.
  - done.
  - done.
  - apply (H 2%nat 5%nat); [done| |lia]. intros j Hj. destruct j as [|[|j]]; [done|done|lia].
Defined.
