(* ===== verification/Streams.v ===== *)
(** The table of streams ([src/ipc/client.c], first part): slots with a stream
    id, a generation and a handler, and the handles of subscriptions.

    A slot is free when its id is 0 and claimed but without a stream yet when
    it is -1. The generation of a slot changes when it is claimed and when it
    is cleared; a handle holds the generation, so handles of former uses of a
    slot are rejected. *)

From S2P Require Import Prelude Memory.

(** ** Data *)

Definition GG_IPC_MAX_STREAMS : Z := 16.

(** [fn] is the address of the callback of a subscription; it is null while
    the response is pending, and [ctx] is then the caller's context. *)
Record StreamHandler := mkHandler { fn : Z; ctx : Z; aux_ctx : Z }.

(** [(StreamHandler) { 0 }] *)
Definition no_handler : StreamHandler := mkHandler NULL NULL NULL.

(** [stream_state_id], [stream_state_generation], [stream_state_handler]. *)
Record stream_state := mkStreams {
  stream_state_id : list Z; stream_state_generation : list Z;
  stream_state_handler : list StreamHandler }.

Definition init_streams : stream_state :=
  mkStreams (repeat 0 16) (repeat 0 16) (repeat no_handler 16).

#[export] Instance StreamHandler_eq_dec : EqDecision StreamHandler.
Proof. solve_decision. Defined.

(** ** Operations: [None] is a failed assertion or a bad access *)

(** [arr[i] = x] *)
Definition wr {A} (arr : list A) (i : Z) (x : A) : option (list A) :=
  if (0 <=? i) && (i <? zlen arr) then Some (<[Z.to_nat i := x]> arr) else None.

(** The index, or the error. *)
Definition validate_handle (s : stream_state) (handle : Z) : outcome Z :=
  let handle_index := uwrap 16 (uwrap 32 (Z.land handle UINT16_MAX - 1)) in
  let handle_generation := uwrap 16 (Z.shiftr handle 16) in
  if GG_IPC_MAX_STREAMS <=? handle_index then Fail GG_ERR_INVALID else
  generation ← get (rd (stream_state_generation s) handle_index);
  if negb (handle_generation =? generation) then Fail GG_ERR_NOENTRY else
  Ok handle_index.

Definition get_current_handle (s : stream_state) (index : Z) : option Z :=
  _ ← gg_asserts (index <? GG_IPC_MAX_STREAMS);
  generation ← rd (stream_state_generation s) index;
  Some (Z.lor (uwrap 32 (Z.shiftl generation 16)) (uwrap 32 (index + 1))).

(** The first index, from [i] on, of an element that passes the test. *)
Fixpoint find_loop (test : Z -> bool) (ids : list Z) (i : Z) : option Z :=
  match ids with
  | [] => None
  | id :: ids => if test id then Some i else find_loop test ids (i + 1)
  end.

(** [None] when the function returns [false]. *)
Definition get_stream_index_from_id (s : stream_state) (stream_id : Z) : option Z :=
  if stream_id <=? 0 then None
  else find_loop (fun id => id =? stream_id) (stream_state_id s) 0.

(** The inner [None] when the function returns [false]. *)
Definition claim_stream_index (s : stream_state) : option (option Z * stream_state) :=
  match find_loop (fun id => id =? 0) (stream_state_id s) 0 with
  | None => Some (None, s)
  | Some i =>
      generation ← rd (stream_state_generation s) i;
      gens ← wr (stream_state_generation s) i (uwrap 16 (generation + 1));
      ids ← wr (stream_state_id s) i (-1);
      Some (Some i, mkStreams ids gens (stream_state_handler s))
  end.

Definition set_stream_index (s : stream_state) (index stream_id : Z) (handler : StreamHandler)
    : option stream_state :=
  ids ← wr (stream_state_id s) index stream_id;
  handlers ← wr (stream_state_handler s) index handler;
  Some (mkStreams ids (stream_state_generation s) handlers).

Definition clear_stream_index (s : stream_state) (index : Z) : option stream_state :=
  generation ← rd (stream_state_generation s) index;
  gens ← wr (stream_state_generation s) index (uwrap 16 (generation + 1));
  ids ← wr (stream_state_id s) index 0;
  handlers ← wr (stream_state_handler s) index no_handler;
  Some (mkStreams ids gens handlers).

(** ** Slots

    The three arrays as one function of the index. *)

Record slot := mkSlot { slot_id : Z; slot_gen : Z; slot_handler : StreamHandler }.

Definition slot_at (s : stream_state) (i : Z) : option slot :=
  id ← rd (stream_state_id s) i;
  gen ← rd (stream_state_generation s) i;
  h ← rd (stream_state_handler s) i;
  Some (mkSlot id gen h).

(** The arrays have their size and the generations are 16-bit. *)
Definition streams_ok (s : stream_state) : Prop :=
  zlen (stream_state_id s) = 16 /\ zlen (stream_state_generation s) = 16 /\
  zlen (stream_state_handler s) = 16 /\
  Forall (fun g => 0 <= g < 2 ^ 16) (stream_state_generation s).

Lemma init_streams_ok : streams_ok init_streams.
Proof. split_and!; [done..|]. repeat constructor; done. Qed.

(** ** Lemmas on arrays *)

Lemma rd_wr {A} (arr arr' : list A) i x j :
  wr arr i x = Some arr' -> rd arr' j = if j =? i then Some x else rd arr j.
Proof.
  unfold wr, rd, zlen. case_if; [|done]. intros [= <-]. repeat case_if; try done; try lia.
  - subst. rewrite list_lookup_insert_eq; [done|lia].
  - rewrite list_lookup_insert_ne; [done|lia].
Qed.

Lemma zlen_wr {A} (arr arr' : list A) i x : wr arr i x = Some arr' -> zlen arr' = zlen arr.
Proof. unfold wr, zlen. case_if; [|done]. intros [= <-]. by rewrite length_insert. Qed.

Lemma wr_Some {A} (arr : list A) i x : 0 <= i < zlen arr -> exists arr', wr arr i x = Some arr'.
Proof.
  intros. unfold wr. rewrite (proj2 (Z.leb_le _ _)), (proj2 (Z.ltb_lt _ _)) by lia. by eexists.
Qed.

Lemma Forall_wr {A} (P : A -> Prop) arr arr' i x :
  wr arr i x = Some arr' -> P x -> Forall P arr -> Forall P arr'.
Proof. unfold wr. case_if; [|done]. intros [= <-]. intros. by apply Forall_insert. Qed.

Lemma find_loop_Some test ids i j :
  find_loop test ids i = Some j ->
  exists id, i <= j < i + zlen ids /\ rd ids (j - i) = Some id /\ test id = true /\
    forall k id', i <= k < j -> rd ids (k - i) = Some id' -> test id' = false.
Proof.
  revert i. induction ids as [|id ids IH]; intros i H; [done|]. cbn [find_loop] in H.
  rewrite zlen_cons. pose proof (zlen_nonneg ids). destruct (test id) eqn:Ht.
  - injection H as <-. exists id. rewrite Z.sub_diag. split_and!; [lia..|done|done|]. intros. lia.
  - destruct (IH _ H) as (id' & Hj & Hr & Ht' & Hmin). exists id'.
    split_and!; [lia|lia| |done|].
    + rewrite rd_cons by lia. by replace (j - i - 1) with (j - (i + 1)) by lia.
    + intros k id'' Hk Hrk. destruct (decide (k = i)) as [->|].
      { rewrite Z.sub_diag, rd_0_cons in Hrk. congruence. }
      apply (Hmin k id''); [lia|]. rewrite rd_cons in Hrk by lia.
      by replace (k - (i + 1)) with (k - i - 1) by lia.
Qed.

Lemma find_loop_None test ids i :
  find_loop test ids i = None -> forall k id, rd ids k = Some id -> test id = false.
Proof.
  revert i. induction ids as [|id ids IH]; intros i H k id' Hk.
  { apply rd_Some in Hk. unfold zlen in Hk. simpl in Hk. lia. }
  cbn [find_loop] in H. destruct (test id) eqn:Ht; [done|]. pose proof (rd_Some _ _ _ Hk).
  destruct (decide (k = 0)) as [->|]; [rewrite rd_0_cons in Hk; congruence|].
  rewrite rd_cons in Hk by lia. by eapply IH.
Qed.

(** ** The operations on slots *)

Lemma slot_at_Some s i : streams_ok s -> 0 <= i < 16 -> exists sl, slot_at s i = Some sl.
Proof.
  intros (H1 & H2 & H3 & _) Hi. unfold slot_at.
  destruct (rd_is_Some (stream_state_id s) i) as [? ->]; [lia|].
  destruct (rd_is_Some (stream_state_generation s) i) as [? ->]; [lia|].
  destruct (rd_is_Some (stream_state_handler s) i) as [? ->]; [lia|]. by eexists.
Qed.

Lemma slot_at_inv s i sl :
  slot_at s i = Some sl ->
  rd (stream_state_id s) i = Some (slot_id sl) /\ rd (stream_state_generation s) i = Some (slot_gen sl) /\
  rd (stream_state_handler s) i = Some (slot_handler sl).
Proof.
  unfold slot_at. destruct (rd (stream_state_id s) i); [|done].
  destruct (rd (stream_state_generation s) i); [|done].
  destruct (rd (stream_state_handler s) i); [|done]. by intros [= <-].
Qed.

Lemma slot_at_range s i sl : streams_ok s -> slot_at s i = Some sl -> 0 <= i < 16.
Proof. intros (<- & _) (H & _)%slot_at_inv. by eapply rd_Some. Qed.

(** [s'] is [s] with the slot [i] replaced. *)
Definition slot_updated (s s' : stream_state) (i : Z) (sl : slot) : Prop :=
  streams_ok s' /\ forall j, slot_at s' j = if j =? i then Some sl else slot_at s j.

Lemma uwrap16_range z : 0 <= uwrap 16 z < 2 ^ 16.
Proof. apply uwrap_range. lia. Qed.

Lemma slot_update s i sl :
  streams_ok s -> 0 <= i < 16 -> 0 <= slot_gen sl < 2 ^ 16 ->
  exists ids gens hs,
    wr (stream_state_id s) i (slot_id sl) = Some ids /\
    wr (stream_state_generation s) i (slot_gen sl) = Some gens /\
    wr (stream_state_handler s) i (slot_handler sl) = Some hs /\
    slot_updated s (mkStreams ids gens hs) i sl.
Proof.
  intros (H1 & H2 & H3 & H4) Hi Hg.
  destruct (wr_Some (stream_state_id s) i (slot_id sl)) as [ids Hids]; [lia|].
  destruct (wr_Some (stream_state_generation s) i (slot_gen sl)) as [gens Hgens]; [lia|].
  destruct (wr_Some (stream_state_handler s) i (slot_handler sl)) as [hs Hhs]; [lia|].
  exists ids, gens, hs. split_and!; [done..|]. split.
  - unfold streams_ok. cbn [stream_state_id stream_state_generation stream_state_handler].
    rewrite (zlen_wr _ _ _ _ Hids), (zlen_wr _ _ _ _ Hgens), (zlen_wr _ _ _ _ Hhs).
    split_and!; [done..|]. by eapply Forall_wr.
  - intros j. unfold slot_at. cbn [stream_state_id stream_state_generation stream_state_handler].
    rewrite (rd_wr _ _ _ _ _ Hids), (rd_wr _ _ _ _ _ Hgens), (rd_wr _ _ _ _ _ Hhs).
    destruct (j =? i); [by destruct sl|done].
Qed.

(** Writing back what is there changes nothing. *)
Lemma wr_same {A} (arr : list A) i x : rd arr i = Some x -> wr arr i x = Some arr.
Proof.
  intros H. pose proof (rd_Some _ _ _ H). destruct (wr_Some arr i x) as [arr' Hw]; [done|].
  rewrite Hw. f_equal. unfold wr, rd in *. repeat case_if_in H; [lia|].
  case_if_in Hw; [|done]. injection Hw as <-. by apply list_insert_id.
Qed.

Lemma claim_slot s :
  streams_ok s ->
  (exists i sl s', claim_stream_index s = Some (Some i, s') /\ slot_at s i = Some sl /\ slot_id sl = 0 /\
     slot_updated s s' i (mkSlot (-1) (uwrap 16 (slot_gen sl + 1)) (slot_handler sl))) \/
  (claim_stream_index s = Some (None, s) /\ forall i sl, slot_at s i = Some sl -> slot_id sl <> 0).
Proof.
  intros Hok. unfold claim_stream_index. destruct (find_loop _ _ _) as [i|] eqn:Hf.
  - left. apply find_loop_Some in Hf as (id & Hi & Hr & Ht & _). rewrite Z.sub_0_r in Hr. zify_bool.
    pose proof Hok as (H1 & _).
    destruct (slot_at_Some s i Hok ltac:(lia)) as [sl Hsl]. pose proof (slot_at_inv _ _ _ Hsl) as (Hid & Hgen & Hh).
    destruct (slot_update s i (mkSlot (-1) (uwrap 16 (slot_gen sl + 1)) (slot_handler sl)) Hok ltac:(lia)
      (uwrap16_range _)) as (ids & gens & hs & Hw1 & Hw2 & Hw3 & Hu). cbn in Hw1, Hw2, Hw3.
    rewrite (wr_same _ _ _ Hh) in Hw3. injection Hw3 as <-.
    exists i, sl, (mkStreams ids gens (stream_state_handler s)).
    rewrite Hgen. cbn [mbind option_bind]. rewrite Hw2. cbn [mbind option_bind]. rewrite Hw1.
    split_and!; [done|done|congruence|done].
  - right. split; [done|]. intros i sl (Hid & _)%slot_at_inv E.
    pose proof (find_loop_None _ _ _ Hf _ _ Hid) as Hne. cbv beta in Hne. zify_bool. done.
Qed.

Lemma set_slot s i sl stream_id handler :
  streams_ok s -> slot_at s i = Some sl ->
  exists s', set_stream_index s i stream_id handler = Some s' /\
    slot_updated s s' i (mkSlot stream_id (slot_gen sl) handler).
Proof.
  intros Hok Hsl. pose proof (slot_at_range _ _ _ Hok Hsl) as Hi.
  pose proof (slot_at_inv _ _ _ Hsl) as (Hid & Hgen & Hh).
  assert (0 <= slot_gen sl < 2 ^ 16) as Hg.
  { destruct Hok as (_ & _ & _ & Hf). unfold rd in Hgen. case_if_in Hgen; [lia|].
    by eapply (Forall_lookup_1 _ _ _ _ Hf). }
  destruct (slot_update s i (mkSlot stream_id (slot_gen sl) handler) Hok Hi Hg)
    as (ids & gens & hs & Hw1 & Hw2 & Hw3 & Hu). cbn in Hw1, Hw2, Hw3.
  rewrite (wr_same _ _ _ Hgen) in Hw2. injection Hw2 as <-.
  exists (mkStreams ids (stream_state_generation s) hs). unfold set_stream_index. rewrite Hw1.
  cbn [mbind option_bind]. by rewrite Hw3.
Qed.

Lemma clear_slot s i sl :
  streams_ok s -> slot_at s i = Some sl ->
  exists s', clear_stream_index s i = Some s' /\
    slot_updated s s' i (mkSlot 0 (uwrap 16 (slot_gen sl + 1)) no_handler).
Proof.
  intros Hok Hsl. pose proof (slot_at_range _ _ _ Hok Hsl) as Hi.
  pose proof (slot_at_inv _ _ _ Hsl) as (Hid & Hgen & Hh).
  destruct (slot_update s i (mkSlot 0 (uwrap 16 (slot_gen sl + 1)) no_handler) Hok Hi (uwrap16_range _))
    as (ids & gens & hs & Hw1 & Hw2 & Hw3 & Hu). cbn in Hw1, Hw2, Hw3.
  exists (mkStreams ids gens hs). unfold clear_stream_index. rewrite Hgen. cbn [mbind option_bind].
  rewrite Hw2. cbn [mbind option_bind]. rewrite Hw1. cbn [mbind option_bind]. by rewrite Hw3.
Qed.

Lemma find_stream s stream_id :
  streams_ok s ->
  match get_stream_index_from_id s stream_id with
  | Some i => exists sl, slot_at s i = Some sl /\ slot_id sl = stream_id /\ 0 < stream_id
  | None => stream_id <= 0 \/ forall i sl, slot_at s i = Some sl -> slot_id sl <> stream_id
  end.
Proof.
  intros Hok. unfold get_stream_index_from_id. case_if; [by left|].
  destruct (find_loop _ _ _) as [i|] eqn:Hf.
  - apply find_loop_Some in Hf as (id & Hi & Hr & Ht & _). rewrite Z.sub_0_r in Hr. zify_bool.
    destruct (slot_at_Some s i Hok) as [sl Hsl]; [destruct Hok; lia|].
    exists sl. split; [done|]. split; [|lia]. apply slot_at_inv in Hsl as (Hid & _). congruence.
  - right. intros i sl (Hid & _)%slot_at_inv E'.
    pose proof (find_loop_None _ _ _ Hf _ _ Hid) as Hne. cbv beta in Hne. zify_bool. done.
Qed.

(** ** Handles *)

(** The handle of a generation of a slot. *)
Definition handle_of (i gen : Z) : Z := gen * 2 ^ 16 + (i + 1).

Lemma current_handle s i sl :
  streams_ok s -> slot_at s i = Some sl -> get_current_handle s i = Some (handle_of i (slot_gen sl)).
Proof.
  intros Hok Hsl. pose proof (slot_at_range _ _ _ Hok Hsl) as Hi.
  pose proof (slot_at_inv _ _ _ Hsl) as (_ & Hgen & _). unfold get_current_handle.
  assert (0 <= slot_gen sl < 2 ^ 16) as Hg.
  { destruct Hok as (_ & _ & _ & Hf). unfold rd in Hgen. case_if_in Hgen; [lia|].
    by eapply (Forall_lookup_1 _ _ _ _ Hf). }
  rewrite (proj2 (Z.ltb_lt _ _)) by (unfold GG_IPC_MAX_STREAMS; lia). cbn [gg_asserts mbind option_bind].
  rewrite Hgen. cbn [mbind option_bind]. f_equal.
  rewrite Z.shiftl_mul_pow2, !uwrap_small by lia. rewrite lor_mul by lia. done.
Qed.

Lemma handle_of_split i gen :
  0 <= i < 16 -> 0 <= gen < 2 ^ 16 ->
  Z.land (handle_of i gen) UINT16_MAX = i + 1 /\ Z.shiftr (handle_of i gen) 16 = gen.
Proof.
  intros Hi Hg. unfold handle_of. change UINT16_MAX with (Z.ones 16).
  rewrite Z.land_ones, Z.shiftr_div_pow2 by lia. change (2 ^ 16) with 65536 in *. split; dlia.
Qed.

Lemma validate_handle_of s i sl gen :
  streams_ok s -> slot_at s i = Some sl -> 0 <= gen < 2 ^ 16 ->
  validate_handle s (handle_of i gen) = if slot_gen sl =? gen then Ok i else Fail GG_ERR_NOENTRY.
Proof.
  intros Hok Hsl Hg. pose proof (slot_at_range _ _ _ Hok Hsl) as Hi.
  pose proof (slot_at_inv _ _ _ Hsl) as (_ & Hgen & _).
  destruct (handle_of_split i gen Hi Hg) as [Hl Hr]. unfold validate_handle. rewrite Hl, Hr.
  replace (i + 1 - 1) with i by lia. rewrite (uwrap_small 32), !(uwrap_small 16) by lia.
  rewrite (proj2 (Z.leb_gt _ _)) by (unfold GG_IPC_MAX_STREAMS; lia). rewrite Hgen. cbn [get mbind outcome_bind].
  rewrite Z.eqb_sym. by destruct (slot_gen sl =? gen).
Qed.

(** Whatever the handle is, its check is in bounds. *)
Lemma validate_handle_cases s handle :
  streams_ok s -> 0 <= handle < 2 ^ 32 ->
  (exists i sl, validate_handle s handle = Ok i /\ slot_at s i = Some sl /\ handle = handle_of i (slot_gen sl)) \/
  validate_handle s handle = Fail GG_ERR_INVALID \/ validate_handle s handle = Fail GG_ERR_NOENTRY.
Proof.
  intros Hok Hh. set (lo := Z.land handle UINT16_MAX).
  assert (lo = handle mod 65536) as Hlo by (unfold lo; change UINT16_MAX with (Z.ones 16); by rewrite Z.land_ones).
  assert (Z.shiftr handle 16 = handle / 65536) as Hhi by by rewrite Z.shiftr_div_pow2.
  destruct (decide (1 <= lo <= 16)) as [Hr|Hr].
  - assert (exists i gen, handle = handle_of i gen /\ 0 <= i < 16 /\ 0 <= gen < 2 ^ 16)
      as (i & gen & -> & Hi & Hg).
    { exists (lo - 1), (handle / 65536). unfold handle_of. change (2 ^ 16) with 65536. split_and!; dlia. }
    destruct (slot_at_Some s i Hok Hi) as [sl Hsl]. rewrite (validate_handle_of s _ sl _ Hok Hsl Hg).
    case_if; [|auto]. left. exists i, sl. split_and!; [done|done|]. by rewrite E.
  - right. left. unfold validate_handle. fold lo. cbv zeta.
    assert (0 <= lo < 65536) by dlia. rewrite (proj2 (Z.leb_le _ _)); [done|].
    unfold GG_IPC_MAX_STREAMS. destruct (decide (lo = 0)) as [->|]; [by vm_compute|].
    rewrite (uwrap_small 32), (uwrap_small 16) by lia. lia.
Qed.

(** ** Handles over the lifetime of a slot *)

Inductive stream_op :=
  | OpClaim
  | OpSet (index stream_id : Z) (handler : StreamHandler)
  | OpClear (index : Z).

(** The state after an operation, and the slots it gave another generation. *)
Definition apply_op (s : stream_state) (op : stream_op) : option (list Z * stream_state) :=
  match op with
  | OpClaim => '(i, s) ← claim_stream_index s; Some (match i with Some i => [i] | None => [] end, s)
  | OpSet index stream_id handler => s ← set_stream_index s index stream_id handler; Some ([], s)
  | OpClear index => s ← clear_stream_index s index; Some ([index], s)
  end.

Fixpoint apply_ops (s : stream_state) (ops : list stream_op) : option (list Z * stream_state) :=
  match ops with
  | [] => Some ([], s)
  | op :: ops =>
      '(changed, s) ← apply_op s op;
      '(changed', s) ← apply_ops s ops;
      Some (changed ++ changed', s)
  end.

(** How often [i] occurs in [l]. *)
Definition times (i : Z) (l : list Z) : Z := zlen (filter (fun j => j = i) l).

Lemma times_app i l k : times i (l ++ k) = times i l + times i k.
Proof. unfold times. by rewrite filter_app, zlen_app. Qed.

Lemma times_single i j : times i [j] = if i =? j then 1 else 0.
Proof.
  unfold times. destruct (decide (j = i)) as [->|Hne].
  - by rewrite filter_cons_True, Z.eqb_refl.
  - rewrite filter_cons_False by done. by rewrite (proj2 (Z.eqb_neq _ _)) by congruence.
Qed.

(** In every slot, the generation counts the changes. *)
Definition generations (s s' : stream_state) (changed : list Z) : Prop :=
  streams_ok s' /\
  forall i sl, slot_at s i = Some sl ->
    exists sl', slot_at s' i = Some sl' /\ slot_gen sl' = uwrap 16 (slot_gen sl + times i changed).

Lemma slot_gen_range s i sl : streams_ok s -> slot_at s i = Some sl -> 0 <= slot_gen sl < 2 ^ 16.
Proof.
  intros (_ & _ & _ & Hf) (_ & Hgen & _)%slot_at_inv. unfold rd in Hgen. case_if_in Hgen; [done|].
  by eapply (Forall_lookup_1 _ _ _ _ Hf).
Qed.

Lemma generations_refl s : streams_ok s -> generations s s [].
Proof.
  intros Hs. split; [done|]. intros i sl Hsl. exists sl. split; [done|].
  change (times i []) with 0. rewrite Z.add_0_r, uwrap_small; [done|]. by eapply slot_gen_range.
Qed.

Lemma generations_trans s1 s2 s3 l k : generations s1 s2 l -> generations s2 s3 k -> generations s1 s3 (l ++ k).
Proof.
  intros [_ H12] [Hok H23]. split; [done|]. intros i sl Hsl. destruct (H12 _ _ Hsl) as (sl2 & Hsl2 & E2).
  destruct (H23 _ _ Hsl2) as (sl3 & Hsl3 & E3). exists sl3. split; [done|].
  rewrite E3, E2, times_app. unfold uwrap. rewrite Zplus_mod_idemp_l. f_equal. lia.
Qed.

(** The changes of one slot by one. *)
Lemma updated_generations s s' i sl sl' :
  streams_ok s -> slot_at s i = Some sl -> slot_updated s s' i sl' ->
  slot_gen sl' = uwrap 16 (slot_gen sl + 1) -> generations s s' [i].
Proof.
  intros Hs Hsl [Hok Hat] Hg. split; [done|]. intros j slj Hj. rewrite Hat, times_single. case_if.
  - subst j. rewrite Hsl in Hj. injection Hj as <-. exists sl'. done.
  - exists slj. split; [done|]. rewrite Z.add_0_r, uwrap_small; [done|]. exact (slot_gen_range _ _ _ Hs Hj).
Qed.

Lemma op_generations s op changed s' :
  streams_ok s -> apply_op s op = Some (changed, s') -> generations s s' changed.
Proof.
  intros Hs H. destruct op as [|index id h|index]; unfold apply_op in H.
  - destruct (claim_slot s Hs) as [(i & sl & s1 & Hc & Hsl & _ & Hu)|[Hc _]]; rewrite Hc in H;
      injection H as <- <-; [|by apply generations_refl]. by eapply updated_generations.
  - destruct (set_stream_index s index id h) as [s1|] eqn:Hc; [|done]. injection H as <- <-.
    destruct (slot_at_Some s index Hs) as [sl Hsl].
    { unfold set_stream_index, wr in Hc. destruct Hs as (<- & _).
      destruct ((0 <=? index) && (index <? zlen (stream_state_id s))) eqn:E; [|done]. zify_bool. lia. }
    destruct (set_slot s index sl id h Hs Hsl) as (s2 & Hc2 & Hok & Hat). rewrite Hc in Hc2. injection Hc2 as <-.
    split; [done|]. intros j slj Hj. rewrite Hat. change (times j []) with 0. rewrite Z.add_0_r.
    pose proof (slot_gen_range _ _ _ Hs Hj). case_if.
    + subst j. rewrite Hsl in Hj. injection Hj as <-. eexists. split; [done|]. by rewrite uwrap_small.
    + exists slj. split; [done|]. by rewrite uwrap_small.
  - destruct (clear_stream_index s index) as [s1|] eqn:Hc; [|done]. injection H as <- <-.
    destruct (slot_at_Some s index Hs) as [sl Hsl].
    { unfold clear_stream_index in Hc. destruct (rd (stream_state_generation s) index) as [g|] eqn:Hg; [|done].
      apply rd_Some in Hg. destruct Hs as (_ & <- & _). lia. }
    destruct (clear_slot s index sl Hs Hsl) as (s2 & Hc2 & Hu). rewrite Hc in Hc2. injection Hc2 as <-.
    by eapply updated_generations.
Qed.

Lemma ops_generations ops s changed s' :
  streams_ok s -> apply_ops s ops = Some (changed, s') -> generations s s' changed.
Proof.
  revert s changed. induction ops as [|op ops IH]; intros s changed Hs H; cbn [apply_ops] in H.
  - injection H as <- <-. by apply generations_refl.
  - destruct (apply_op s op) as [[l s1]|] eqn:Hop; [|done]. cbn [mbind option_bind] in H.
    destruct (apply_ops s1 ops) as [[k s2]|] eqn:Hops; [|done]. injection H as <- <-.
    pose proof (op_generations _ _ _ _ Hs Hop) as Hg. eapply generations_trans; [done|].
    apply IH; [apply Hg|done].
Qed.

(** C13: A subscription handle stays valid, and names its slot, exactly as long
    as the slot is neither cleared nor claimed again; afterwards it is rejected
    with [GG_ERR_NOENTRY], until the 16-bit generation of the slot has come
    around after 65536 changes. *)
Theorem handle_validity s i handle ops changed s' :
  streams_ok s -> 0 <= i -> get_current_handle s i = Some handle ->
  apply_ops s ops = Some (changed, s') ->
  validate_handle s' handle =
    if times i changed mod 2 ^ 16 =? 0 then Ok i else Fail GG_ERR_NOENTRY.
Proof.
  intros Hs Hi Hh H. assert (i < 16) as Hi'.
  { unfold get_current_handle in Hh. destruct (i <? GG_IPC_MAX_STREAMS) eqn:E; [by zify_bool|done]. }
  destruct (slot_at_Some s i Hs ltac:(lia)) as [sl Hsl]. rewrite (current_handle _ _ _ Hs Hsl) in Hh.
  injection Hh as <-. destruct (ops_generations _ _ _ _ Hs H) as [Hok Hg].
  destruct (Hg _ _ Hsl) as (sl' & Hsl' & E). pose proof (slot_gen_range _ _ _ Hs Hsl) as Hr.
  rewrite (validate_handle_of s' i sl' _ Hok Hsl' Hr), E. unfold uwrap.
  assert (0 <= times i changed) as Ht by apply zlen_nonneg. change (2 ^ 16) with 65536 in *.
  repeat case_if; try done; exfalso; dlia.
Qed.

(** A handle of slot 0, and the slot used again. *)
Lemma handle_validity_witness :
  exists s changed s', streams_ok s /\ get_current_handle s 0 = Some 65537 /\
    apply_ops s [OpSet 0 7 no_handler; OpClear 0; OpClaim] = Some (changed, s') /\
    validate_handle s' 65537 = Fail GG_ERR_NOENTRY.
Proof.
  destruct (claim_stream_index init_streams) as [[? s]|] eqn:E; [|done]. vm_compute in E. injection E as <- <-.
  match goal with |- exists s, _ => eexists (mkStreams _ _ _), [0; 0], (mkStreams _ _ _) end.
  assert (streams_ok (mkStreams ([-1] ++ repeat 0 15) ([1] ++ repeat 0 15) (repeat no_handler 16))) as Hok.
  { split_and!; [done..|]. repeat constructor; done. }
  split_and!; [exact Hok|by vm_compute|by vm_compute|].
  by apply (handle_validity _ 0 65537 [OpSet 0 7 no_handler; OpClear 0; OpClaim] [0; 0] _ Hok).
Defined.
