(* ===== verification/Client.v ===== *)
(** The IPC client ([src/ipc/client.c]): connecting, calls and subscriptions,
    and the thread that receives.

    The client's state is its static variables, the memory, the state of the
    system, and the contexts of the calls that are waiting for a response,
    which are local variables of the threads that make the calls. A call runs
    up to its first wait under the mutex ([ggipc_subscribe_begin]); what
    happens when it wakes up is [subscribe_finish] or [subscribe_timed_out].
    The callbacks of the application are parameters, as are the addresses of
    the static buffers and of the local variables whose address is taken. *)

From S2P Require Import Prelude Memory Buffer Io EsDecode EsEncode EsRpc Object Map Visit Arena JsonEncode JsonDecode File Socket Streams.

(** ** Data *)

Definition GG_IPC_MAX_MSG_LEN : Z := 10000.

(** The fields that the handler uses; the condition variable is the call's. *)
Record ResponseHandlerCtx := mkResponseCtx {
  ctx_ready : bool; ctx_ret : GgError;
  result_callback : Z; error_callback : Z; response_ctx : Z;
  sub_callback : Z; sub_callback_ctx : Z; sub_callback_aux_ctx : Z }.

(** The local variables of a waiting call: [response_handler_ctx] and
    [stream_index]. *)
Record waiting := mkWaiting { call_ctx : ResponseHandlerCtx; stream_index : Z }.

Record client (W : Type) := mkClient {
  ipc_conn_fd : Z; epoll_fd : Z; recv_thread_id : Z; next_stream_id : Z;
  streams : stream_state; calls : gmap Z waiting;
  cmem : mem; sys : W }.
Arguments mkClient {W}. Arguments ipc_conn_fd {W}. Arguments epoll_fd {W}. Arguments recv_thread_id {W}.
Arguments next_stream_id {W}. Arguments streams {W}. Arguments calls {W}. Arguments cmem {W}. Arguments sys {W}.

Definition with_streams {W} (s : stream_state) (c : client W) : client W :=
  mkClient (ipc_conn_fd c) (epoll_fd c) (recv_thread_id c) (next_stream_id c) s (calls c) (cmem c) (sys c).
Definition with_calls {W} (cs : gmap Z waiting) (c : client W) : client W :=
  mkClient (ipc_conn_fd c) (epoll_fd c) (recv_thread_id c) (next_stream_id c) (streams c) cs (cmem c) (sys c).
Definition with_mem {W} (w : W) (m : mem) (c : client W) : client W :=
  mkClient (ipc_conn_fd c) (epoll_fd c) (recv_thread_id c) (next_stream_id c) (streams c) (calls c) m w.
Definition with_conn {W} (fd : Z) (c : client W) : client W :=
  mkClient fd (epoll_fd c) (recv_thread_id c) (next_stream_id c) (streams c) (calls c) (cmem c) (sys c).
Definition with_epoll {W} (fd : Z) (c : client W) : client W :=
  mkClient (ipc_conn_fd c) fd (recv_thread_id c) (next_stream_id c) (streams c) (calls c) (cmem c) (sys c).
Definition with_tid {W} (tid : Z) (c : client W) : client W :=
  mkClient (ipc_conn_fd c) (epoll_fd c) tid (next_stream_id c) (streams c) (calls c) (cmem c) (sys c).
Definition with_next {W} (id : Z) (c : client W) : client W :=
  mkClient (ipc_conn_fd c) (epoll_fd c) (recv_thread_id c) id (streams c) (calls c) (cmem c) (sys c).

(** ** Computations on the client *)

(** [Ok a] for [GG_ERR_OK]. *)
Definition ended_with {A} (ret : GgError) (a : A) : outcome A :=
  if bool_decide (ret = GG_ERR_OK) then Ok a else Fail ret.

Section steps.
Context {W : Type}.

Definition gets {A} (f : client W -> A) : sysm (client W) A := fun c => (Ok (f c), c).
Definition need {A} (o : option A) : sysm (client W) A := lift_out (get o).

(** A computation on the memory and the system. *)
Definition on_mem {A} (f : W -> mem -> option (outcome A * W * mem)) : sysm (client W) A := fun c =>
  match f (sys c) (cmem c) with
  | Some (r, w, m) => (r, with_mem w m c)
  | None => (Stuck, c)
  end.

Definition on_sys {A} (f : sysm W A) : sysm (client W) A := fun c =>
  let '(r, w) := f (sys c) in (r, with_mem w (cmem c) c).

Definition on_streams {A} (f : stream_state -> option (A * stream_state)) : sysm (client W) A := fun c =>
  match f (streams c) with
  | Some (a, s) => (Ok a, with_streams s c)
  | None => (Stuck, c)
  end.

Definition on_calls (f : gmap Z waiting -> gmap Z waiting) : sysm (client W) unit := fun c =>
  (Ok tt, with_calls (f (calls c)) c).

Definition store_local (a : Z) (bs : bytes) : sysm (client W) unit :=
  on_mem (fun w m => m ← store m a bs; Some (Ok tt, w, m)).

Definition set_index (index stream_id : Z) (handler : StreamHandler) : sysm (client W) unit :=
  on_streams (fun s => s ← set_stream_index s index stream_id handler; Some (tt, s)).
Definition clear_index (index : Z) : sysm (client W) unit :=
  on_streams (fun s => s ← clear_stream_index s index; Some (tt, s)).
End steps.

(** What the client is given: the system, the parameters of the JSON encoder
    and decoder, and of the program it is part of. *)
Class ClientEnv (W : Type) := {
  os : Os W;
  sos : SockOs W;
  retries : nat;
  format_f64 : Z -> bytes;
  strtod : mem -> Z -> Z * bool;
  pruned : BufPtr;
  (** the static buffers *)
  ipc_recv_mem : Z;
  ipc_recv_decode_mem : Z;
  ipc_send_mem : Z;
  (** the local variables: the parameters of a call as an object, the same in
      the encoder's frame, the decoded object, the pair with the token *)
  params_obj : Z;
  json_frame : Z;
  result_obj : Z;
  token_kv : Z;
  (** the callbacks at an address, applied to their contexts *)
  result_fn : Z -> Z -> GgMap -> sysm (client W) unit;
  error_fn : Z -> Z -> bytes -> bytes -> sysm (client W) unit;
  sub_fn : Z -> Z -> Z -> Z -> bytes -> GgMap -> sysm (client W) unit;
}.

Section client.
Context `{ClientEnv W}.

Abbreviation client := (client W).

(** ** Sending *)

Definition ipc_send_packet {V} (conn : Z) (headers : list EventStreamHeader) (payload : GgReader V) (v : V)
    : sysm client unit :=
  es_packet ← on_mem (fun w m =>
    '(ret, _, m, es_packet) ←
      eventstream_encode m (mkBuf ipc_send_mem GG_IPC_MAX_MSG_LEN) (Some headers) payload v;
    Some (ended_with ret es_packet, w, m));
  m ← gets cmem;
  bs ← need (buf_bytes m es_packet);
  on_mem (fun w m => '(ret, w) ← gg_socket_write os retries conn w bs; Some (ended_with ret tt, w, m)).

(** The same with the JSON text of the object at [params_obj] as payload. *)
Definition send_object (conn : Z) (headers : list EventStreamHeader) (obj : GgObject) : sysm client unit :=
  _ ← store_local params_obj obj;
  '(reader, ctx) ← need (gg_json_reader format_f64 json_frame params_obj);
  ipc_send_packet conn headers reader ctx.

(** ** Connecting *)

Definition connected (c : client) : bool := 0 <=? ipc_conn_fd c.

Definition register_ipc_socket (conn : Z) : sysm client unit :=
  epoll_fd ← gets epoll_fd;
  _ ← lift_out (gg_assert (0 <=? epoll_fd));
  on_sys (gg_socket_epoll_add sos epoll_fd conn (uwrap 64 conn)).

(** The default of the hook, which a program may replace. *)
Definition ggipc_connect_extra_header_handler (headers : EventStreamHeaderIter) : sysm client unit := mret tt.

(** [eventsteam_get_packet] on the descriptor and [ipc_recv_mem]. *)
Definition receive_packet (conn : Z) : sysm client EventStreamMessage :=
  on_mem (fun w m =>
    eventsteam_get_packet (gg_socket_reader os retries conn) w m (mkBuf ipc_recv_mem GG_IPC_MAX_MSG_LEN)).

Definition connect_headers : list EventStreamHeader :=
  [mkHeader (GG_STR ":message-type") (EVENTSTREAM_INT32 EVENTSTREAM_CONNECT);
   mkHeader (GG_STR ":message-flags") (EVENTSTREAM_INT32 0);
   mkHeader (GG_STR ":stream-id") (EVENTSTREAM_INT32 0);
   mkHeader (GG_STR ":version") (EVENTSTREAM_STRING (GG_STR "0.1.0"))].

(** [connection_cleanup]: the descriptor is closed unless the end is reached. *)
Definition ggipc_connect_with_payload (socket_path : bytes) (payload : GgObject) : sysm client unit :=
  already ← gets connected;
  _ ← lift_out (gg_assert (negb already));
  conn ← on_sys (gg_connect os sos socket_path);
  ret ← attempt (
    _ ← send_object conn connect_headers payload;
    msg ← receive_packet conn;
    common_headers ← lift_out (eventstream_get_common_headers msg);
    if negb (message_type common_headers =? EVENTSTREAM_CONNECT_ACK) then fail GG_ERR_FAILURE else
    if Z.land (message_flags common_headers) EVENTSTREAM_CONNECTION_ACCEPTED =? 0
    then fail GG_ERR_FAILURE else
    _ ← ggipc_connect_extra_header_handler (headers msg);
    register_ipc_socket conn);
  match ret with
  | inl e => _ ← attempt (on_sys (cleanup_close os conn (mret tt))); fail e
  | inr _ => fun c => (Ok tt, with_conn conn c)
  end.

Definition ggipc_connect_with_token (socket_path : bytes) (auth_token : BufPtr) (auth_token_key : Z)
    : sysm client unit :=
  token ← need (gg_obj_buf auth_token);
  kv ← need (gg_kv (mkBuf auth_token_key 9) token);
  _ ← store_local token_kv kv;
  payload ← need (gg_obj_map (mkMap token_kv 1));
  ggipc_connect_with_payload socket_path payload.

(** [getenv] gives a variable's address and contents. *)
Definition ggipc_connect (getenv : bytes -> option (Z * bytes)) (auth_token_key : Z) : sysm client unit :=
  match getenv (GG_STR "SVCUID") with
  | None => fail GG_ERR_CONFIG
  | Some (svcuid, svcuid_text) =>
      match getenv (GG_STR "AWS_GG_NUCLEUS_DOMAIN_SOCKET_FILEPATH_FOR_COMPONENT") with
      | None => fail GG_ERR_CONFIG
      | Some (_, socket_path) =>
          socket_path ← need (gg_buffer_from_null_term socket_path);
          auth_token ← need (gg_buffer_from_null_term svcuid_text);
          ggipc_connect_with_token socket_path (mkBuf svcuid (zlen auth_token)) auth_token_key
      end
  end.

(** ** Responses *)

(** Where the payload of a packet in [ipc_recv_mem] lies: the iterator of its
    headers starts at the data section, which ends in a CRC. *)
Definition payload_buf (msg : EventStreamMessage) : BufPtr :=
  mkBuf (ipc_recv_mem + (zlen (pos (headers msg)) - 4 - zlen (payload msg))) (zlen (payload msg)).

(** Decodes a payload into the object at [result_obj], in the static arena. *)
Definition decode_payload (payload : BufPtr) : sysm client GgObject :=
  _ ← on_mem (fun w m =>
    let alloc := gg_arena_init (mkBuf ipc_recv_decode_mem (sizeof_GgObject * GG_MAX_OBJECT_SUBOBJECTS)) in
    '(ret, m, _) ← gg_json_decode_destructive strtod pruned m payload (Some alloc) result_obj;
    Some (ended_with ret tt, w, m));
  m ← gets cmem;
  need (read_obj m result_obj).

(** The local pointers that the schema fills, by number. *)
Definition error_schema : list GgMapSchemaEntry :=
  [mkEntry (GG_STR "_errorCode") GG_REQUIRED GG_TYPE_BUF 1;
   mkEntry (GG_STR "_message") GG_OPTIONAL GG_TYPE_BUF 2].

(** The contents of the string object at an address. *)
Definition buf_at (m : mem) (obj : Z) : option bytes :=
  obj ← read_obj m obj;
  buf ← gg_obj_into_buf obj;
  buf_bytes m buf.

Definition handle_application_error (payload : BufPtr) (error_callback response_ctx : Z) : sysm client unit :=
  if error_callback =? NULL then fail GG_ERR_REMOTE else
  err_result ← decode_payload payload;
  type ← need (gg_obj_type err_result);
  if negb (bool_decide (type = GG_TYPE_MAP)) then fail GG_ERR_PARSE else
  err_map ← need (gg_obj_into_map err_result);
  m ← gets cmem;
  '(ret, vars) ← need (gg_map_validate m err_map error_schema ∅);
  _ ← lift_out (ended_with ret tt);
  error_code_obj ← need (vars !! 1);
  error_code ← need (buf_at m error_code_obj);
  message_obj ← need (vars !! 2);
  message ← need (if negb (message_obj =? NULL) then buf_at m message_obj else Some []);
  _ ← error_fn error_callback response_ctx error_code message;
  fail GG_ERR_REMOTE.

Definition response_handler_inner (common_headers : EventStreamCommonHeaders) (msg : EventStreamMessage)
    (result_callback error_callback response_ctx : Z) : sysm client unit :=
  if message_type common_headers =? EVENTSTREAM_APPLICATION_ERROR
  then handle_application_error (payload_buf msg) error_callback response_ctx else
  if negb (message_type common_headers =? EVENTSTREAM_APPLICATION_MESSAGE) then fail GG_ERR_FAILURE else
  if result_callback =? NULL then mret tt else
  _ ← store_local result_obj GG_OBJ_NULL;
  result ← decode_payload (payload_buf msg);
  type ← need (gg_obj_type result);
  if negb (bool_decide (type = GG_TYPE_MAP)) then fail GG_ERR_FAILURE else
  map ← need (gg_obj_into_map result);
  result_fn result_callback response_ctx map.

(** [call_ctx->ready = true] and [call_ctx->ret = ret], and the signal. *)
Definition respond (ctx : Z) (call : waiting) (ret : GgError) : sysm client unit :=
  let c := call_ctx call in
  on_calls (<[ctx := mkWaiting
    (mkResponseCtx true ret (result_callback c) (error_callback c) (response_ctx c)
       (sub_callback c) (sub_callback_ctx c) (sub_callback_aux_ctx c)) (stream_index call)]>).

(** A context that is no longer there is a bad access. *)
Definition response_handler (index ctx : Z) (common_headers : EventStreamCommonHeaders)
    (msg : EventStreamMessage) : sysm client unit :=
  call ← gets (fun c => calls c !! ctx);
  call ← need call;
  let c := call_ctx call in
  ret ← attempt (response_handler_inner common_headers msg
                   (result_callback c) (error_callback c) (response_ctx c));
  if (sub_callback c =? NULL) || negb (bool_decide (ret = inr tt)) then
    _ ← clear_index index;
    respond ctx call (match ret with inl e => e | inr _ => GG_ERR_OK end)
  else if negb (Z.land (message_flags common_headers) EVENTSTREAM_TERMINATE_STREAM =? 0) then
    _ ← clear_index index;
    respond ctx call GG_ERR_FAILURE
  else
    _ ← set_index index (stream_id common_headers)
          (mkHandler (sub_callback c) (sub_callback_ctx c) (sub_callback_aux_ctx c));
    respond ctx call GG_ERR_OK.

(** ** Calls *)

(** [next_stream_id++]; the overflow is undefined. *)
Definition take_stream_id : sysm client Z := fun c =>
  if next_stream_id c <? 2147483647
  then (Ok (next_stream_id c), with_next (next_stream_id c + 1) c)
  else (Stuck, c).

Definition call_headers (stream_id : Z) (operation service_model_type : bytes) : list EventStreamHeader :=
  [mkHeader (GG_STR ":message-type") (EVENTSTREAM_INT32 EVENTSTREAM_APPLICATION_MESSAGE);
   mkHeader (GG_STR ":message-flags") (EVENTSTREAM_INT32 0);
   mkHeader (GG_STR ":stream-id") (EVENTSTREAM_INT32 stream_id);
   mkHeader (GG_STR "operation") (EVENTSTREAM_STRING operation);
   mkHeader (GG_STR "service-model-type") (EVENTSTREAM_STRING service_model_type)].

(** The arguments of a call. *)
Record request := mkRequest {
  operation : bytes; service_model_type : bytes; params : GgMap;
  req_result_callback : Z; req_error_callback : Z; req_response_ctx : Z;
  req_sub_callback : Z; req_sub_ctx : Z; req_sub_aux_ctx : Z; sub_handle : Z }.

Definition initial_ctx (r : request) : ResponseHandlerCtx :=
  mkResponseCtx false GG_ERR_TIMEOUT (req_result_callback r) (req_error_callback r) (req_response_ctx r)
    (req_sub_callback r) (req_sub_ctx r) (req_sub_aux_ctx r).

(** What [ggipc_subscribe] does before it waits, on the thread [tid] and with
    its context at [ctx]. *)
Definition ggipc_subscribe_begin (tid ctx : Z) (r : request) : sysm client unit :=
  conn ← gets connected;
  if negb conn then fail GG_ERR_NOCONN else
  recv_tid ← gets recv_thread_id;
  if recv_tid =? tid then fail GG_ERR_INVALID else
  index ← on_streams claim_stream_index;
  match index with
  | None => fail GG_ERR_NOMEM
  | Some index =>
      stream_id ← take_stream_id;
      _ ← set_index index stream_id (mkHandler NULL ctx NULL);
      _ ← on_calls (<[ctx := mkWaiting (initial_ctx r) index]>);
      _ ← (if negb (sub_handle r =? NULL) then
             handle ← on_streams (fun s => h ← get_current_handle s index; Some (h, s));
             store_local (sub_handle r) (le_bytes 4 handle)
           else mret tt);
      params_object ← need (gg_obj_map (params r));
      fd ← gets ipc_conn_fd;
      ret ← attempt (send_object fd (call_headers stream_id (operation r) (service_model_type r)) params_object);
      match ret with
      | inl e => _ ← clear_index index; _ ← on_calls (delete ctx); fail e
      | inr _ => mret tt
      end
  end.

(** The end of the loop, when the response is there. *)
Definition subscribe_finish (ctx : Z) (call : waiting) : sysm client unit :=
  _ ← on_calls (delete ctx);
  lift_out (ended_with (ctx_ret (call_ctx call)) tt).

(** The wait has timed out. *)
Definition subscribe_timed_out (ctx : Z) (call : waiting) : sysm client unit :=
  _ ← clear_index (stream_index call);
  _ ← on_calls (delete ctx);
  fail GG_ERR_TIMEOUT.

Section wait.
(** [pthread_cond_timedwait]: whether it times out, and the state after what
    the other threads did meanwhile. *)
Context (cond_timedwait : Z -> client -> bool * client).

Fixpoint wait_loop (fuel : nat) (ctx : Z) : sysm client unit :=
  call ← gets (fun c => calls c !! ctx);
  call ← need call;
  if ctx_ready (call_ctx call) then subscribe_finish ctx call else
  match fuel with
  | O => lift_out Stuck
  | S fuel =>
      timed_out ← (fun c => let '(timed_out, c) := cond_timedwait ctx c in (Ok timed_out, c));
      if (timed_out : bool) then
        call ← gets (fun c => calls c !! ctx);
        call ← need call;
        subscribe_timed_out ctx call
      else wait_loop fuel ctx
  end.

(** At most [fuel] wake-ups before the response or the timeout. *)
Definition ggipc_subscribe (fuel : nat) (tid ctx : Z) (r : request) : sysm client unit :=
  _ ← ggipc_subscribe_begin tid ctx r;
  wait_loop fuel ctx.

Definition ggipc_call (fuel : nat) (tid ctx : Z) (operation service_model_type : bytes) (params : GgMap)
    (result_callback error_callback response_ctx : Z) : sysm client unit :=
  ggipc_subscribe fuel tid ctx
    (mkRequest operation service_model_type params result_callback error_callback response_ctx
       NULL NULL NULL NULL).
End wait.

(** ** Receiving *)

(** The headers of an event: [service_model_type] and [content_type]. *)
Fixpoint sub_headers_loop (fuel : nat) (iter : EventStreamHeaderIter)
    (service_model_type content_type : bytes) : outcome (bytes * bytes) :=
  match eventstream_header_next iter with
  | Stuck => Stuck
  | Fail _ => Ok (service_model_type, content_type)
  | Ok (iter, header) =>
      match fuel with
      | O => Stuck
      | S fuel =>
          if gg_buffer_eq (name header) (GG_STR "service-model-type") then
            match value header with
            | EVENTSTREAM_STRING string => sub_headers_loop fuel iter string content_type
            | _ => Fail GG_ERR_INVALID
            end
          else if gg_buffer_eq (name header) (GG_STR ":content-type") then
            match value header with
            | EVENTSTREAM_STRING string => sub_headers_loop fuel iter service_model_type string
            | _ => Fail GG_ERR_INVALID
            end
          else sub_headers_loop fuel iter service_model_type content_type
      end
  end.

Definition call_sub_callback (handle sub_callback sub_callback_ctx sub_callback_aux_ctx : Z)
    (common_headers : EventStreamCommonHeaders) (msg : EventStreamMessage) : sysm client unit :=
  if negb (message_type common_headers =? EVENTSTREAM_APPLICATION_MESSAGE) then fail GG_ERR_FAILURE else
  '(service_model_type, content_type) ←
    lift_out (sub_headers_loop (Z.to_nat (count (headers msg))) (headers msg) [] []);
  if negb (gg_buffer_eq content_type (GG_STR "application/json")) then fail GG_ERR_INVALID else
  ret ← attempt (decode_payload (payload_buf msg));
  match ret with
  | inl GG_ERR_NOMEM => mret tt
  | inl e => fail e
  | inr response =>
      type ← need (gg_obj_type response);
      if negb (bool_decide (type = GG_TYPE_MAP)) then fail GG_ERR_INVALID else
      map ← need (gg_obj_into_map response);
      sub_fn sub_callback sub_callback_ctx sub_callback_aux_ctx handle service_model_type map
  end.

(** What [dispatch_incoming_packet] does once it holds the mutex. *)
Definition handle_packet (common_headers : EventStreamCommonHeaders) (msg : EventStreamMessage)
    : sysm client unit :=
  found ← gets (fun c => get_stream_index_from_id (streams c) (stream_id common_headers));
  match found with
  | None => mret tt
  | Some index =>
      h ← on_streams (fun s => h ← rd (stream_state_handler s) index; Some (h, s));
      if fn h =? NULL then response_handler index (ctx h) common_headers msg else
      handle ← on_streams (fun s => h ← get_current_handle s index; Some (h, s));
      sub_ret ← attempt (call_sub_callback handle (fn h) (ctx h) (aux_ctx h) common_headers msg);
      if negb (bool_decide (sub_ret = inr tt))
         || negb (Z.land (message_flags common_headers) EVENTSTREAM_TERMINATE_STREAM =? 0)
      then clear_index index else mret tt
  end.

Definition dispatch_incoming_packet (conn : Z) : sysm client unit :=
  msg ← receive_packet conn;
  common_headers ← lift_out (eventstream_get_common_headers msg);
  if stream_id common_headers <? 0 then fail GG_ERR_FAILURE
  else handle_packet common_headers msg.

Definition data_ready_callback (data : Z) : sysm client unit :=
  conn ← gets ipc_conn_fd;
  ret ← attempt (dispatch_incoming_packet conn);
  match ret with
  | inl e => conn ← gets ipc_conn_fd; _ ← attempt (on_sys (gg_close os conn)); fail e
  | inr _ => mret tt
  end.

(** ** The receiving thread *)

(** The calls of [gg_socket_epoll_run] on the client's state. *)
Definition lift_call {A} (f : W -> A * W) : client -> A * client := fun c =>
  let '(a, w) := f (sys c) in (a, with_mem w (cmem c) c).

Definition client_sos : SockOs client :=
  mkSockOs client (lift_call (sys_socket sos)) (fun fd path => lift_call (sys_connect sos fd path))
    (fun fd s => lift_call (sys_set_rcvtimeo sos fd s)) (fun fd s => lift_call (sys_set_sndtimeo sos fd s))
    (lift_call (sys_epoll_create sos)) (fun efd fd data => lift_call (sys_epoll_add sos efd fd data))
    (fun efd => lift_call (sys_epoll_wait sos efd)).

(** The error code of a computation. *)
Definition code_of (f : sysm client unit) (c : client) : option (GgError * client) :=
  match f c with
  | (Ok _, c) => Some (GG_ERR_OK, c)
  | (Fail e, c) => Some (e, c)
  | (Stuck, _) => None
  end.

(** The state in which the process exits. *)
Definition recv_thread (fuel : nat) (tid : Z) (c : client) : option client :=
  let c := with_tid tid c in
  '(_, c) ← gg_socket_epoll_run client_sos (fun data => code_of (data_ready_callback data)) fuel (epoll_fd c) c;
  Some c.

(** [pthread_create] starts [recv_thread]; the failure is its return value. *)
Definition init_ipc_recv_thread (pthread_create : W -> bool * W) : sysm client unit :=
  fd ← on_sys (gg_socket_epoll_create sos);
  _ ← (fun c => (Ok tt, with_epoll fd c));
  created ← on_sys (fun w => let '(r, w) := pthread_create w in (Ok r, w));
  if (created : bool) then mret tt else fail GG_ERR_FATAL.

(** ** Closing *)

Definition close_headers (stream_id : Z) : list EventStreamHeader :=
  [mkHeader (GG_STR ":message-type") (EVENTSTREAM_INT32 EVENTSTREAM_APPLICATION_MESSAGE);
   mkHeader (GG_STR ":message-flags") (EVENTSTREAM_INT32 EVENTSTREAM_TERMINATE_STREAM);
   mkHeader (GG_STR ":stream-id") (EVENTSTREAM_INT32 stream_id)].

Definition ggipc_close_subscription (handle : Z) : sysm client unit :=
  index ← on_streams (fun s =>
            match validate_handle s handle with
            | Ok index => Some (inr index, s) | Fail e => Some (inl e, s) | Stuck => None
            end);
  match index with
  | inl _ => mret tt
  | inr index =>
      stream_id ← on_streams (fun s => id ← rd (stream_state_id s) index; Some (id, s));
      fd ← gets ipc_conn_fd;
      _ ← attempt (ipc_send_packet fd (close_headers stream_id) (None : GgReader unit) tt);
      clear_index index
  end.
End client.
