(* ===== verification/Wp.v ===== *)
(** Weakest preconditions of the client's computations: a computation does not
    get stuck, and its result and final state satisfy a postcondition. Errors
    are results, so the postcondition sees them too. *)

From S2P Require Import Prelude Memory File Streams Client.

Section wp.
Context {W : Type}.
Abbreviation client := (client W).

Definition post (A : Type) : Type := GgError + A -> client -> Prop.

Definition wp {A} (f : sysm client A) (Q : post A) : client -> Prop := fun c =>
  match f c with
  | (Ok a, c') => Q (inr a) c'
  | (Fail e, c') => Q (inl e) c'
  | (Stuck, _) => False
  end.

(** What it means for a run. *)
Definition outcome_of {A} (r : GgError + A) : outcome A := match r with inl e => Fail e | inr a => Ok a end.

Lemma wp_run {A} (f : sysm client A) Q c : wp f Q c ->
  exists r c', f c = (outcome_of r, c') /\ Q r c'.
Proof. unfold wp. destruct (f c) as [[a|e|] c']; [..|done]; intros HQ; [by exists (inr a), c'|by exists (inl e), c']. Qed.

Lemma wp_mono {A} (f : sysm client A) (Q Q' : post A) c :
  wp f Q c -> (forall r c', Q r c' -> Q' r c') -> wp f Q' c.
Proof. unfold wp. destruct (f c) as [[a|e|] c']; auto. Qed.

(** A property of the run that is known besides. *)
Lemma wp_also {A} (f : sysm client A) (Q : post A) (P : outcome A -> client -> Prop) c :
  wp f Q c -> (forall o c', f c = (o, c') -> o <> Stuck -> P o c') -> wp f (fun r c' => Q r c' /\ P (outcome_of r) c') c.
Proof. unfold wp. intros HQ HP. destruct (f c) as [[a|e|] c']; [..|done]; (split; [done|by apply HP]). Qed.

(** The same run of another computation. *)
Lemma wp_same {A} (f g : sysm client A) (Q : post A) c c1 : f c = g c1 -> wp g Q c1 -> wp f Q c.
Proof. unfold wp. by intros ->. Qed.

Lemma wp_ret {A} (a : A) (Q : post A) c : Q (inr a) c -> wp (mret a) Q c.
Proof. done. Qed.

Lemma wp_fail {A} e (Q : post A) c : Q (inl e) c -> wp (fail e) Q c.
Proof. done. Qed.

Lemma wp_bind {A B} (f : sysm client A) (k : A -> sysm client B) (Q : post B) c :
  wp f (fun r c' => match r with inr a => wp (k a) Q c' | inl e => Q (inl e) c' end) c -> wp (f ≫= k) Q c.
Proof. unfold wp, mbind, sysm_bind. by destruct (f c) as [[a|e|] c']. Qed.

Lemma wp_attempt {A} (f : sysm client A) (Q : post (GgError + A)) c :
  wp f (fun r c' => Q (inr r) c') c -> wp (attempt f) Q c.
Proof. unfold wp, attempt. by destruct (f c) as [[a|e|] c']. Qed.

Lemma wp_gets {A} (f : client -> A) (Q : post A) c : Q (inr (f c)) c -> wp (gets f) Q c.
Proof. done. Qed.

Lemma wp_need {A} (o : option A) a (Q : post A) c : o = Some a -> Q (inr a) c -> wp (need o) Q c.
Proof. by intros ->. Qed.

Lemma wp_out {A} (o : outcome A) (Q : post A) c :
  match o with Ok a => Q (inr a) c | Fail e => Q (inl e) c | Stuck => False end -> wp (lift_out o) Q c.
Proof. unfold wp, lift_out. by destruct o. Qed.

Lemma wp_mem {A} (f : W -> mem -> option (outcome A * W * mem)) o w m (Q : post A) c :
  f (sys c) (cmem c) = Some (o, w, m) ->
  match o with Ok a => Q (inr a) (with_mem w m c) | Fail e => Q (inl e) (with_mem w m c) | Stuck => False end ->
  wp (on_mem f) Q c.
Proof. unfold wp, on_mem. intros ->. by destruct o. Qed.

Lemma wp_store a bs m (Q : post unit) c :
  store (cmem c) a bs = Some m -> Q (inr tt) (with_mem (sys c) m c) -> wp (store_local a bs) Q c.
Proof. intros Hs HQ. unfold store_local. eapply wp_mem; [by rewrite Hs|done]. Qed.

Lemma wp_streams {A} (f : stream_state -> option (A * stream_state)) a s (Q : post A) c :
  f (streams c) = Some (a, s) -> Q (inr a) (with_streams s c) -> wp (on_streams f) Q c.
Proof. unfold wp, on_streams. by intros ->. Qed.

Lemma wp_calls f (Q : post unit) c : Q (inr tt) (with_calls (f (calls c)) c) -> wp (on_calls f) Q c.
Proof. done. Qed.

Lemma wp_clear_index i sl (Q : post unit) c :
  streams_ok (streams c) -> slot_at (streams c) i = Some sl ->
  (forall s, slot_updated (streams c) s i (mkSlot 0 (uwrap 16 (slot_gen sl + 1)) no_handler) ->
     Q (inr tt) (with_streams s c)) ->
  wp (clear_index i) Q c.
Proof.
  intros Hok Hsl HQ. destruct (clear_slot _ _ _ Hok Hsl) as (s & Hs & Hu). unfold clear_index.
  eapply wp_streams; [by rewrite Hs|by apply HQ].
Qed.

Lemma wp_set_index i id h sl (Q : post unit) c :
  streams_ok (streams c) -> slot_at (streams c) i = Some sl ->
  (forall s, slot_updated (streams c) s i (mkSlot id (slot_gen sl) h) -> Q (inr tt) (with_streams s c)) ->
  wp (set_index i id h) Q c.
Proof.
  intros Hok Hsl HQ. destruct (set_slot _ _ _ id h Hok Hsl) as (s & Hs & Hu). unfold set_index.
  eapply wp_streams; [by rewrite Hs|by apply HQ].
Qed.
End wp.

#[global] Opaque wp.
