(* ===== verification/Registry.v ===== *)
(** The client as a registry of streams: the invariant of its state, and the
    refinement of an abstract registry by the steps of its threads.

    The steps are the pieces of [ggipc_subscribe], [dispatch_incoming_packet]
    and [ggipc_close_subscription] that run while the mutex is held, in any
    order, with any packet and any other use of the memory in between. *)

From S2P Require Import Prelude Memory Buffer Io EsDecode EsRpc Object Map File Socket Streams Client.

(** ** Computations that keep a relation *)

Definition keeps {S A} (P : S -> S -> Prop) (f : sysm S A) : Prop :=
  forall s o s', f s = (o, s') -> o <> Stuck -> P s s'.

Section keeps.
Context {S : Type} (P : S -> S -> Prop) `{!Reflexive P} `{!Transitive P}.

Lemma keeps_ret {A} (a : A) : keeps P (mret a).
Proof. intros s o s' [= <- <-] _. done. Qed.

Lemma keeps_fail {A} e : keeps P (fail e : sysm S A).
Proof. intros s o s' [= <- <-] _. done. Qed.

Lemma keeps_out {A} (r : outcome A) : keeps P (lift_out r).
Proof. intros s o s' [= <- <-] _. done. Qed.

Lemma keeps_bind {A B} (c : sysm S A) (k : A -> sysm S B) :
  keeps P c -> (forall a, keeps P (k a)) -> keeps P (c ≫= k).
Proof.
  intros Hc Hk s o s' H Ho. unfold mbind, sysm_bind in H. destruct (c s) as [[a|e|] s1] eqn:E.
  - transitivity s1; [by eapply Hc|by eapply Hk].
  - injection H as <- <-. by eapply Hc.
  - by injection H as <- <-.
Qed.

Lemma keeps_attempt {A} (c : sysm S A) : keeps P c -> keeps P (attempt c).
Proof.
  intros Hc s o s' H Ho. unfold attempt in H. destruct (c s) as [[a|e|] s1] eqn:E.
  - injection H as <- <-. by eapply Hc.
  - injection H as <- <-. by eapply Hc.
  - by injection H as <- <-.
Qed.
End keeps.

Lemma keeps_weaken {S A} (P Q : S -> S -> Prop) (f : sysm S A) :
  (forall s s', P s s' -> Q s s') -> keeps P f -> keeps Q f.
Proof. intros HPQ Hf s o s' H Ho. by eapply HPQ, Hf. Qed.

(** The parts of a computation that returned. *)
Lemma bind_cases {S A B} (c : sysm S A) (k : A -> sysm S B) s o s' :
  (c ≫= k) s = (o, s') -> o <> Stuck ->
  (exists a s1, c s = (Ok a, s1) /\ k a s1 = (o, s')) \/ (exists e, c s = (Fail e, s') /\ o = Fail e).
Proof.
  unfold mbind, sysm_bind. intros H Ho. destruct (c s) as [[a|e|] s1].
  - left. by exists a, s1.
  - right. exists e. by injection H as <- <-.
  - by injection H as <- <-.
Qed.

Lemma attempt_cases {S A} (c : sysm S A) s r s' :
  attempt c s = (r, s') -> r <> Stuck ->
  (exists a, c s = (Ok a, s') /\ r = Ok (inr a)) \/ (exists e, c s = (Fail e, s') /\ r = Ok (inl e)).
Proof.
  unfold attempt. intros H Hr. destruct (c s) as [[a|e|] s1]; injection H as <- <-; [|  |done].
  - left. by exists a.
  - right. by exists e.
Qed.

(** ** Frames *)

Section frames.
Context {W : Type}.
Abbreviation client := (client W).

(** Only the memory and the system change. *)
Definition mem_only (c c' : client) : Prop := exists w m, c' = with_mem w m c.

#[export] Instance mem_only_refl : Reflexive mem_only.
Proof. intros []. by eexists _, _. Qed.
#[export] Instance mem_only_trans : Transitive mem_only.
Proof. intros c1 c2 c3 (w & m & ->) (w' & m' & ->). by exists w', m'. Qed.

(** Slots may be cleared as well. *)
Definition slots_cleared (s s' : stream_state) : Prop :=
  streams_ok s -> streams_ok s' /\
  forall i sl', slot_at s' i = Some sl' ->
    exists sl, slot_at s i = Some sl /\ (sl' = sl \/ slot_id sl' = 0).

Definition only_closes (c c' : client) : Prop :=
  calls c' = calls c /\ next_stream_id c' = next_stream_id c /\ slots_cleared (streams c) (streams c').

#[export] Instance slots_cleared_refl : Reflexive slots_cleared.
Proof. intros s Hs. split; [done|]. intros i sl Hsl. exists sl. by split; [|left]. Qed.
#[export] Instance slots_cleared_trans : Transitive slots_cleared.
Proof.
  intros s1 s2 s3 H12 H23 H1. destruct (H12 H1) as [H2 Hs2]. destruct (H23 H2) as [H3 Hs3].
  split; [done|]. intros i sl3 Hsl3. destruct (Hs3 _ _ Hsl3) as (sl2 & Hsl2 & Hor).
  destruct (Hs2 _ _ Hsl2) as (sl1 & Hsl1 & Hor'). exists sl1. split; [done|].
  destruct Hor as [->|?]; [done|by right].
Qed.

#[export] Instance only_closes_refl : Reflexive only_closes.
Proof. intros c. done. Qed.
#[export] Instance only_closes_trans : Transitive only_closes.
Proof.
  intros c1 c2 c3 (H1 & H2 & H3) (H1' & H2' & H3'). split_and!; [congruence|congruence|by etrans].
Qed.

Lemma mem_only_closes c c' : mem_only c c' -> only_closes c c'.
Proof. by intros (w & m & ->). Qed.

Lemma gets_mem {A} (f : client -> A) : keeps mem_only (gets f).
Proof. intros c o c' [= <- <-] _. done. Qed.

Lemma need_mem {A} (r : option A) : keeps mem_only (need r : sysm client A).
Proof. apply keeps_out, _. Qed.

Lemma on_mem_mem {A} (f : W -> mem -> option (outcome A * W * mem)) : keeps mem_only (on_mem f).
Proof.
  intros c o c' H Ho. unfold on_mem in H. destruct (f _ _) as [[[r w] m]|]; injection H as <- <-; [|done].
  by exists w, m.
Qed.

Lemma on_sys_mem {A} (f : sysm W A) : keeps mem_only (on_sys f).
Proof.
  intros c o c' H Ho. unfold on_sys in H. destruct (f _) as [r w]. injection H as <- <-. by exists w, (cmem c).
Qed.

(** Looking at the streams. *)
Lemma on_streams_read {A} (f : stream_state -> option A) :
  keeps mem_only (on_streams (fun s => a ← f s; Some (a, s))).
Proof.
  intros c o c' H Ho. unfold on_streams in H. destruct (f (streams c)) as [a|]; injection H as <- <-; [|done].
  exists (sys c), (cmem c). by destruct c.
Qed.
End frames.

Create HintDb frames.
#[export] Hint Resolve keeps_ret keeps_fail keeps_out gets_mem need_mem on_mem_mem on_sys_mem on_streams_read
  : frames.

(** Follows the structure of a computation. *)
Ltac frames :=
  repeat (cbv beta zeta; first
    [ progress intros
    | solve [auto with frames typeclass_instances]
    | apply keeps_bind; [exact _| |]
    | apply keeps_attempt
    | match goal with
      | |- keeps _ (if ?b then _ else _) => destruct b
      | |- keeps _ (match ?x with _ => _ end) => destruct x
      end ]).

(** What the callbacks of the application may do to the client: use its
    memory, and close subscriptions. *)
Class WellBehaved `(env : ClientEnv W) : Prop := {
  result_fn_ok : forall f x r, keeps only_closes (result_fn f x r);
  error_fn_ok : forall f x code msg, keeps only_closes (error_fn f x code msg);
  sub_fn_ok : forall f x aux h smt r, keeps only_closes (sub_fn f x aux h smt r);
}.

Section client.
Context `{env : ClientEnv W}.
Abbreviation client := (client W).

Lemma keeps_mem_closes {A} (f : sysm client A) : keeps mem_only f -> keeps only_closes f.
Proof. apply keeps_weaken, mem_only_closes. Qed.

Lemma ipc_send_packet_mem {V} conn hs (p : GgReader V) v : keeps mem_only (ipc_send_packet conn hs p v).
Proof. unfold ipc_send_packet. frames. Qed.

Lemma send_object_mem conn hs obj : keeps mem_only (send_object conn hs obj).
Proof.
  unfold send_object. apply keeps_bind; [exact _|apply on_mem_mem|]. intros _.
  apply keeps_bind; [exact _|apply need_mem|]. intros [reader ctx]. apply ipc_send_packet_mem.
Qed.

Lemma decode_payload_mem p : keeps mem_only (decode_payload p).
Proof. unfold decode_payload. frames. Qed.

Lemma clear_index_closes index : keeps only_closes (clear_index index : sysm client unit).
Proof.
  intros c o c' H Ho. unfold clear_index, on_streams in H.
  destruct (clear_stream_index (streams c) index) as [s|] eqn:Hc; cbn [mbind option_bind] in H;
    injection H as <- <-; [|done].
  split_and!; [done|done|]. intros Hok. assert (exists sl, slot_at (streams c) index = Some sl) as [sl Hsl].
  { apply slot_at_Some; [done|]. unfold clear_stream_index in Hc.
    destruct (rd (stream_state_generation (streams c)) index) as [g|] eqn:Hg; [|done].
    apply rd_Some in Hg. destruct Hok as (_ & <- & _). lia. }
  destruct (clear_slot _ _ _ Hok Hsl) as (s2 & Hc2 & Hok2 & Hs2). rewrite Hc in Hc2. injection Hc2 as <-.
  split; [done|]. intros i sl'. cbn [streams with_streams]. rewrite Hs2. case_if.
  - intros [= <-]. subst. exists sl. split; [done|by right].
  - intros Hi. exists sl'. by split; [|left].
Qed.
End client.

#[export] Hint Resolve keeps_mem_closes ipc_send_packet_mem send_object_mem decode_payload_mem
  clear_index_closes result_fn_ok error_fn_ok sub_fn_ok : frames.

Section callbacks.
Context `{env : ClientEnv W} `{!WellBehaved env}.
Abbreviation client := (client W).

Lemma handle_application_error_closes p f x : keeps only_closes (handle_application_error p f x).
Proof. unfold handle_application_error. frames. Qed.

Lemma response_handler_inner_closes h msg rf ef x : keeps only_closes (response_handler_inner h msg rf ef x).
Proof.
  unfold response_handler_inner. case_if; [apply handle_application_error_closes|].
  unfold store_local. frames.
Qed.

Lemma call_sub_callback_closes h f x aux ch msg : keeps only_closes (call_sub_callback h f x aux ch msg).
Proof. unfold call_sub_callback. frames. Qed.

(** Closing a subscription is within what a callback may do. *)
Lemma close_subscription_closes handle : keeps only_closes (ggipc_close_subscription handle).
Proof.
  unfold ggipc_close_subscription. apply keeps_bind; [exact _| |].
  { intros c o c' H Ho. unfold on_streams in H.
    destruct (validate_handle _ _); injection H as <- <-; done. }
  frames.
Qed.
End callbacks.

(** ** The abstract registry *)

(** Where a packet of a stream goes. *)
Inductive target := Pending (ctx : Z) | Subscribed (fn ctx aux_ctx : Z).

#[export] Instance target_eq_dec : EqDecision target.
Proof. solve_decision. Defined.

Definition target_of (h : StreamHandler) : target :=
  if fn h =? NULL then Pending (ctx h) else Subscribed (fn h) (ctx h) (aux_ctx h).

Definition entry_of (sl : slot) : option (Z * target) :=
  if 0 <? slot_id sl then Some (slot_id sl, target_of (slot_handler sl)) else None.

(** The streams by their id. *)
Definition reg_of (s : stream_state) : gmap Z target :=
  list_to_map (omap (fun i => slot_at s i ≫= entry_of) (seqZ 0 16)).

(** The slots hold streams with distinct ids below [next]. *)
Record slots_inv (s : stream_state) (next : Z) : Prop := {
  inv_streams : streams_ok s;
  inv_ids : forall i sl, slot_at s i = Some sl -> slot_id sl = 0 \/ 0 < slot_id sl < next;
  inv_distinct : forall i j sl sl', slot_at s i = Some sl -> slot_at s j = Some sl' ->
    slot_id sl = slot_id sl' -> 0 < slot_id sl -> i = j;
}.

Lemma NoDup_omap_fst {A B C} (f : A -> option (B * C)) l :
  (forall i j x y, i ∈ l -> j ∈ l -> f i = Some x -> f j = Some y -> x.1 = y.1 -> i = j) ->
  NoDup l -> NoDup (omap f l).*1.
Proof.
  intros Hf Hl. induction Hl as [|i l Hi Hl IH]; [constructor|]. simpl.
  assert (NoDup (omap f l).*1) as IH' by (apply IH; set_solver). destruct (f i) as [x|] eqn:Hx; [|done].
  simpl. constructor; [|done]. rewrite list_elem_of_fmap. intros (y & Hy & Hin).
  apply list_elem_of_omap in Hin as (j & Hj & Hfj). apply Hi.
  rewrite (Hf i j x y); [done|set_solver|set_solver|done..].
Qed.

Lemma length_omap_bound {A B} (f : A -> option B) l : (length (omap f l) <= length l)%nat.
Proof. 
  induction l as [|x l IH]; [done|]. cbn. destruct (f x); cbn; unfold omap in *; lia.
Qed.

Lemma length_omap_full {A B} (f : A -> option B) l :
  (forall x, x ∈ l -> is_Some (f x)) -> length (omap f l) = length l.
Proof.
  induction l as [|x l IH]; intros H; [done|]. simpl. destruct (H x) as [y ->]; [set_solver|].
  cbn. f_equal. apply IH. set_solver.
Qed.

Lemma length_omap_gap {A B} (f : A -> option B) l x :
  x ∈ l -> f x = None -> (length (omap f l) < length l)%nat.
Proof.
  induction l as [|y l IH]; intros Hx Hf; [set_solver|]. cbn.
  pose proof (length_omap_bound f l) as Hb. apply elem_of_cons in Hx as [->|Hx].
  - rewrite Hf. unfold omap in *. lia.
  - specialize (IH Hx Hf). destruct (f y); cbn; unfold omap in *; lia.
Qed.

Lemma entry_of_Some sl id t :
  entry_of sl = Some (id, t) <-> slot_id sl = id /\ 0 < id /\ target_of (slot_handler sl) = t.
Proof.
  unfold entry_of. case_if; split; [intros [= <- <-]; done|intros (<- & ? & <-); done|done|lia].
Qed.

Section reg.
Context (s : stream_state) (next : Z) (Hs : slots_inv s next).

Lemma slot_entry i id t :
  (slot_at s i ≫= entry_of) = Some (id, t) <->
  exists sl, slot_at s i = Some sl /\ slot_id sl = id /\ 0 < id /\ target_of (slot_handler sl) = t.
Proof using Type.
  rewrite bind_Some. split; intros (sl & H1 & H2); exists sl; split; try done; by apply entry_of_Some.
Qed.

Lemma reg_NoDup : NoDup (omap (fun i => slot_at s i ≫= entry_of) (seqZ 0 16)).*1.
Proof using Hs.
  apply NoDup_omap_fst; [|apply NoDup_seqZ]. intros i j [id t] [id' t'] _ _ H1 H2 E. simpl in E. subst id'.
  apply slot_entry in H1 as (sl & Hsl & <- & Hpos & _). apply slot_entry in H2 as (sl' & Hsl' & Hid & _).
  by eapply (inv_distinct _ _ Hs).
Qed.

Lemma reg_lookup id t :
  reg_of s !! id = Some t <->
  exists i sl, slot_at s i = Some sl /\ slot_id sl = id /\ 0 < id /\ target_of (slot_handler sl) = t.
Proof using Hs.
  unfold reg_of. rewrite <- elem_of_list_to_map by apply reg_NoDup. rewrite list_elem_of_omap. split.
  - intros (i & _ & H). exists i. by apply slot_entry.
  - intros (i & H). exists i. rewrite slot_entry. split; [|done]. destruct H as (sl & Hsl & _).
    apply elem_of_seqZ. apply slot_at_range in Hsl; [lia|apply Hs].
Qed.

Lemma reg_ids id t : reg_of s !! id = Some t -> 0 < id < next.
Proof using Hs.
  intros (i & sl & Hsl & <- & Hpos & _)%reg_lookup. destruct (inv_ids _ _ Hs _ _ Hsl); lia.
Qed.

(** A slot and the registry name the same stream. *)
Lemma reg_slot i sl : slot_at s i = Some sl -> 0 < slot_id sl ->
  reg_of s !! slot_id sl = Some (target_of (slot_handler sl)).
Proof using Hs. intros. apply reg_lookup. by exists i, sl. Qed.

Lemma reg_size : (size (reg_of s) <= 16)%nat.
Proof using Hs.
  unfold reg_of. rewrite map_size_list_to_map by apply reg_NoDup. etrans; [apply length_omap_bound|done].
Qed.

Lemma reg_size_full :
  (forall i sl, slot_at s i = Some sl -> slot_id sl <> 0) -> size (reg_of s) = 16%nat.
Proof using Hs.
  intros Hfull. unfold reg_of. rewrite map_size_list_to_map by apply reg_NoDup.
  rewrite length_omap_full; [done|]. intros i Hi%elem_of_seqZ.
  destruct (slot_at_Some s i) as [sl Hsl]; [apply Hs|lia|]. rewrite Hsl. cbn [mbind option_bind].
  unfold entry_of. destruct (inv_ids _ _ Hs _ _ Hsl) as [?|?]; [by destruct (Hfull _ _ Hsl)|].
  rewrite (proj2 (Z.ltb_lt _ _)) by lia. by eexists.
Qed.

Lemma reg_size_free i sl : slot_at s i = Some sl -> slot_id sl = 0 -> (size (reg_of s) < 16)%nat.
Proof using Hs.
  intros Hsl H0. unfold reg_of. rewrite map_size_list_to_map by apply reg_NoDup.
  apply (length_omap_gap _ (seqZ 0 16) i).
  - apply elem_of_seqZ. apply slot_at_range in Hsl; [lia|apply Hs].
  - rewrite Hsl. cbn [mbind option_bind]. unfold entry_of. by rewrite H0.
Qed.
End reg.

(** *** Changing a slot *)

Section update.
Context (s s' : stream_state) (next next' : Z) (i : Z) (sl0 sl : slot).
Context (Hs : slots_inv s next) (H0 : slot_at s i = Some sl0) (Hu : slot_updated s s' i sl).
Context (Hn : next <= next').

(** Clearing it. *)
Lemma update_clear : slot_id sl = 0 ->
  slots_inv s' next' /\ reg_of s' = delete (slot_id sl0) (reg_of s).
Proof using Hs H0 Hu Hn.
  intros Hid. destruct Hu as [Hok Hat]. assert (slots_inv s' next') as Hs'.
  { split; [done| |].
    - intros j sl' Hj. rewrite Hat in Hj. case_if_in Hj; [injection Hj as <-; by left|].
      destruct (inv_ids _ _ Hs _ _ Hj); [by left|right; lia].
    - intros j k sl1 sl2 H1 H2 E12 Hpos. rewrite Hat in H1, H2.
      case_if_in H1; [injection H1 as <-; lia|]. case_if_in H2; [injection H2 as <-; lia|].
      by eapply (inv_distinct _ _ Hs). }
  split; [done|]. apply map_eq. intros id. apply option_eq. intros t.
  rewrite (reg_lookup _ _ Hs'), lookup_delete_Some, (reg_lookup _ _ Hs). split.
  - intros (j & sl' & Hj & Hid' & Hpos & Ht). rewrite Hat in Hj. case_if_in Hj; [injection Hj as <-; lia|].
    split; [|by exists j, sl']. intros <-. apply E. symmetry.
    apply (inv_distinct _ _ Hs _ _ _ _ H0 Hj); [done|lia].
  - intros [Hne (j & sl' & Hj & Hid' & Hpos & Ht)]. exists j, sl'. rewrite Hat. case_if; [|done].
    subst j. rewrite H0 in Hj. injection Hj as <-. by destruct Hne.
Qed.

(** Giving it a stream, a new one or its own. *)
Lemma update_set :
  0 < slot_id sl < next' -> (slot_id sl0 = slot_id sl \/ slot_id sl0 = 0) ->
  (forall j sl', j <> i -> slot_at s j = Some sl' -> slot_id sl' <> slot_id sl) ->
  slots_inv s' next' /\ reg_of s' = <[slot_id sl := target_of (slot_handler sl)]> (reg_of s).
Proof using Hs H0 Hu Hn.
  intros Hid Hown Hfresh. destruct Hu as [Hok Hat]. assert (slots_inv s' next') as Hs'.
  { split; [done| |].
    - intros j sl' Hj. rewrite Hat in Hj. case_if_in Hj; [injection Hj as <-; by right|].
      destruct (inv_ids _ _ Hs _ _ Hj); [by left|right; lia].
    - intros j k sl1 sl2 H1 H2 E12 Hpos. rewrite Hat in H1, H2.
      case_if_in H1; case_if_in H2.
      + congruence.
      + injection H1 as <-. by destruct (Hfresh _ _ E0 H2).
      + injection H2 as <-. by destruct (Hfresh _ _ E H1).
      + by eapply (inv_distinct _ _ Hs). }
  split; [done|]. apply map_eq. intros id. apply option_eq. intros t.
  rewrite (reg_lookup _ _ Hs'), lookup_insert_Some, (reg_lookup _ _ Hs). split.
  - intros (j & sl' & Hj & Hid' & Hpos & Ht). rewrite Hat in Hj. case_if_in Hj.
    + injection Hj as <-. by left.
    + right. split; [|by exists j, sl']. intros <-. by destruct (Hfresh _ _ E Hj).
  - intros [[<- <-]|[Hne (j & sl' & Hj & Hid' & Hpos & Ht)]].
    + exists i, sl. rewrite Hat, Z.eqb_refl. split_and!; [done|done|lia|done].
    + exists j, sl'. rewrite Hat. case_if; [|done]. subst j. rewrite H0 in Hj. injection Hj as <-. lia.
Qed.
End update.

(** Clearing slots leaves a part of the registry. *)
Lemma cleared_inv s s' next : slots_inv s next -> slots_cleared s s' ->
  slots_inv s' next /\ reg_of s' ⊆ reg_of s.
Proof.
  intros Hs Hc. destruct (Hc (inv_streams _ _ Hs)) as [Hok Hat]. assert (slots_inv s' next) as Hs'.
  { split; [done| |].
    - intros i sl' Hi. destruct (Hat _ _ Hi) as (sl & Hsl & [->|?]); [|by left]. by eapply (inv_ids _ _ Hs).
    - intros i j sl1 sl2 H1 H2 E Hpos.
      destruct (Hat _ _ H1) as (? & H1' & [->|?]); [|lia].
      destruct (Hat _ _ H2) as (? & H2' & [->|?]); [|lia]. by eapply (inv_distinct _ _ Hs). }
  split; [done|]. apply map_subseteq_spec. intros id t.
  rewrite (reg_lookup _ _ Hs'), (reg_lookup _ _ Hs). intros (i & sl' & Hi & Hid & Hpos & Ht).
  destruct (Hat _ _ Hi) as (sl & Hsl & [->|?]); [|lia]. by exists i, sl.
Qed.

(** ** The steps of the client *)

Inductive event :=
  | Begin (tid ctx : Z) (r : request)
  | Return (ctx : Z)
  | Timeout (ctx : Z)
  | Packet (common_headers : EventStreamCommonHeaders) (msg : EventStreamMessage)
  | Close (handle : Z)
  | Other.

Section step.
Context `{env : ClientEnv W}.
Abbreviation client := (client W).

(** A step and the result of the operation that it starts or ends. A new call
    has its context at an address of its own; [Other] is everything outside of
    the mutex. *)
Inductive client_step (c : client) : event -> outcome unit -> client -> Prop :=
  | step_begin tid ctx r o c' :
      calls c !! ctx = None -> ggipc_subscribe_begin tid ctx r c = (o, c') ->
      client_step c (Begin tid ctx r) o c'
  | step_return ctx call o c' :
      calls c !! ctx = Some call -> ctx_ready (call_ctx call) = true ->
      subscribe_finish ctx call c = (o, c') ->
      client_step c (Return ctx) o c'
  | step_timeout ctx call o c' :
      calls c !! ctx = Some call -> subscribe_timed_out ctx call c = (o, c') ->
      client_step c (Timeout ctx) o c'
  | step_packet common_headers msg o c' :
      0 <= stream_id common_headers -> handle_packet common_headers msg c = (o, c') ->
      client_step c (Packet common_headers msg) o c'
  | step_close handle o c' :
      0 <= handle < 2 ^ 32 -> ggipc_close_subscription handle c = (o, c') ->
      client_step c (Close handle) o c'
  | step_other c' :
      mem_only c c' -> client_step c Other (Ok tt) c'.

(** Sequences of steps none of which fails an assertion. *)
Inductive client_steps (c : client) : client -> Prop :=
  | steps_refl : client_steps c c
  | steps_next c1 e o c2 :
      client_steps c c1 -> client_step c1 e o c2 -> o <> Stuck -> client_steps c c2.

(** *** The invariant *)

(** A slot that waits for its first response points to the context of a call
    that is waiting for it. *)
Record client_ok (c : client) : Prop := {
  ok_slots : slots_inv (streams c) (next_stream_id c);
  ok_next : 1 <= next_stream_id c;
  ok_pending : forall i sl, slot_at (streams c) i = Some sl -> 0 < slot_id sl ->
    fn (slot_handler sl) = NULL ->
    exists call, calls c !! ctx (slot_handler sl) = Some call /\
      ctx_ready (call_ctx call) = false /\ stream_index call = i;
}.

(** The state of the client before its first call. *)
Definition initial (c : client) : Prop :=
  streams c = init_streams /\ calls c = ∅ /\ next_stream_id c = 1.

(** *** The registry *)

(** [None] while a call waits, then its result. *)
Definition call_status (call : waiting) : option GgError :=
  if ctx_ready (call_ctx call) then Some (ctx_ret (call_ctx call)) else None.

Record registry := mkReg {
  entries : gmap Z target; statuses : gmap Z (option GgError); next_id : Z }.

Definition abs (c : client) : registry :=
  mkReg (reg_of (streams c)) (call_status <$> calls c) (next_stream_id c).

(** What the operations mean for the registry. Callbacks may close
    subscriptions, so a part [E] of the entries is left after one. A timeout
    of a call whose response has just arrived, or whose subscription was
    closed, may remove an entry that is not the call's. *)
Inductive reg_step (A : registry) : event -> outcome unit -> registry -> Prop :=
  | reg_open tid ctx r :
      (size (entries A) < 16)%nat -> statuses A !! ctx = None ->
      reg_step A (Begin tid ctx r) (Ok tt)
        (mkReg (<[next_id A := Pending ctx]> (entries A)) (<[ctx := None]> (statuses A)) (next_id A + 1))
  | reg_full tid ctx r :
      size (entries A) = 16%nat -> reg_step A (Begin tid ctx r) (Fail GG_ERR_NOMEM) A
  | reg_refused tid ctx r e n :
      next_id A <= n <= next_id A + 1 ->
      reg_step A (Begin tid ctx r) (Fail e) (mkReg (entries A) (statuses A) n)
  | reg_return ctx e :
      statuses A !! ctx = Some (Some e) ->
      reg_step A (Return ctx) (ended_with e tt)
        (mkReg (entries A) (delete ctx (statuses A)) (next_id A))
  | reg_timeout ctx id :
      entries A !! id = Some (Pending ctx) -> statuses A !! ctx = Some None ->
      reg_step A (Timeout ctx) (Fail GG_ERR_TIMEOUT)
        (mkReg (delete id (entries A)) (delete ctx (statuses A)) (next_id A))
  | reg_timeout_late ctx id :
      is_Some (statuses A !! ctx) -> (forall id, entries A !! id <> Some (Pending ctx)) ->
      reg_step A (Timeout ctx) (Fail GG_ERR_TIMEOUT)
        (mkReg (delete id (entries A)) (delete ctx (statuses A)) (next_id A))
  | reg_unknown h msg :
      entries A !! stream_id h = None -> reg_step A (Packet h msg) (Ok tt) A
  | reg_response h msg ctx e E :
      entries A !! stream_id h = Some (Pending ctx) -> statuses A !! ctx = Some None ->
      E ⊆ delete (stream_id h) (entries A) ->
      reg_step A (Packet h msg) (Ok tt) (mkReg E (<[ctx := Some e]> (statuses A)) (next_id A))
  | reg_accepted h msg ctx f x aux E :
      entries A !! stream_id h = Some (Pending ctx) -> statuses A !! ctx = Some None ->
      f <> NULL -> E ⊆ delete (stream_id h) (entries A) ->
      reg_step A (Packet h msg) (Ok tt)
        (mkReg (<[stream_id h := Subscribed f x aux]> E) (<[ctx := Some GG_ERR_OK]> (statuses A)) (next_id A))
  | reg_event h msg f x aux E :
      entries A !! stream_id h = Some (Subscribed f x aux) -> E ⊆ entries A ->
      reg_step A (Packet h msg) (Ok tt) (mkReg E (statuses A) (next_id A))
  | reg_close handle E :
      (E = entries A \/ exists id, E = delete id (entries A)) ->
      reg_step A (Close handle) (Ok tt) (mkReg E (statuses A) (next_id A))
  | reg_other : reg_step A Other (Ok tt) A.

(** *** The invariant is kept *)

Lemma initial_ok c : initial c -> client_ok c.
Proof.
  intros (Hs & Hc & Hn). assert (forall i sl, slot_at (streams c) i = Some sl -> slot_id sl = 0) as H0.
  { rewrite Hs. intros i sl H. pose proof (slot_at_range _ _ _ init_streams_ok H) as Hr.
    apply slot_at_inv in H as (H & _). unfold rd in H. case_if_in H; [lia|]. cbn [stream_state_id init_streams] in H.
    apply list_elem_of_lookup_2, list_elem_of_In in H. exact (repeat_spec _ _ _ H). }
  split; [split| |].
  - rewrite Hs. apply init_streams_ok.
  - left. by eapply H0.
  - intros. erewrite H0 in * by done. lia.
  - lia.
  - intros i sl Hi Hpos. erewrite H0 in Hpos by done. lia.
Qed.

Lemma only_closes_ok c c' :
  client_ok c -> only_closes c c' -> client_ok c' /\ reg_of (streams c') ⊆ reg_of (streams c).
Proof.
  intros [Hs Hn Hp] (Hc & Hid & Hcl). destruct (cleared_inv _ _ _ Hs Hcl) as [Hs' Hsub].
  split; [|done]. split; [by rewrite Hid|by rewrite Hid|]. intros i sl Hi Hpos Hfn.
  destruct (Hcl (inv_streams _ _ Hs)) as [_ Hat]. destruct (Hat _ _ Hi) as (sl0 & Hi0 & [->|?]); [|lia].
  rewrite Hc. by apply Hp.
Qed.

Lemma mem_only_abs c c' : mem_only c c' -> abs c' = abs c.
Proof. by intros (w & m & ->). Qed.

Lemma mem_only_ok c c' : client_ok c -> mem_only c c' -> client_ok c'.
Proof. intros Hc Hm. by apply (only_closes_ok c), mem_only_closes. Qed.
End step.

(** ** Running the steps *)

Section run.
Context {W : Type}.
Abbreviation client := (client W).

Lemma gets_bind {A B} (f : client -> A) (k : A -> sysm client B) c : (gets f ≫= k) c = k (f c) c.
Proof. done. Qed.

Lemma on_calls_bind {B} f (k : unit -> sysm client B) c :
  (on_calls f ≫= k) c = k tt (with_calls (f (calls c)) c).
Proof. done. Qed.

(** Computations that do not return an error. *)
Definition no_fail {A} (f : sysm client A) : Prop := forall c e c', f c <> (Fail e, c').

Lemma no_fail_ret {A} (a : A) : no_fail (mret a).
Proof. done. Qed.
Lemma no_fail_gets {A} (f : client -> A) : no_fail (gets f).
Proof. done. Qed.
Lemma no_fail_need {A} (o : option A) : no_fail (need o).
Proof. by destruct o. Qed.
Lemma no_fail_streams {A} (f : stream_state -> option (A * stream_state)) : no_fail (on_streams f).
Proof. intros c e c' H. unfold on_streams in H. by destruct (f (streams c)) as [[]|]. Qed.
Lemma no_fail_store a bs : no_fail (store_local a bs).
Proof.
  intros c e c' H. unfold store_local, on_mem in H. by destruct (store (cmem c) a bs).
Qed.
Lemma no_fail_bind {A B} (c : sysm client A) (k : A -> sysm client B) :
  no_fail c -> (forall a, no_fail (k a)) -> no_fail (c ≫= k).
Proof.
  intros Hc Hk s e s' H. unfold mbind, sysm_bind in H. destruct (c s) as [[a|e'|] s1] eqn:E; [|  |done].
  - by eapply Hk.
  - by eapply Hc.
Qed.

(** The next part of a computation that does not fail and only changes memory. *)
Lemma mem_bind {A B} (f : sysm client A) (k : A -> sysm client B) c o c' :
  keeps mem_only f -> no_fail f -> (f ≫= k) c = (o, c') -> o <> Stuck ->
  exists a c1, mem_only c c1 /\ k a c1 = (o, c').
Proof.
  intros Hm Hf H Ho. destruct (bind_cases _ _ _ _ _ H Ho) as [(a & c1 & H1 & H2)|(e & H1 & _)].
  - exists a, c1. split; [|done]. by eapply Hm.
  - by destruct (Hf c e c').
Qed.

(** The same for a computation whose error is looked at. *)
Lemma attempt_bind {A B} (R : client -> client -> Prop) (f : sysm client A) (k : GgError + A -> sysm client B) c o c' :
  keeps R f -> (attempt f ≫= k) c = (o, c') -> o <> Stuck ->
  exists r c1, R c c1 /\ k r c1 = (o, c').
Proof.
  intros Hm H Ho. destruct (bind_cases _ _ _ _ _ H Ho) as [(r & c1 & H1 & H2)|(e & H1 & _)].
  - exists r, c1. split; [|done].
    destruct (attempt_cases _ _ _ _ H1) as [(a & Ha & _)|(e & He & _)]; [done|by eapply Hm|by eapply Hm].
  - by destruct (attempt_cases _ _ _ _ H1) as [(? & _ & ?)|(? & _ & ?)].
Qed.

Lemma slot_updated_trans s s1 s2 i sl1 sl2 :
  slot_updated s s1 i sl1 -> slot_updated s1 s2 i sl2 -> slot_updated s s2 i sl2.
Proof.
  intros [_ H1] [Hok H2]. split; [done|]. intros j. rewrite H2. case_if; [done|]. rewrite H1. by case_if.
Qed.

Lemma slot_updated_at s s' i sl : slot_updated s s' i sl -> slot_at s' i = Some sl.
Proof. intros [_ H]. by rewrite H, Z.eqb_refl. Qed.

Lemma set_index_bind {B} i id h sl (k : unit -> sysm client B) c r :
  (set_index i id h ≫= k) c = r -> streams_ok (streams c) -> slot_at (streams c) i = Some sl ->
  exists s', slot_updated (streams c) s' i (mkSlot id (slot_gen sl) h) /\ k tt (with_streams s' c) = r.
Proof.
  intros <- Hok Hsl. destruct (set_slot _ _ _ id h Hok Hsl) as (s' & Hs & Hu). exists s'. split; [done|].
  unfold set_index, mbind, sysm_bind, on_streams. by rewrite Hs.
Qed.

Lemma clear_index_bind {B} i sl (k : unit -> sysm client B) c r :
  (clear_index i ≫= k) c = r -> streams_ok (streams c) -> slot_at (streams c) i = Some sl ->
  exists s', slot_updated (streams c) s' i (mkSlot 0 (uwrap 16 (slot_gen sl + 1)) no_handler) /\
    k tt (with_streams s' c) = r.
Proof.
  intros <- Hok Hsl. destruct (clear_slot _ _ _ Hok Hsl) as (s' & Hs & Hu). exists s'. split; [done|].
  unfold clear_index, mbind, sysm_bind, on_streams. by rewrite Hs.
Qed.
End run.

Section begin.
Context `{env : ClientEnv W}.
Abbreviation client := (client W).
Implicit Types c : client.

(** The state in which a call waits. *)
Definition begun (c : client) (ctx i : Z) (r : request) (s : stream_state) : client :=
  with_calls (<[ctx := mkWaiting (initial_ctx r) i]> (calls c))
    (with_streams s (with_next (next_stream_id c + 1) c)).

Lemma begun_ok c ctx i sl g r s :
  client_ok c -> calls c !! ctx = None -> slot_at (streams c) i = Some sl -> slot_id sl = 0 ->
  slot_updated (streams c) s i (mkSlot (next_stream_id c) g (mkHandler NULL ctx NULL)) ->
  client_ok (begun c ctx i r s) /\
  abs (begun c ctx i r s) =
    mkReg (<[next_stream_id c := Pending ctx]> (reg_of (streams c)))
      (<[ctx := None]> (call_status <$> calls c)) (next_stream_id c + 1).
Proof.
  intros [Hs Hn Hp] Hfresh Hsl Hid Hu.
  destruct (update_set _ _ _ (next_stream_id c + 1) _ _ _ Hs Hsl Hu) as [Hs' Hreg].
  { lia. } { cbn [slot_id]. lia. } { by right. }
  { intros j sl' _ Hj E. destruct (inv_ids _ _ Hs _ _ Hj); cbn [slot_id] in E; lia. }
  split; [split|].
  - done.
  - cbn [begun next_stream_id with_calls with_streams with_next]. lia.
  - intros j sl' Hj Hpos Hfn. cbn [begun streams calls with_calls with_streams with_next] in *.
    destruct Hu as [_ Hat]. rewrite Hat in Hj. case_if_in Hj.
    + injection Hj as <-. cbn [slot_handler Streams.ctx]. rewrite lookup_insert_eq. eexists. split; [done|].
      by subst.
    + destruct (Hp _ _ Hj Hpos Hfn) as (call & Hcall & ? & ?). exists call. split; [|done].
      rewrite lookup_insert_ne; [done|]. intros E2. rewrite <- E2 in Hcall. congruence.
  - unfold abs, begun. cbn [streams calls next_stream_id with_calls with_streams with_next].
    rewrite Hreg, fmap_insert. done.
Qed.

Lemma delete_no_entry s next : slots_inv s next -> delete 0 (reg_of s) = reg_of s.
Proof.
  intros Hs. apply delete_id. destruct (reg_of s !! 0) as [t|] eqn:E; [|done].
  apply (reg_ids _ _ Hs) in E. lia.
Qed.

(** What follows the registration of the call. *)
Definition begin_rest (ctx i id : Z) (r : request) : sysm client unit :=
  _ ← (if negb (sub_handle r =? NULL) then
         handle ← on_streams (fun s => h ← get_current_handle s i; Some (h, s));
         store_local (sub_handle r) (le_bytes 4 handle)
       else mret tt);
  params_object ← need (gg_obj_map (params r));
  fd ← gets ipc_conn_fd;
  ret ← attempt (send_object fd (call_headers id (operation r) (service_model_type r)) params_object);
  match ret with
  | inl e => _ ← clear_index i; _ ← on_calls (delete ctx); fail e
  | inr _ => mret tt
  end.

Lemma begin_sends c ctx i sl g r s o c' :
  client_ok c -> calls c !! ctx = None -> slot_at (streams c) i = Some sl -> slot_id sl = 0 ->
  slot_updated (streams c) s i (mkSlot (next_stream_id c) g (mkHandler NULL ctx NULL)) ->
  begin_rest ctx i (next_stream_id c) r (begun c ctx i r s) = (o, c') -> o <> Stuck ->
  client_ok c' /\
  ((o = Ok tt /\ abs c' = abs (begun c ctx i r s)) \/
   (exists e, o = Fail e /\ abs c' = mkReg (reg_of (streams c)) (call_status <$> calls c) (next_stream_id c + 1))).
Proof.
  intros Hc Hfresh Hsl Hid Hu H Ho. destruct (begun_ok c ctx i sl g r s Hc Hfresh Hsl Hid Hu) as [Hok2 _].
  apply mem_bind in H as (? & c3 & Hm3 & H); [| |  |done].
  2: { unfold store_local. frames. }
  2: { case_if; [apply no_fail_bind; [apply no_fail_streams|intros; apply no_fail_store]|done]. }
  apply mem_bind in H as (obj & c4 & Hm4 & H); [|auto with frames|apply no_fail_need|done].
  rewrite gets_bind in H.
  apply (attempt_bind mem_only) in H as (ret & c5 & Hm5 & H); [|apply send_object_mem|done].
  assert (mem_only (begun c ctx i r s) c5) as (w & m & ->) by (by do 2 (etrans; [eassumption|])).
  destruct ret as [e|?].
  - assert (slot_at (streams (with_mem w m (begun c ctx i r s))) i =
      Some (mkSlot (next_stream_id c) g (mkHandler NULL ctx NULL))) as Hat by by eapply slot_updated_at.
    destruct (clear_index_bind _ _ _ _ _ H (proj1 Hu) Hat) as (s5 & Hu5 & H5).
    rewrite on_calls_bind in H5. injection H5 as <- <-.
    cbn [slot_gen] in Hu5. pose proof (slot_updated_trans _ _ _ _ _ _ Hu Hu5) as Hu6.
    destruct Hc as [Hs Hn Hp].
    destruct (update_clear _ _ _ (next_stream_id c + 1) _ _ _ Hs Hsl Hu6 ltac:(lia) eq_refl) as [Hs' Hreg].
    assert (delete ctx (<[ctx := mkWaiting (initial_ctx r) i]> (calls c)) = calls c) as Hdel
      by by rewrite delete_insert_id.
    unfold abs, begun. cbn [calls streams next_stream_id with_calls with_streams with_next with_mem].
    rewrite Hdel. split; [split|].
    + done.
    + cbn [calls streams next_stream_id with_calls with_streams with_next with_mem]. lia.
    + cbn [calls streams next_stream_id with_calls with_streams with_next with_mem].
      intros j sl' Hj Hpos Hfn. destruct Hu6 as [_ Hat6]. rewrite Hat6 in Hj. case_if_in Hj.
      { injection Hj as <-. cbn [slot_id] in Hpos. lia. }
      by apply Hp.
    + right. exists e. split; [done|]. rewrite Hreg, Hid. f_equal. by eapply delete_no_entry.
  - injection H as <- <-. split; [by eapply mem_only_ok; [|eexists _, _]|]. by left.
Qed.

Lemma subscribe_begin_refines c tid ctx r o c' :
  client_ok c -> calls c !! ctx = None -> ggipc_subscribe_begin tid ctx r c = (o, c') -> o <> Stuck ->
  client_ok c' /\ reg_step (abs c) (Begin tid ctx r) o (abs c').
Proof.
  intros Hc Hfresh H Ho. pose proof (ok_slots _ Hc) as Hs. unfold ggipc_subscribe_begin in H.
  assert (forall e, (Fail e, c) = (o, c') ->
    client_ok c' /\ reg_step (abs c) (Begin tid ctx r) o (abs c')) as Hrefused.
  { intros e [= <- <-]. split; [done|]. apply (reg_refused (abs c)). cbn [abs next_id]. lia. }
  rewrite gets_bind in H. destruct (connected c); cbn [negb] in H; [|by eapply Hrefused].
  rewrite gets_bind in H. destruct (recv_thread_id c =? tid); [by eapply Hrefused|].
  unfold mbind at 1, sysm_bind at 1, on_streams at 1 in H.
  destruct (claim_slot _ (inv_streams _ _ Hs)) as [(i & sl & s1 & Hcl & Hsl & Hid & Hu1)|[Hcl Hfull]];
    rewrite Hcl in H.
  - unfold mbind at 1, sysm_bind at 1, take_stream_id at 1 in H.
    cbn [next_stream_id with_streams] in H.
    destruct (next_stream_id c <? 2147483647); [|by injection H as <- <-].
    apply set_index_bind with (sl := mkSlot (-1) (uwrap 16 (slot_gen sl + 1)) (slot_handler sl)) in H
      as (s2 & Hu2 & H); [|apply Hu1|by eapply slot_updated_at]. cbn [slot_gen] in Hu2.
    rewrite on_calls_bind in H.
    pose proof (slot_updated_trans _ _ _ _ _ _ Hu1 Hu2) as Hu.
    destruct (begin_sends c ctx i sl _ r s2 o c' Hc Hfresh Hsl Hid Hu H Ho) as [Hok' Hcase].
    split; [done|]. destruct Hcase as [[-> ->]|(e & -> & ->)].
    + destruct (begun_ok c ctx i sl _ r s2 Hc Hfresh Hsl Hid Hu) as [_ ->].
      apply (reg_open (abs c)); cbn [abs entries statuses].
      * by eapply reg_size_free.
      * by rewrite lookup_fmap, Hfresh.
    + apply (reg_refused (abs c)). cbn [abs next_id]. lia.
  - injection H as <- <-. replace (with_streams (streams c) c) with c by by destruct c. split; [done|].
    apply (reg_full (abs c)). by eapply reg_size_full.
Qed.

(** Registering a call that has a slot. *)
Lemma begin_registers c tid ctx r :
  client_ok c -> connected c = true -> recv_thread_id c <> tid -> next_stream_id c < 2147483647 ->
  (size (reg_of (streams c)) < 16)%nat ->
  exists i sl s, slot_at (streams c) i = Some sl /\ slot_id sl = 0 /\
    slot_updated (streams c) s i
      (mkSlot (next_stream_id c) (uwrap 16 (slot_gen sl + 1)) (mkHandler NULL ctx NULL)) /\
    ggipc_subscribe_begin tid ctx r c = begin_rest ctx i (next_stream_id c) r (begun c ctx i r s).
Proof.
  intros Hc Hconn Htid Hn Hfree. pose proof (ok_slots _ Hc) as Hs. unfold ggipc_subscribe_begin.
  rewrite gets_bind, Hconn. cbn [negb]. rewrite gets_bind, (proj2 (Z.eqb_neq _ _)) by done.
  destruct (claim_slot _ (inv_streams _ _ Hs)) as [(i & sl & s1 & Hcl & Hsl & Hid & Hu1)|[_ Hfull]].
  2: { pose proof (reg_size_full _ _ Hs Hfull). lia. }
  destruct (set_slot s1 i _ (next_stream_id c) (mkHandler NULL ctx NULL) (proj1 Hu1) (slot_updated_at _ _ _ _ Hu1))
    as (s2 & Hset & Hu2).
  exists i, sl, s2. split_and!; [done|done|by eapply slot_updated_trans|].
  unfold mbind at 1, sysm_bind at 1, on_streams at 1. rewrite Hcl.
  unfold mbind at 1, sysm_bind at 1, take_stream_id at 1. cbn [next_stream_id with_streams].
  rewrite (proj2 (Z.ltb_lt _ _)) by done.
  unfold mbind at 1, sysm_bind at 1, set_index at 1, on_streams at 1. cbn [streams with_streams with_next].
  rewrite Hset. cbn [mbind option_bind]. rewrite on_calls_bind. done.
Qed.

Lemma finish_refines c ctx call o c' :
  client_ok c -> calls c !! ctx = Some call -> ctx_ready (call_ctx call) = true ->
  subscribe_finish ctx call c = (o, c') ->
  client_ok c' /\ reg_step (abs c) (Return ctx) o (abs c').
Proof.
  intros [Hs Hn Hp] Hcall Hready H. unfold subscribe_finish in H. rewrite on_calls_bind in H.
  injection H as <- <-. split; [split|]; [done|done| |].
  - intros i sl Hi Hpos Hfn. destruct (Hp _ _ Hi Hpos Hfn) as (call' & Hcall' & Hr & Hx).
    exists call'. split; [|done]. cbn [calls with_calls]. rewrite lookup_delete_ne; [done|]. intros ->. congruence.
  - unfold abs at 2. cbn [calls streams next_stream_id with_calls]. rewrite fmap_delete.
    apply (reg_return (abs c)). cbn [abs statuses]. rewrite lookup_fmap, Hcall. cbn [fmap option_fmap option_map].
    unfold call_status. by rewrite Hready.
Qed.

Lemma timed_out_refines c ctx call o c' :
  client_ok c -> calls c !! ctx = Some call -> subscribe_timed_out ctx call c = (o, c') -> o <> Stuck ->
  client_ok c' /\ reg_step (abs c) (Timeout ctx) o (abs c').
Proof.
  intros Hc Hcall H Ho. pose proof Hc as [Hs Hn Hp]. unfold subscribe_timed_out in H.
  set (i := stream_index call) in *.
  assert (exists sl, slot_at (streams c) i = Some sl) as [sl Hsl].
  { apply slot_at_Some; [apply Hs|]. unfold mbind at 1, sysm_bind at 1, clear_index at 1, on_streams at 1 in H.
    unfold clear_stream_index at 1 in H.
    destruct (rd (stream_state_generation (streams c)) i) as [g|] eqn:Hg.
    - apply rd_Some in Hg. destruct (inv_streams _ _ Hs) as (_ & <- & _). lia.
    - cbn [mbind option_bind] in H. by injection H as <- <-. }
  apply (clear_index_bind i sl) in H as (s' & Hu & H); [|apply Hs|done].
  rewrite on_calls_bind in H. injection H as <- <-.
  destruct (update_clear _ _ _ _ _ _ _ Hs Hsl Hu (Z.le_refl _) eq_refl) as [Hs' Hreg]. split; [split|].
  - done.
  - done.
  - cbn [calls streams with_calls with_streams]. intros j slj Hj Hpos Hfn. destruct Hu as [_ Hat].
    rewrite Hat in Hj. case_if_in Hj; [injection Hj as <-; cbn [slot_id] in Hpos; lia|].
    destruct (Hp _ _ Hj Hpos Hfn) as (call' & Hcall' & Hr & Hx). exists call'. split; [|done].
    rewrite lookup_delete_ne; [done|]. intros Heq. rewrite <- Heq, Hcall in Hcall'.
    injection Hcall' as <-. done.
  - unfold abs at 2. cbn [calls streams next_stream_id with_calls with_streams]. rewrite Hreg, fmap_delete.
    assert (forall id, reg_of (streams c) !! id = Some (Pending ctx) ->
      id = slot_id sl /\ ctx_ready (call_ctx call) = false) as Hpend.
    { intros id (j & slj & Hj & <- & Hpos & Ht)%(reg_lookup _ _ Hs). unfold target_of in Ht.
      case_if_in Ht; [|done]. injection Ht as Hctx.
      destruct (Hp _ _ Hj Hpos E) as (call' & Hcall' & Hr & Hx). rewrite Hctx, Hcall in Hcall'.
      injection Hcall' as <-. fold i in Hx. subst j. rewrite Hsl in Hj. by injection Hj as <-. }
    assert (statuses (abs c) !! ctx = Some (call_status call)) as Hst.
    { cbn [abs statuses]. by rewrite lookup_fmap, Hcall. }
    destruct (decide (reg_of (streams c) !! slot_id sl = Some (Pending ctx))) as [Hin|Hout].
    + apply (reg_timeout (abs c) ctx); [done|]. rewrite Hst. unfold call_status.
      destruct (Hpend _ Hin) as [_ ->]. done.
    + apply (reg_timeout_late (abs c) ctx (slot_id sl)); [by rewrite Hst|].
      intros id Hin. destruct (Hpend _ Hin) as [-> _]. by apply Hout.
Qed.
End begin.

(** ** Packets and closing *)

Section packets.
Context `{env : ClientEnv W} `{!WellBehaved env}.
Abbreviation client := (client W).
Implicit Types c : client.

(** Replacing a call's context by its answered one. *)
Definition answered (ctx : Z) (call : waiting) (e : GgError) : gmap Z waiting -> gmap Z waiting :=
  <[ctx := mkWaiting
     (mkResponseCtx true e (result_callback (call_ctx call)) (error_callback (call_ctx call))
        (response_ctx (call_ctx call)) (sub_callback (call_ctx call)) (sub_callback_ctx (call_ctx call))
        (sub_callback_aux_ctx (call_ctx call))) (stream_index call)]>.

(** The state after a response, [s] being the streams. *)
Lemma answered_ok c i sl ctx call e s sl' :
  client_ok c -> slot_at (streams c) i = Some sl ->
  (forall j slj, slot_at (streams c) j = Some slj -> 0 < slot_id slj ->
     target_of (slot_handler slj) = Pending ctx -> j = i) ->
  slot_updated (streams c) s i sl' -> (slot_id sl' = 0 \/ fn (slot_handler sl') <> NULL) ->
  slots_inv s (next_stream_id c) ->
  client_ok (with_calls (answered ctx call e (calls c)) (with_streams s c)).
Proof.
  intros [Hs Hn Hp] Hsl Hown Hu Hsl' Hs'. split; [done|done|].
  cbn [calls streams with_calls with_streams]. intros j slj Hj Hpos Hfn. destruct Hu as [_ Hat].
  rewrite Hat in Hj. case_if_in Hj; [injection Hj as <-; destruct Hsl' as [E0|?]; [lia|done]|].
  destruct (Hp _ _ Hj Hpos Hfn) as (call' & Hcall' & Hr & Hx). exists call'. split; [|done].
  unfold answered. rewrite lookup_insert_ne; [done|]. intros Heq. apply E.
  apply (Hown j slj); [done|done|]. unfold target_of. rewrite Hfn. cbn [Z.eqb NULL]. by rewrite Heq.
Qed.

(** The registry after a response to the call at [x]. *)
Lemma answered_abs c x call e s :
  abs (with_calls (answered x call e (calls c)) (with_streams s c)) =
    mkReg (reg_of s) (<[x := Some e]> (statuses (abs c))) (next_stream_id c).
Proof.
  unfold abs. cbn [calls streams next_stream_id with_calls with_streams statuses]. unfold answered.
  by rewrite fmap_insert.
Qed.

(** A pending stream [id] at slot [i] for the call at [x], in the state before
    the callback, and what is left of it after the callback. *)
Record responding (c c1 : client) (i id x : Z) (call : waiting) (sl1 : slot) : Prop := {
  rs_ok : client_ok c1;
  rs_range : 0 < id < next_stream_id c1;
  rs_entry : reg_of (streams c) !! id = Some (Pending x);
  rs_sub : reg_of (streams c1) ⊆ reg_of (streams c);
  rs_status : statuses (abs c) !! x = Some None;
  rs_calls : calls c1 = calls c;
  rs_next : next_stream_id c1 = next_stream_id c;
  rs_slot : slot_at (streams c1) i = Some sl1;
  rs_id : slot_id sl1 = id \/ slot_id sl1 = 0;
  rs_same : forall j slj, slot_at (streams c1) j = Some slj -> slot_id slj = id -> j = i;
  rs_own : forall j slj, slot_at (streams c1) j = Some slj -> 0 < slot_id slj ->
    target_of (slot_handler slj) = Pending x -> j = i;
}.

Lemma callback_responding c c1 i sl call :
  client_ok c -> only_closes c c1 -> slot_at (streams c) i = Some sl -> 0 < slot_id sl ->
  target_of (slot_handler sl) = Pending (ctx (slot_handler sl)) ->
  calls c !! ctx (slot_handler sl) = Some call -> ctx_ready (call_ctx call) = false -> stream_index call = i ->
  exists sl1, responding c c1 i (slot_id sl) (ctx (slot_handler sl)) call sl1.
Proof.
  intros Hc Hcl Hsl Hpos Htgt Hcall Hready Hidx. pose proof Hc as [Hs Hn Hp].
  destruct (only_closes_ok _ _ Hc Hcl) as [Hc1 Hsub].
  destruct Hcl as (Hcalls & Hnext & Hcl). destruct (Hcl (inv_streams _ _ Hs)) as [Hok1 Hat1].
  destruct (slot_at_Some (streams c1) i Hok1) as [sl1 Hsl1].
  { by apply (slot_at_range _ _ _ (inv_streams _ _ Hs) Hsl). }
  exists sl1. split; try done.
  - rewrite Hnext. destruct (inv_ids _ _ Hs _ _ Hsl); lia.
  - rewrite <- Htgt. by eapply reg_slot.
  - cbn [abs statuses]. rewrite lookup_fmap, Hcall. cbn [fmap option_fmap option_map].
    unfold call_status. by rewrite Hready.
  - destruct (Hat1 _ _ Hsl1) as (sl0 & Hsl0 & Hor). rewrite Hsl in Hsl0. injection Hsl0 as <-.
    destruct Hor as [->|?]; [by left|by right].
  - intros j slj Hj Hj0. destruct (Hat1 _ _ Hj) as (sl0 & Hsl0 & [->|?]); [|lia].
    eapply (inv_distinct _ _ Hs); [done|done|lia|lia].
  - intros j slj Hj Hj0 Ht. destruct (Hat1 _ _ Hj) as (sl0 & Hsl0 & [->|?]); [|lia].
    unfold target_of in Ht. case_if_in Ht; [|done]. injection Ht as Ht.
    destruct (Hp _ _ Hsl0 Hj0 E) as (call' & Hcall' & _ & Hx). rewrite Ht in Hcall'. congruence.
Qed.

(** The stream ends. *)
Lemma response_gone c c1 i id x call sl1 e ch msg o c' :
  responding c c1 i id x call sl1 -> stream_id ch = id ->
  (_ ← clear_index i; respond x call e) c1 = (o, c') ->
  client_ok c' /\ reg_step (abs c) (Packet ch msg) o (abs c').
Proof.
  intros [Hc1 Hrange Hent Hsub Hst Hcalls Hnext Hsl1 Hor Hsame Hown] Hid H. pose proof (ok_slots _ Hc1) as Hs1.
  apply (clear_index_bind i sl1) in H as (s' & Hu & H); [|apply Hs1|done].
  injection H as <- <-. fold (answered x call e).
  destruct (update_clear _ _ _ _ _ _ _ Hs1 Hsl1 Hu (Z.le_refl _) eq_refl) as [Hs' Hreg]. split.
  - eapply (answered_ok c1); [done|done|done|exact Hu|by left|done].
  - rewrite answered_abs, Hnext.
    assert (statuses (abs c1) = statuses (abs c)) as -> by (cbn [abs statuses]; by rewrite Hcalls).
    apply (reg_response (abs c)); [by rewrite Hid|done|]. cbn [abs entries]. rewrite Hreg.
    apply map_subseteq_spec. intros id' t [Hne Ht]%lookup_delete_Some.
    apply lookup_delete_Some. split; [|by eapply lookup_weaken].
    intros Heq. apply Hne. apply (reg_lookup _ _ Hs1) in Ht as (j & slj & Hj & Hjid & _).
    assert (j = i) as -> by (eapply Hsame; [done|congruence]). congruence.
Qed.

(** The stream becomes that of a subscription. *)
Lemma response_accepted c c1 i id x call sl1 h ch msg o c' :
  responding c c1 i id x call sl1 -> stream_id ch = id -> fn h <> NULL ->
  (_ ← set_index i (stream_id ch) h; respond x call GG_ERR_OK) c1 = (o, c') ->
  client_ok c' /\ reg_step (abs c) (Packet ch msg) o (abs c').
Proof.
  intros [Hc1 Hrange Hent Hsub Hst Hcalls Hnext Hsl1 Hor Hsame Hown] Hid Hfn H. pose proof (ok_slots _ Hc1) as Hs1.
  apply (set_index_bind i _ _ sl1) in H as (s' & Hu & H); [|apply Hs1|done].
  injection H as <- <-. fold (answered x call GG_ERR_OK). rewrite Hid in *.
  destruct (update_set _ _ _ (next_stream_id c1) _ _ _ Hs1 Hsl1 Hu) as [Hs' Hreg]; cbn [slot_id slot_handler].
  { lia. } { lia. } { done. }
  { intros j slj Hne Hj E. apply Hne. by eapply Hsame. }
  cbn [slot_id slot_handler] in Hreg. split.
  - eapply (answered_ok c1); [done|done|done|exact Hu|by right|done].
  - rewrite answered_abs, Hnext.
    assert (statuses (abs c1) = statuses (abs c)) as -> by (cbn [abs statuses]; by rewrite Hcalls).
    rewrite Hreg, <- insert_delete_eq. unfold target_of. rewrite (proj2 (Z.eqb_neq _ _)) by done.
    rewrite <- Hid.
    apply (reg_accepted (abs c) ch msg x); [by rewrite Hid|done|done|].
    cbn [abs entries]. rewrite Hid. by apply delete_mono.
Qed.

Lemma response_refines c i sl ch msg o c' :
  client_ok c -> slot_at (streams c) i = Some sl -> slot_id sl = stream_id ch -> 0 < stream_id ch ->
  fn (slot_handler sl) = NULL ->
  response_handler i (ctx (slot_handler sl)) ch msg c = (o, c') -> o <> Stuck ->
  client_ok c' /\ reg_step (abs c) (Packet ch msg) o (abs c').
Proof.
  intros Hc Hsl Hid Hpos Hfn H Ho.
  destruct (ok_pending _ Hc _ _ Hsl ltac:(lia) Hfn) as (call & Hcall & Hready & Hidx).
  unfold response_handler in H. rewrite gets_bind, Hcall in H.
  unfold mbind at 1, sysm_bind at 1, need at 1, lift_out at 1 in H. cbn [get] in H.
  apply (attempt_bind only_closes) in H as (ret & c1 & Hcl & H); [|apply response_handler_inner_closes|done].
  destruct (callback_responding c c1 i sl call) as [sl1 R]; [done|done|done|lia| |done..|].
  { unfold target_of. by rewrite Hfn. }
  destruct (_ || _) eqn:Esub; [by eapply response_gone|].
  case_if_in H; [by eapply response_gone|]. eapply response_accepted; [done|done| |done].
  cbn [fn]. zify_bool. done.
Qed.

(** A packet for a subscription. *)
Lemma event_refines c i sl ch msg o c' (k : sysm client unit) :
  client_ok c -> slot_at (streams c) i = Some sl -> slot_id sl = stream_id ch -> 0 < stream_id ch ->
  fn (slot_handler sl) <> NULL -> keeps only_closes k -> k c = (o, c') -> o = Ok tt ->
  client_ok c' /\ reg_step (abs c) (Packet ch msg) o (abs c').
Proof.
  intros Hc Hsl Hid Hpos Hfn Hk H ->. assert (only_closes c c') as Hcl by by eapply Hk.
  destruct (only_closes_ok _ _ Hc Hcl) as [Hc' Hsub]. split; [done|]. destruct Hcl as (Hcalls & Hnext & _).
  assert (abs c' = mkReg (reg_of (streams c')) (statuses (abs c)) (next_id (abs c))) as ->
    by (unfold abs; cbn [statuses next_id]; by rewrite Hcalls, Hnext).
  eapply (reg_event (abs c)); [|done]. rewrite <- Hid. cbn [abs entries].
  rewrite (reg_slot _ _ (ok_slots _ Hc) _ _ Hsl) by lia. unfold target_of.
  by rewrite (proj2 (Z.eqb_neq _ _)).
Qed.

Lemma unknown_packet c ch msg :
  get_stream_index_from_id (streams c) (stream_id ch) = None -> handle_packet ch msg c = (Ok tt, c).
Proof. intros H. unfold handle_packet. by rewrite gets_bind, H. Qed.

Lemma packet_refines c ch msg o c' :
  client_ok c -> 0 <= stream_id ch -> handle_packet ch msg c = (o, c') -> o <> Stuck ->
  client_ok c' /\ reg_step (abs c) (Packet ch msg) o (abs c').
Proof.
  intros Hc Hid0 H Ho. pose proof (ok_slots _ Hc) as Hs. pose proof (inv_streams _ _ Hs) as Hok.
  unfold handle_packet in H. rewrite gets_bind in H. pose proof (find_stream _ (stream_id ch) Hok) as Hf.
  destruct (get_stream_index_from_id (streams c) (stream_id ch)) as [i|].
  - destruct Hf as (sl & Hsl & Hid & Hpos). pose proof (slot_at_inv _ _ _ Hsl) as (_ & _ & Hh).
    unfold mbind at 1, sysm_bind at 1, on_streams at 1 in H. rewrite Hh in H. cbn [mbind option_bind] in H.
    replace (with_streams (streams c) c) with c in H by by destruct c.
    destruct (fn (slot_handler sl) =? NULL) eqn:Hfn; zify_bool.
    + by eapply response_refines.
    + eapply (event_refines c i sl ch msg o c'); [done|done|done|done|done| |exact H|].
      * frames; apply call_sub_callback_closes.
      * unfold mbind at 1, sysm_bind at 1, on_streams at 1 in H.
        destruct (get_current_handle (streams c) i) as [h|]; [|by injection H as <- <-].
        cbn [mbind option_bind] in H.
        apply (attempt_bind (fun _ _ => True)) in H as (r & c1 & _ & H); [|done|done].
        destruct (_ || _); [|by injection H as <- <-].
        unfold clear_index, on_streams in H.
        destruct (clear_stream_index (streams c1) i); by injection H as <- <-.
  - injection H as <- <-. split; [done|]. apply (reg_unknown (abs c)). cbn [abs entries].
    destruct (reg_of (streams c) !! stream_id ch) as [t|] eqn:E; [|done].
    apply (reg_lookup _ _ Hs) in E as (i & sl & Hsl & Hid & Hpos & _).
    destruct Hf as [?|Hf]; [lia|]. by destruct (Hf _ _ Hsl).
Qed.

Lemma close_refines c handle o c' :
  client_ok c -> ggipc_close_subscription handle c = (o, c') -> o <> Stuck ->
  client_ok c' /\ reg_step (abs c) (Close handle) o (abs c').
Proof.
  intros Hc H Ho. assert (only_closes c c') as Hcl by by eapply close_subscription_closes.
  destruct (only_closes_ok _ _ Hc Hcl) as [Hc' _]. split; [done|]. destruct Hcl as (Hcalls & Hnext & _).
  pose proof (ok_slots _ Hc) as Hs. pose proof (inv_streams _ _ Hs) as Hok.
  assert (abs c' = mkReg (reg_of (streams c')) (statuses (abs c)) (next_id (abs c))) as ->
    by (unfold abs; cbn [statuses next_id]; by rewrite Hcalls, Hnext).
  unfold ggipc_close_subscription in H. unfold mbind at 1, sysm_bind at 1, on_streams at 1 in H.
  destruct (validate_handle (streams c) handle) as [i|e|]; [|  |by injection H as <- <-];
    replace (with_streams (streams c) c) with c in H by by destruct c.
  - apply mem_bind in H as (id & c1 & Hm1 & H); [|apply on_streams_read|apply no_fail_streams|done].
    rewrite gets_bind in H. apply (attempt_bind mem_only) in H as (r & c2 & Hm2 & H);
      [|apply ipc_send_packet_mem|done].
    assert (mem_only c c2) as (w & m & ->) by by etrans.
    assert (exists sl, slot_at (streams c) i = Some sl) as [sl Hsl].
    { apply slot_at_Some; [done|]. unfold clear_index, on_streams, clear_stream_index in H.
      cbn [streams with_mem] in H. destruct (rd (stream_state_generation (streams c)) i) as [g|] eqn:Hg.
      - apply rd_Some in Hg. destruct Hok as (_ & <- & _). lia.
      - by injection H as <- <-. }
    destruct (clear_slot _ _ _ Hok Hsl) as (s' & Hcl & Hu). unfold clear_index, on_streams in H.
    cbn [streams with_mem] in H. rewrite Hcl in H. injection H as <- <-. apply (reg_close (abs c)). right.
    exists (slot_id sl). cbn [streams with_streams abs entries].
    by destruct (update_clear _ _ _ _ _ _ _ Hs Hsl Hu (Z.le_refl _) eq_refl) as [_ ->].
  - injection H as <- <-. apply (reg_close (abs c)). by left.
Qed.

Lemma step_refines c e o c' :
  client_ok c -> client_step c e o c' -> o <> Stuck -> client_ok c' /\ reg_step (abs c) e o (abs c').
Proof.
  intros Hc H Ho. destruct H.
  - by apply subscribe_begin_refines.
  - by eapply finish_refines.
  - by eapply timed_out_refines.
  - by eapply packet_refines.
  - by eapply close_refines.
  - split; [by eapply mem_only_ok|]. rewrite (mem_only_abs c c') by done. apply reg_other.
Qed.

Lemma steps_ok c c' : client_ok c -> client_steps c c' -> client_ok c'.
Proof. intros Hc H. induction H; [done|]. by eapply step_refines. Qed.

(** C2: In every state that any interleaving of calls, responses, timeouts,
    closings and packets with arbitrary contents reaches from the start, the
    streams in use have distinct positive ids that were given out before, there
    are at most 16 of them, and every stream that waits for its first response
    refers to a live call that is waiting for exactly this response: the
    receiving thread never uses the context of a call that has returned. *)
Theorem client_invariant c0 c :
  initial c0 -> client_steps c0 c ->
  (size (reg_of (streams c)) <= 16)%nat /\
  (forall i j sli slj, slot_at (streams c) i = Some sli -> slot_at (streams c) j = Some slj ->
     slot_id sli <> 0 ->
     0 < slot_id sli < next_stream_id c /\ (i <> j -> slot_id sli <> slot_id slj)) /\
  (forall i sl, slot_at (streams c) i = Some sl -> slot_id sl <> 0 -> fn (slot_handler sl) = NULL ->
     exists call, calls c !! ctx (slot_handler sl) = Some call /\
       ctx_ready (call_ctx call) = false /\ stream_index call = i).
Proof.
  intros H0 H. destruct (steps_ok _ _ (initial_ok _ H0) H) as [Hs Hn Hp]. split_and!.
  - by eapply reg_size.
  - intros i j sli slj Hi Hj Hne. destruct (inv_ids _ _ Hs _ _ Hi) as [?|Hr]; [done|]. split; [done|].
    intros Hij E. apply Hij. assert (0 < slot_id sli) as Hpos by lia.
    exact (inv_distinct _ _ Hs _ _ _ _ Hi Hj E Hpos).
  - intros i sl Hi Hne Hfn. destruct (inv_ids _ _ Hs _ _ Hi) as [?|?]; [done|]. apply Hp; [done|lia|done].
Qed.

(** C1: The client refines a registry of streams: each step of its threads that
    does not fail an assertion is, with the same result, the step of an abstract
    registry that maps stream ids to waiting calls and subscriptions. A call is
    registered under a fresh id while fewer than 16 streams are in use, or it is
    refused and leaves no trace but a used id; a packet answers the one call that waits for its stream
    and no other; a call returns the result of its response; and an unknown
    stream changes nothing. *)
Theorem client_refines_registry c0 c e o c' :
  initial c0 -> client_steps c0 c -> client_step c e o c' -> o <> Stuck ->
  reg_step (abs c) e o (abs c').
Proof. intros H0 H He Ho. by apply step_refines; [eapply steps_ok; [by apply initial_ok|]|..]. Qed.
End packets.

(** ** A concrete client

    A system that accepts what is written and has nothing to read, and
    callbacks that do nothing. *)

(** The packets written so far. *)
Definition example_os : Os (list bytes) := {|
  sys_read := fun _ _ w => (inr [], w);
  sys_write := fun _ bs w => (inr (zlen bs), w ++ [bs]);
  sys_close := fun _ w => (inr tt, w);
  sys_fsync := fun _ w => (inr tt, w);
  sys_open := fun _ _ w => (inr 5, w);
  sys_openat := fun _ _ _ _ w => (inr 6, w);
  sys_mkdirat := fun _ _ _ w => (inr tt, w);
  sys_fstat := fun _ w => (inr 0, w);
|}.

Definition example_sockets : SockOs (list bytes) := {|
  sys_socket := fun w => (Some 3, w);
  sys_connect := fun _ _ w => (true, w);
  sys_set_rcvtimeo := fun _ _ w => (true, w);
  sys_set_sndtimeo := fun _ _ w => (true, w);
  sys_epoll_create := fun w => (Some 4, w);
  sys_epoll_add := fun _ _ _ w => (true, w);
  sys_epoll_wait := fun _ w => (inl E_OTHER, w);
|}.

#[export] Instance example_env : ClientEnv (list bytes) := {|
  os := example_os; sos := example_sockets; retries := 0;
  format_f64 := fun _ => GG_STR "0.0";
  strtod := fun _ _ => (0, false);
  pruned := mkBuf 900 8;
  ipc_recv_mem := 100000; ipc_recv_decode_mem := 200000; ipc_send_mem := 300000;
  params_obj := 1000; json_frame := 1100; result_obj := 1200; token_kv := 1300;
  result_fn := fun _ _ _ => mret tt;
  error_fn := fun _ _ _ _ => mret tt;
  sub_fn := fun _ _ _ _ _ _ => mret tt;
|}.

#[export] Instance example_callbacks : WellBehaved example_env.
Proof. split; intros; apply keeps_ret; apply _. Qed.

(** A connected client. Of the buffers, the part in use is mapped. *)
Definition example_client : client (list bytes) :=
  mkClient 3 4 77 1 init_streams ∅
    (zeroed 1000 400 ∪ zeroed 100000 300 ∪ zeroed 200000 2805 ∪ zeroed 300000 300) [].

Lemma example_initial : initial example_client.
Proof. done. Qed.

(** A call without parameters. *)
Definition example_request (sub_callback : Z) : request :=
  mkRequest (GG_STR "op") (GG_STR "type") (mkMap NULL 0) NULL NULL NULL sub_callback 11 12 NULL.

(** A response without a payload. *)
Definition example_common (id : Z) : EventStreamCommonHeaders := mkCommon id EVENTSTREAM_APPLICATION_MESSAGE 0.
Definition example_message : EventStreamMessage := mkMessage (mkIter 0 []) [].

(** Runs a step: its result is looked at by the caller. *)
Definition run (f : sysm (client (list bytes)) unit) (c : client (list bytes)) : client (list bytes) := (f c).2.


Definition returned {A} (o : outcome A) : bool := match o with Stuck => false | _ => true end.

Lemma run_steps c0 c e f :
  (forall o c', f c = (o, c') -> client_step c e o c') ->
  returned (f c).1 = true -> client_steps c0 c -> client_steps c0 (run f c).
Proof.
  intros Hstep Hr Hc. eapply (steps_next _ _ _ (f c).1); [done| |by destruct (f c).1].
  apply Hstep. unfold run. by destruct (f c).
Qed.

(** One call waits; it is answered; another call takes its slot; the first one
    only now notices that its time was up. *)
Definition first_begun := run (ggipc_subscribe_begin 1 5000 (example_request NULL)) example_client.
Definition first_answered := run (handle_packet (example_common 1) example_message) first_begun.
Definition second_begun := run (ggipc_subscribe_begin 2 6000 (example_request NULL)) first_answered.
Definition answered_call : waiting := mkWaiting (mkResponseCtx true GG_ERR_OK NULL NULL NULL NULL 11 12) 0.
Definition first_timed_out := run (subscribe_timed_out 5000 answered_call) second_begun.

Lemma run_result (f : sysm (client (list bytes)) unit) c o : (f c).1 = o -> f c = (o, run f c).
Proof. intros <-. unfold run. by destruct (f c). Qed.

(** The same with evaluated premises. *)
Lemma run_begin c tid ctx r c0 :
  calls c !! ctx = None -> returned (ggipc_subscribe_begin tid ctx r c).1 = true ->
  client_steps c0 c -> client_steps c0 (run (ggipc_subscribe_begin tid ctx r) c).
Proof. intros Hf Hr. apply (run_steps _ _ (Begin tid ctx r)); [|done]. intros o c' H. by apply step_begin. Qed.

Lemma run_packet c ch msg c0 :
  0 <= stream_id ch -> returned (handle_packet ch msg c).1 = true ->
  client_steps c0 c -> client_steps c0 (run (handle_packet ch msg) c).
Proof.
  intros Hf Hr. apply (run_steps _ _ (Packet ch msg)); [|done].
  intros o c' H. by apply step_packet.
Qed.

Lemma run_timeout c ctx call c0 :
  calls c !! ctx = Some call -> returned (subscribe_timed_out ctx call c).1 = true ->
  client_steps c0 c -> client_steps c0 (run (subscribe_timed_out ctx call) c).
Proof. intros Hf Hr. apply (run_steps _ _ (Timeout ctx)); [|done]. intros o c' H. by eapply step_timeout. Qed.

Lemma second_begun_reachable : client_steps example_client second_begun.
Proof.
  apply run_begin; [by vm_compute..|]. apply run_packet; [by vm_compute..|].
  apply run_begin; [by vm_compute..|]. apply steps_refl.
Qed.

Lemma client_invariant_witness :
  initial example_client /\ client_steps example_client second_begun /\
  (size (reg_of (streams second_begun)) <= 16)%nat.
Proof.
  pose proof second_begun_reachable as Hs. split_and!; [done|done|].
  exact (proj1 (client_invariant example_client second_begun example_initial Hs)).
Defined.

Lemma client_refines_registry_witness :
  initial example_client /\ client_steps example_client second_begun /\
  reg_step (abs second_begun) (Packet (example_common 2) example_message) (Ok tt)
    (abs (run (handle_packet (example_common 2) example_message) second_begun)).
Proof.
  pose proof second_begun_reachable as Hs. split_and!; [done|done|].
  apply (client_refines_registry example_client second_begun); [done|done| |done].
  apply step_packet; [done|]. apply (run_result (handle_packet (example_common 2) example_message) second_begun (Ok tt)).
  by vm_compute.
Defined.

(** A timeout and what it leaves of the registry. *)
Lemma timed_out_run `{env : ClientEnv W} (c : client W) x call sl :
  client_ok c -> calls c !! x = Some call -> slot_at (streams c) (stream_index call) = Some sl ->
  exists c', client_step c (Timeout x) (Fail GG_ERR_TIMEOUT) c' /\
    abs c' = mkReg (delete (slot_id sl) (entries (abs c))) (delete x (statuses (abs c))) (next_id (abs c)) /\
    forall ch msg, 0 < stream_id ch -> stream_id ch = slot_id sl -> handle_packet ch msg c' = (Ok tt, c').
Proof.
  intros Hc Hcall Hsl. pose proof Hc as [Hs Hn Hp].
  destruct (subscribe_timed_out x call c) as [o c'] eqn:Hrun. pose proof Hrun as H. unfold subscribe_timed_out in H.
  apply (clear_index_bind _ sl) in H as (s' & Hu & H); [|apply Hs|done]. rewrite on_calls_bind in H. injection H as <- <-.
  destruct (update_clear _ _ _ _ _ _ _ Hs Hsl Hu (Z.le_refl _) eq_refl) as [Hs' Hreg].
  exists (with_calls (delete x (calls c)) (with_streams s' c)). split; [by eapply step_timeout|]. split.
  - unfold abs. cbn [calls streams next_stream_id with_calls with_streams entries statuses next_id]. by rewrite Hreg, fmap_delete.
  - intros ch msg Hpos Hid. apply unknown_packet. cbn [streams with_calls with_streams].
    pose proof (find_stream s' (stream_id ch) (inv_streams _ _ Hs')) as Hf.
    destruct (get_stream_index_from_id s' (stream_id ch)) as [i|]; [|done]. destruct Hf as (sl' & Hi & Hid' & Hpos').
    pose proof (reg_slot _ _ Hs' _ _ Hi ltac:(lia)) as Hin. rewrite Hreg, Hid', Hid, lookup_delete_eq in Hin. done.
Qed.

(** C21: A call whose wait times out, whether or not its response has arrived in
    the meantime, removes from the registry whatever stream the slot holds that
    the call once claimed, and every later packet of this stream is dropped. The
    stream may be that of another call: the client reaches a state in which the
    response of the first call has arrived and a second call waits in the same
    slot; the timeout of the first one then removes the stream of the second one,
    which waits on, while the packet that answers it is dropped. *)
Theorem late_timeout_drops_response :
  (forall (W : Type) (env : ClientEnv W) (c : client W) x call sl,
     client_ok c -> calls c !! x = Some call -> slot_at (streams c) (stream_index call) = Some sl ->
     exists c', client_step c (Timeout x) (Fail GG_ERR_TIMEOUT) c' /\
       abs c' = mkReg (delete (slot_id sl) (entries (abs c))) (delete x (statuses (abs c))) (next_id (abs c)) /\
       forall ch msg, 0 < stream_id ch -> stream_id ch = slot_id sl -> handle_packet ch msg c' = (Ok tt, c')) /\
  exists c c', client_steps example_client c /\
    statuses (abs c) = {[ 5000 := Some GG_ERR_OK; 6000 := None ]} /\ entries (abs c) = {[ 2 := Pending 6000 ]} /\
    client_step c (Timeout 5000) (Fail GG_ERR_TIMEOUT) c' /\
    statuses (abs c') = {[ 6000 := None ]} /\ entries (abs c') = ∅ /\
    handle_packet (example_common 2) example_message c' = (Ok tt, c').
Proof.
  split; [intros W env; apply timed_out_run|].
  exists second_begun, first_timed_out. split; [apply second_begun_reachable|]. split; [by vm_compute|]. split; [by vm_compute|].
  split; [apply (step_timeout _ 5000 answered_call); [by vm_compute|apply run_result; by vm_compute]|].
  split; [by vm_compute|]. split; [by vm_compute|]. apply unknown_packet. by vm_compute.
Qed.

Lemma late_timeout_drops_response_witness :
  client_ok second_begun /\ calls second_begun !! 5000 = Some answered_call /\
  exists c', client_step second_begun (Timeout 5000) (Fail GG_ERR_TIMEOUT) c' /\
    abs c' = mkReg (delete 2 (entries (abs second_begun))) (delete 5000 (statuses (abs second_begun))) (next_id (abs second_begun)) /\
    forall ch msg, 0 < stream_id ch -> stream_id ch = 2 -> handle_packet ch msg c' = (Ok tt, c').
Proof.
  assert (client_ok second_begun) as Hok by exact (steps_ok _ _ (initial_ok _ example_initial) second_begun_reachable).
  split; [done|]. split; [by vm_compute|].
  refine (proj1 late_timeout_drops_response _ _ second_begun 5000 answered_call (default (mkSlot 0 0 no_handler) (slot_at (streams second_begun) 0)) Hok _ _);
    by vm_compute.
Defined.
