(* ===== verification/Receiving.v ===== *)
(** What the client receives: a packet is taken off the connection's descriptor,
    its payload is decoded in place and handed to the callback of the call or
    subscription of its stream.

    The theorems compose the framing of packets ([EsRpc]), the JSON decoder
    ([JsonDecodeSpec]), the schemas of maps ([JsonMaps]) and the client
    ([Registry]), over the system calls that read a descriptor ([Socket]). *)

From S2P Require Import Prelude Memory Buffer Io EsDecode EsRpc Object JsonValue Map Visit Arena JsonParse JsonAccept JsonDecode JsonStored JsonContainers JsonMaps JsonDecodeSpec File Socket Streams Client Wp Registry.

(** ** The headers of events *)

(** The headers of an event: the last string under each name, unless one is of
    another type. *)
Definition event_mistyped (h : EventStreamHeader) : bool :=
  bool_decide (name h ∈ [GG_STR "service-model-type"; GG_STR ":content-type"]) && negb (hv_type (value h) =? 7).

Definition last_string (n : bytes) (dflt : bytes) (hs : list EventStreamHeader) : bytes :=
  foldl (fun acc h =>
    match value h with
    | EVENTSTREAM_STRING s => if bool_decide (name h = n) then s else acc
    | _ => acc
    end) dflt hs.

Definition event_headers (hs : list EventStreamHeader) (smt ct : bytes) : outcome (bytes * bytes) :=
  if existsb event_mistyped hs then Fail GG_ERR_INVALID
  else Ok (last_string (GG_STR "service-model-type") smt hs, last_string (GG_STR ":content-type") ct hs).

Lemma sub_headers_bytes hs rest smt ct :
  Forall valid_header hs -> zlen hs <= UINT32_MAX ->
  sub_headers_loop (length hs) (mkIter (zlen hs) (headers_bytes hs ++ rest)) smt ct = event_headers hs smt ct.
Proof.
  intros Hv. revert smt ct. induction Hv as [|[n v] hs Hh Hv IH]; intros smt ct Hl; [done|].
  rewrite zlen_cons in *. pose proof (zlen_nonneg hs). cbn [length sub_headers_loop].
  rewrite headers_bytes_cons, <- app_assoc, header_next_bytes by (done || lia).
  replace (1 + zlen hs - 1) with (zlen hs) by lia. rewrite !gg_buffer_eq_decide.
  unfold event_headers, event_mistyped, last_string in *. cbn [existsb foldl EsDecode.name value].
  destruct (decide (n = GG_STR "service-model-type")) as [->|H1]; [|destruct (decide (n = GG_STR ":content-type")) as [->|H2]].
  - rewrite !bool_decide_true by (done || set_solver). rewrite bool_decide_false by done. cbn [andb].
    destruct v as [z|str|t]; [done| |by destruct Hh as (_ & _ & [])]. by apply IH; lia.
  - rewrite (bool_decide_false (_ = GG_STR "service-model-type")) by done. rewrite !bool_decide_true by (done || set_solver).
    destruct v as [z|str|t]; [done| |by destruct Hh as (_ & _ & [])]. by apply IH; lia.
  - rewrite !bool_decide_false by set_solver. cbn [andb orb]. rewrite IH by lia. by destruct v.
Qed.

Section receiving.
Context `{env : ClientEnv W}.
Abbreviation client := (client W).
Implicit Types c : client.

(** ** The static buffers *)

Definition decode_size : Z := sizeof_GgObject * GG_MAX_OBJECT_SUBOBJECTS.

(** Where a decoded object refers to. *)
Definition recv_region (x : Z) : Prop :=
  zrange ipc_recv_mem (ipc_recv_mem + GG_IPC_MAX_MSG_LEN) x \/
  zrange ipc_recv_decode_mem (ipc_recv_decode_mem + decode_size) x.

Definition recv_frame (x : Z) : Prop := recv_region x \/ zrange result_obj (result_obj + sizeof_GgObject) x.

(** They lie apart from each other; [strtod] reads a number, as the double that
    [to_f64] gives. *)
Class ReceivingLayout (to_f64 : bytes -> Z * bool) : Prop := {
  layout_recv : 0 < ipc_recv_mem /\ ipc_recv_mem + GG_IPC_MAX_MSG_LEN <= SIZE_MAX;
  layout_decode : 0 < ipc_recv_decode_mem /\ ipc_recv_decode_mem + decode_size <= SIZE_MAX;
  layout_result : result_obj <> NULL;
  layout_apart : disj ipc_recv_mem GG_IPC_MAX_MSG_LEN ipc_recv_decode_mem decode_size;
  layout_result_recv : disj result_obj sizeof_GgObject ipc_recv_mem GG_IPC_MAX_MSG_LEN;
  layout_result_decode : disj result_obj sizeof_GgObject ipc_recv_decode_mem decode_size;
  layout_pruned : 0 <= len pruned <= UINT16_MAX;
  layout_strtod : strtod_reads strtod to_f64;
}.

(** The buffers are allocated. *)
Record receiving_room (m : mem) : Prop := {
  room_recv : mapped m ipc_recv_mem GG_IPC_MAX_MSG_LEN;
  room_decode : mapped m ipc_recv_decode_mem decode_size;
  room_result : mapped m result_obj sizeof_GgObject;
}.

Lemma receiving_room_changes F m m' : receiving_room m -> changes F m m' -> receiving_room m'.
Proof. intros [] Hc. split; by eapply changes_mapped. Qed.

(** The data section of a packet is in the buffer. *)
Record received (m : mem) (hs : list EventStreamHeader) (pl : bytes) : Prop := {
  received_room : receiving_room m;
  received_data : loadz m ipc_recv_mem (zlen (packet_data hs pl)) = Some (packet_data hs pl);
  received_fits : zlen (packet_data hs pl) <= GG_IPC_MAX_MSG_LEN;
  received_bytes : bytes_ok pl;
}.

Definition message (hs : list EventStreamHeader) (pl : bytes) : EventStreamMessage :=
  message_of hs (packet_data hs pl) pl.

Lemma zlen_packet_data hs pl : zlen (packet_data hs pl) = zlen (headers_bytes hs) + zlen pl + 4.
Proof. unfold packet_data. zlen_lia. Qed.

(** The end of the payload. *)
Definition payload_end (hs : list EventStreamHeader) (pl : bytes) : Z :=
  ipc_recv_mem + zlen (headers_bytes hs) + zlen pl.

Lemma payload_buf_message hs pl : payload_buf (message hs pl) = rest_buf (payload_end hs pl) pl.
Proof.
  unfold payload_buf, message, message_of, rest_buf, payload_end. cbn [headers pos payload].
  rewrite zlen_packet_data. f_equal. lia.
Qed.

Definition recv_arena : GgArena := mkArena ipc_recv_decode_mem decode_size 0.

Section layout.
Context (to_f64 : bytes -> Z * bool) `{!ReceivingLayout to_f64}.

Lemma recv_region_positive x : recv_region x -> 0 < x.
Proof using All. pose proof layout_recv. pose proof layout_decode. unfold recv_region, zrange. lia. Qed.

Lemma received_ready m hs pl : received m hs pl -> ready m (payload_end hs pl) pl recv_arena.
Proof using All.
  intros [[Hr Hd _] Hl Hf Hb]. pose proof layout_recv as [Hr1 Hr2]. pose proof layout_decode as [Hd1 Hd2].
  pose proof layout_apart as Hap. pose proof (zlen_packet_data hs pl) as Hz. pose proof (zlen_nonneg (headers_bytes hs)).
  pose proof (zlen_nonneg pl). unfold payload_end, recv_arena, ready, holds, arena_ok, free. cbn [arena_mem capacity index].
  assert (loadz m (ipc_recv_mem + zlen (headers_bytes hs)) (zlen pl) = Some pl) as Hpl.
  { rewrite (loadz_sub _ _ _ _ (zlen (headers_bytes hs)) (zlen pl) Hl) by lia. f_equal.
    unfold packet_data. rewrite zdrop_app_exact by done. by apply ztake_app_exact. }
  replace (ipc_recv_mem + zlen (headers_bytes hs) + zlen pl - zlen pl) with (ipc_recv_mem + zlen (headers_bytes hs)) by lia.
  rewrite Z.add_0_r, Z.sub_0_r. unfold GG_IPC_MAX_MSG_LEN, decode_size, sizeof_GgObject, GG_MAX_OBJECT_SUBOBJECTS, UINT16_MAX, UINT32_MAX, SIZE_MAX, disj in *.
  split_and!; try done; lia.
Qed.

(** ** Taking a packet *)

(** What is known after a packet was taken off a stream that held [bs]. *)
Definition taken (conn : Z) `{!FdReads os conn} (bs : bytes) (c : client) (r : GgError + EventStreamMessage) c' : Prop :=
  exists w m, c' = with_mem w m c /\ changes recv_frame (cmem c) m /\
    match r with
    | inl _ => True
    | inr msg => exists hs pl rest, Forall valid_header hs /\ bs = packet hs pl ++ rest /\ msg = message hs pl /\
        received m hs pl /\ (sr_rel (r := gg_socket_reader os retries conn) w rest)
    end.

Lemma receive_packet_wp conn `{!FdReads os conn} bs c :
  sr_rel (r := gg_socket_reader os retries conn) (sys c) bs -> bytes_ok bs -> receiving_room (cmem c) ->
  wp (receive_packet conn) (taken conn bs c) c.
Proof using Type.
  intros Hs Hb Hroom. unfold receive_packet.
  destruct (get_packet_cases (gg_socket_reader os retries conn) (sys c) (cmem c)
    (mkBuf ipc_recv_mem GG_IPC_MAX_MSG_LEN) bs Hs Hb) as (res & w & m & Hrun & Hf & Hcases).
  - apply Hroom.
  - by vm_compute.
  - assert (changes recv_frame (cmem c) m) as Hc.
    { eapply changes_sub; [exact Hf|]. intros x Hx. by left; left. }
    eapply wp_mem; [exact Hrun|].
    assert (forall e, taken conn bs c (inl e) (with_mem w m c)) as Hfail by (intros e; by exists w, m).
    destruct Hcases as [->|[->|[->|(hs & pl & rest & Hv & Hpl & -> & -> & Hrest & Hfit & Hl)]]]; [apply Hfail..|].
    exists w, m. split; [done|]. split; [exact Hc|]. exists hs, pl, rest. split_and!; try done.
    by split; [eapply receiving_room_changes|..].
Qed.

(** A packet that fits is taken whole. *)
Lemma receive_packet_run conn `{!FdReads os conn} hs pl rest c :
  sr_rel (r := gg_socket_reader os retries conn) (sys c) (packet hs pl ++ rest) ->
  Forall valid_header hs -> bytes_ok pl -> zlen (packet_data hs pl) <= GG_IPC_MAX_MSG_LEN -> receiving_room (cmem c) ->
  wp (receive_packet conn) (fun r c' => r = inr (message hs pl) /\ exists w m, c' = with_mem w m c /\
    changes recv_frame (cmem c) m /\ received m hs pl /\ sr_rel (r := gg_socket_reader os retries conn) w rest) c.
Proof using Type.
  intros Hs Hv Hb Hfit Hroom. pose proof (zlen_packet_data hs pl). unfold receive_packet.
  destruct (get_packet_run (gg_socket_reader os retries conn) (sys c) (cmem c)
    (mkBuf ipc_recv_mem GG_IPC_MAX_MSG_LEN) hs pl rest Hs Hv Hb) as (res & w & m & Hrun & Hf & Hres).
  - unfold GG_IPC_MAX_MSG_LEN, UINT32_MAX in *. lia.
  - apply Hroom.
  - by vm_compute.
  - cbn [len data] in Hres. rewrite bool_decide_true in Hres by done. destruct Hres as (-> & Hrest & Hl).
    assert (changes recv_frame (cmem c) m) as Hc.
    { eapply changes_sub; [exact Hf|]. intros x Hx. by left; left. }
    eapply wp_mem; [exact Hrun|]. split; [done|]. exists w, m. split_and!; try done.
    by split; [eapply receiving_room_changes|..].
Qed.

(** ** Decoding the payload *)

(** The regions of the decoder lie in the buffers. *)
Lemma decode_frame hs pl m x : received m hs pl ->
  (zrange (payload_end hs pl - zlen pl) (payload_end hs pl) x \/
   zrange (arena_mem recv_arena + index recv_arena) (arena_mem recv_arena + capacity recv_arena) x \/
   zrange result_obj (result_obj + sizeof_GgObject) x) -> recv_frame x.
Proof using Type.
  intros [_ _ Hf _]. pose proof (zlen_packet_data hs pl). pose proof (zlen_nonneg (headers_bytes hs)).
  pose proof (zlen_nonneg pl). unfold recv_frame, recv_region, recv_arena, payload_end, zrange in *.
  cbn [arena_mem capacity index]. lia.
Qed.

Lemma used_region hs pl m a x : received m hs pl -> arena_le recv_arena a ->
  used (payload_end hs pl) pl [] recv_arena a x -> recv_region x.
Proof using Type.
  intros [_ _ Hf _] (Hm & Hc & Hi & _ & Hle & _). pose proof (zlen_packet_data hs pl). pose proof (zlen_nonneg (headers_bytes hs)).
  pose proof (zlen_nonneg pl). unfold used, recv_region, recv_arena, payload_end, zrange in *.
  cbn [arena_mem capacity index] in *. change (zlen []) with 0. lia.
Qed.

(** What a computation that only decodes leaves. *)
Definition decoded c (r : GgError + GgObject) c' : Prop :=
  exists m, c' = with_mem (sys c) m c /\ changes recv_frame (cmem c) m /\
    match r with
    | inl _ => True
    | inr o => (exists v, represents recv_region m v o) \/ gg_obj_type o = Some GG_TYPE_F64
    end.

Lemma decode_apart m hs pl : received m hs pl ->
  disj result_obj sizeof_GgObject (payload_end hs pl - zlen pl) (zlen pl) /\
  disj result_obj sizeof_GgObject (arena_mem recv_arena + index recv_arena) (free recv_arena).
Proof using All.
  intros Hr. pose proof layout_result_recv. pose proof layout_result_decode. pose proof (received_fits _ _ _ Hr).
  pose proof (zlen_packet_data hs pl). pose proof (zlen_nonneg (headers_bytes hs)). pose proof (zlen_nonneg pl).
  unfold disj, payload_end, recv_arena, free in *. cbn [arena_mem capacity index]. lia.
Qed.

(** From a run of the decoder on the payload. *)
Lemma decode_payload_run hs pl c err m a (Q : post GgObject) :
  gg_json_decode_destructive strtod pruned (cmem c) (rest_buf (payload_end hs pl) pl) (Some recv_arena) result_obj =
    Some (err, m, Some a) ->
  (err <> GG_ERR_OK -> Q (inl err) (with_mem (sys c) m c)) ->
  (err = GG_ERR_OK -> exists o, read_obj m result_obj = Some o /\ Q (inr o) (with_mem (sys c) m c)) ->
  wp (decode_payload (payload_buf (message hs pl))) Q c.
Proof using Type.
  intros Hrun Hbad Hgood. unfold decode_payload. apply wp_bind. eapply wp_mem.
  { change (gg_arena_init _) with recv_arena. rewrite payload_buf_message, Hrun. done. }
  unfold ended_with. case_bool_decide as He; [|by apply Hbad].
  destruct (Hgood He) as (o & Ho & HQ). apply wp_bind, wp_gets. by eapply wp_need.
Qed.

Lemma decode_payload_wp hs pl c :
  received (cmem c) hs pl -> wp (decode_payload (payload_buf (message hs pl))) (decoded c) c.
Proof using All.
  intros Hr. pose proof (received_room _ _ _ Hr) as [_ _ Hm]. destruct (decode_apart _ _ _ Hr) as [Hd1 Hd2].
  destruct (json_decode_any strtod to_f64 pruned layout_strtod layout_pruned (cmem c) (payload_end hs pl) pl recv_arena
    result_obj (received_ready _ _ _ Hr) layout_result Hm Hd1 Hd2) as (err & m & a & Hrun & Hch & Hres).
  assert (changes recv_frame (cmem c) m) as Hc.
  { eapply changes_sub; [exact Hch|]. intros x. by eapply decode_frame. }
  eapply decode_payload_run; [exact Hrun|by exists m|]. intros He. destruct (Hres He) as (o & Ho & Hor).
  exists o. split; [done|]. exists m. split; [done|]. split; [done|].
  destruct Hor as [(v & Hle & Hv)|?]; [left|by right].
  exists v. eapply represents_frame; [|by intros ?|exact Hv]. intros x. by eapply used_region.
Qed.

(** A payload that is a JSON object whose arrays fit in the arena. *)
Lemma decode_payload_object hs pl c kvs f (Q : post GgObject) :
  received (cmem c) hs pl -> json_value to_f64 pl decode_size = Ok (JObj kvs, f) ->
  (forall m o, changes recv_frame (cmem c) m -> represents recv_region m (JObj kvs) o -> Q (inr o) (with_mem (sys c) m c)) ->
  wp (decode_payload (payload_buf (message hs pl))) Q c.
Proof using All.
  intros Hr Hj HQ. pose proof (received_room _ _ _ Hr) as [_ _ Hm]. destruct (decode_apart _ _ _ Hr) as [Hd1 Hd2].
  destruct (json_decode_run strtod to_f64 pruned layout_strtod layout_pruned (cmem c) (payload_end hs pl) pl recv_arena
    result_obj (received_ready _ _ _ Hr) layout_result Hm Hd1 Hd2) as (err & m & a & Hrun & Hch & Hres).
  { intros s r Hp. unfold json_value in Hj. rewrite Hp in Hj. destruct s as [|text []| | | | |]; try done.
    cbn [JsonValue.eval] in Hj. destruct (to_f64 text) as [z []]; [done|]. cbn [mbind outcome_bind] in Hj.
    by destruct (bool_decide (r = [])). }
  replace (free recv_arena) with decode_size in Hres by (unfold free, recv_arena; cbn [capacity index]; lia).
  rewrite Hj in Hres. destruct Hres as (-> & Hle & _ & o & Ho & Hrep).
  assert (changes recv_frame (cmem c) m) as Hc.
  { eapply changes_sub; [exact Hch|]. intros x. by eapply decode_frame. }
  eapply decode_payload_run; [exact Hrun|done|]. intros _. exists o. split; [done|]. apply HQ; [done|].
  eapply represents_frame; [|by intros ?|exact Hrep]. intros x. by eapply used_region.
Qed.

(** ** Callbacks *)

(** What the application's callbacks need of the memory, and that they keep it
    and do not get stuck when they are called with a JSON object. *)
Class SafeCallbacks (I : mem -> Prop) : Prop := {
  safe_room : forall m, I m -> receiving_room m;
  safe_frame : forall m m', I m -> changes recv_frame m m' -> I m';
  safe_result : forall f x map kvs c,
    client_ok c -> I (cmem c) -> json_map_at recv_region (cmem c) map kvs ->
    wp (result_fn f x map) (fun _ c' => I (cmem c')) c;
  safe_error : forall f x code msg c,
    client_ok c -> I (cmem c) -> wp (error_fn f x code msg) (fun _ c' => I (cmem c')) c;
  safe_sub : forall f x aux handle smt map kvs c,
    client_ok c -> I (cmem c) -> json_map_at recv_region (cmem c) map kvs ->
    wp (sub_fn f x aux handle smt map) (fun _ c' => I (cmem c')) c;
}.

Section callbacks.
Context (I : mem -> Prop) `{!SafeCallbacks I} `{!WellBehaved env}.

Lemma client_ok_mem c w m : client_ok c -> client_ok (with_mem w m c).
Proof using Type. intros Hc. by apply (mem_only_ok c); [|eexists _, _]. Qed.

(** The steps after a payload was decoded. *)
Lemma decoded_wp {A} hs pl (k : GgObject -> sysm client A) (Q : post A) c :
  received (cmem c) hs pl -> client_ok c -> I (cmem c) ->
  (forall e m, I m -> Q (inl e) (with_mem (sys c) m c)) ->
  (forall o m, client_ok (with_mem (sys c) m c) -> I m ->
     (exists v, represents recv_region m v o) \/ gg_obj_type o = Some GG_TYPE_F64 -> wp (k o) Q (with_mem (sys c) m c)) ->
  wp (o ← decode_payload (payload_buf (message hs pl)); k o) Q c.
Proof using All.
  intros Hr Hc HI He Hk. apply wp_bind. eapply wp_mono; [by apply decode_payload_wp|].
  intros [e|o] c' (m & -> & Hch & Ho); [apply He|apply Hk]; try done; [by eapply safe_frame|by apply client_ok_mem|by eapply safe_frame].
Qed.

(** The object must be a map. *)
Lemma map_wp {A} o (e : GgError) (k : GgMap -> sysm client A) (Q : post A) c :
  (exists v, represents recv_region (cmem c) v o) \/ gg_obj_type o = Some GG_TYPE_F64 ->
  Q (inl e) c ->
  (forall map kvs, json_map_at recv_region (cmem c) map kvs -> wp (k map) Q c) ->
  wp (type ← need (gg_obj_type o);
      if negb (bool_decide (type = GG_TYPE_MAP)) then fail e else
      map ← need (gg_obj_into_map o); k map) Q c.
Proof using Type.
  intros Ho He Hk. apply wp_bind. destruct Ho as [[v Hv]|Ho].
  - eapply wp_need; [by eapply represents_type|]. case_bool_decide as Ht; cbn [negb]; [|by apply wp_fail].
    destruct v as [| | | | | |kvs]; try done. destruct (represents_map _ _ _ _ Hv) as (map & Hm & Hat).
    apply wp_bind. eapply wp_need; [exact Hm|]. by eapply Hk.
  - eapply wp_need; [exact Ho|]. by apply wp_fail.
Qed.

Lemma found_string m kvs key required bs v p :
  json_found recv_region m kvs (mkEntry key required GG_TYPE_BUF v) p -> jget key kvs = Some (JStr bs) -> required <> GG_MISSING ->
  0 < p /\ buf_at m p = Some bs.
Proof using Type.
  intros Hf Hj Hreq. unfold json_found, json_check in Hf. cbn [se_key se_required se_type] in Hf. rewrite Hj in Hf.
  assert (value_at recv_region m p (JStr bs)) as (Hp & _ & o & Ho & Hr).
  { destruct required; [| |done]; by rewrite decide_True in Hf by (by right). }
  split; [done|]. destruct (represents_str _ _ _ _ Hr) as (b & Hb & Hs & _). unfold buf_at.
  rewrite Ho. cbn [mbind option_bind]. rewrite Hb. cbn [mbind option_bind]. exact Hs.
Qed.

(** A string that a schema asks for, or allows. *)
Lemma found_string_any m kvs key required v p :
  json_found recv_region m kvs (mkEntry key required GG_TYPE_BUF v) p -> required <> GG_MISSING ->
  (required = GG_OPTIONAL /\ p = NULL) \/ exists bs, jget key kvs = Some (JStr bs) /\ 0 < p /\ buf_at m p = Some bs.
Proof using Type.
  intros Hf Hreq. pose proof Hf as Hf'. unfold json_found, json_check in Hf'. cbn [se_key se_required se_type] in Hf'.
  destruct (jget key kvs) as [w|] eqn:Hj.
  - right. destruct w as [| | | |bs| |]; try (destruct required; [| |done]; by rewrite decide_False in Hf' by naive_solver).
    exists bs. split; [done|]. by eapply found_string.
  - left. destruct required; by try done.
Qed.

Lemma handle_application_error_wp hs pl f x c :
  received (cmem c) hs pl -> client_ok c -> I (cmem c) ->
  wp (handle_application_error (payload_buf (message hs pl)) f x) (fun _ c' => I (cmem c')) c.
Proof using All.
  intros Hr Hc HI. unfold handle_application_error. case_if; [by apply wp_fail|].
  apply (decoded_wp hs pl); [done..|]. intros o m Hc' HI' Ho. apply map_wp; [exact Ho|done|]. intros map kvs Hat.
  apply wp_bind, wp_gets. apply wp_bind.
  destruct (json_validated _ _ recv_region_positive map kvs error_schema Hat) as (ret & vars & Hv & Hres); [by vm_compute|].
  eapply wp_need; [exact Hv|]. apply wp_bind, wp_out. unfold ended_with.
  destruct (json_schema kvs error_schema) as [e|]; [by rewrite bool_decide_false by (by destruct Hres as [-> ?])|].
  destruct Hres as [-> Hall]. rewrite bool_decide_true by done. unfold error_schema in Hall. rewrite !Forall_cons in Hall.
  destruct Hall as ((p1 & Hp1 & H1) & (p2 & Hp2 & H2) & _). cbn [se_value] in Hp1, Hp2.
  apply wp_bind. eapply wp_need; [exact Hp1|].
  destruct (found_string_any _ _ _ _ _ _ H1) as [[? ->]|(code & _ & _ & Hcode)]; [done..|].
  apply wp_bind. eapply wp_need; [exact Hcode|]. apply wp_bind. eapply wp_need; [exact Hp2|]. apply wp_bind.
  assert (exists text, (if negb (p2 =? NULL) then buf_at (cmem (with_mem (sys c) m c)) p2 else Some []) = Some text) as [text Htext].
  { destruct (found_string_any _ _ _ _ _ _ H2) as [[? ->]|(text & _ & Hpos & Htext)]; [done|by eexists|].
    exists text. rewrite (proj2 (Z.eqb_neq _ _)) by (unfold NULL; lia). exact Htext. }
  eapply wp_need; [exact Htext|]. apply wp_bind. eapply wp_mono; [by apply safe_error|].
  intros [e|[]] c' HI''; [done|by apply wp_fail].
Qed.
(** The memory after a step: what the application's callbacks rely on holds. *)
Definition kept {A} : post A := fun _ c' => I (cmem c').

Lemma received_store bs m m' hs pl : store m result_obj bs = Some m' -> zlen bs = sizeof_GgObject ->
  received m hs pl -> received m' hs pl.
Proof using All.
  intros Hs Hz [Hr Hl Hf Hb]. pose proof (store_changes _ _ _ _ Hs) as Hc. rewrite Hz in Hc.
  split; [by eapply receiving_room_changes| |done..]. rewrite <- Hl. apply (changes_loadz _ _ _ _ _ Hc).
  intros x Hx Hx'. pose proof layout_result_recv. unfold disj, zrange in *. lia.
Qed.

Lemma response_handler_inner_wp hs pl ch rf ef x c :
  received (cmem c) hs pl -> client_ok c -> I (cmem c) ->
  wp (response_handler_inner ch (message hs pl) rf ef x) kept c.
Proof using All.
  intros Hr Hc HI. unfold response_handler_inner. case_if; [by apply handle_application_error_wp|].
  case_if; [by apply wp_fail|]. case_if; [by apply wp_ret|].
  destruct (store_Some (cmem c) result_obj GG_OBJ_NULL) as [m Hm]; [apply Hr|].
  apply wp_bind. eapply wp_store; [exact Hm|]. apply (decoded_wp hs pl).
  - by eapply received_store.
  - by apply client_ok_mem.
  - eapply safe_frame; [exact HI|]. eapply changes_sub; [by eapply store_changes|]. intros y Hy. by right.
  - done.
  - intros o m' Hc' HI' Ho. apply map_wp; [exact Ho|done|]. intros map kvs Hat. by eapply safe_result.
Qed.

(** The iterator of a packet. *)
Lemma message_iter hs pl :
  EsDecode.count (headers (message hs pl)) = zlen hs /\ headers (message hs pl) = mkIter (zlen hs) (headers_bytes hs ++ (pl ++ be32 (message_crc hs pl))).
Proof using Type. done. Qed.

Lemma received_count m hs pl : received m hs pl -> zlen hs <= UINT32_MAX.
Proof using Type.
  intros [_ _ Hf _]. rewrite zlen_packet_data in Hf. pose proof (zlen_headers_bytes hs). pose proof (zlen_nonneg pl).
  unfold GG_IPC_MAX_MSG_LEN, UINT32_MAX in *. lia.
Qed.

Lemma message_common m hs pl : Forall valid_header hs -> received m hs pl ->
  eventstream_get_common_headers (message hs pl) = common_spec hs (mkCommon 0 0 0).
Proof using Type.
  intros Hv Hr. unfold eventstream_get_common_headers. destruct (message_iter hs pl) as [-> ->].
  apply common_headers_loop_spec. unfold zlen at 1. rewrite Nat2Z.id. by eapply header_list_loop_bytes, received_count.
Qed.

Lemma call_sub_callback_wp hs pl ch h f x aux c :
  Forall valid_header hs -> received (cmem c) hs pl -> client_ok c -> I (cmem c) ->
  wp (call_sub_callback h f x aux ch (message hs pl)) kept c.
Proof using All.
  intros Hv Hr Hc HI. unfold call_sub_callback. case_if; [by apply wp_fail|].
  destruct (message_iter hs pl) as [-> ->]. unfold zlen at 1. rewrite Nat2Z.id.
  rewrite sub_headers_bytes by (done || by eapply received_count).
  apply wp_bind, wp_out. unfold event_headers. case_if; [done|].
  case_if; [by apply wp_fail|]. apply wp_bind, wp_attempt. eapply wp_mono; [by apply decode_payload_wp|].
  intros r c' (m & -> & Hch & Ho). assert (I m) as HI' by (by eapply safe_frame).
  destruct r as [e|o]; [destruct e; by first [apply wp_fail|apply wp_ret]|].
  apply map_wp; [exact Ho|exact HI'|]. intros map kvs Hat. eapply safe_sub; [by apply client_ok_mem|exact HI'|exact Hat].
Qed.

(** ** Dispatching *)

(** The end of a response: its slot is cleared or becomes the subscription's. *)
Lemma respond_wp x call e c : I (cmem c) -> wp (respond x call e) kept c.
Proof using Type. intros HI. unfold respond. by apply wp_calls. Qed.

Lemma clear_wp {A} i (k : sysm client A) (Q : post A) c : client_ok c -> 0 <= i < 16 ->
  (forall s, wp k Q (with_streams s c)) -> wp (_ ← clear_index i; k) Q c.
Proof using Type.
  intros Hc Hi Hk. pose proof (inv_streams _ _ (ok_slots _ Hc)) as Hok. destruct (slot_at_Some _ _ Hok Hi) as [sl Hsl].
  apply wp_bind. eapply wp_clear_index; [done|exact Hsl|]. intros s _. apply Hk.
Qed.

Lemma set_wp {A} i id h (k : sysm client A) (Q : post A) c : client_ok c -> 0 <= i < 16 ->
  (forall s, wp k Q (with_streams s c)) -> wp (_ ← set_index i id h; k) Q c.
Proof using Type.
  intros Hc Hi Hk. pose proof (inv_streams _ _ (ok_slots _ Hc)) as Hok. destruct (slot_at_Some _ _ Hok Hi) as [sl Hsl].
  apply wp_bind. eapply wp_set_index; [done|exact Hsl|]. intros s _. apply Hk.
Qed.

Lemma response_handler_wp hs pl ch i sl c :
  received (cmem c) hs pl -> client_ok c -> I (cmem c) -> slot_at (streams c) i = Some sl -> 0 < slot_id sl ->
  fn (slot_handler sl) = NULL -> wp (response_handler i (ctx (slot_handler sl)) ch (message hs pl)) kept c.
Proof using All.
  intros Hr Hc HI Hsl Hpos Hfn. destruct (ok_pending _ Hc _ _ Hsl Hpos Hfn) as (call & Hcall & _ & _).
  assert (0 <= i < 16) as Hi by by apply (slot_at_range _ _ _ (inv_streams _ _ (ok_slots _ Hc)) Hsl).
  unfold response_handler. apply wp_bind, wp_gets. apply wp_bind. eapply wp_need; [exact Hcall|].
  apply wp_bind, wp_attempt. eapply wp_mono.
  { eapply wp_also; [by apply response_handler_inner_wp|]. intros o c' H Ho. instantiate (1 := fun _ => client_ok).
    by apply (only_closes_ok c), (response_handler_inner_closes _ _ _ _ _ _ _ _ H). }
  intros r c' [HI' Hc'].
  case_if; [apply clear_wp; [done..|]; intros s; by apply respond_wp|].
  case_if; [apply clear_wp; [done..|]; intros s; by apply respond_wp|].
  apply set_wp; [done..|]. intros s. by apply respond_wp.
Qed.

Lemma handle_packet_wp hs pl ch c :
  Forall valid_header hs -> received (cmem c) hs pl -> client_ok c -> I (cmem c) ->
  wp (handle_packet ch (message hs pl)) kept c.
Proof using All.
  intros Hv Hr Hc HI. pose proof (inv_streams _ _ (ok_slots _ Hc)) as Hok. unfold handle_packet.
  apply wp_bind, wp_gets. pose proof (find_stream (streams c) (stream_id ch) Hok) as Hf.
  destruct (get_stream_index_from_id _ _) as [i|]; [|by apply wp_ret]. destruct Hf as (sl & Hsl & Hid & Hpos).
  pose proof (slot_at_inv _ _ _ Hsl) as (_ & _ & Hh). apply wp_bind. eapply wp_streams; [by rewrite Hh|].
  replace (with_streams (streams c) c) with c by by destruct c.
  case_if; [apply response_handler_wp; try done; lia|].
  apply wp_bind. eapply wp_streams; [by rewrite (current_handle _ _ _ Hok Hsl)|].
  replace (with_streams (streams c) c) with c by by destruct c. apply wp_bind, wp_attempt. eapply wp_mono.
  { eapply wp_also; [by apply call_sub_callback_wp|]. intros o c' H Ho. instantiate (1 := fun _ => client_ok).
    by apply (only_closes_ok c), (call_sub_callback_closes _ _ _ _ _ _ _ _ _ H). }
  intros r c' [HI' Hc']. case_if; [|by apply wp_ret].
  assert (0 <= i < 16) as Hi by by apply (slot_at_range _ _ _ Hok Hsl).
  destruct (slot_at_Some _ _ (inv_streams _ _ (ok_slots _ Hc')) Hi) as [sl' Hsl'].
  eapply wp_clear_index; [exact (inv_streams _ _ (ok_slots _ Hc'))|exact Hsl'|done].
Qed.

(** What dispatching did: nothing to the registry, or a step with a packet from
    the descriptor. *)
Definition dispatched (bs : bytes) (c : client) (o : outcome unit) (c' : client) : Prop :=
  (exists e, o = Fail e /\ abs c' = abs c) \/
  (exists hs pl rest ch, Forall valid_header hs /\ bs = packet hs pl ++ rest /\
     common_spec hs (mkCommon 0 0 0) = Ok ch /\ 0 <= stream_id ch /\
     reg_step (abs c) (Packet ch (message hs pl)) o (abs c')).

Lemma dispatch_wp conn `{!FdReads os conn} bs c :
  sr_rel (r := gg_socket_reader os retries conn) (sys c) bs -> bytes_ok bs -> client_ok c -> I (cmem c) ->
  wp (dispatch_incoming_packet conn) (fun r c' => kept r c' /\ client_ok c' /\ dispatched bs c (outcome_of r) c') c.
Proof using All.
  intros Hs Hb Hc HI. unfold dispatch_incoming_packet. apply wp_bind. eapply wp_mono.
  { apply (receive_packet_wp conn bs); [done..|]. by apply safe_room. }
  intros r c' (w & m & -> & Hch & Hr). assert (I m) as HI' by (by eapply safe_frame).
  assert (client_ok (with_mem w m c)) as Hc' by by apply client_ok_mem.
  assert (forall e, kept (inl e : GgError + unit) (with_mem w m c) /\ client_ok (with_mem w m c) /\
    dispatched bs c (Fail e) (with_mem w m c)) as Hfail.
  { intros e. split_and!; [done|done|]. left. by exists e. }
  destruct r as [e|msg]; [apply Hfail|]. destruct Hr as (hs & pl & rest & Hv & Hbs & -> & Hrecv & _).
  apply wp_bind, wp_out. rewrite (message_common m) by done. unfold common_spec at 1.
  destruct (existsb mistyped hs) eqn:Hmis; [apply Hfail|]. set (ch := mkCommon _ _ _).
  case_if; [apply wp_fail, Hfail|]. assert (0 <= stream_id ch) as Hid by exact E. eapply wp_mono.
  { eapply wp_also; [by apply (handle_packet_wp hs pl ch)|]. intros o c' H Ho.
    exact (packet_refines _ _ _ _ _ Hc' Hid H Ho). }
  intros r c' [Hk [Hc'' Hstep]]. split_and!; [done..|]. right. exists hs, pl, rest, ch.
  unfold common_spec. by rewrite Hmis.
Qed.

(** C5: Receiving is safe whatever the connection gives: with callbacks that keep
    their part of the memory, dispatching never gets stuck — no assertion fails,
    nothing outside of a buffer is accessed, and no response is given to a call
    that is not there — and leaves a client that keeps its invariant; and the
    registry is as before, with an error, or took a step with a valid packet
    that was next on the connection. *)
Theorem receiving_safe conn `{!FdReads os conn} bs c :
  sr_rel (r := gg_socket_reader os retries conn) (sys c) bs -> bytes_ok bs -> client_ok c -> I (cmem c) ->
  exists o c', dispatch_incoming_packet conn c = (o, c') /\ o <> Stuck /\
    client_ok c' /\ I (cmem c') /\ dispatched bs c o c'.
Proof using All.
  intros Hs Hb Hc HI. destruct (wp_run _ _ _ (dispatch_wp conn bs c Hs Hb Hc HI)) as (r & c' & Hrun & Hk & Hc' & Hd).
  exists (outcome_of r), c'. split_and!; try done. by destruct r.
Qed.
End callbacks.
End layout.
End receiving.

(** ** A client that reads what is given

    Two bytes at a time, with interruptions; there is nothing to decode as a
    double but zero. *)

#[export] Instance reading_env : ClientEnv (nat * bytes) := {|
  os := piece_os;
  sos := {|
    sys_socket := fun w => (Some 3, w);
    sys_connect := fun _ _ w => (true, w);
    sys_set_rcvtimeo := fun _ _ w => (true, w);
    sys_set_sndtimeo := fun _ _ w => (true, w);
    sys_epoll_create := fun w => (Some 4, w);
    sys_epoll_add := fun _ _ _ w => (true, w);
    sys_epoll_wait := fun _ w => (inl E_OTHER, w);
  |};
  retries := 3;
  format_f64 := fun _ => GG_STR "0.0";
  strtod := fun _ _ => (0, false);
  pruned := mkBuf 900 8;
  ipc_recv_mem := 100000; ipc_recv_decode_mem := 200000; ipc_send_mem := 300000;
  params_obj := 1000; json_frame := 1100; result_obj := 1200; token_kv := 1300;
  result_fn := fun _ _ _ => mret tt;
  error_fn := fun _ _ _ _ => mret tt;
  sub_fn := fun _ _ _ _ _ _ => mret tt;
|}.

#[export] Instance reading_callbacks : WellBehaved reading_env.
Proof. split; intros; apply keeps_ret; apply _. Qed.

#[export] Instance reading_layout : ReceivingLayout (fun _ => (0, false)).
Proof. split; try by vm_compute. all: left; by vm_compute. Qed.

#[export] Instance reading_safe : SafeCallbacks receiving_room.
Proof. split; [done|by apply receiving_room_changes|..]; intros; by apply wp_ret. Qed.

Definition reading_mem : mem := zeroed 1000 400 ∪ zeroed 100000 10000 ∪ zeroed 200000 2805 ∪ zeroed 300000 300.

Definition reading_client : client (nat * bytes) := mkClient 3 4 77 1 init_streams ∅ reading_mem (O, []).

Lemma reading_room : receiving_room reading_mem.
Proof.
  pose proof (zeroed_mapped 1000 400) as H1. pose proof (zeroed_mapped 100000 10000) as H2.
  pose proof (zeroed_mapped 200000 2805) as H3. unfold reading_mem. revert H1 H2 H3.
  generalize (zeroed 1000 400), (zeroed 100000 10000), (zeroed 200000 2805), (zeroed 300000 300).
  intros m1 m2 m3 m4 H1 H2 H3. split; intros x Hx; rewrite !lookup_union_is_Some.
  - left; left; right. by apply H2.
  - left; right. by apply H3.
  - left; left; left. apply H1. cbn in *. unfold sizeof_GgObject in *. lia.
Qed.

(** A call waits for its response on the stream 1. *)
Definition reading_request (result_callback sub_callback : Z) : request :=
  mkRequest (GG_STR "op") (GG_STR "type") (mkMap NULL 0) result_callback NULL NULL sub_callback 11 12 NULL.

Definition awaiting (result_callback sub_callback : Z) : client (nat * bytes) :=
  (ggipc_subscribe_begin 1 5000 (reading_request result_callback sub_callback) reading_client).2.

Lemma begin_keeps_ok `{env : ClientEnv W} tid x r (c : client W) : client_ok c -> calls c !! x = None ->
  returned (ggipc_subscribe_begin tid x r c).1 = true -> client_ok (ggipc_subscribe_begin tid x r c).2.
Proof.
  intros Hc Hx Hr. destruct (ggipc_subscribe_begin tid x r c) as [o c'] eqn:E. cbn [fst snd] in *.
  eapply subscribe_begin_refines; [done|exact Hx|exact E|by intros ->].
Qed.

Lemma awaiting_ok : client_ok (awaiting 42 NULL) /\ client_ok (awaiting NULL 43).
Proof.
  split; (apply begin_keeps_ok; [apply initial_ok; split_and!; reflexivity|reflexivity|vm_compute; reflexivity]).
Qed.

(** The memory of the client and what is next on its connection. *)
Definition next_on (bs : bytes) (c : client (nat * bytes)) : client (nat * bytes) := with_mem (1%nat, bs) reading_mem c.

Lemma next_on_ok bs c : client_ok c -> client_ok (next_on bs c).
Proof. intros Hc. by apply (mem_only_ok c); [|eexists _, _]. Qed.

Lemma receiving_safe_witness :
  exists o c', dispatch_incoming_packet 3 (next_on (GG_STR "not a packet at all") (awaiting 42 NULL)) = (o, c') /\ o <> Stuck /\
    client_ok c' /\ receiving_room (cmem c') /\
    dispatched (GG_STR "not a packet at all") (next_on (GG_STR "not a packet at all") (awaiting 42 NULL)) o c'.
Proof.
  apply (receiving_safe (fun _ => (0, false)) receiving_room 3).
  - exists 1%nat. split; [done|]. cbn. lia.
  - by apply (bool_decide_eq_true _); vm_compute.
  - exact (next_on_ok _ _ (proj1 awaiting_ok)).
  - apply reading_room.
Defined.
