(* ===== verification/Delivery.v ===== *)
(** What the application gets of a packet: the JSON object of a response or of
    an event is handed, as a map in memory, to the callback of the call or the
    subscription of its stream, and what the callback returns decides what
    becomes of the stream. *)

From S2P Require Import Prelude Memory Buffer Io EsDecode EsRpc Object JsonValue Map Visit Arena JsonParse JsonAccept JsonDecode JsonStored JsonContainers JsonMaps JsonDecodeSpec File Socket Streams Client Wp Registry Receiving.

Section delivery.
Context `{env : ClientEnv W} (to_f64 : bytes -> Z * bool) `{!ReceivingLayout to_f64}.
Context (I : mem -> Prop) `{!SafeCallbacks I} `{!WellBehaved env}.
Abbreviation client := (client W).
Implicit Types c : client.

(** A packet with a JSON object that is next on the connection. *)
Record incoming (conn : Z) `{!FdReads os conn} (hs : list EventStreamHeader) (pl rest : bytes)
    (ch : EventStreamCommonHeaders) (kvs : list (bytes * jvalue)) c : Prop := {
  in_stream : sr_rel (r := gg_socket_reader os retries conn) (sys c) (packet hs pl ++ rest);
  in_headers : Forall valid_header hs;
  in_bytes : bytes_ok pl;
  in_fits : zlen (packet_data hs pl) <= GG_IPC_MAX_MSG_LEN;
  in_common : common_spec hs (mkCommon 0 0 0) = Ok ch;
  in_message : message_type ch = EVENTSTREAM_APPLICATION_MESSAGE;
  in_json : exists f, json_value to_f64 pl decode_size = Ok (JObj kvs, f);
}.

(** The callback ran, with result [o] and state [c'], on a map of the members
    [kvs]; only the client's buffers had changed before. *)
Definition delivered (w : W) (kvs : list (bytes * jvalue)) (callback : GgMap -> sysm client unit) c
    (o : outcome unit) c' : Prop :=
  exists m map, changes recv_frame (cmem c) m /\ json_map_at recv_region m map kvs /\
    callback map (with_mem w m c) = (o, c').

Lemma delivered_mem w m kvs callback c o c' :
  changes recv_frame (cmem c) m -> delivered w kvs callback (with_mem w m c) o c' -> delivered w kvs callback c o c'.
Proof using Type.
  intros Hc (m' & map & Hch & Hat & Hrun). exists m', map. split; [by eapply changes_trans|done].
Qed.

(** The decoded map goes to the callback. *)
Lemma object_wp hs pl kvs f callback e (Q : post unit) c :
  received (cmem c) hs pl -> json_value to_f64 pl decode_size = Ok (JObj kvs, f) ->
  client_ok c -> I (cmem c) ->
  (forall r c', delivered (sys c) kvs callback c (outcome_of r) c' -> Q r c') ->
  (forall m map, client_ok (with_mem (sys c) m c) -> I m -> json_map_at recv_region m map kvs ->
     wp (callback map) (kept I) (with_mem (sys c) m c)) ->
  wp (decode_payload (payload_buf (message hs pl))) (fun r c' => match r with
    | inl e => False
    | inr o => wp (type ← need (gg_obj_type o);
        if negb (bool_decide (type = GG_TYPE_MAP)) then fail e else
        map ← need (gg_obj_into_map o); callback map) Q c'
    end) c.
Proof using All.
  intros Hr Hj Hc HI HQ Hcb. apply (decode_payload_object to_f64 hs pl c kvs f); [done..|].
  intros m o Hch Ho. assert (I m) as HI' by (by eapply safe_frame).
  apply wp_bind. eapply wp_need; [by eapply represents_type|]. cbn [jtype]. rewrite bool_decide_true by done. cbn [negb].
  destruct (represents_map _ _ _ _ Ho) as (map & Hmap & Hat). apply wp_bind. eapply wp_need; [exact Hmap|].
  eapply wp_mono.
  { apply (wp_also _ (kept I) (fun o c' => callback map (with_mem (sys c) m c) = (o, c'))); [|done].
    apply Hcb; [by apply client_ok_mem|done..]. }
  intros r c' [_ Hrun]. apply HQ. by exists m, map.
Qed.

(** ** Responses *)

Lemma response_inner_delivers hs pl ch rf ef x kvs f c :
  received (cmem c) hs pl -> json_value to_f64 pl decode_size = Ok (JObj kvs, f) ->
  client_ok c -> I (cmem c) -> message_type ch = EVENTSTREAM_APPLICATION_MESSAGE -> rf <> NULL ->
  wp (response_handler_inner ch (message hs pl) rf ef x)
    (fun r c' => delivered (sys c) kvs (result_fn rf x) c (outcome_of r) c') c.
Proof using All.
  intros Hr Hj Hc HI Hm Hrf. unfold response_handler_inner. rewrite Hm.
  change (EVENTSTREAM_APPLICATION_MESSAGE =? EVENTSTREAM_APPLICATION_ERROR) with false.
  change (EVENTSTREAM_APPLICATION_MESSAGE =? EVENTSTREAM_APPLICATION_MESSAGE) with true. cbn [negb].
  rewrite (proj2 (Z.eqb_neq _ _)) by done.
  destruct (store_Some (cmem c) result_obj GG_OBJ_NULL) as [m Hst]; [apply Hr|].
  assert (changes recv_frame (cmem c) m) as Hch.
  { eapply changes_sub; [by eapply store_changes|]. intros y Hy. by right. }
  apply wp_bind. eapply wp_store; [exact Hst|]. apply wp_bind. eapply wp_mono.
  { apply (object_wp hs pl kvs f (result_fn rf x) GG_ERR_FAILURE
      (fun r c' => delivered (sys c) kvs (result_fn rf x) c (outcome_of r) c')).
    - by eapply received_store.
    - done.
    - by apply client_ok_mem.
    - by eapply safe_frame.
    - intros r c' Hd. by eapply delivered_mem.
    - intros m' map Hc' HI' Hat. by eapply safe_result. }
  by intros [e|o] c'.
Qed.

(** What a call returns, [r] being the result of its callback. *)
Definition response_code (call : waiting) (ch : EventStreamCommonHeaders) (o : outcome unit) : GgError :=
  match o with
  | Fail e => e
  | _ => if (sub_callback (call_ctx call) =? NULL) || (Z.land (message_flags ch) EVENTSTREAM_TERMINATE_STREAM =? 0)
         then GG_ERR_OK else GG_ERR_FAILURE
  end.

(** The callback of the call has the object, and the call its answer. *)
Definition responded (w : W) kvs ch (x : Z) (call : waiting) c c' : Prop := exists o c1,
  delivered w kvs (result_fn (result_callback (call_ctx call)) (response_ctx (call_ctx call))) c o c1 /\
  cmem c' = cmem c1 /\ sys c' = sys c1 /\ calls c' = answered x call (response_code call ch o) (calls c).

Lemma response_delivers hs pl ch i sl call kvs f c :
  received (cmem c) hs pl -> json_value to_f64 pl decode_size = Ok (JObj kvs, f) ->
  client_ok c -> I (cmem c) -> message_type ch = EVENTSTREAM_APPLICATION_MESSAGE ->
  slot_at (streams c) i = Some sl -> calls c !! ctx (slot_handler sl) = Some call ->
  result_callback (call_ctx call) <> NULL ->
  wp (response_handler i (ctx (slot_handler sl)) ch (message hs pl))
    (fun r c' => r = inr tt /\ responded (sys c) kvs ch (ctx (slot_handler sl)) call c c') c.
Proof using All.
  intros Hr Hj Hc HI Hm Hsl Hcall Hrf.
  assert (0 <= i < 16) as Hi by by apply (slot_at_range _ _ _ (inv_streams _ _ (ok_slots _ Hc)) Hsl).
  unfold response_handler. apply wp_bind, wp_gets. apply wp_bind. eapply wp_need; [exact Hcall|].
  apply wp_bind, wp_attempt. eapply wp_mono.
  { eapply wp_also; [by apply (response_inner_delivers hs pl ch _ _ _ kvs f)|]. intros o c' H Ho.
    instantiate (1 := fun _ c' => only_closes c c').
    exact (response_handler_inner_closes _ _ _ _ _ _ _ _ H Ho). }
  intros r c1 [Hd Hcl]. destruct (only_closes_ok _ _ Hc Hcl) as [Hc1 _]. destruct Hcl as (Hcalls & _).
  assert (forall s e, e = response_code call ch (outcome_of r) ->
    wp (respond (ctx (slot_handler sl)) call e)
      (fun r c' => r = inr tt /\ responded (sys c) kvs ch (ctx (slot_handler sl)) call c c') (with_streams s c1)) as Hend.
  { intros s e ->. unfold respond. apply wp_calls. split; [done|]. exists (outcome_of r), c1.
    split_and!; [done..|]. cbn [calls with_calls with_streams]. by rewrite Hcalls. }
  unfold response_code in Hend. destruct (sub_callback (call_ctx call) =? NULL) eqn:Hsub; cbn [orb] in *.
  { apply clear_wp; [done..|]. intros s. apply Hend. by destruct r. }
  case_bool_decide as Hok; cbn [negb]; [subst r; cbn [outcome_of] in Hend|].
  - destruct (Z.land (message_flags ch) EVENTSTREAM_TERMINATE_STREAM =? 0); cbn [negb].
    + apply set_wp; [done..|]. intros s. by apply Hend.
    + apply clear_wp; [done..|]. intros s. by apply Hend.
  - apply clear_wp; [done..|]. intros s. apply Hend. by destruct r as [|[]].
Qed.

(** ** Events *)

Lemma event_delivers hs pl ch h f x aux kvs n smt c :
  Forall valid_header hs -> received (cmem c) hs pl -> json_value to_f64 pl decode_size = Ok (JObj kvs, n) ->
  client_ok c -> I (cmem c) -> message_type ch = EVENTSTREAM_APPLICATION_MESSAGE ->
  event_headers hs [] [] = Ok (smt, GG_STR "application/json") ->
  wp (call_sub_callback h f x aux ch (message hs pl))
    (fun r c' => delivered (sys c) kvs (sub_fn f x aux h smt) c (outcome_of r) c') c.
Proof using All.
  intros Hv Hr Hj Hc HI Hm Hh. unfold call_sub_callback. rewrite Hm.
  change (EVENTSTREAM_APPLICATION_MESSAGE =? EVENTSTREAM_APPLICATION_MESSAGE) with true. cbn [negb].
  destruct (message_iter hs pl) as [-> ->]. unfold zlen at 1. rewrite Nat2Z.id.
  rewrite sub_headers_bytes by (done || by eapply received_count).
  apply wp_bind, wp_out. rewrite Hh. change (gg_buffer_eq (GG_STR "application/json") (GG_STR "application/json")) with true.
  cbn [negb]. apply wp_bind, wp_attempt. eapply wp_mono.
  { apply (object_wp hs pl kvs n (sub_fn f x aux h smt) GG_ERR_INVALID
      (fun r c' => delivered (sys c) kvs (sub_fn f x aux h smt) c (outcome_of r) c')); [done..|].
    intros m map Hc' HI' Hat. by eapply safe_sub. }
  by intros [e|o] c'.
Qed.

(** ** Dispatching *)

(** The packet is taken, and handled after that. *)
Lemma incoming_wp conn `{!FdReads os conn} hs pl rest ch kvs (Q : post unit) c :
  incoming conn hs pl rest ch kvs c -> client_ok c -> I (cmem c) -> 0 <= stream_id ch ->
  (forall w m, sr_rel (r := gg_socket_reader os retries conn) w rest -> changes recv_frame (cmem c) m ->
     received m hs pl -> client_ok (with_mem w m c) -> I m ->
     wp (handle_packet ch (message hs pl)) Q (with_mem w m c)) ->
  wp (dispatch_incoming_packet conn) Q c.
Proof using All.
  intros Hin Hc HI Hid Hk. unfold dispatch_incoming_packet. apply wp_bind. eapply wp_mono.
  { apply (receive_packet_run conn hs pl rest); [by apply Hin..|by apply safe_room]. }
  intros r c' (-> & w & m & -> & Hch & Hr & Hs). apply wp_bind, wp_out.
  rewrite (message_common m) by (done || by apply Hin). rewrite (in_common _ _ _ _ _ _ _ Hin).
  rewrite (proj2 (Z.ltb_ge _ _)) by done. apply Hk; try done; [by apply client_ok_mem|by eapply safe_frame].
Qed.

(** The slot of a stream in use. *)
Lemma registered id t c : client_ok c -> entries (abs c) !! id = Some t ->
  exists i sl, get_stream_index_from_id (streams c) id = Some i /\ slot_at (streams c) i = Some sl /\
    slot_id sl = id /\ 0 < id /\ target_of (slot_handler sl) = t.
Proof using Type.
  intros Hc Ht. pose proof (ok_slots _ Hc) as Hs. cbn [abs entries] in Ht.
  apply (reg_lookup _ _ Hs) in Ht as (i & sl & Hsl & Hid & Hpos & Ht).
  pose proof (find_stream (streams c) id (inv_streams _ _ Hs)) as Hf.
  destruct (get_stream_index_from_id _ _) as [j|].
  - destruct Hf as (sl' & Hsl' & Hid' & _). assert (j = i) as ->.
    { eapply (inv_distinct _ _ Hs); [done|done|congruence|lia]. }
    exists i, sl. by split_and!.
  - destruct Hf as [?|Hf]; [lia|]. by destruct (Hf _ _ Hsl).
Qed.

Lemma pending_slot sl x : target_of (slot_handler sl) = Pending x -> fn (slot_handler sl) = NULL /\ ctx (slot_handler sl) = x.
Proof using Type. unfold target_of. case_if; [|done]. by intros [= <-]. Qed.

Lemma subscribed_slot sl f x aux : target_of (slot_handler sl) = Subscribed f x aux ->
  slot_handler sl = mkHandler f x aux /\ f <> NULL.
Proof using Type. unfold target_of. case_if; [done|]. intros [= <- <- <-]. by destruct (slot_handler sl). Qed.

(** A response, from the connection to the callback. *)
Lemma response_delivered_run conn `{!FdReads os conn} hs pl rest ch kvs x call c :
  incoming conn hs pl rest ch kvs c -> client_ok c -> I (cmem c) ->
  entries (abs c) !! stream_id ch = Some (Pending x) -> calls c !! x = Some call ->
  result_callback (call_ctx call) <> NULL ->
  exists w c', dispatch_incoming_packet conn c = (Ok tt, c') /\
    sr_rel (r := gg_socket_reader os retries conn) w rest /\ responded w kvs ch x call c c'.
Proof using All.
  intros Hin Hc HI Ht Hcall Hrf. destruct (registered _ _ _ Hc Ht) as (i & sl & Hfound & Hsl & Hid & Hpos & Htgt).
  apply pending_slot in Htgt as [Hfn <-]. destruct (in_json _ _ _ _ _ _ _ Hin) as [f Hj].
  assert (wp (dispatch_incoming_packet conn) (fun r c' => r = inr tt /\ exists w,
    sr_rel (r := gg_socket_reader os retries conn) w rest /\ responded w kvs ch (ctx (slot_handler sl)) call c c') c) as H.
  { eapply incoming_wp; [exact Hin|done..|lia|]. intros w m Hs Hch Hr Hc' HI'. unfold handle_packet.
    apply wp_bind, wp_gets. cbn [streams with_mem]. rewrite Hfound. pose proof (slot_at_inv _ _ _ Hsl) as (_ & _ & Hh).
    apply wp_bind. eapply wp_streams; [cbn [streams with_mem]; by rewrite Hh|]. rewrite Hfn. cbn [Z.eqb NULL].
    eapply wp_mono.
    { eapply (response_delivers hs pl ch i sl call kvs f (with_mem w m c)); try done. by apply Hin. }
    intros r c' [-> (o & c1 & Hd & Hrest)]. split; [done|]. exists w. split; [done|]. exists o, c1.
    split; [by eapply delivered_mem|done]. }
  apply wp_run in H as (r & c' & Hrun & -> & w & Hs & Hresp). by exists w, c'.
Qed.

(** C6: A response with a JSON object for a waiting call is decoded and handed,
    as a map of exactly its members in the client's buffers, to the result
    callback of that call and no other; then the call, and only it, has its
    answer, which is the callback's error if it gives one. The rest of the
    connection is left for the next packet. *)
Theorem response_delivered conn `{!FdReads os conn} hs pl rest ch kvs x call c :
  incoming conn hs pl rest ch kvs c -> client_ok c -> I (cmem c) ->
  entries (abs c) !! stream_id ch = Some (Pending x) -> calls c !! x = Some call ->
  result_callback (call_ctx call) <> NULL ->
  exists w c', dispatch_incoming_packet conn c = (Ok tt, c') /\
    sr_rel (r := gg_socket_reader os retries conn) w rest /\ responded w kvs ch x call c c'.
Proof using All. by apply response_delivered_run. Qed.

(** What an event leaves, [o] being the result of the subscription's callback
    and [c1] the state after it. *)
Definition event_left ch (o : outcome unit) c1 c' : Prop :=
  if bool_decide (o = Ok tt) && (Z.land (message_flags ch) EVENTSTREAM_TERMINATE_STREAM =? 0) then c' = c1
  else exists s, c' = with_streams s c1 /\ entries (abs c') = delete (stream_id ch) (entries (abs c1)).

(** The slot is cleared, whatever the callback did with it. *)
Lemma event_cleared c c1 i sl (Q : post unit) :
  client_ok c -> only_closes c c1 -> slot_at (streams c) i = Some sl -> 0 < slot_id sl ->
  (forall s, reg_of s = delete (slot_id sl) (reg_of (streams c1)) -> Q (inr tt) (with_streams s c1)) ->
  wp (clear_index i) Q c1.
Proof using Type.
  intros Hc Hcl Hsl Hpos HQ. destruct (only_closes_ok _ _ Hc Hcl) as [Hc1 _].
  pose proof (ok_slots _ Hc) as Hs. pose proof (ok_slots _ Hc1) as Hs1. destruct Hcl as (_ & _ & Hcl).
  destruct (Hcl (inv_streams _ _ Hs)) as [_ Hat].
  destruct (slot_at_Some (streams c1) i (inv_streams _ _ Hs1)) as [sl1 Hsl1].
  { by apply (slot_at_range _ _ _ (inv_streams _ _ Hs) Hsl). }
  eapply wp_clear_index; [exact (inv_streams _ _ Hs1)|exact Hsl1|]. intros s Hu. apply HQ.
  destruct (update_clear _ _ _ _ _ _ _ Hs1 Hsl1 Hu (Z.le_refl _) eq_refl) as [_ ->].
  destruct (Hat _ _ Hsl1) as (sl0 & Hsl0 & Hor). rewrite Hsl in Hsl0. injection Hsl0 as <-.
  destruct Hor as [->|H0]; [done|]. rewrite H0. rewrite !delete_id; [done| |].
  - destruct (reg_of _ !! slot_id sl) as [t|] eqn:E; [|done].
    apply (reg_lookup _ _ Hs1) in E as (j & slj & Hj & Hid & _).
    destruct (Hat _ _ Hj) as (sl0 & Hj0 & [->|?]); [|lia].
    assert (j = i) as -> by (eapply (inv_distinct _ _ Hs); [done|done|done|lia]). rewrite Hsl1 in Hj. injection Hj as <-. lia.
  - destruct (reg_of _ !! 0) as [t|] eqn:E; [|done]. apply (reg_ids _ _ Hs1) in E. lia.
Qed.

(** An event, from the connection to the callback. *)
Lemma event_delivered_run conn `{!FdReads os conn} hs pl rest ch kvs smt f x aux c :
  incoming conn hs pl rest ch kvs c -> client_ok c -> I (cmem c) ->
  event_headers hs [] [] = Ok (smt, GG_STR "application/json") ->
  entries (abs c) !! stream_id ch = Some (Subscribed f x aux) ->
  exists w i h o c1 c', dispatch_incoming_packet conn c = (Ok tt, c') /\
    sr_rel (r := gg_socket_reader os retries conn) w rest /\
    get_stream_index_from_id (streams c) (stream_id ch) = Some i /\ validate_handle (streams c) h = Ok i /\
    delivered w kvs (sub_fn f x aux h smt) c o c1 /\ event_left ch o c1 c'.
Proof using All.
  intros Hin Hc HI Hev Ht. destruct (registered _ _ _ Hc Ht) as (i & sl & Hfound & Hsl & Hid & Hpos & Htgt).
  apply subscribed_slot in Htgt as [Hh Hfn]. destruct (in_json _ _ _ _ _ _ _ Hin) as [n Hj].
  pose proof (inv_streams _ _ (ok_slots _ Hc)) as Hok. pose proof (slot_at_inv _ _ _ Hsl) as (_ & Hgen & Hhan).
  pose proof (slot_at_range _ _ _ Hok Hsl) as Hi.
  set (h := handle_of i (slot_gen sl)).
  assert (validate_handle (streams c) h = Ok i) as Hval.
  { assert (0 <= slot_gen sl < 2 ^ 16) as Hg.
    { destruct Hok as (_ & _ & _ & Hf). unfold rd in Hgen. case_if_in Hgen; [lia|]. by eapply (Forall_lookup_1 _ _ _ _ Hf). }
    unfold h. rewrite (validate_handle_of _ _ _ _ Hok Hsl Hg). by rewrite Z.eqb_refl. }
  assert (wp (dispatch_incoming_packet conn) (fun r c' => r = inr tt /\ exists w o c1,
    sr_rel (r := gg_socket_reader os retries conn) w rest /\
    delivered w kvs (sub_fn f x aux h smt) c o c1 /\ event_left ch o c1 c') c) as H.
  { eapply incoming_wp; [exact Hin|done..|lia|]. intros w m Hs Hch Hr Hc' HI'. unfold handle_packet.
    apply wp_bind, wp_gets. cbn [streams with_mem]. rewrite Hfound.
    apply wp_bind. eapply wp_streams; [cbn [streams with_mem]; by rewrite Hhan|]. rewrite Hh. cbn [fn ctx aux_ctx].
    rewrite (proj2 (Z.eqb_neq _ _)) by done.
    apply wp_bind. eapply wp_streams; [cbn [streams with_mem with_streams]; by rewrite (current_handle _ _ _ Hok Hsl)|]. fold h.
    apply wp_bind, wp_attempt. eapply wp_mono.
    { eapply wp_also; [eapply (event_delivers hs pl ch h f x aux kvs n smt (with_mem w m c)); try done; by apply Hin|].
      intros o c' H Ho. instantiate (1 := fun _ c' => only_closes c c').
      cbv beta. transitivity (with_mem w m c); [|exact (call_sub_callback_closes _ _ _ _ _ _ _ _ _ H Ho)].
      apply mem_only_closes. by exists w, m. }
    intros r c1 [Hd Hcl].
    assert (delivered w kvs (sub_fn f x aux h smt) c (outcome_of r) c1) as Hd' by by eapply delivered_mem.
    destruct (negb (bool_decide (r = inr tt)) || _) eqn:Ecl.
    - eapply event_cleared; [exact Hc|exact Hcl|exact Hsl|lia|]. intros s Hreg. split; [done|].
      exists w, (outcome_of r), c1. split_and!; [done..|]. unfold event_left.
      assert (bool_decide (outcome_of r = Ok tt) && (Z.land (message_flags ch) EVENTSTREAM_TERMINATE_STREAM =? 0) = false) as ->.
      { destruct r as [e|[]]; [done|]. cbn [outcome_of]. rewrite bool_decide_true in * by done. cbn in *. by apply negb_true_iff. }
      exists s. split; [done|]. cbn [abs entries streams with_streams]. by rewrite Hreg, Hid.
    - apply wp_ret. split; [done|]. exists w, (outcome_of r), c1. split_and!; [done..|]. unfold event_left.
      destruct r as [e|[]]; [done|]. cbn [outcome_of]. rewrite bool_decide_true in * by done. cbn in *.
      by apply negb_false_iff in Ecl as ->. }
  apply wp_run in H as (r & c' & Hrun & -> & w & o & c1 & Hs & Hd & Hl). by exists w, i, h, o, c1, c'.
Qed.

(** C7: An event with a JSON object for a subscription is decoded and handed,
    as a map of exactly its members, to the subscription's callback with its
    handle and its service model type. The subscription is kept if the callback
    succeeds and the packet does not end the stream; otherwise it, and only it,
    is dropped. *)
Theorem event_delivered conn `{!FdReads os conn} hs pl rest ch kvs smt f x aux c :
  incoming conn hs pl rest ch kvs c -> client_ok c -> I (cmem c) ->
  event_headers hs [] [] = Ok (smt, GG_STR "application/json") ->
  entries (abs c) !! stream_id ch = Some (Subscribed f x aux) ->
  exists w i h o c1 c', dispatch_incoming_packet conn c = (Ok tt, c') /\
    sr_rel (r := gg_socket_reader os retries conn) w rest /\
    get_stream_index_from_id (streams c) (stream_id ch) = Some i /\ validate_handle (streams c) h = Ok i /\
    delivered w kvs (sub_fn f x aux h smt) c o c1 /\ event_left ch o c1 c'.
Proof using All. by apply event_delivered_run. Qed.
End delivery.

(** ** An example: the response and the event carry [{"a":1}] *)

Definition message_headers (extra : list EventStreamHeader) : list EventStreamHeader :=
  [mkHeader (GG_STR ":message-type") (EVENTSTREAM_INT32 0);
   mkHeader (GG_STR ":message-flags") (EVENTSTREAM_INT32 0);
   mkHeader (GG_STR ":stream-id") (EVENTSTREAM_INT32 1)] ++ extra.

Definition event_extra : list EventStreamHeader :=
  [mkHeader (GG_STR "service-model-type") (EVENTSTREAM_STRING (GG_STR "t"));
   mkHeader (GG_STR ":content-type") (EVENTSTREAM_STRING (GG_STR "application/json"))].

Definition example_payload : bytes := GG_STR "{" ++ [34] ++ GG_STR "a" ++ [34] ++ GG_STR ":1}".
Definition example_members : list (bytes * jvalue) := [(GG_STR "a", JI64 1)].

Definition example_ch : EventStreamCommonHeaders := mkCommon 1 0 0.

Lemma example_incoming extra c : extra = [] \/ extra = event_extra ->
  incoming (fun _ => (0, false)) 3 (message_headers extra) example_payload [] example_ch example_members
    (next_on (packet (message_headers extra) example_payload ++ []) c).
Proof.
  intros He. split.
  - exists 1%nat. split; [done|]. cbn. lia.
  - destruct He as [-> | ->]; by apply (bool_decide_eq_true _); vm_compute.
  - by apply (bool_decide_eq_true _); vm_compute.
  - destruct He as [-> | ->]; by vm_compute.
  - by destruct He as [-> | ->].
  - done.
  - eexists. by vm_compute.
Qed.

Definition example_call : waiting :=
  mkWaiting (mkResponseCtx false GG_ERR_TIMEOUT 42 NULL NULL NULL 11 12) 0.

Lemma response_delivered_witness :
  let c := next_on (packet (message_headers []) example_payload ++ []) (awaiting 42 NULL) in
  exists w c', dispatch_incoming_packet 3 c = (Ok tt, c') /\
    sr_rel (r := gg_socket_reader os retries 3) w [] /\ responded w example_members example_ch 5000 example_call c c'.
Proof.
  intros c. refine (response_delivered (env := reading_env) (fun _ => (0, false)) receiving_room 3 (message_headers [])
    example_payload [] example_ch example_members 5000 example_call c _ _ _ _ _ _).
  - apply example_incoming. by left.
  - exact (next_on_ok _ _ (proj1 awaiting_ok)).
  - apply reading_room.
  - by vm_compute.
  - by vm_compute.
  - done.
Defined.

(** The client once the subscription was accepted. *)
Definition subscribed_client : client (nat * bytes) := (handle_packet example_ch (mkMessage (mkIter 0 []) []) (awaiting NULL 43)).2.

Lemma subscribed_ok : client_ok subscribed_client.
Proof.
  unfold subscribed_client. destruct (handle_packet _ _ _) as [o c'] eqn:E. cbn [snd].
  apply (packet_refines (awaiting NULL 43) example_ch (mkMessage (mkIter 0 []) []) o c'); [exact (proj2 awaiting_ok)|done|exact E|].
  intros ->. apply (f_equal (fun r => returned r.1)) in E. revert E. by vm_compute.
Qed.

Lemma event_delivered_witness :
  let c := next_on (packet (message_headers event_extra) example_payload ++ []) subscribed_client in
  exists w i h o c1 c', dispatch_incoming_packet 3 c = (Ok tt, c') /\
    sr_rel (r := gg_socket_reader os retries 3) w [] /\
    get_stream_index_from_id (streams c) (stream_id example_ch) = Some i /\ validate_handle (streams c) h = Ok i /\
    delivered w example_members (sub_fn 43 11 12 h (GG_STR "t")) c o c1 /\ event_left example_ch o c1 c'.
Proof.
  intros c. refine (event_delivered (env := reading_env) (fun _ => (0, false)) receiving_room 3 (message_headers event_extra)
    example_payload [] example_ch example_members (GG_STR "t") 43 11 12 c _ _ _ _ _).
  - apply example_incoming. by right.
  - exact (next_on_ok _ _ subscribed_ok).
  - apply reading_room.
  - by vm_compute.
  - by vm_compute.
Defined.
