(* ===== verification/IpcCalls.v ===== *)
(** The IPC operations ([src/ipc/client/]): each builds the parameters of a
    call in memory, makes the call, and handles its response.

    A call is made through [subscribe], which is [ggipc_subscribe] of
    [Client.v]. String literals, local arrays and the static buffer lie at
    addresses that are parameters, as do the addresses of the handlers. *)

From S2P Require Import Prelude Memory Double Buffer Io EsDecode EsRpc Object Map Visit Arena Vector Base64 File Streams Client Util.

(** ** Handlers of error responses *)

Inductive ipc_handler :=
  | UPDATE_STATE_ERROR | UPDATE_CONFIG_ERROR | RESTART_COMPONENT_ERROR | RESTART_COMPONENT_RESPONSE
  | PUBLISH_TO_TOPIC_ERROR | PUBLISH_TO_IOT_CORE_ERROR
  | GET_CONFIG_ERROR | COPY_CONFIG_OBJ | COPY_CONFIG_BUF
  | SUBSCRIBE_TO_TOPIC_ERROR | SUBSCRIBE_TO_TOPIC_RESPONSE
  | SUBSCRIBE_TO_IOT_CORE_ERROR | SUBSCRIBE_TO_IOT_CORE_RESPONSE
  | SUBSCRIBE_TO_CONFIGURATION_UPDATE_ERROR | SUBSCRIBE_TO_CONFIGURATION_UPDATE_RESPONSE.

#[export] Instance ipc_handler_eq_dec : EqDecision ipc_handler.
Proof. solve_decision. Defined.

(** One [error_handler] per file; they log the message and choose the error. *)
Definition update_state_error_handler (error_code message : bytes) : GgError := GG_ERR_FAILURE.
Definition update_config_error_handler (error_code message : bytes) : GgError := GG_ERR_FAILURE.
Definition restart_component_error_handler (error_code message : bytes) : GgError := GG_ERR_FAILURE.

Definition publish_to_topic_error_handler (error_code message : bytes) : GgError :=
  if gg_buffer_eq error_code (GG_STR "UnauthorizedError") then GG_ERR_UNSUPPORTED else GG_ERR_FAILURE.

Definition publish_to_iot_core_error_handler (error_code message : bytes) : GgError :=
  if gg_buffer_eq error_code (GG_STR "UnauthorizedError") then GG_ERR_UNSUPPORTED else GG_ERR_FAILURE.

Definition get_config_error_handler (error_code message : bytes) : GgError :=
  if gg_buffer_eq error_code (GG_STR "ResourceNotFoundError") then GG_ERR_NOENTRY else GG_ERR_FAILURE.

Definition subscribe_to_topic_error_handler (error_code message : bytes) : GgError :=
  if gg_buffer_eq error_code (GG_STR "UnauthorizedError") then GG_ERR_UNSUPPORTED else GG_ERR_FAILURE.

Definition subscribe_to_iot_core_error_handler (error_code message : bytes) : GgError :=
  if gg_buffer_eq error_code (GG_STR "UnauthorizedError") then GG_ERR_UNSUPPORTED else GG_ERR_FAILURE.

Definition subscribe_to_configuration_update_error_handler (error_code message : bytes) : GgError :=
  if gg_buffer_eq error_code (GG_STR "ServiceError") then GG_ERR_INVALID
  else if gg_buffer_eq error_code (GG_STR "ResourceNotFoundError") then GG_ERR_NOENTRY
  else GG_ERR_FAILURE.

(** ** Handlers of responses

    The maps are in memory; the pointers that a schema fills are numbered. *)

Definition map_of (m : mem) (obj : Z) : option GgMap := o ← read_obj m obj; gg_obj_into_map o.
Definition buf_of (m : mem) (obj : Z) : option BufPtr := o ← read_obj m obj; gg_obj_into_buf o.

(** The error of a validation, replaced by [e]; the variables otherwise. *)
Definition validated (m : mem) (map : GgMap) (schema : list GgMapSchemaEntry) (e : GgError)
    : outcome (gmap Z Z) :=
  match gg_map_validate m map schema ∅ with
  | None => Stuck
  | Some (ret, vars) => if bool_decide (ret = GG_ERR_OK) then Ok vars else Fail e
  end.

Definition restart_component_response_handler (m : mem) (response : GgMap) : outcome unit :=
  vars ← validated m response [mkEntry (GG_STR "restartStatus") GG_REQUIRED GG_TYPE_BUF 1] GG_ERR_FAILURE;
  restart_status_obj ← get (vars !! 1);
  restart_status ← get (buf_at m restart_status_obj);
  if gg_buffer_eq restart_status (GG_STR "FAILED") then Fail GG_ERR_FAILURE else Ok tt.

(** [*value]; [final_key] is [None] for a null pointer. *)
Definition get_resp_value (m : mem) (resp : GgMap) (final_key : option bytes) : outcome Z :=
  vars ← validated m resp [mkEntry (GG_STR "value") GG_REQUIRED GG_TYPE_MAP 1] GG_ERR_INVALID;
  value ← get (vars !! 1);
  map ← get (map_of m value);
  match final_key with
  | Some final_key =>
      if negb (map_len map =? 1) then Ok value else
      kv ← get (read_kv m (pairs map));
      eq ← get (gg_buffer_eq_in m final_key (gg_kv_key kv));
      if negb eq then Ok value else
      obj ← get (read_obj m (gg_kv_val (pairs map)));
      type ← get (gg_obj_type obj);
      if negb (bool_decide (type = GG_TYPE_MAP)) then Ok (gg_kv_val (pairs map)) else Ok value
  | None => Ok value
  end.

(** [CopyObjectCtx] and [CopyBufferCtx] without the final key: the
    destination, null or the address of an object or of a buffer. *)
Definition copy_config_obj (m : mem) (dst : Z) (alloc : option GgArena) (final_key : option bytes) (result : GgMap)
    : outcome unit * mem * option GgArena :=
  match get_resp_value m result final_key with
  | Stuck => (Stuck, m, alloc)
  | Fail _ => (Fail GG_ERR_INVALID, m, alloc)
  | Ok value =>
      if dst =? NULL then (Ok tt, m, alloc) else
      match gg_arena_claim_obj m value alloc with
      | None => (Stuck, m, alloc)
      | Some (ret, (m, alloc)) =>
          if negb (bool_decide (ret = GG_ERR_OK)) then (Fail ret, m, alloc) else
          match o ← read_obj m value; store m dst o with
          | None => (Stuck, m, alloc)
          | Some m => (Ok tt, m, alloc)
          end
      end
  end.

(** The buffer [*value] is passed and returned, [None] for a null pointer. *)
Definition copy_config_buf (m : mem) (dst : option BufPtr) (final_key : option bytes) (result : GgMap)
    : outcome (option BufPtr) * mem :=
  match
    match get_resp_value m result final_key with
    | Stuck => Stuck
    | Fail _ => Fail GG_ERR_INVALID
    | Ok value =>
        obj ← get (read_obj m value);
        type ← get (gg_obj_type obj);
        if negb (bool_decide (type = GG_TYPE_BUF)) then Fail GG_ERR_FAILURE else Ok obj
    end
  with
  | Stuck => (Stuck, m)
  | Fail e => (Fail e, m)
  | Ok obj =>
      match dst with
      | None => (Ok None, m)
      | Some value =>
          match value_buf ← gg_obj_into_buf obj; gg_arena_claim_buf m value_buf (Some (gg_arena_init value)) with
          | None => (Stuck, m)
          | Some (ret, m, value_buf, _) =>
              (if bool_decide (ret = GG_ERR_OK) then Ok (Some value_buf) else Fail ret, m)
          end
      end
  end.

(** *** Events of subscriptions *)

(** Up to the payload: whether the message is JSON, the topic, and the address
    of the message. *)
Definition subscribe_to_topic_resp (m : mem) (service_model_type : bytes) (data : GgMap)
    : outcome (bool * BufPtr * Z) :=
  if negb (gg_buffer_eq service_model_type (GG_STR "aws.greengrass#SubscriptionResponseMessage"))
  then Fail GG_ERR_INVALID else
  vars ← validated m data
    [mkEntry (GG_STR "jsonMessage") GG_OPTIONAL GG_TYPE_MAP 1;
     mkEntry (GG_STR "binaryMessage") GG_OPTIONAL GG_TYPE_MAP 2] GG_ERR_INVALID;
  json_message_obj ← get (vars !! 1);
  binary_message_obj ← get (vars !! 2);
  if Bool.eqb (json_message_obj =? NULL) (binary_message_obj =? NULL) then Fail GG_ERR_INVALID else
  let is_json := negb (json_message_obj =? NULL) in
  map ← get (map_of m (if is_json then json_message_obj else binary_message_obj));
  vars ← validated m map
    [mkEntry (GG_STR "message") GG_REQUIRED (if is_json then GG_TYPE_MAP else GG_TYPE_BUF) 1;
     mkEntry (GG_STR "context") GG_REQUIRED GG_TYPE_MAP 2] GG_ERR_INVALID;
  message_obj ← get (vars !! 1);
  context_obj ← get (vars !! 2);
  context ← get (map_of m context_obj);
  vars ← validated m context [mkEntry (GG_STR "topic") GG_REQUIRED GG_TYPE_BUF 1] GG_ERR_INVALID;
  topic_obj ← get (vars !! 1);
  topic ← get (buf_of m topic_obj);
  Ok (is_json, topic, message_obj).

(** The topic and the payload, which is still encoded. *)
Definition subscribe_to_iot_core_resp (m : mem) (service_model_type : bytes) (data : GgMap)
    : outcome (BufPtr * BufPtr) :=
  if negb (gg_buffer_eq service_model_type (GG_STR "aws.greengrass#IoTCoreMessage"))
  then Fail GG_ERR_INVALID else
  vars ← validated m data [mkEntry (GG_STR "message") GG_REQUIRED GG_TYPE_MAP 1] GG_ERR_INVALID;
  message_obj ← get (vars !! 1);
  message ← get (map_of m message_obj);
  vars ← validated m message
    [mkEntry (GG_STR "topicName") GG_REQUIRED GG_TYPE_BUF 1;
     mkEntry (GG_STR "payload") GG_REQUIRED GG_TYPE_BUF 2] GG_ERR_INVALID;
  topic_obj ← get (vars !! 1);
  payload_obj ← get (vars !! 2);
  topic ← get (buf_of m topic_obj);
  payload ← get (buf_of m payload_obj);
  Ok (topic, payload).

Definition subscribe_to_configuration_update_resp (m : mem) (service_model_type : bytes) (data : GgMap)
    : outcome (BufPtr * GgList) :=
  if negb (gg_buffer_eq service_model_type (GG_STR "aws.greengrass#ConfigurationUpdateEvents"))
  then Fail GG_ERR_INVALID else
  vars ← validated m data
    [mkEntry (GG_STR "configurationUpdateEvent") GG_REQUIRED GG_TYPE_MAP 1] GG_ERR_INVALID;
  config_update_event_obj ← get (vars !! 1);
  event ← get (map_of m config_update_event_obj);
  vars ← validated m event
    [mkEntry (GG_STR "componentName") GG_REQUIRED GG_TYPE_BUF 1;
     mkEntry (GG_STR "keyPath") GG_REQUIRED GG_TYPE_LIST 2] GG_ERR_INVALID;
  component_name_obj ← get (vars !! 1);
  key_path_obj ← get (vars !! 2);
  component_name ← get (buf_of m component_name_obj);
  key_path ← get (o ← read_obj m key_path_obj; gg_obj_into_list o);
  ret ← get (gg_list_type_check m key_path GG_TYPE_BUF);
  if negb (bool_decide (ret = GG_ERR_OK)) then Fail GG_ERR_INVALID else
  Ok (component_name, key_path).

(** A call of a function that returns nothing: it has no error. *)
Definition void {S} (f : sysm S unit) : sysm S unit := _ ← attempt f; mret tt.

Section handlers.
Context {W : Type}.
(** The application's callbacks at an address: context, topic or component,
    payload or key path, handle. They return nothing: an error of theirs is not
    looked at. *)
Context (topic_callback : Z -> Z -> BufPtr -> GgObject -> Z -> sysm (client W) unit).
Context (iot_core_callback : Z -> Z -> BufPtr -> BufPtr -> Z -> sysm (client W) unit).
Context (configuration_update_callback : Z -> Z -> BufPtr -> GgList -> Z -> sysm (client W) unit).

(** Decodes a payload in place. *)
Definition decode_in_place (payload : BufPtr) : sysm (client W) BufPtr :=
  on_mem (fun w m =>
    '(ok, m, payload) ← gg_base64_decode_in_place m payload;
    Some (if ok : bool then Ok payload else Fail GG_ERR_INVALID, w, m)).

(** The subscription's context is the callback. *)
Definition subscribe_to_topic_resp_handler (ctx aux_ctx handle : Z) (service_model_type : bytes) (data : GgMap)
    : sysm (client W) unit :=
  m ← gets cmem;
  '(is_json, topic, message_obj) ← lift_out (subscribe_to_topic_resp m service_model_type data);
  payload ← need (read_obj m message_obj);
  payload ← (if is_json : bool then mret payload else
    payload_buf ← need (gg_obj_into_buf payload);
    payload_buf ← decode_in_place payload_buf;
    need (gg_obj_buf payload_buf));
  void (topic_callback ctx aux_ctx topic payload handle).

Definition subscribe_to_iot_core_resp_handler (ctx aux_ctx handle : Z) (service_model_type : bytes) (data : GgMap)
    : sysm (client W) unit :=
  m ← gets cmem;
  '(topic, payload) ← lift_out (subscribe_to_iot_core_resp m service_model_type data);
  payload ← decode_in_place payload;
  void (iot_core_callback ctx aux_ctx topic payload handle).

Definition subscribe_to_configuration_update_resp_handler (ctx aux_ctx handle : Z) (service_model_type : bytes)
    (data : GgMap) : sysm (client W) unit :=
  m ← gets cmem;
  '(component_name, key_path) ← lift_out (subscribe_to_configuration_update_resp m service_model_type data);
  void (configuration_update_callback ctx aux_ctx component_name key_path handle).
End handlers.

(** ** Buffers in memory

    A [GgBuffer] is a structure of a pointer and a length. *)

Definition sizeof_GgBuffer : Z := 16.
Definition read_ptr (m : mem) (a : Z) : option Z := bs ← loadz m a 8; Some (le_val bs).
Definition read_buffer (m : mem) (a : Z) : option BufPtr :=
  data ← read_ptr m a; len ← read_ptr m (a + 8); Some (mkBuf data len).
Definition buffer_bytes (b : BufPtr) : bytes := le_bytes 8 (data b) ++ le_bytes 8 (len b).

(** ** Operations *)

Section operations.
Context {W : Type}.
Abbreviation client := (client W).
(** [ggipc_subscribe], where the addresses of handlers come from, and where
    string literals lie. *)
Context (subscribe : request -> sysm client unit) (addr : ipc_handler -> Z) (lit : bytes -> Z).
(** Local arrays of pairs and objects, a byte, the handler's context, and the
    static buffer for encoding. *)
Context (args_mem inner_mem outer_mem path_mem qos_mem ctx_mem ipc_b64_encode_mem : Z).

Definition LIT (s : bytes) : BufPtr := mkBuf (lit s) (zlen s).

(** [ggipc_call] *)
Definition call (operation service_model_type : bytes) (params : GgMap)
    (result_callback error_callback response_ctx : Z) : sysm client unit :=
  subscribe (mkRequest operation service_model_type params result_callback error_callback response_ctx
    NULL NULL NULL NULL).

(** [GG_MAP(...)] in a local array. *)
Definition local_map (a : Z) (kvs : list GgKV) : sysm client GgMap :=
  _ ← store_local a (concat kvs);
  mret (mkMap a (zlen kvs)).

(** [gg_kv(GG_STR(key), val)] *)
Definition pair (key : bytes) (val : option GgObject) : sysm client GgKV :=
  val ← need val; need (gg_kv (LIT key) val).

(** [GG_COMPONENT_STATE_RUNNING] is 0 and [GG_COMPONENT_STATE_ERRORED] 1. *)
Definition ggipc_update_state (state : Z) : sysm client unit :=
  match (if state =? 0 then Some (GG_STR "RUNNING")
         else if state =? 1 then Some (GG_STR "ERRORED") else None) with
  | None => fail GG_ERR_INVALID
  | Some state_str =>
      kv ← pair (GG_STR "state") (gg_obj_buf (LIT state_str));
      args ← local_map args_mem [kv];
      call (GG_STR "aws.greengrass#UpdateState") (GG_STR "aws.greengrass#UpdateStateRequest")
        args NULL (addr UPDATE_STATE_ERROR) NULL
  end.

Definition ggipc_restart_component (component_name : BufPtr) : sysm client unit :=
  kv ← pair (GG_STR "componentName") (gg_obj_buf component_name);
  args ← local_map args_mem [kv];
  call (GG_STR "aws.greengrass#RestartComponent") (GG_STR "aws.greengrass#RestartComponentRequest")
    args (addr RESTART_COMPONENT_RESPONSE) (addr RESTART_COMPONENT_ERROR) NULL.

(** *** Publishing *)

Definition publish_to_topic_common (topic : BufPtr) (publish_message : GgMap) : sysm client unit :=
  kv1 ← pair (GG_STR "topic") (gg_obj_buf topic);
  kv2 ← pair (GG_STR "publishMessage") (gg_obj_map publish_message);
  args ← local_map args_mem [kv1; kv2];
  call (GG_STR "aws.greengrass#PublishToTopic") (GG_STR "aws.greengrass#PublishToTopicRequest")
    args NULL (addr PUBLISH_TO_TOPIC_ERROR) NULL.

Definition ggipc_publish_to_topic_json (topic : BufPtr) (payload : GgMap) : sysm client unit :=
  kv ← pair (GG_STR "message") (gg_obj_map payload);
  json_message ← local_map inner_mem [kv];
  kv ← pair (GG_STR "jsonMessage") (gg_obj_map json_message);
  publish_message ← local_map outer_mem [kv];
  publish_to_topic_common topic publish_message.

Definition ggipc_publish_to_topic_binary_b64 (topic b64_payload : BufPtr) : sysm client unit :=
  kv ← pair (GG_STR "message") (gg_obj_buf b64_payload);
  binary_message ← local_map inner_mem [kv];
  kv ← pair (GG_STR "binaryMessage") (gg_obj_map binary_message);
  publish_message ← local_map outer_mem [kv];
  publish_to_topic_common topic publish_message.

Definition ggipc_publish_to_iot_core_b64 (topic_name b64_payload : BufPtr) (qos : Z) : sysm client unit :=
  _ ← store_local qos_mem [uwrap 8 (qos + 48)];
  kv1 ← pair (GG_STR "topicName") (gg_obj_buf topic_name);
  kv2 ← pair (GG_STR "payload") (gg_obj_buf b64_payload);
  kv3 ← pair (GG_STR "qos") (gg_obj_buf (mkBuf qos_mem 1));
  args ← local_map args_mem [kv1; kv2; kv3];
  call (GG_STR "aws.greengrass#PublishToIoTCore") (GG_STR "aws.greengrass#PublishToIoTCoreRequest")
    args NULL (addr PUBLISH_TO_IOT_CORE_ERROR) NULL.

(** The payload encoded in the static buffer. *)
Definition encode_payload (payload : BufPtr) : sysm client BufPtr :=
  on_mem (fun w m =>
    bs ← buf_bytes m payload;
    '(ret, m, _, b64_payload) ←
      gg_base64_encode m bs (Some (gg_arena_init (mkBuf ipc_b64_encode_mem GG_IPC_MAX_MSG_LEN)));
    if negb (bool_decide (ret = GG_ERR_OK)) then Some (Fail ret, w, m)
    else b64_payload ← b64_payload; Some (Ok b64_payload, w, m)).

Definition ggipc_publish_to_topic_binary (topic payload : BufPtr) : sysm client unit :=
  b64_payload ← encode_payload payload;
  ggipc_publish_to_topic_binary_b64 topic b64_payload.

Definition ggipc_publish_to_iot_core (topic_name payload : BufPtr) (qos : Z) : sysm client unit :=
  b64_payload ← encode_payload payload;
  ggipc_publish_to_iot_core_b64 topic_name b64_payload qos.

(** *** Key paths *)

(** The loop that pushes the keys of a path on a vector in [path_mem]. *)
Fixpoint push_path (ret : GgError) (path_vec : GgObjVec) (key_path : list BufPtr) : sysm client (GgError * GgObjVec) :=
  match key_path with
  | [] => mret (ret, path_vec)
  | key :: key_path =>
      obj ← need (gg_obj_buf key);
      '(ret, path_vec) ← on_mem (fun w m =>
        '(ret, m, path_vec) ← gg_obj_vec_chain_push ret m path_vec obj; Some (Ok (ret, path_vec), w, m));
      push_path ret path_vec key_path
  end.

(** The path as a list object. *)
Definition path_list (key_path : list BufPtr) : sysm client (option GgObject) :=
  '(ret, path_vec) ← push_path GG_ERR_OK (mkObjVec (mkList path_mem 0) (GG_MAX_OBJECT_DEPTH - 1)) key_path;
  if negb (bool_decide (ret = GG_ERR_OK)) then fail GG_ERR_NOMEM
  else mret (gg_obj_list (ov_list path_vec)).

(** [(void) gg_kv_vec_push(&args, kv)] *)
Definition push_arg (args : GgKVVec) (kv : GgKV) : sysm client GgKVVec :=
  on_mem (fun w m => '(_, m, args) ← gg_kv_vec_push m args kv; Some (Ok args, w, m)).

Definition ggipc_get_config_common (key_path : list BufPtr) (component_name : option BufPtr)
    (result_callback result_ctx : Z) : sysm client unit :=
  path ← path_list key_path;
  kv ← pair (GG_STR "keyPath") path;
  args ← push_arg (mkKVVec (mkMap args_mem 0) 2) kv;
  args ← match component_name with
         | None => mret args
         | Some component_name =>
             kv ← pair (GG_STR "componentName") (gg_obj_buf component_name);
             push_arg args kv
         end;
  call (GG_STR "aws.greengrass#GetConfiguration") (GG_STR "aws.greengrass#GetConfigurationRequest")
    (kv_map args) result_callback (addr GET_CONFIG_ERROR) result_ctx.

(** [ctx_mem] is the address of the handler's context, which the environment's
    [result_fn] interprets. *)
Definition ggipc_get_config (key_path : list BufPtr) (component_name : option BufPtr) (value : Z)
    : sysm client unit :=
  _ ← (if negb (value =? NULL) then store_local value GG_OBJ_NULL else mret tt);
  ggipc_get_config_common key_path component_name (addr COPY_CONFIG_OBJ) ctx_mem.

(** [value] is the address of the caller's buffer, which the handler assigns; on
    errors it becomes empty. *)
Definition ggipc_get_config_str (key_path : list BufPtr) (component_name : option BufPtr) (value : Z)
    : sysm client unit :=
  ret ← attempt (ggipc_get_config_common key_path component_name (addr COPY_CONFIG_BUF) ctx_mem);
  match ret with
  | inl e => _ ← (if negb (value =? NULL) then store_local value (buffer_bytes (LIT [])) else mret tt); fail e
  | inr _ => mret tt
  end.

(** [(double) timestamp->tv_sec + ((double) timestamp->tv_nsec * 1e-9)], as the
    bits of a double; the constant is the double next to it. *)
Definition timestamp_double (timestamp : timespec) : Z :=
  bits_of (fadd (of_int (tv_sec timestamp)) (fmul (of_int (tv_nsec timestamp)) (double_of 0x3e112e0be826d695))).

Example timestamp_double_1 : timestamp_double (mkTime 1700000000 123456789) = 0x41d954fc4007e6b7.
Proof. by vm_compute. Qed.

Definition ggipc_update_config (key_path : list BufPtr) (timestamp : option timespec)
    (value_to_merge : GgObject) : sysm client unit :=
  if match timestamp with Some t => (tv_sec t <? 0) || (tv_nsec t <? 0) | None => false end
  then fail GG_ERR_UNSUPPORTED else
  type ← need (gg_obj_type value_to_merge);
  '(key_path, value_to_merge) ←
    (if bool_decide (type = GG_TYPE_MAP) then mret (key_path, value_to_merge) else
     match last key_path with
     | None => fail GG_ERR_INVALID
     | Some final_key =>
         pair_to_merge ← need (gg_kv final_key value_to_merge);
         map ← local_map inner_mem [pair_to_merge];
         value_to_merge ← need (gg_obj_map map);
         mret (removelast key_path, value_to_merge)
     end);
  path ← path_list key_path;
  let timestamp_float := match timestamp with Some t => timestamp_double t | None => 0 end in
  kv1 ← pair (GG_STR "keyPath") path;
  kv2 ← pair (GG_STR "timestamp") (Some (gg_obj_f64 timestamp_float));
  kv3 ← pair (GG_STR "valueToMerge") (Some value_to_merge);
  args ← local_map args_mem [kv1; kv2; kv3];
  call (GG_STR "aws.greengrass#UpdateConfiguration") (GG_STR "aws.greengrass#UpdateConfigurationRequest")
    args NULL (addr UPDATE_CONFIG_ERROR) NULL.

(** *** Subscriptions *)

Definition ggipc_subscribe_to_topic (topic : BufPtr) (callback ctx handle : Z) : sysm client unit :=
  kv ← pair (GG_STR "topic") (gg_obj_buf topic);
  args ← local_map args_mem [kv];
  subscribe (mkRequest (GG_STR "aws.greengrass#SubscribeToTopic") (GG_STR "aws.greengrass#SubscribeToTopicRequest")
    args NULL (addr SUBSCRIBE_TO_TOPIC_ERROR) NULL (addr SUBSCRIBE_TO_TOPIC_RESPONSE) callback ctx handle).

Definition ggipc_subscribe_to_iot_core (topic_filter : BufPtr) (qos callback ctx handle : Z) : sysm client unit :=
  if 2 <? qos then fail GG_ERR_INVALID else
  _ ← store_local qos_mem [uwrap 8 (qos + 48)];
  kv1 ← pair (GG_STR "topicName") (gg_obj_buf topic_filter);
  kv2 ← pair (GG_STR "qos") (gg_obj_buf (mkBuf qos_mem 1));
  args ← local_map args_mem [kv1; kv2];
  subscribe (mkRequest (GG_STR "aws.greengrass#SubscribeToIoTCore")
    (GG_STR "aws.greengrass#SubscribeToIoTCoreRequest")
    args NULL (addr SUBSCRIBE_TO_IOT_CORE_ERROR) NULL (addr SUBSCRIBE_TO_IOT_CORE_RESPONSE) callback ctx handle).

Definition ggipc_subscribe_to_configuration_update (component_name : option BufPtr) (key_path : list BufPtr)
    (callback ctx handle : Z) : sysm client unit :=
  let args := mkKVVec (mkMap args_mem 0) 2 in
  args ← match component_name with
         | None => mret args
         | Some component_name =>
             kv ← pair (GG_STR "componentName") (gg_obj_buf component_name);
             push_arg args kv
         end;
  path ← path_list key_path;
  kv ← pair (GG_STR "keyPath") path;
  args ← push_arg args kv;
  subscribe (mkRequest (GG_STR "aws.greengrass#SubscribeToConfigurationUpdate")
    (GG_STR "aws.greengrass#SubscribeToConfigurationUpdateRequest")
    (kv_map args) NULL (addr SUBSCRIBE_TO_CONFIGURATION_UPDATE_ERROR) NULL
    (addr SUBSCRIBE_TO_CONFIGURATION_UPDATE_RESPONSE) callback ctx handle).
End operations.

(** ** Key paths *)

(** The object of a key. *)
Definition key_obj (key : BufPtr) : GgObject := default [] (gg_obj_buf key).

Definition key_ok (key : BufPtr) : Prop := 0 <= len key <= UINT16_MAX.

Lemma key_obj_buf key : key_ok key -> gg_obj_buf key = Some (key_obj key) /\ zlen (key_obj key) = sizeof_GgObject.
Proof.
  intros [_ H]. unfold key_obj, gg_obj_buf, ptr_len. rewrite (proj2 (Z.leb_le _ _)) by done.
  cbn [gg_asserts mbind option_bind default]. split; [done|]. unfold tagged, patch.
  unfold zlen, ztake, zdrop. rewrite !length_app, ?length_take, ?length_drop, ?length_app.
  pose proof (zlen_le_bytes 8 (data key)) as H8. pose proof (zlen_le_bytes 2 (uwrap 16 (len key))) as H2.
  unfold zlen in H8, H2. unfold sizeof_GgObject. simpl. lia.
Qed.

Section paths.
Context {W : Type} (path_mem : Z).
Implicit Types c : client W.

Lemma with_same_mem c : with_mem (sys c) (cmem c) c = c.
Proof. by destruct c. Qed.

Lemma push_path_cons c ret vec key keys : key_ok key ->
  push_path ret vec (key :: keys) c =
    match gg_obj_vec_chain_push ret (cmem c) vec (key_obj key) with
    | Some (ret, m, vec) => push_path ret vec keys (with_mem (sys c) m c)
    | None => (Stuck, c)
    end.
Proof.
  intros [Ho _]%key_obj_buf. cbn [push_path]. unfold mbind, sysm_bind, need, lift_out, on_mem.
  rewrite Ho. cbn [get option_bind]. by destruct (gg_obj_vec_chain_push _ _ _ _) as [[[]]|].
Qed.

(** After an error, nothing is pushed. *)
Lemma push_path_err c e vec keys :
  e <> GG_ERR_OK -> Forall key_ok keys -> push_path e vec keys c = (Ok (e, vec), c).
Proof.
  intros He Hk. induction Hk as [|key keys Hkey Hk IH]; [done|]. rewrite push_path_cons by done.
  unfold gg_obj_vec_chain_push. rewrite bool_decide_false by done. by rewrite with_same_mem.
Qed.

Lemma push_path_ok c n cap keys :
  0 <= n <= cap -> mapped (cmem c) path_mem (sizeof_GgObject * cap) -> Forall key_ok keys ->
  if n + zlen keys <=? cap then
    exists m, store (cmem c) (path_mem + sizeof_GgObject * n) (concat (key_obj <$> keys)) = Some m /\
      push_path GG_ERR_OK (mkObjVec (mkList path_mem n) cap) keys c =
        (Ok (GG_ERR_OK, mkObjVec (mkList path_mem (n + zlen keys)) cap), with_mem (sys c) m c)
  else
    exists vec m, push_path GG_ERR_OK (mkObjVec (mkList path_mem n) cap) keys c =
        (Ok (GG_ERR_NOMEM, vec), with_mem (sys c) m c) /\
      changes (zrange path_mem (path_mem + sizeof_GgObject * cap)) (cmem c) m.
Proof.
  intros Hn Hm Hk. revert c n Hn Hm. induction Hk as [|key keys Hkey Hk IH]; intros c n Hn Hm.
  - rewrite (proj2 (Z.leb_le _ _)) by (rewrite zlen_nil; lia). exists (cmem c).
    split; [apply store_nil|]. rewrite zlen_nil, Z.add_0_r. by rewrite with_same_mem.
  - destruct (key_obj_buf _ Hkey) as [_ Hl]. rewrite push_path_cons by done.
    unfold gg_obj_vec_chain_push, gg_obj_vec_push.
    rewrite bool_decide_true by done. cbn [ov_list ov_capacity list_len items].
    rewrite zlen_cons. pose proof (zlen_nonneg keys) as Hz. destruct (cap <=? n) eqn:Ecap; zify_bool.
    + rewrite (proj2 (Z.leb_gt _ _)) by lia. rewrite with_same_mem.
      exists (mkObjVec (mkList path_mem n) cap), (cmem c). rewrite push_path_err by done.
      split; [by rewrite with_same_mem|apply changes_refl].
    + destruct (store_Some (cmem c) (path_mem + sizeof_GgObject * n) (key_obj key)) as [m1 Hs1].
      { intros x Hx. rewrite Hl in Hx. apply Hm. unfold sizeof_GgObject in *. lia. }
      rewrite Hs1. cbn [mbind option_bind].
      specialize (IH (with_mem (sys c) m1 c) (n + 1) ltac:(lia)). cbn [cmem with_mem sys] in IH.
      replace (n + 1 + zlen keys) with (n + (1 + zlen keys)) in IH by lia.
      assert (mapped m1 path_mem (sizeof_GgObject * cap)) as Hm1 by by apply (store_mapped _ _ _ _ _ _ Hs1).
      specialize (IH Hm1). destruct (n + (1 + zlen keys) <=? cap) eqn:E.
      * destruct IH as (m & Hs & Hp). exists m. split; [|exact Hp]. cbn [fmap list_fmap concat].
        rewrite store_app, Hs1. cbn [mbind option_bind]. rewrite <- Hs. f_equal. rewrite Hl. lia.
      * destruct IH as (vec & m & Hp & Hc). exists vec, m. split; [done|].
        apply (changes_trans _ _ m1); [|done]. eapply changes_sub; [by eapply store_changes|].
        intros x. rewrite Hl. unfold zrange, sizeof_GgObject in *. lia.
Qed.

Lemma zlen_key_objs keys : Forall key_ok keys -> zlen (concat (key_obj <$> keys)) = sizeof_GgObject * zlen keys.
Proof.
  induction 1 as [|key keys Hkey _ IH]; [done|]. cbn [fmap list_fmap concat].
  rewrite zlen_app, IH, (proj2 (key_obj_buf key Hkey)), zlen_cons. lia.
Qed.

(** The key path of a configuration request becomes the list of its keys,
    in order, in the local array, when it has at most 14 of them; a longer path
    is refused with [GG_ERR_NOMEM] and nothing is written outside of the array. *)
Theorem path_list_exact c keys :
  mapped (cmem c) path_mem (sizeof_GgObject * 14) -> Forall key_ok keys ->
  exists m, (path_list path_mem keys c).2 = with_mem (sys c) m c /\
    changes (zrange path_mem (path_mem + sizeof_GgObject * 14)) (cmem c) m /\
    if zlen keys <=? 14 then
      (path_list path_mem keys c).1 = Ok (gg_obj_list (mkList path_mem (zlen keys))) /\
      store (cmem c) path_mem (concat (key_obj <$> keys)) = Some m
    else (path_list path_mem keys c).1 = Fail GG_ERR_NOMEM.
Proof.
  intros Hm Hk. pose proof (push_path_ok c 0 14 keys ltac:(lia) Hm Hk) as Hp. rewrite Z.add_0_l in Hp.
  unfold path_list. change (GG_MAX_OBJECT_DEPTH - 1) with 14. unfold mbind, sysm_bind.
  pose proof (zlen_key_objs keys Hk) as Hz. case_if; zify_bool.
  - destruct Hp as (m & Hs & Hp). exists m. rewrite Hp. rewrite bool_decide_true by done.
    replace (path_mem + sizeof_GgObject * 0) with path_mem in Hs by lia. split_and!; [done| |done|done].
    eapply changes_sub; [by eapply store_changes|]. intros x. unfold zrange, sizeof_GgObject in *. lia.
  - destruct Hp as (vec & m & Hp & Hc). exists m. rewrite Hp. by rewrite bool_decide_false.
Qed.
End paths.

Lemma path_list_exact_witness :
  let c := mkClient 3 4 77 1 init_streams ∅ (zeroed 1000 154) tt in
  exists m, (path_list 1000 [mkBuf 10 3; mkBuf 20 4] c).2 = with_mem (sys c) m c /\
    store (cmem c) 1000 (concat (key_obj <$> [mkBuf 10 3; mkBuf 20 4])) = Some m.
Proof.
  intros c. destruct (path_list_exact 1000 c [mkBuf 10 3; mkBuf 20 4]) as (m & H1 & _ & H2).
  - apply zeroed_mapped.
  - repeat constructor; done.
  - exists m. split; [exact H1|]. exact (proj2 H2).
Defined.

(** ** Configuration values *)

(** The value of a configuration response: a response whose [value] is not
    a map is invalid; a map with a single entry, which has the last key of the
    request and is not itself a map, stands for its entry's value; any other
    map is the value itself. *)
Theorem get_resp_value_exact m resp kvs final_key :
  map_at m resp kvs ->
  match lookup_first (GG_STR "value") kvs with
  | None => get_resp_value m resp final_key = Fail GG_ERR_INVALID
  | Some e =>
      if decide (etype e = GG_TYPE_MAP) then
        forall map inner, map_of m (eval e) = Some map -> map_at m map inner ->
          get_resp_value m resp final_key = Ok
            match inner, final_key with
            | [i], Some key =>
                if bool_decide (ekey i = key /\ etype i <> GG_TYPE_MAP) then eval i else eval e
            | _, _ => eval e
            end
      else get_resp_value m resp final_key = Fail GG_ERR_INVALID
  end.
Proof.
  intros Hm. unfold get_resp_value, validated. rewrite (gg_map_validate_spec _ _ _ _ _ Hm).
  cbn [validate_spec check_entry]. unfold check_entry. cbn [se_key se_required se_type se_value].
  destruct (lookup_first (GG_STR "value") kvs) as [e|]; [|done].
  destruct (decide (etype e = GG_TYPE_MAP)) as [He|He].
  - rewrite decide_True by (by right). intros map inner Hmap (Hl & Hlen & Hent & _).
    cbn [validate_spec]. rewrite bool_decide_true by done. cbn [mbind outcome_bind].
    unfold set_var. cbn [Z.eqb NULL]. rewrite lookup_insert_eq. cbn [get mbind outcome_bind].
    rewrite Hmap. cbn [get mbind outcome_bind]. destruct final_key as [key|]; [|by destruct inner as [|? []]].
    destruct inner as [|i [|j inner]].
    + change (zlen []) with 0 in Hlen. rewrite <- Hlen. done.
    + change (zlen [i]) with 1 in Hlen. rewrite <- Hlen. cbn [Z.eqb negb].
      destruct Hent as ((kv & Hkv & Hk & Hkl) & Hv & (obj & Ho & Hty) & _).
      rewrite Hkv. cbn [get mbind outcome_bind]. erewrite gg_buffer_eq_in_spec by done.
      cbn [get mbind outcome_bind]. rewrite <- Hv.
      destruct (decide (ekey i = key)) as [Hkey|Hkey].
      * rewrite (bool_decide_true (ekey i = key)) by done. cbn [negb]. rewrite Ho.
        cbn [get mbind outcome_bind]. rewrite Hty. cbn [get mbind outcome_bind].
        destruct (decide (etype i = GG_TYPE_MAP)) as [Ht|Ht].
        -- rewrite (bool_decide_true (etype i = GG_TYPE_MAP)), bool_decide_false by tauto. done.
        -- rewrite (bool_decide_false (etype i = GG_TYPE_MAP)), bool_decide_true by tauto. done.
      * rewrite (bool_decide_false (ekey i = key)), bool_decide_false by tauto. done.
    + rewrite !zlen_cons in Hlen. pose proof (zlen_nonneg inner).
      rewrite (proj2 (Z.eqb_neq _ _)) by lia. done.
  - rewrite decide_False by (intros [?|?]; [done|by apply He]). cbn [validate_spec].
    by rewrite bool_decide_false.
Qed.

(** The response [{"value": {"k": true}}] to a request for [k]. *)
Definition config_mem : mem :=
  put (put (put ∅ 10 (GG_STR "valuek"))
    200 (default [] (gg_kv (mkBuf 15 1) (gg_obj_bool true))))
    100 (default [] (o ← gg_obj_map (mkMap 200 1); gg_kv (mkBuf 10 5) o)).

Lemma get_resp_value_exact_witness :
  get_resp_value config_mem (mkMap 100 1) (Some (GG_STR "k")) = Ok 210.
Proof.
  assert (map_at config_mem (mkMap 100 1) [mkEnt (GG_STR "value") 110 GG_TYPE_MAP]) as Hm.
  { split_and!; try done. simpl. split_and!; [|done| |done].
    - eexists. split; [by vm_compute|]. split; [by vm_compute|]. by vm_compute.
    - eexists. split; by vm_compute. }
  apply (get_resp_value_exact config_mem (mkMap 100 1) [mkEnt (GG_STR "value") 110 GG_TYPE_MAP]
    (Some (GG_STR "k")) Hm (mkMap 200 1) [mkEnt (GG_STR "k") 210 GG_TYPE_BOOLEAN]); [by vm_compute|].
  split_and!; try done. simpl. split_and!; [|done| |done].
  - eexists. split; [by vm_compute|]. split; [by vm_compute|]. by vm_compute.
  - eexists. split; by vm_compute.
Defined.
