(* ===== verification/Events.v ===== *)
(** What the library's handlers of events make of a JSON object: the topic or
    component, and the payload or key path, that the application's callback is
    called with ([src/ipc/client/subscribe_to_*.c]), as functions of the members
    of the object. *)

From S2P Require Import Prelude Memory Buffer EsRpc Object JsonValue Map JsonStored JsonContainers JsonMaps Base64 File Streams Client Wp IpcCalls.

(** ** The members of a JSON object *)

(** The value under a key, of a type. *)
Definition jwant (key : bytes) (ty : GgObjectType) (kvs : list (bytes * jvalue)) : option jvalue :=
  v ← jget key kvs; if decide (jtype v = ty) then Some v else None.

Definition jobj (key : bytes) (kvs : list (bytes * jvalue)) : option (list (bytes * jvalue)) :=
  v ← jwant key GG_TYPE_MAP kvs; match v with JObj kvs => Some kvs | _ => None end.

Definition jbuf (key : bytes) (kvs : list (bytes * jvalue)) : option bytes :=
  v ← jwant key GG_TYPE_BUF kvs; match v with JStr bs => Some bs | _ => None end.

Definition jlist (key : bytes) (kvs : list (bytes * jvalue)) : option (list jvalue) :=
  v ← jwant key GG_TYPE_LIST kvs; match v with JArr vs => Some vs | _ => None end.

(** The strings of a list that has nothing else. *)
Fixpoint jstrings (vs : list jvalue) : option (list bytes) :=
  match vs with
  | [] => Some []
  | JStr bs :: vs => (bs ::.) <$> jstrings vs
  | _ :: _ => None
  end.

(** ** Events *)

(** A message of IoT Core: its topic and its payload in Base64. *)
Definition iot_core_event (service_model_type : bytes) (kvs : list (bytes * jvalue)) : option (bytes * bytes) :=
  if decide (service_model_type = GG_STR "aws.greengrass#IoTCoreMessage") then
    message ← jobj (GG_STR "message") kvs;
    topic ← jbuf (GG_STR "topicName") message;
    payload ← jbuf (GG_STR "payload") message;
    Some (topic, payload)
  else None.

(** An update: the component and the path of the key. *)
Definition configuration_event (service_model_type : bytes) (kvs : list (bytes * jvalue))
    : option (bytes * list bytes) :=
  if decide (service_model_type = GG_STR "aws.greengrass#ConfigurationUpdateEvents") then
    event ← jobj (GG_STR "configurationUpdateEvent") kvs;
    component ← jbuf (GG_STR "componentName") event;
    path ← jlist (GG_STR "keyPath") event;
    path ← jstrings path;
    Some (component, path)
  else None.

(** A local message, either JSON or binary: its topic and its payload, an object
    or a string in Base64. *)
Definition topic_event (service_model_type : bytes) (kvs : list (bytes * jvalue)) : option (bool * bytes * jvalue) :=
  if decide (service_model_type = GG_STR "aws.greengrass#SubscriptionResponseMessage") then
    '(is_json, event) ← match jget (GG_STR "jsonMessage") kvs, jget (GG_STR "binaryMessage") kvs with
      | Some (JObj event), None => Some (true, event)
      | None, Some (JObj event) => Some (false, event)
      | _, _ => None
      end;
    message ← jwant (GG_STR "message") (if is_json : bool then GG_TYPE_MAP else GG_TYPE_BUF) event;
    context ← jobj (GG_STR "context") event;
    topic ← jbuf (GG_STR "topic") context;
    Some (is_json, topic, message)
  else None.

Section events.
Context (R : Z -> Prop) (Rpos : forall x, R x -> 0 < x).
Context (m : mem).

(** ** Validated maps *)

(** An object in memory. *)
Definition stored : Z -> jvalue -> Prop := value_at R m.

Lemma stored_map p kvs : stored p (JObj kvs) -> exists map, map_of m p = Some map /\ json_map_at R m map kvs.
Proof using Type.
  intros (o & Ho & Hr)%value_represents. destruct (represents_map _ _ _ _ Hr) as (map & Hm & Hat). exists map.
  split; [|done]. unfold map_of. by rewrite Ho.
Qed.

Lemma stored_buf p bs : stored p (JStr bs) -> exists b, buf_of m p = Some b /\ string_at R m b bs.
Proof using Type.
  intros (o & Ho & Hr)%value_represents. destruct (represents_str _ _ _ _ Hr) as (b & Hb & Hs). exists b.
  split; [|done]. unfold buf_of. by rewrite Ho.
Qed.

Lemma stored_list p vs : stored p (JArr vs) -> exists l, (o ← read_obj m p; gg_obj_into_list o) = Some l /\
  list_len l = zlen vs /\ elems_at R m vs (items l).
Proof using Type.
  intros (o & Ho & Hr)%value_represents. apply represents_JArr in Hr as (a & Hu & _ & He). apply unpack_type in Hu as [_ Hl].
  exists (mkList a (zlen vs)). rewrite Ho. cbn [mbind option_bind list_len items]. split_and!; [done|done|].
  eapply elems_at_sub; [apply apart_in|exact He].
Qed.

(** Entries that are required, of a type other than null. *)
Definition required (key : bytes) (ty : GgObjectType) (n : Z) : GgMapSchemaEntry := mkEntry key GG_REQUIRED ty n.

Lemma check_required kvs key ty n : ty <> GG_TYPE_NULL ->
  match jwant key ty kvs with
  | Some v => json_check kvs (required key ty n) = inr (Some v)
  | None => exists e, json_check kvs (required key ty n) = inl e
  end.
Proof using Type.
  intros Hty. unfold jwant, json_check, required. cbn [se_key se_required se_type].
  destruct (jget key kvs) as [v|]; cbn [mbind option_bind]; [|by eexists].
  case_decide as Ht.
  - by rewrite decide_True by by right.
  - rewrite decide_False by (by intros [?|?]). by eexists.
Qed.

Lemma validated_json map kvs schema e : json_map_at R m map kvs ->
  bool_decide (NoDup (NULL :: (se_value <$> schema))) = true ->
  match json_schema kvs schema with
  | Some _ => validated m map schema e = Fail e
  | None => exists vars, validated m map schema e = Ok vars /\
      Forall (fun s => exists p, vars !! se_value s = Some p /\ json_found R m kvs s p) schema
  end.
Proof using Rpos.
  intros Hm Hnd. destruct (json_validated R m Rpos map kvs schema Hm Hnd) as (ret & vars & Hv & Hres).
  unfold validated. rewrite Hv. destruct (json_schema kvs schema).
  - destruct Hres as [-> Hne]. by rewrite bool_decide_false.
  - destruct Hres as [-> Hall]. rewrite bool_decide_true by done. by exists vars.
Qed.

(** A map with one required entry, and with two. *)
Lemma require1 map kvs k1 t1 e : json_map_at R m map kvs -> t1 <> GG_TYPE_NULL ->
  match jwant k1 t1 kvs with
  | None => validated m map [required k1 t1 1] e = Fail e
  | Some v => exists vars p, validated m map [required k1 t1 1] e = Ok vars /\ vars !! 1 = Some p /\ stored p v
  end.
Proof using Rpos.
  intros Hm H1. pose proof (validated_json map kvs [required k1 t1 1] e Hm eq_refl) as H. cbn [json_schema] in H.
  pose proof (check_required kvs k1 t1 1 H1) as Hc1. destruct (jwant k1 t1 kvs) as [v|].
  - rewrite Hc1 in H. destruct H as (vars & Hv & ((p & Hp & Hf) & _)%Forall_cons). unfold json_found in Hf. rewrite Hc1 in Hf.
    by exists vars, p.
  - destruct Hc1 as [e1 Hc1]. by rewrite Hc1 in H.
Qed.

Lemma require2 map kvs k1 t1 k2 t2 e : json_map_at R m map kvs -> t1 <> GG_TYPE_NULL -> t2 <> GG_TYPE_NULL ->
  match jwant k1 t1 kvs, jwant k2 t2 kvs with
  | Some v1, Some v2 => exists vars p1 p2, validated m map [required k1 t1 1; required k2 t2 2] e = Ok vars /\
      vars !! 1 = Some p1 /\ stored p1 v1 /\ vars !! 2 = Some p2 /\ stored p2 v2
  | _, _ => validated m map [required k1 t1 1; required k2 t2 2] e = Fail e
  end.
Proof using Rpos.
  intros Hm H1 H2. pose proof (validated_json map kvs [required k1 t1 1; required k2 t2 2] e Hm eq_refl) as H.
  cbn [json_schema] in H. pose proof (check_required kvs k1 t1 1 H1) as Hc1. pose proof (check_required kvs k2 t2 2 H2) as Hc2.
  destruct (jwant k1 t1 kvs) as [v1|]; [|destruct Hc1 as [e1 Hc1]; by rewrite Hc1 in H].
  rewrite Hc1 in H. destruct (jwant k2 t2 kvs) as [v2|]; [|destruct Hc2 as [e2 Hc2]; by rewrite Hc2 in H].
  rewrite Hc2 in H. destruct H as (vars & Hv & ((p1 & Hp1 & Hf1) & ((p2 & Hp2 & Hf2) & _)%Forall_cons)%Forall_cons).
  unfold json_found in Hf1, Hf2. rewrite Hc1 in Hf1. rewrite Hc2 in Hf2. by exists vars, p1, p2.
Qed.

(** What a typed value is. *)
Lemma jwant_type key ty kvs v : jwant key ty kvs = Some v -> jtype v = ty.
Proof using Type. unfold jwant. destruct (jget key kvs) as [w|]; [|done]. cbn [mbind option_bind]. case_decide; [|done]. by intros [= <-]. Qed.

Lemma list_check vs a ty : elems_at R m vs a ->
  list_type_check_loop m ty (length vs) a =
    Some (if forallb (fun v => bool_decide (jtype v = ty)) vs then GG_ERR_OK else GG_ERR_PARSE).
Proof using Type.
  revert a. induction vs as [|v vs IH]; intros a; [done|]. cbn [elems_at length list_type_check_loop forallb].
  intros ((o & Ho & Hr) & Hrest). rewrite Ho. cbn [mbind option_bind]. rewrite (represents_type _ _ _ _ Hr).
  cbn [mbind option_bind]. case_bool_decide; cbn [negb andb]; [by apply IH|done].
Qed.

Lemma jstrings_check vs :
  match jstrings vs with
  | Some path => vs = JStr <$> path /\ forallb (fun v => bool_decide (jtype v = GG_TYPE_BUF)) vs = true
  | None => forallb (fun v => bool_decide (jtype v = GG_TYPE_BUF)) vs = false
  end.
Proof using Type.
  induction vs as [|[| | | |bs| |] vs IH]; [done|done..| |done|done]. cbn [jstrings forallb].
  destruct (jstrings vs) as [path|]; cbn [fmap option_fmap option_map].
  - by destruct IH as [-> ->].
  - by rewrite IH.
Qed.

(** ** The handlers *)

(** Members of a type, as what they hold. *)
Lemma jobj_want key kvs :
  match jwant key GG_TYPE_MAP kvs with
  | Some v => exists kvs', v = JObj kvs' /\ jobj key kvs = Some kvs'
  | None => jobj key kvs = None
  end.
Proof using Type.
  unfold jobj. destruct (jwant key _ kvs) as [v|] eqn:E; [|done]. apply jwant_type in E. destruct v; try done. by eexists.
Qed.

Lemma jbuf_want key kvs :
  match jwant key GG_TYPE_BUF kvs with
  | Some v => exists bs, v = JStr bs /\ jbuf key kvs = Some bs
  | None => jbuf key kvs = None
  end.
Proof using Type.
  unfold jbuf. destruct (jwant key _ kvs) as [v|] eqn:E; [|done]. apply jwant_type in E. destruct v; try done. by eexists.
Qed.

Lemma jlist_want key kvs :
  match jwant key GG_TYPE_LIST kvs with
  | Some v => exists vs, v = JArr vs /\ jlist key kvs = Some vs
  | None => jlist key kvs = None
  end.
Proof using Type.
  unfold jlist. destruct (jwant key _ kvs) as [v|] eqn:E; [|done]. apply jwant_type in E. destruct v; try done. by eexists.
Qed.

(** A nested map is required. *)
Lemma require_map map kvs k e : json_map_at R m map kvs ->
  match jobj k kvs with
  | None => validated m map [mkEntry k GG_REQUIRED GG_TYPE_MAP 1] e = Fail e
  | Some kvs' => exists vars p map', validated m map [mkEntry k GG_REQUIRED GG_TYPE_MAP 1] e = Ok vars /\
      vars !! 1 = Some p /\ map_of m p = Some map' /\ json_map_at R m map' kvs'
  end.
Proof using Rpos.
  intros Hm. pose proof (require1 map kvs k GG_TYPE_MAP e Hm ltac:(done)) as H. pose proof (jobj_want k kvs) as Hj.
  destruct (jwant k _ kvs) as [v|]; [|by rewrite Hj]. destruct Hj as (kvs' & -> & ->).
  destruct H as (vars & p & Hv & Hp & Hst). destruct (stored_map _ _ Hst) as (map' & Hmap & Hat). by exists vars, p, map'.
Qed.

(** A string is required. *)
Lemma require_buf map kvs k e : json_map_at R m map kvs ->
  match jbuf k kvs with
  | None => validated m map [mkEntry k GG_REQUIRED GG_TYPE_BUF 1] e = Fail e
  | Some bs => exists vars p b, validated m map [mkEntry k GG_REQUIRED GG_TYPE_BUF 1] e = Ok vars /\
      vars !! 1 = Some p /\ buf_of m p = Some b /\ string_at R m b bs
  end.
Proof using Rpos.
  intros Hm. pose proof (require1 map kvs k GG_TYPE_BUF e Hm ltac:(done)) as H. pose proof (jbuf_want k kvs) as Hj.
  destruct (jwant k _ kvs) as [v|]; [|by rewrite Hj]. destruct Hj as (bs & -> & ->).
  destruct H as (vars & p & Hv & Hp & Hst). destruct (stored_buf _ _ Hst) as (b & Hb & Hat). by exists vars, p, b.
Qed.

Lemma iot_core_resp map kvs smt : json_map_at R m map kvs ->
  match iot_core_event smt kvs with
  | None => subscribe_to_iot_core_resp m smt map = Fail GG_ERR_INVALID
  | Some (topic, payload) => exists tb pb, subscribe_to_iot_core_resp m smt map = Ok (tb, pb) /\
      string_at R m tb topic /\ string_at R m pb payload
  end.
Proof using Rpos.
  intros Hm. unfold iot_core_event, subscribe_to_iot_core_resp. rewrite gg_buffer_eq_decide.
  case_decide as Hs; [rewrite bool_decide_true by done|by rewrite bool_decide_false]. cbn [negb].
  pose proof (require_map map kvs (GG_STR "message") GG_ERR_INVALID Hm) as H1.
  destruct (jobj _ kvs) as [msg|]; cbn [mbind option_bind]; [|by rewrite H1].
  destruct H1 as (vars & p & map' & -> & Hp & Hmap & Hm'). cbn [mbind outcome_bind]. rewrite Hp. cbn [get mbind outcome_bind].
  rewrite Hmap. cbn [get mbind outcome_bind].
  pose proof (require2 map' msg (GG_STR "topicName") GG_TYPE_BUF (GG_STR "payload") GG_TYPE_BUF GG_ERR_INVALID Hm'
    ltac:(done) ltac:(done)) as H2. unfold required in H2.
  pose proof (jbuf_want (GG_STR "topicName") msg) as Ht. pose proof (jbuf_want (GG_STR "payload") msg) as Hpl.
  destruct (jwant (GG_STR "topicName") _ msg) as [v1|]; [|rewrite Ht; cbn [mbind option_bind]; by rewrite H2].
  destruct Ht as (topic & -> & ->). cbn [mbind option_bind].
  destruct (jwant (GG_STR "payload") _ msg) as [v2|]; [|rewrite Hpl; cbn [mbind option_bind]; by rewrite H2].
  destruct Hpl as (payload & -> & ->). cbn [mbind option_bind].
  destruct H2 as (vars2 & p1 & p2 & -> & Hp1 & Hs1 & Hp2 & Hs2). cbn [mbind outcome_bind].
  destruct (stored_buf _ _ Hs1) as (tb & Htb & Hat1). destruct (stored_buf _ _ Hs2) as (pb & Hpb & Hat2).
  exists tb, pb. rewrite Hp1, Hp2. cbn [get mbind outcome_bind]. rewrite Htb. cbn [get mbind outcome_bind]. by rewrite Hpb.
Qed.

Lemma configuration_resp map kvs smt : json_map_at R m map kvs ->
  match configuration_event smt kvs with
  | None => subscribe_to_configuration_update_resp m smt map = Fail GG_ERR_INVALID
  | Some (component, path) => exists cb l, subscribe_to_configuration_update_resp m smt map = Ok (cb, l) /\
      string_at R m cb component /\ list_len l = zlen path /\ elems_at R m (JStr <$> path) (items l)
  end.
Proof using Rpos.
  intros Hm. unfold configuration_event, subscribe_to_configuration_update_resp. rewrite gg_buffer_eq_decide.
  case_decide as Hs; [rewrite bool_decide_true by done|by rewrite bool_decide_false]. cbn [negb].
  pose proof (require_map map kvs (GG_STR "configurationUpdateEvent") GG_ERR_INVALID Hm) as H1.
  destruct (jobj _ kvs) as [ev|]; cbn [mbind option_bind]; [|by rewrite H1].
  destruct H1 as (vars & p & map' & -> & Hp & Hmap & Hm'). cbn [mbind outcome_bind]. rewrite Hp. cbn [get mbind outcome_bind].
  rewrite Hmap. cbn [get mbind outcome_bind].
  pose proof (require2 map' ev (GG_STR "componentName") GG_TYPE_BUF (GG_STR "keyPath") GG_TYPE_LIST GG_ERR_INVALID Hm'
    ltac:(done) ltac:(done)) as H2. unfold required in H2.
  pose proof (jbuf_want (GG_STR "componentName") ev) as Ht. pose proof (jlist_want (GG_STR "keyPath") ev) as Hpl.
  destruct (jwant (GG_STR "componentName") _ ev) as [v1|]; [|rewrite Ht; cbn [mbind option_bind]; by rewrite H2].
  destruct Ht as (component & -> & ->). cbn [mbind option_bind].
  destruct (jwant (GG_STR "keyPath") _ ev) as [v2|]; [|rewrite Hpl; cbn [mbind option_bind]; by rewrite H2].
  destruct Hpl as (vs & -> & ->). cbn [mbind option_bind].
  destruct H2 as (vars2 & p1 & p2 & -> & Hp1 & Hs1 & Hp2 & Hs2). cbn [mbind outcome_bind].
  destruct (stored_buf _ _ Hs1) as (cb & Hcb & Hat1). destruct (stored_list _ _ Hs2) as (l & Hl & Hlen & Hat2).
  rewrite Hp1, Hp2. cbn [get mbind outcome_bind]. rewrite Hcb. cbn [get mbind outcome_bind]. rewrite Hl. cbn [get mbind outcome_bind].
  unfold gg_list_type_check. rewrite Hlen, to_nat_zlen, (list_check _ _ _ Hat2).
  cbn [get mbind outcome_bind]. pose proof (jstrings_check vs) as Hj. destruct (jstrings vs) as [path|]; cbn [mbind option_bind].
  - destruct Hj as [-> ->]. exists cb, l. rewrite bool_decide_true by done. cbn [negb]. split_and!; try done. rewrite Hlen.
    unfold zlen. by rewrite length_fmap.
  - by rewrite Hj.
Qed.

(** Two optional maps. *)
Definition optional_map (kvs : list (bytes * jvalue)) (key : bytes) (p : Z) : Prop :=
  (jget key kvs = None /\ p = NULL) \/ exists kvs', jget key kvs = Some (JObj kvs') /\ stored p (JObj kvs').

Definition not_a_map (kvs : list (bytes * jvalue)) (key : bytes) : Prop :=
  exists v, jget key kvs = Some v /\ jtype v <> GG_TYPE_MAP.

Lemma check_optional kvs key n :
  (not_a_map kvs key /\ exists e, json_check kvs (mkEntry key GG_OPTIONAL GG_TYPE_MAP n) = inl e) \/
  (exists r, json_check kvs (mkEntry key GG_OPTIONAL GG_TYPE_MAP n) = inr r /\
     forall p, json_found R m kvs (mkEntry key GG_OPTIONAL GG_TYPE_MAP n) p -> optional_map kvs key p).
Proof using Type.
  unfold json_found, json_check, optional_map, not_a_map. cbn [se_key se_required se_type].
  destruct (jget key kvs) as [v|] eqn:E.
  - case_decide as Ht.
    + right. exists (Some v). split; [done|]. intros p Hp. right. destruct Ht as [?|Ht]; [done|].
      destruct v as [| | | | | |kvs']; try done. by exists kvs'.
    + left. split; [|by eexists]. exists v. split; [done|]. intros Hv. apply Ht. by right.
  - right. exists None. split; [done|]. intros p ->. by left.
Qed.

Lemma optional2 map kvs k1 k2 e : json_map_at R m map kvs ->
  let schema := [mkEntry k1 GG_OPTIONAL GG_TYPE_MAP 1; mkEntry k2 GG_OPTIONAL GG_TYPE_MAP 2] in
  ((not_a_map kvs k1 \/ not_a_map kvs k2) /\ validated m map schema e = Fail e) \/
  (exists vars p1 p2, validated m map schema e = Ok vars /\ vars !! 1 = Some p1 /\ vars !! 2 = Some p2 /\
     optional_map kvs k1 p1 /\ optional_map kvs k2 p2).
Proof using Rpos.
  intros Hm schema. pose proof (validated_json map kvs schema e Hm eq_refl) as H. unfold schema in *. cbn [json_schema] in H.
  destruct (check_optional kvs k1 1) as [[Hb (e1 & H1)]|(r1 & H1 & Hf1)]; rewrite H1 in H; [left; split; [by left|done]|].
  destruct (check_optional kvs k2 2) as [[Hb (e2 & H2)]|(r2 & H2 & Hf2)]; rewrite H2 in H; [left; split; [by right|done]|].
  right. destruct H as (vars & Hv & ((p1 & Hp1 & Hfound1) & ((p2 & Hp2 & Hfound2) & _)%Forall_cons)%Forall_cons).
  exists vars, p1, p2. split_and!; auto.
Qed.

(** The message and the topic of a local message. *)
Definition message_at (is_json : bool) (p : Z) (v : jvalue) : Prop :=
  stored p v /\ jtype v = (if is_json then GG_TYPE_MAP else GG_TYPE_BUF).

Lemma topic_resp map kvs smt : json_map_at R m map kvs ->
  match topic_event smt kvs with
  | None => subscribe_to_topic_resp m smt map = Fail GG_ERR_INVALID
  | Some (is_json, topic, message) => exists tb p, subscribe_to_topic_resp m smt map = Ok (is_json, tb, p) /\
      string_at R m tb topic /\ message_at is_json p message
  end.
Proof using Rpos.
  intros Hm. unfold topic_event, subscribe_to_topic_resp. rewrite gg_buffer_eq_decide.
  case_decide as Hs; [rewrite bool_decide_true by done|by rewrite bool_decide_false]. cbn [negb].
  destruct (optional2 map kvs (GG_STR "jsonMessage") (GG_STR "binaryMessage") GG_ERR_INVALID Hm)
    as [[Hbad ->]|(vars & p1 & p2 & -> & Hp1 & Hp2 & H1 & H2)].
  { cbn [mbind outcome_bind].
    assert (forall v : jvalue, jtype v <> GG_TYPE_MAP -> (forall kvs', v <> JObj kvs')) as Hno by (by intros v Hv kvs' ->).
    destruct Hbad as [(v & -> & Hv)|(v & -> & Hv)]; pose proof (Hno v Hv) as Hv'.
    - destruct v; try done; destruct (jget _ kvs); try done.
    - destruct (jget (GG_STR "jsonMessage") kvs) as [[]|]; destruct v; done. }
  cbn [mbind outcome_bind]. rewrite Hp1, Hp2. cbn [get mbind outcome_bind].
  set (event := match jget (GG_STR "jsonMessage") kvs, jget (GG_STR "binaryMessage") kvs with
      | Some (JObj event), None => Some (true, event)
      | None, Some (JObj event) => Some (false, event)
      | _, _ => None
      end).
  assert (match event with
    | None => Bool.eqb (p1 =? NULL) (p2 =? NULL) = true
    | Some (is_json, ev) => Bool.eqb (p1 =? NULL) (p2 =? NULL) = false /\ negb (p1 =? NULL) = is_json /\
        stored (if is_json then p1 else p2) (JObj ev)
    end) as Hev.
  { unfold event. assert (forall p v, stored p v -> p =? NULL = false) as Hne.
    { intros p v [Hp _]. apply Z.eqb_neq. unfold NULL. lia. }
    destruct H1 as [[-> ->]|(ev1 & -> & Hs1)], H2 as [[-> ->]|(ev2 & -> & Hs2)]; [done|..].
    - by rewrite (Hne _ _ Hs2).
    - by rewrite (Hne _ _ Hs1).
    - by rewrite (Hne _ _ Hs1), (Hne _ _ Hs2). }
  destruct event as [[is_json ev]|]; cbn [mbind option_bind]; [|by rewrite Hev].
  destruct Hev as (-> & -> & Hst). destruct (stored_map _ _ Hst) as (map' & Hmap & Hm'). rewrite Hmap. cbn [get mbind outcome_bind].
  pose proof (require2 map' ev (GG_STR "message") (if is_json then GG_TYPE_MAP else GG_TYPE_BUF) (GG_STR "context") GG_TYPE_MAP
    GG_ERR_INVALID Hm' ltac:(by destruct is_json) ltac:(done)) as H. unfold required in H.
  destruct (jwant (GG_STR "message") _ ev) as [message|] eqn:Emsg; cbn [mbind option_bind]; [|by rewrite H].
  pose proof (jobj_want (GG_STR "context") ev) as Hctx.
  destruct (jwant (GG_STR "context") _ ev) as [v2|]; [|rewrite Hctx; cbn [mbind option_bind]; by rewrite H].
  destruct Hctx as (context & -> & ->). cbn [mbind option_bind].
  destruct H as (vars2 & q1 & q2 & -> & Hq1 & Hsq1 & Hq2 & Hsq2). cbn [mbind outcome_bind]. rewrite Hq1, Hq2. cbn [get mbind outcome_bind].
  destruct (stored_map _ _ Hsq2) as (map2 & Hmap2 & Hm2). rewrite Hmap2. cbn [get mbind outcome_bind].
  pose proof (require_buf map2 context (GG_STR "topic") GG_ERR_INVALID Hm2) as Ht.
  destruct (jbuf (GG_STR "topic") context) as [topic|]; cbn [mbind option_bind]; [|by rewrite Ht].
  destruct Ht as (vars3 & q3 & tb & -> & Hq3 & Htb & Hat). cbn [mbind outcome_bind]. rewrite Hq3. cbn [get mbind outcome_bind].
  rewrite Htb. exists tb, q1. split; [done|]. split; [exact Hat|]. split; [exact Hsq1|by eapply jwant_type].
Qed.
End events.

(** ** From the object to the application's callback *)

Section handlers.
Context {W : Type}.
Context (topic_callback : Z -> Z -> BufPtr -> GgObject -> Z -> sysm (client W) unit).
Context (iot_core_callback : Z -> Z -> BufPtr -> BufPtr -> Z -> sysm (client W) unit).
Context (configuration_update_callback : Z -> Z -> BufPtr -> GgList -> Z -> sysm (client W) unit).
Context (R : Z -> Prop) (Rpos : forall x, R x -> 0 < x).
Context (Rsize : forall a n, inside R a n -> n <= UINT16_MAX).
Implicit Types c : client W.

(** What decoding a string in place leaves: the bytes, or an error. *)
Definition decodes (b : BufPtr) (text : bytes) c (r : outcome BufPtr) c' : Prop :=
  exists m, c' = with_mem (sys c) m c /\ changes (zrange (data b) (data b + len b)) (cmem c) m /\
    match base64_dec text with
    | Some bs => exists t, r = Ok t /\ data t = data b /\ 0 <= len t <= len b /\ buf_bytes m t = Some bs
    | None => r = Fail GG_ERR_INVALID
    end.

Lemma decode_in_place_spec b text c : string_at R (cmem c) b text ->
  exists r c', decode_in_place b c = (r, c') /\ decodes b text c r c'.
Proof using Rsize.
  intros (Hs & Hl & Hi). destruct (decode_in_place_run _ _ _ Hs (conj Hl (Rsize _ _ Hi))) as (ok & m & t & Hrun & Hch & Hres).
  unfold decode_in_place, on_mem. rewrite Hrun. cbn [mbind option_bind]. eexists _, _. split; [done|].
  exists m. split; [done|]. split; [done|]. destruct (base64_dec text) as [bs|].
  - destruct Hres as (-> & Ht & Hd & Hlen). by exists t.
  - by rewrite Hres.
Qed.

(** The topic handler: what the callback gets for a message. *)
Definition topic_handled (ctx aux handle : Z) (event : option (bool * bytes * jvalue)) c (o : outcome unit) c' : Prop :=
  match event with
  | None => o = Fail GG_ERR_INVALID /\ c' = c
  | Some (true, topic, message) => exists tb obj, string_at R (cmem c) tb topic /\
      represents R (cmem c) message obj /\ void (topic_callback ctx aux tb obj handle) c = (o, c')
  | Some (false, topic, JStr text) => exists tb b r c1, string_at R (cmem c) tb topic /\
      string_at R (cmem c) b text /\ decodes b text c r c1 /\
      match r with
      | Ok t => exists obj, gg_obj_buf t = Some obj /\ void (topic_callback ctx aux tb obj handle) c1 = (o, c')
      | _ => o = Fail GG_ERR_INVALID /\ c' = c1
      end
  | Some (false, _, _) => False
  end.

Definition iot_core_handled (ctx aux handle : Z) (event : option (bytes * bytes)) c (o : outcome unit) c' : Prop :=
  match event with
  | None => o = Fail GG_ERR_INVALID /\ c' = c
  | Some (topic, text) => exists tb b r c1, string_at R (cmem c) tb topic /\
      string_at R (cmem c) b text /\ decodes b text c r c1 /\
      match r with
      | Ok t => void (iot_core_callback ctx aux tb t handle) c1 = (o, c')
      | _ => o = Fail GG_ERR_INVALID /\ c' = c1
      end
  end.

Definition configuration_handled (ctx aux handle : Z) (event : option (bytes * list bytes)) c (o : outcome unit) c' : Prop :=
  match event with
  | None => o = Fail GG_ERR_INVALID /\ c' = c
  | Some (component, path) => exists cb l, string_at R (cmem c) cb component /\
      list_len l = zlen path /\ elems_at R (cmem c) (JStr <$> path) (items l) /\
      void (configuration_update_callback ctx aux cb l handle) c = (o, c')
  end.

Lemma iot_core_exact ctx aux handle smt map kvs c : json_map_at R (cmem c) map kvs ->
  exists o c', subscribe_to_iot_core_resp_handler iot_core_callback ctx aux handle smt map c = (o, c') /\
    iot_core_handled ctx aux handle (iot_core_event smt kvs) c o c'.
Proof using Rpos Rsize.
  intros Hm. pose proof (iot_core_resp R Rpos (cmem c) map kvs smt Hm) as H.
  unfold subscribe_to_iot_core_resp_handler. unfold mbind at 1, sysm_bind at 1, gets at 1.
  unfold mbind at 1, sysm_bind at 1, lift_out at 1. unfold iot_core_handled.
  destruct (iot_core_event smt kvs) as [[topic text]|]; [|rewrite H; by eexists _, _].
  destruct H as (tb & b & -> & Htb & Hb). destruct (decode_in_place_spec _ _ _ Hb) as (r & c1 & Hrun & Hd).
  unfold mbind at 1, sysm_bind at 1. rewrite Hrun.
  destruct (match r with Ok t => void (iot_core_callback ctx aux tb t handle) c1 | Fail e => (Fail e, c1) | Stuck => (Stuck, c1) end)
    as [o c'] eqn:E.
  exists o, c'. split; [by destruct r|]. exists tb, b, r, c1. split_and!; [done..|].
  destruct Hd as (m & _ & _ & Hres). destruct (base64_dec text) as [bs|].
  - destruct Hres as (t & -> & _). exact E.
  - subst r. by injection E as <- <-.
Qed.

Lemma configuration_exact ctx aux handle smt map kvs c : json_map_at R (cmem c) map kvs ->
  exists o c', subscribe_to_configuration_update_resp_handler configuration_update_callback ctx aux handle smt map c = (o, c') /\
    configuration_handled ctx aux handle (configuration_event smt kvs) c o c'.
Proof using Rpos.
  intros Hm. pose proof (configuration_resp R Rpos (cmem c) map kvs smt Hm) as H.
  unfold subscribe_to_configuration_update_resp_handler. unfold mbind at 1, sysm_bind at 1, gets at 1.
  unfold mbind at 1, sysm_bind at 1, lift_out at 1. unfold configuration_handled.
  destruct (configuration_event smt kvs) as [[component path]|]; [|rewrite H; by eexists _, _].
  destruct H as (cb & l & -> & Hcb & Hl & He).
  destruct (void (configuration_update_callback ctx aux cb l handle) c) as [o c'] eqn:E. exists o, c'. split; [done|].
  by exists cb, l.
Qed.

Lemma topic_exact ctx aux handle smt map kvs c : json_map_at R (cmem c) map kvs ->
  exists o c', subscribe_to_topic_resp_handler topic_callback ctx aux handle smt map c = (o, c') /\
    topic_handled ctx aux handle (topic_event smt kvs) c o c'.
Proof using Rpos Rsize.
  intros Hm. pose proof (topic_resp R Rpos (cmem c) map kvs smt Hm) as H.
  unfold subscribe_to_topic_resp_handler. unfold mbind at 1, sysm_bind at 1, gets at 1.
  unfold mbind at 1, sysm_bind at 1, lift_out at 1. unfold topic_handled.
  destruct (topic_event smt kvs) as [[[is_json topic] message]|]; [|rewrite H; by eexists _, _].
  destruct H as (tb & p & -> & Htb & (obj & Ho & Hr)%value_represents & Hty).
  unfold mbind at 1, sysm_bind at 1, need at 1. rewrite Ho. cbn [get lift_out].
  destruct is_json.
  { unfold mbind at 1, sysm_bind at 1, mret at 1, sysm_ret at 1.
    destruct (void (topic_callback ctx aux tb obj handle) c) as [o c'] eqn:E. exists o, c'. split; [done|]. by exists tb, obj. }
  destruct message as [| | | |text| |]; try done. destruct (represents_str _ _ _ _ Hr) as (b & Hb & Hat).
  destruct (decode_in_place_spec _ _ _ Hat) as (r & c1 & Hrun & Hd). pose proof Hd as (m & Hc1 & _ & Hres).
  unfold mbind at 1, sysm_bind at 1. unfold mbind at 1, sysm_bind at 1, need at 1. rewrite Hb. cbn [get lift_out].
  unfold mbind at 1, sysm_bind at 1. rewrite Hrun. destruct (base64_dec text) as [bs|].
  - destruct Hres as (t & -> & _ & Hlen & _).
    assert (exists o', gg_obj_buf t = Some o') as [o' Ho'].
    { unfold gg_obj_buf. rewrite ptr_len_eq; [by eexists|]. destruct Hat as (_ & _ & Hi). pose proof (Rsize _ _ Hi). lia. }
    unfold need at 1. rewrite Ho'. cbn [get lift_out].
    destruct (void (topic_callback ctx aux tb o' handle) c1) as [o c'] eqn:E. exists o, c'. split; [done|].
    exists tb, b, (Ok t), c1. split_and!; [done..|]. by exists o'.
  - subst r. exists (Fail GG_ERR_INVALID), c1. split; [done|]. by exists tb, b, (Fail GG_ERR_INVALID), c1.
Qed.
End handlers.

(** C10: Whatever JSON object an event carries, each of the library's handlers of
    events either refuses it as [GG_ERR_INVALID], exactly when it is not of the
    expected form, or calls the application's callback once, with the handle of
    the subscription, the topic or component, and the payload (which is decoded
    in place if it is in Base64) or the key path that the object has, and
    succeeds once the callback has returned. *)
Theorem event_handlers_exact {W}
    (topic_callback : Z -> Z -> BufPtr -> GgObject -> Z -> sysm (client W) unit)
    (iot_core_callback : Z -> Z -> BufPtr -> BufPtr -> Z -> sysm (client W) unit)
    (configuration_update_callback : Z -> Z -> BufPtr -> GgList -> Z -> sysm (client W) unit)
    (R : Z -> Prop) (c : client W) (map : GgMap) (kvs : list (bytes * jvalue)) (ctx aux handle : Z) (smt : bytes) :
  (forall x, R x -> 0 < x) -> (forall a n, inside R a n -> n <= UINT16_MAX) -> json_map_at R (cmem c) map kvs ->
  (exists o c', subscribe_to_topic_resp_handler topic_callback ctx aux handle smt map c = (o, c') /\
     topic_handled topic_callback R ctx aux handle (topic_event smt kvs) c o c') /\
  (exists o c', subscribe_to_iot_core_resp_handler iot_core_callback ctx aux handle smt map c = (o, c') /\
     iot_core_handled iot_core_callback R ctx aux handle (iot_core_event smt kvs) c o c') /\
  (exists o c', subscribe_to_configuration_update_resp_handler configuration_update_callback ctx aux handle smt map c = (o, c') /\
     configuration_handled configuration_update_callback R ctx aux handle (configuration_event smt kvs) c o c').
Proof.
  intros Rpos Rsize Hm. split_and!; [by apply topic_exact|by apply iot_core_exact|by apply configuration_exact].
Qed.

(** A message of IoT Core on the topic [t] with the payload [hi!]. *)
Definition string_pair (key val : BufPtr) : GgKV := default [] (o ← gg_obj_buf val; gg_kv key o).
Definition iot_mem : mem :=
  put (put (put ∅ 10 (GG_STR "messagetopicNametpayloadaGkh"))
    200 (string_pair (mkBuf 17 9) (mkBuf 26 1) ++ string_pair (mkBuf 27 7) (mkBuf 34 4)))
    100 (default [] (o ← gg_obj_map (mkMap 200 2); gg_kv (mkBuf 10 7) o)).
Definition iot_members : list (bytes * jvalue) :=
  [(GG_STR "message", JObj [(GG_STR "topicName", JStr (GG_STR "t")); (GG_STR "payload", JStr (GG_STR "aGkh"))])].
Definition low (x : Z) : Prop := 0 < x <= UINT16_MAX.

Lemma low_inside a n : 0 < a -> a + n <= UINT16_MAX -> inside low a n.
Proof. intros Ha Hn x Hx. unfold low. lia. Qed.

Lemma low_size a n : inside low a n -> n <= UINT16_MAX.
Proof.
  intros Hi. destruct (Z_le_gt_dec n UINT16_MAX) as [?|Hn]; [done|]. unfold UINT16_MAX in *.
  assert (low a) as H1 by (apply Hi; lia). assert (low (a + (n - 1))) as H2 by (apply Hi; lia). unfold low, UINT16_MAX in *. lia.
Qed.

Lemma iot_map_at : json_map_at low iot_mem (mkMap 100 1) iot_members.
Proof.
  assert (forall (R : Z -> Prop) b bs, (forall x, 0 < x < 100 -> R x) -> buf_bytes iot_mem b = Some bs -> 0 < data b -> 0 <= len b ->
    data b + len b <= 100 -> string_at R iot_mem b bs) as Hstr.
  { intros R b bs HR Hb H1 H2 H3. split_and!; [done|done|]. intros x Hx. apply HR. lia. }
  assert (forall k x, 0 < x < 100 -> apart low 100 k x) as H1 by (intros k x Hx; unfold apart, low, UINT16_MAX; lia).
  assert (forall k k' x, 0 < x < 100 -> apart (apart low 100 k) 200 k' x) as H2.
  { intros k k' x Hx. split; [by apply H1|lia]. }
  split; [done|]. split; [by apply low_inside; vm_compute|]. cbn [iot_members members_at]. split; [|done].
  eexists. split; [by vm_compute|]. split; [apply Hstr; [apply H1|by vm_compute..]|]. cbn [snd]. rewrite represents_JObj. exists 200.
  split; [by vm_compute|]. split.
  { intros x Hx. cbn [zlen length] in Hx. unfold apart, low, UINT16_MAX, sizeof_GgKV, zlen in *. cbn [iot_members length pairs] in *. lia. }
  cbn [members_at]. split; [|split; [|done]].
  - eexists. split; [by vm_compute|]. split; [apply Hstr; [apply H2|by vm_compute..]|]. eexists. split; [by vm_compute|].
    apply Hstr; [apply H2|by vm_compute..].
  - eexists. split; [by vm_compute|]. split; [apply Hstr; [apply H2|by vm_compute..]|]. eexists. split; [by vm_compute|].
    apply Hstr; [apply H2|by vm_compute..].
Qed.

Lemma event_handlers_exact_witness :
  let c := mkClient 3 4 77 1 init_streams ∅ iot_mem tt in
  iot_core_event (GG_STR "aws.greengrass#IoTCoreMessage") iot_members = Some (GG_STR "t", GG_STR "aGkh") /\
  exists o c', subscribe_to_iot_core_resp_handler (fun _ _ _ _ _ => mret tt) 11 12 65537
      (GG_STR "aws.greengrass#IoTCoreMessage") (mkMap 100 1) c = (o, c') /\
    iot_core_handled (fun _ _ _ _ _ => mret tt) low 11 12 65537 (Some (GG_STR "t", GG_STR "aGkh")) c o c'.
Proof.
  intros c. split; [by vm_compute|].
  exact (proj1 (proj2 (event_handlers_exact (fun _ _ _ _ _ => mret tt) (fun _ _ _ _ _ => mret tt) (fun _ _ _ _ _ => mret tt)
    low c (mkMap 100 1) iot_members 11 12 65537 (GG_STR "aws.greengrass#IoTCoreMessage")
    (fun x Hx => proj1 Hx) low_size iot_map_at))).
Defined.
