(* ===== verification/Subscriptions.v ===== *)
(** Subscriptions, from the connection to the application: the library's
    handlers of events as callbacks of the client. They keep what the client asks
    of its callbacks if the application's callbacks do, and an event on the
    connection reaches the application's callback. *)

From S2P Require Import Prelude Memory Buffer Io EsDecode EsRpc Object JsonValue Map Visit Arena Base64 JsonParse JsonAccept JsonDecode JsonStored JsonContainers JsonMaps JsonDecodeSpec File Socket Streams Client Wp Registry Receiving Delivery IpcCalls Events.

(** The three operations that subscribe. *)
Inductive subscription := TopicSubscription | IotCoreSubscription | ConfigurationSubscription.

Section subscriptions.
Context `{env : ClientEnv W}.
Abbreviation client := (client W).
Implicit Types c : client.
Context (topic_callback : Z -> Z -> BufPtr -> GgObject -> Z -> sysm client unit).
Context (iot_core_callback : Z -> Z -> BufPtr -> BufPtr -> Z -> sysm client unit).
Context (configuration_update_callback : Z -> Z -> BufPtr -> GgList -> Z -> sysm client unit).

(** The library's handler, and what it does with an event. *)
Definition run_handler (k : subscription) (ctx aux handle : Z) (smt : bytes) (map : GgMap) : sysm client unit :=
  match k with
  | TopicSubscription => subscribe_to_topic_resp_handler topic_callback ctx aux handle smt map
  | IotCoreSubscription => subscribe_to_iot_core_resp_handler iot_core_callback ctx aux handle smt map
  | ConfigurationSubscription =>
      subscribe_to_configuration_update_resp_handler configuration_update_callback ctx aux handle smt map
  end.

Definition handled (k : subscription) (ctx aux handle : Z) (smt : bytes) (kvs : list (bytes * jvalue)) c o c' : Prop :=
  match k with
  | TopicSubscription => topic_handled topic_callback recv_region ctx aux handle (topic_event smt kvs) c o c'
  | IotCoreSubscription => iot_core_handled iot_core_callback recv_region ctx aux handle (iot_core_event smt kvs) c o c'
  | ConfigurationSubscription =>
      configuration_handled configuration_update_callback recv_region ctx aux handle (configuration_event smt kvs) c o c'
  end.

(** ** Callbacks that close at most *)

Class ClosingApplication : Prop := {
  topic_closes : forall x aux tb obj h, keeps only_closes (topic_callback x aux tb obj h);
  iot_core_closes : forall x aux tb b h, keeps only_closes (iot_core_callback x aux tb b h);
  configuration_closes : forall x aux cb l h, keeps only_closes (configuration_update_callback x aux cb l h);
}.

Lemma run_handler_closes `{!ClosingApplication} k x aux h smt map : keeps only_closes (run_handler k x aux h smt map).
Proof using Type.
  destruct k; cbn [run_handler];
    unfold subscribe_to_topic_resp_handler, subscribe_to_iot_core_resp_handler,
      subscribe_to_configuration_update_resp_handler, decode_in_place;
    frames; first [apply topic_closes|apply iot_core_closes|apply configuration_closes].
Qed.

Section layout.
Context (to_f64 : bytes -> Z * bool) `{!ReceivingLayout to_f64}.

(** A string that lies in the buffers is shorter than they are. *)
Lemma recv_region_size a n : inside recv_region a n -> n <= UINT16_MAX.
Proof using ReceivingLayout0.
  intros Hi. destruct (Z_le_gt_dec n UINT16_MAX) as [?|Hn]; [done|]. unfold UINT16_MAX in *. pose proof layout_apart as Hap.
  assert (recv_region a) as H0 by (apply Hi; lia). assert (recv_region (a + 2805)) as H1 by (apply Hi; lia).
  assert (recv_region (a + 10000)) as H2 by (apply Hi; lia). assert (recv_region (a + 12805)) as H3 by (apply Hi; lia).
  unfold recv_region, zrange, disj, decode_size, GG_IPC_MAX_MSG_LEN, sizeof_GgObject, GG_MAX_OBJECT_SUBOBJECTS in *. lia.
Qed.

Lemma run_handler_exact k x aux h smt map kvs c : json_map_at recv_region (cmem c) map kvs ->
  exists o c', run_handler k x aux h smt map c = (o, c') /\ handled k x aux h smt kvs c o c'.
Proof using All.
  intros Hm. destruct k; cbn [run_handler handled];
    [apply topic_exact|apply iot_core_exact|apply configuration_exact];
    try done; first [apply (recv_region_positive to_f64)|apply recv_region_size].
Qed.

(** ** Safety *)

Section safety.
Context (I : mem -> Prop).
Context (I_frame : forall m m', I m -> changes recv_frame m m' -> I m').

Definition readable (m : mem) (b : BufPtr) : Prop := 0 <= len b /\ mapped m (data b) (len b).

(** What the application's callbacks are given, and what they keep. *)
Class SafeApplication : Prop := {
  safe_json_message : forall x aux tb obj v h c, client_ok c -> I (cmem c) -> readable (cmem c) tb ->
    represents recv_region (cmem c) v obj -> wp (topic_callback x aux tb obj h) (kept I) c;
  safe_binary_message : forall x aux tb obj t h c, client_ok c -> I (cmem c) -> readable (cmem c) tb ->
    gg_obj_buf t = Some obj -> readable (cmem c) t -> wp (topic_callback x aux tb obj h) (kept I) c;
  safe_iot_core : forall x aux tb t h c, client_ok c -> I (cmem c) -> readable (cmem c) tb -> readable (cmem c) t ->
    wp (iot_core_callback x aux tb t h) (kept I) c;
  safe_configuration : forall x aux cb l h path c, client_ok c -> I (cmem c) -> readable (cmem c) cb ->
    list_len l = zlen path -> elems_at recv_region (cmem c) (JStr <$> path) (items l) ->
    wp (configuration_update_callback x aux cb l h) (kept I) c;
}.
Context `{!SafeApplication}.

Lemma void_safe (f : sysm client unit) c : wp f (kept I) c -> wp (void f) (kept I) c.
Proof using Type. intros Hf. unfold void. apply wp_bind, wp_attempt. eapply wp_mono; [exact Hf|]. intros r c' HI. by apply wp_ret. Qed.

Lemma string_readable (m : mem) b bs : string_at recv_region m b bs -> readable m b.
Proof using Type. intros (Hs & Hl & _). split; [done|]. by eapply loadz_is_mapped. Qed.

Lemma decodes_kept b text c r c' : decodes b text c r c' -> string_at recv_region (cmem c) b text ->
  client_ok c -> I (cmem c) -> client_ok c' /\ I (cmem c') /\ changes recv_frame (cmem c) (cmem c') /\ r <> Stuck /\
    forall t, r = Ok t -> readable (cmem c') t.
Proof using I_frame.
  intros (m & -> & Hch & Hres) (_ & Hl & Hi) Hc HI.
  assert (changes recv_frame (cmem c) m) as Hfr.
  { eapply changes_sub; [exact Hch|]. intros y Hy. left. by apply Hi. }
  split_and!; [by apply client_ok_mem|by eapply I_frame|done|by destruct (base64_dec text); [destruct Hres as (? & -> & _)|subst r]|].
  intros t ->. destruct (base64_dec text) as [bs|]; [|done]. destruct Hres as (t' & [= <-] & _ & Hlen & Ht).
  split; [lia|]. by eapply loadz_is_mapped.
Qed.

Lemma run_handler_safe k x aux h smt map kvs c : client_ok c -> I (cmem c) -> json_map_at recv_region (cmem c) map kvs ->
  wp (run_handler k x aux h smt map) (kept I) c.
Proof using All.
  intros Hc HI Hm. destruct (run_handler_exact k x aux h smt map kvs c Hm) as (o & c' & Hrun & Hh).
  assert (forall e c1, o = Fail e -> c' = c1 -> I (cmem c1) -> wp (run_handler k x aux h smt map) (kept I) c) as Hfail.
  { intros e c1 -> -> HI1. apply (wp_same _ (fail e) _ _ c1); [exact Hrun|by apply wp_fail]. }
  destruct k; cbn [handled] in Hh.
  - unfold topic_handled in Hh. destruct (topic_event smt kvs) as [[[[] topic] message]|]; [| |by destruct Hh; eapply Hfail].
    + destruct Hh as (tb & obj & Htb & Hobj & Hcb).
      apply (wp_same _ (void (topic_callback x aux tb obj h)) _ _ c); [by rewrite Hrun, Hcb|].
      eapply void_safe, safe_json_message; [done|done|by eapply string_readable|exact Hobj].
    + destruct message as [| | | |text| |]; try done. destruct Hh as (tb & b & r & c1 & Htb & Hb & Hd & Hres).
      destruct (decodes_kept _ _ _ _ _ Hd Hb Hc HI) as (Hc1 & HI1 & Hch & Hns & Ht).
      destruct r as [t|e|]; [|by destruct Hres; eapply Hfail|done]. destruct Hres as (obj & Hobj & Hcb).
      apply (wp_same _ (void (topic_callback x aux tb obj h)) _ _ c1); [by rewrite Hrun, Hcb|]. destruct (string_readable _ _ _ Htb) as [Hl Hmap].
      eapply void_safe, safe_binary_message; [done|done|split; [exact Hl|by eapply changes_mapped]|exact Hobj|by apply Ht].
  - unfold iot_core_handled in Hh. destruct (iot_core_event smt kvs) as [[topic text]|]; [|by destruct Hh; eapply Hfail].
    destruct Hh as (tb & b & r & c1 & Htb & Hb & Hd & Hres).
    destruct (decodes_kept _ _ _ _ _ Hd Hb Hc HI) as (Hc1 & HI1 & Hch & Hns & Ht).
    destruct r as [t|e|]; [|by destruct Hres; eapply Hfail|done].
    apply (wp_same _ (void (iot_core_callback x aux tb t h)) _ _ c1); [by rewrite Hrun, Hres|]. destruct (string_readable _ _ _ Htb) as [Hl Hmap].
    eapply void_safe, safe_iot_core; [done|done|split; [exact Hl|by eapply changes_mapped]|by apply Ht].
  - unfold configuration_handled in Hh. destruct (configuration_event smt kvs) as [[component path]|]; [|by destruct Hh; eapply Hfail].
    destruct Hh as (cb & l & Hcb & Hl & He & Hrun2). 
    apply (wp_same _ (void (configuration_update_callback x aux cb l h)) _ _ c); [by rewrite Hrun, Hrun2|].
    eapply void_safe, safe_configuration; [done|done|by eapply string_readable|exact Hl|exact He].
Qed.
End safety.

(** ** From the connection to the application *)

(** C8: An event on the connection for a subscription that the library made
    reaches the application's callback, in the form that its JSON object has
    ([handled]), with the handle of the subscription; and the subscription is
    kept exactly if the event is not refused and the packet does not end the
    stream. *)
Theorem event_reaches_application (I : mem -> Prop) `{!SafeCallbacks I} `{!WellBehaved env} k conn `{!FdReads os conn}
    hs pl rest ch kvs smt f x aux c :
  (forall h smt map, sub_fn f x aux h smt map = run_handler k x aux h smt map) ->
  incoming to_f64 conn hs pl rest ch kvs c -> client_ok c -> I (cmem c) ->
  event_headers hs [] [] = Ok (smt, GG_STR "application/json") ->
  entries (abs c) !! stream_id ch = Some (Subscribed f x aux) ->
  exists w m i h o c1 c', dispatch_incoming_packet conn c = (Ok tt, c') /\
    sr_rel (r := gg_socket_reader os retries conn) w rest /\ changes recv_frame (cmem c) m /\
    get_stream_index_from_id (streams c) (stream_id ch) = Some i /\ validate_handle (streams c) h = Ok i /\
    handled k x aux h smt kvs (with_mem w m c) o c1 /\ event_left ch o c1 c'.
Proof using All.
  intros Hfn Hin Hc HI Hev Ht.
  destruct (event_delivered_run to_f64 I conn hs pl rest ch kvs smt f x aux c Hin Hc HI Hev Ht)
    as (w & i & h & o & c1 & c' & Hrun & Hs & Hi & Hh & (m & map & Hch & Hat & Hcb) & Hl).
  rewrite Hfn in Hcb. destruct (run_handler_exact k x aux h smt map kvs (with_mem w m c) Hat) as (o' & c1' & Hcb' & Hhan).
  rewrite Hcb in Hcb'. injection Hcb' as <- <-. by exists w, m, i, h, o, c1, c'.
Qed.
End layout.
End subscriptions.

(** ** An example: a subscription to IoT Core, with callbacks that do nothing *)

Definition no_topic (x aux : Z) (tb : BufPtr) (obj : GgObject) (h : Z) : sysm (client (nat * bytes)) unit := mret tt.
Definition no_iot_core (x aux : Z) (tb t : BufPtr) (h : Z) : sysm (client (nat * bytes)) unit := mret tt.
Definition no_configuration (x aux : Z) (cb : BufPtr) (l : GgList) (h : Z) : sysm (client (nat * bytes)) unit := mret tt.

Definition iot_handler := run_handler no_topic no_iot_core no_configuration IotCoreSubscription.

Definition subscribing_env : ClientEnv (nat * bytes) := {|
  os := @os _ reading_env; sos := @sos _ reading_env; retries := @retries _ reading_env;
  format_f64 := @format_f64 _ reading_env; strtod := @strtod _ reading_env; pruned := @pruned _ reading_env;
  ipc_recv_mem := @ipc_recv_mem _ reading_env; ipc_recv_decode_mem := @ipc_recv_decode_mem _ reading_env;
  ipc_send_mem := @ipc_send_mem _ reading_env; params_obj := @params_obj _ reading_env;
  json_frame := @json_frame _ reading_env; result_obj := @result_obj _ reading_env; token_kv := @token_kv _ reading_env;
  result_fn := fun _ _ _ => mret tt;
  error_fn := fun _ _ _ _ => mret tt;
  sub_fn := fun _ => iot_handler;
|}.

Lemma none_close : ClosingApplication no_topic no_iot_core no_configuration.
Proof. split; intros; apply keeps_ret; apply _. Qed.

Lemma none_safe : SafeApplication (env := subscribing_env) no_topic no_iot_core no_configuration
  (receiving_room (env := subscribing_env)).
Proof. split; intros; by apply wp_ret. Qed.

Lemma subscribing_callbacks : WellBehaved subscribing_env.
Proof.
  pose proof none_close. split; intros.
  - apply keeps_ret. apply _.
  - apply keeps_ret. apply _.
  - apply (run_handler_closes no_topic no_iot_core no_configuration IotCoreSubscription).
Qed.

Lemma subscribing_layout : ReceivingLayout (env := subscribing_env) (fun _ => (0, false)).
Proof. pose proof reading_layout as H. destruct H. by split. Qed.

Lemma subscribing_safe : SafeCallbacks (env := subscribing_env) (receiving_room (env := subscribing_env)).
Proof.
  pose proof none_safe. pose proof subscribing_layout. split; [done|by apply receiving_room_changes|..].
  - intros. by apply wp_ret.
  - intros. by apply wp_ret.
  - intros f x aux h smt map kvs c Hc HI Hm.
    apply (run_handler_safe (env := subscribing_env) no_topic no_iot_core no_configuration (fun _ => (0, false)) (receiving_room (env := subscribing_env))
      (receiving_room_changes recv_frame) IotCoreSubscription x aux h smt map kvs c Hc HI Hm).
Qed.

(** The event [{"message":{"topicName":"t","payload":"aGkh"}}]. *)
Definition quoted (s : string) : bytes := [34] ++ GG_STR s ++ [34].
Definition iot_payload : bytes :=
  GG_STR "{" ++ quoted "message" ++ GG_STR ":{" ++ quoted "topicName" ++ GG_STR ":" ++ quoted "t" ++ GG_STR "," ++
  quoted "payload" ++ GG_STR ":" ++ quoted "aGkh" ++ GG_STR "}}".

Definition iot_headers : list EventStreamHeader :=
  message_headers
    [mkHeader (GG_STR "service-model-type") (EVENTSTREAM_STRING (GG_STR "aws.greengrass#IoTCoreMessage"));
     mkHeader (GG_STR ":content-type") (EVENTSTREAM_STRING (GG_STR "application/json"))].

(** Its members, which the decoder sorts. *)
Definition iot_object : list (bytes * jvalue) :=
  [(GG_STR "message", JObj [(GG_STR "payload", JStr (GG_STR "aGkh")); (GG_STR "topicName", JStr (GG_STR "t"))])].

Lemma iot_incoming c :
  incoming (env := subscribing_env) (fun _ => (0, false)) 3 iot_headers iot_payload [] example_ch iot_object
    (next_on (packet iot_headers iot_payload ++ []) c).
Proof.
  split.
  - exists 1%nat. split; [done|]. cbn. lia.
  - by apply (bool_decide_eq_true _); vm_compute.
  - by apply (bool_decide_eq_true _); vm_compute.
  - by vm_compute.
  - by vm_compute.
  - done.
  - eexists. by vm_compute.
Qed.

Lemma event_reaches_application_witness :
  let c := next_on (packet iot_headers iot_payload ++ []) subscribed_client in
  iot_core_event (GG_STR "aws.greengrass#IoTCoreMessage") iot_object = Some (GG_STR "t", GG_STR "aGkh") /\
  exists w m i h o c1 c', dispatch_incoming_packet (H := subscribing_env) 3 c = (Ok tt, c') /\
    sr_rel (r := gg_socket_reader (@os _ subscribing_env) (@retries _ subscribing_env) 3) w [] /\
    changes (recv_frame (env := subscribing_env)) (cmem c) m /\
    get_stream_index_from_id (streams c) (stream_id example_ch) = Some i /\ validate_handle (streams c) h = Ok i /\
    handled (env := subscribing_env) no_topic no_iot_core no_configuration IotCoreSubscription 11 12 h
      (GG_STR "aws.greengrass#IoTCoreMessage") iot_object (with_mem w m c) o c1 /\ event_left example_ch o c1 c'.
Proof.
  intros c. split; [by vm_compute|].
  pose proof subscribing_layout. pose proof subscribing_safe. pose proof subscribing_callbacks.
  refine (event_reaches_application (env := subscribing_env) no_topic no_iot_core no_configuration (fun _ => (0, false))
    (receiving_room (env := subscribing_env)) IotCoreSubscription 3 iot_headers iot_payload [] example_ch iot_object
    (GG_STR "aws.greengrass#IoTCoreMessage") 43 11 12 c _ _ _ _ _ _).
  - done.
  - apply iot_incoming.
  - exact (next_on_ok _ _ subscribed_ok).
  - by destruct reading_room as [H2 H3 H4]; split.
  - by vm_compute.
  - by vm_compute.
Defined.
