(* ===== verification/Configuration.v ===== *)
(** Responses to requests: what the library's own result callbacks do with a
    JSON object. A configuration value is copied to the caller's arena, or a
    string to the caller's buffer; a restart reports its status. *)

From S2P Require Import Prelude Memory Buffer Io EsDecode EsRpc Object JsonValue Map Visit Arena JsonStored JsonContainers JsonMaps Claim File Socket Streams Client Wp Registry Receiving Delivery IpcCalls Events Subscriptions.

(** ** The value of a response *)

Definition config_value (final_key : option bytes) (kvs : list (bytes * jvalue)) : option jvalue :=
  match jobj (GG_STR "value") kvs with
  | Some inner => Some
      match final_key, inner with
      | Some key, [(k, v)] => if bool_decide (k = key) && negb (bool_decide (jtype v = GG_TYPE_MAP)) then v else JObj inner
      | _, _ => JObj inner
      end
  | None => None
  end.

Section responses.
Context (R : Z -> Prop) (Rpos : forall x, R x -> 0 < x) (Rsize : forall a n, inside R a n -> n <= UINT16_MAX).
Context (m : mem).

(** Strings in a small region have lengths that fit. *)
Lemma string_fits R' b bs : (forall x, R' x -> R x) -> string_at R' m b bs -> zlen bs <= UINT16_MAX.
Proof using Rsize.
  intros Hsub (Hb & Hl & Hi). apply loadz_zlen in Hb. rewrite Z.max_r in Hb by done. rewrite Hb.
  eapply Rsize, inside_sub; [exact Hsub|exact Hi].
Qed.

Lemma represents_fits v : forall R' o, (forall x, R' x -> R x) -> represents R' m v o -> jfits v = true.
Proof using Rsize.
  induction v as [| | | |bs|vs IH|kvs IH] using jvalue_ind'; intros R' o Hsub Hr; try done.
  - destruct Hr as (b & _ & Hs). apply Z.leb_le. by eapply string_fits.
  - apply represents_JArr in Hr as (p & _ & _ & He). cbn [jfits].
    assert (forall x, apart R' p (sizeof_GgObject * zlen vs) x -> R x) as Hsub' by (intros x [Hx _]; by apply Hsub).
    revert He Hsub'. generalize (apart R' p (sizeof_GgObject * zlen vs)). intros R1 He Hsub'. revert p He.
    induction IH as [|v vs Hv _ IH]; intros p He; [done|]. destruct He as [(o' & _ & Ho) He]. cbn [forallb].
    rewrite (Hv _ _ Hsub' Ho). by eapply IH.
  - apply represents_JObj in Hr as (p & _ & _ & He). cbn [jfits].
    assert (forall x, apart R' p (sizeof_GgKV * zlen kvs) x -> R x) as Hsub' by (intros x [Hx _]; by apply Hsub).
    revert He Hsub'. generalize (apart R' p (sizeof_GgKV * zlen kvs)). intros R1 He Hsub'. revert p He.
    induction IH as [|kv kvs Hv _ IH]; intros p He; [done|]. destruct He as [(o' & _ & Hk & Ho) He]. cbn [forallb].
    rewrite (Hv _ _ Hsub' Ho). rewrite (proj2 (Z.leb_le _ _)) by by eapply string_fits. by eapply IH.
Qed.

(** A map that is the value of a member. *)
Lemma value_map p kvs : value_at R m p (JObj kvs) ->
  exists map, map_of m p = Some map /\ json_map_at (apart R p sizeof_GgObject) m map kvs.
Proof using Type.
  intros (_ & _ & o & Ho & Hr). destruct (represents_map _ _ _ _ Hr) as (map & Hm & Hat). exists map.
  split; [|done]. unfold map_of. by rewrite Ho.
Qed.

(** The value of the only pair of a map. *)
Lemma single_value (R' : Z -> Prop) map k v : (forall x, R' x -> R x) -> json_map_at R' m map [(k, v)] ->
  map_len map = 1 /\ exists pair, read_kv m (pairs map) = Some pair /\ string_at R m (gg_kv_key pair) k /\
    value_at R m (gg_kv_val (pairs map)) v.
Proof using Rpos.
  intros Hsub (Hl & Hi & (pair & Hp & Hk & Hv) & _). split; [done|]. exists pair. split; [done|]. split.
  { eapply string_at_frame; [|by intros ?|exact Hk]. intros x [Hx _]. by apply Hsub. }
  change (sizeof_GgKV * zlen [(k, v)]) with 21 in *.
  assert (inside R (gg_kv_val (pairs map)) sizeof_GgObject) as Hin.
  { intros x Hx. apply Hsub, Hi. unfold gg_kv_val, sizeof_GgObject in Hx. lia. }
  split; [apply Rpos, Hin; unfold sizeof_GgObject; lia|]. split; [exact Hin|]. eexists. split; [by apply read_kv_value|].
  eapply represents_frame; [|by intros ?|exact Hv]. intros x [Hx Hx']. split; [by apply Hsub|].
  unfold gg_kv_val, sizeof_GgObject. lia.
Qed.

Lemma resp_value resp kvs final_key : json_map_at R m resp kvs ->
  match config_value final_key kvs with
  | None => get_resp_value m resp final_key = Fail GG_ERR_INVALID
  | Some v => exists p, get_resp_value m resp final_key = Ok p /\ value_at R m p v
  end.
Proof using Rpos.
  intros Hm. unfold get_resp_value, config_value, jobj.
  pose proof (require1 R Rpos m resp kvs (GG_STR "value") GG_TYPE_MAP GG_ERR_INVALID Hm ltac:(done)) as H. unfold required in H.
  destruct (jwant (GG_STR "value") GG_TYPE_MAP kvs) as [w|] eqn:Hw; cbn [mbind option_bind]; [|by rewrite H].
  pose proof (jwant_type _ _ _ _ Hw) as Ht. destruct w as [| | | | | |inner]; try done. clear Hw Ht.
  destruct H as (vars & p & -> & Hp & Hv). cbn [mbind outcome_bind]. rewrite Hp. cbn [get mbind outcome_bind].
  destruct (value_map _ _ Hv) as (map & Hmap & Hat). rewrite Hmap. cbn [get mbind outcome_bind].
  destruct final_key as [key|]; [|by exists p].
  destruct inner as [|[k v] [|kv inner]].
  - destruct Hat as (Hl & _). rewrite Hl. by exists p.
  - destruct (single_value _ _ _ _ (apart_in R p sizeof_GgObject) Hat) as (Hl & pair & Hpair & (Hk & Hkl & _) & Hval).
    rewrite Hl. cbn [Z.eqb negb]. change (1 =? 1) with true. cbn [negb]. rewrite Hpair. cbn [get mbind outcome_bind].
    erewrite gg_buffer_eq_in_spec by done. cbn [get mbind outcome_bind].
    case_bool_decide as Hkey; cbn [negb andb]; [|by exists p]. pose proof Hval as (o & Ho & Hr)%value_represents. rewrite Ho.
    cbn [get mbind outcome_bind]. rewrite (represents_type _ _ _ _ Hr). cbn [get mbind outcome_bind].
    case_bool_decide; cbn [negb]; [by exists p|]. by eexists.
  - destruct Hat as (Hl & _). rewrite Hl, !zlen_cons. pose proof (zlen_nonneg inner).
    rewrite (proj2 (Z.eqb_neq _ _)) by lia. by exists p.
Qed.

(** ** Copies *)

(** The unused part of an arena, and the arena with more of it used. *)
Definition unused (a : GgArena) : Z -> Prop := zrange (arena_mem a + index a) (arena_mem a + capacity a).
Definition extends (a a' : GgArena) : Prop :=
  arena_ok a' /\ arena_mem a' = arena_mem a /\ capacity a' = capacity a /\ index a <= index a'.

(** What copying the value of a response to [dst] gives: the value with all of
    its parts in the arena, of which exactly their size is used up; or why not. *)
Definition config_copied (final_key : option bytes) (kvs : list (bytes * jvalue)) (dst : Z) (a : GgArena)
    (o : outcome unit) (m' : mem) (a' : GgArena) : Prop :=
  match config_value final_key kvs with
  | None => o = Fail GG_ERR_INVALID
  | Some v =>
      if dst =? NULL then o = Ok tt else
      let limits := value_limits (Z.to_nat GG_MAX_OBJECT_DEPTH) 0 v in
      if limits && (jclaim v <=? capacity a - index a) then
        o = Ok tt /\ index a' = index a + jclaim v /\
        exists obj, read_obj m' dst = Some obj /\ represents (zrange (arena_mem a + index a) (arena_mem a + index a')) m' v obj
      else exists e, o = Fail e /\ refusal limits (jclaim v <=? capacity a - index a) e
  end.

Lemma copy_obj_run a dst final_key resp kvs :
  json_map_at R m resp kvs -> arena_ok a -> mapped m (arena_mem a) (capacity a) ->
  (forall x, R x -> ~ zrange (arena_mem a) (arena_mem a + capacity a) x) ->
  (dst <> NULL -> mapped m dst sizeof_GgObject) ->
  (forall x, zrange dst (dst + sizeof_GgObject) x -> dst <> NULL -> ~ R x /\ ~ unused a x) ->
  exists o m' a', copy_config_obj m dst (Some a) final_key resp = (o, m', Some a') /\ extends a a' /\ o <> Stuck /\
    changes (fun x => R x \/ (dst <> NULL /\ zrange dst (dst + sizeof_GgObject) x) \/ unused a x) m m' /\
    config_copied final_key kvs dst a o m' a'.
Proof using Rpos Rsize.
  intros Hm Ha Hma HR Hdst Hapart. unfold copy_config_obj, config_copied. pose proof (resp_value resp kvs final_key Hm) as Hv.
  assert (extends a a) as Hrefl by by (split_and!; [done|done|done|lia]).
  destruct (config_value final_key kvs) as [v|]; [|rewrite Hv; by exists (Fail GG_ERR_INVALID), m, a].
  destruct Hv as (p & -> & Hp & Hin & o & Ho & Hr). destruct (dst =? NULL) eqn:Hnull; zify_bool; [by exists (Ok tt), m, a|].
  specialize (Hdst Hnull).
  destruct (arena_claim_run m p a (apart R p sizeof_GgObject) v o Ha Hma) as (e & m1 & a1 & Hrun & Ha1 & H1 & H2 & H3 & Hch & Hres).
  - intros x [Hx _]. by apply HR.
  - done.
  - done.
  - intros x Hx. split; [by intros [_ ?]|]. intros Hf. apply (HR x); [by apply Hin|]. destruct Ha as (_ & ? & _). unfold zrange in *. lia.
  - eapply represents_fits; [|exact Hr]. apply apart_in.
  - rewrite Hrun. assert (extends a a1) as Hext by done.
    assert (changes (fun x => R x \/ (dst <> NULL /\ zrange dst (dst + sizeof_GgObject) x) \/ unused a x) m m1) as Hch1.
    { eapply changes_sub; [exact Hch|]. intros x [Hx|Hx]; [left; by apply Hin|by right; right]. }
    cbv zeta in Hres |- *. destruct (_ && (jclaim v <=? capacity a - index a)).
    2:{ rewrite bool_decide_false by by eapply refusal_error. cbn [negb]. exists (Fail e), m1, a1. split_and!; try done. by exists e. }
    destruct Hres as (-> & H4 & o1 & Ho1 & Hrep). rewrite bool_decide_true by done. cbn [negb]. rewrite Ho1. cbn [mbind option_bind].
    assert (zlen o1 = sizeof_GgObject) as Hz by (by apply loadz_zlen in Ho1).
    destruct (store_Some m1 dst o1) as [m2 Hst]; [rewrite Hz; eapply changes_mapped; [exact Hch|done]|]. rewrite Hst.
    pose proof (store_changes _ _ _ _ Hst) as Hch2. rewrite Hz in Hch2.
    exists (Ok tt), m2, a1. split; [done|]. split; [done|]. split; [done|]. split.
    + eapply changes_trans; [exact Hch1|]. eapply changes_sub; [exact Hch2|]. intros x Hx. right; left. by split.
    + split; [done|]. split; [done|]. exists o1. split; [unfold read_obj; rewrite <- Hz; by eapply loadz_store_same|].
      eapply represents_frame; [done| |exact Hrep]. intros x Hx. apply Hch2. intros Hx'.
      destruct (Hapart x Hx' Hnull) as [_ Hu]. apply Hu. destruct Ha1 as (_ & ? & _). unfold unused, zrange in *. lia.
Qed.

(** A string goes to the caller's buffer, which then has its length. *)
Definition config_string_copied (final_key : option bytes) (kvs : list (bytes * jvalue)) (dst : option BufPtr)
    (o : outcome (option BufPtr)) (m' : mem) : Prop :=
  match config_value final_key kvs with
  | None => o = Fail GG_ERR_INVALID
  | Some (JStr bs) =>
      match dst with
      | None => o = Ok None
      | Some buf =>
          if zlen bs <=? len buf then
            exists b, o = Ok (Some b) /\ string_at (zrange (data buf) (data buf + zlen bs)) m' b bs
          else o = Fail GG_ERR_NOMEM
      end
  | Some _ => o = Fail GG_ERR_FAILURE
  end.

Lemma copy_buf_run dst final_key resp kvs :
  json_map_at R m resp kvs ->
  (forall buf, dst = Some buf -> 0 < data buf /\ 0 <= len buf <= UINT32_MAX /\ data buf + len buf <= SIZE_MAX /\
     mapped m (data buf) (len buf) /\ forall x, R x -> ~ zrange (data buf) (data buf + len buf) x) ->
  exists o m', copy_config_buf m dst final_key resp = (o, m') /\ o <> Stuck /\
    changes (fun x => exists buf, dst = Some buf /\ zrange (data buf) (data buf + len buf) x) m m' /\
    config_string_copied final_key kvs dst o m'.
Proof using Rpos Rsize.
  intros Hm Hdst. unfold copy_config_buf, config_string_copied. pose proof (resp_value resp kvs final_key Hm) as Hv.
  destruct (config_value final_key kvs) as [v|]; [|rewrite Hv; by exists (Fail GG_ERR_INVALID), m].
  destruct Hv as (p & -> & (o & Ho & Hr)%value_represents). rewrite Ho. cbn [get mbind outcome_bind].
  rewrite (represents_type _ _ _ _ Hr). cbn [get mbind outcome_bind].
  destruct v as [| | | |bs| |]; cbn [jtype]; case_bool_decide as Hty; try discriminate Hty; cbn [negb];
    try (by exists (Fail GG_ERR_FAILURE), m).
  destruct dst as [buf|]; [|by exists (Ok None), m].
  destruct (Hdst buf eq_refl) as (Hd & Hl & Hs & Hmap & HR). destruct (represents_str _ _ _ _ Hr) as (b & Hb & Hat).
  rewrite Hb. cbn [mbind option_bind]. unfold gg_arena_init. rewrite (proj2 (Z.leb_le (len buf) UINT32_MAX)) by lia.
  rewrite uwrap_small by (unfold UINT32_MAX in *; lia).
  destruct (claim_buf_run (data buf) (len buf) Hd Hl Hs R HR 0 m b bs ltac:(lia) Hmap Hat (string_fits R _ _ (fun x Hx => Hx) Hat))
    as (e & m1 & b1 & j & Hrun & Hch & Hj & _ & Hres). unfold arena in Hrun. rewrite Hrun. rewrite Z.sub_0_r in Hres.
  assert (changes (fun x => exists buf0, Some buf = Some buf0 /\ zrange (data buf0) (data buf0 + len buf0) x) m m1) as Hch1.
  { eapply changes_sub; [exact Hch|]. intros x Hx. exists buf. split; [done|]. unfold free_part, zrange in *. lia. }
  destruct (zlen bs <=? len buf).
  - destruct Hres as (-> & -> & Hat1 & _). rewrite bool_decide_true by done. exists (Ok (Some b1)), m1. split_and!; try done.
    exists b1. split; [done|]. unfold between in Hat1. rewrite Z.add_0_r, Z.add_0_l in Hat1. exact Hat1.
  - subst e. by exists (Fail GG_ERR_NOMEM), m1.
Qed.

(** The status of a restart. *)
Lemma restart_run resp kvs : json_map_at R m resp kvs ->
  restart_component_response_handler m resp =
    match jbuf (GG_STR "restartStatus") kvs with
    | Some status => if bool_decide (status = GG_STR "FAILED") then Fail GG_ERR_FAILURE else Ok tt
    | None => Fail GG_ERR_FAILURE
    end.
Proof using Rpos.
  intros Hm. unfold restart_component_response_handler, jbuf.
  pose proof (require1 R Rpos m resp kvs (GG_STR "restartStatus") GG_TYPE_BUF GG_ERR_FAILURE Hm ltac:(done)) as H. unfold required in H.
  destruct (jwant (GG_STR "restartStatus") GG_TYPE_BUF kvs) as [w|] eqn:Hw; cbn [mbind option_bind]; [|by rewrite H].
  pose proof (jwant_type _ _ _ _ Hw) as Ht. destruct w as [| | | |bs| |]; try done.
  destruct H as (vars & p & -> & Hp & (o & Ho & Hr)%value_represents). cbn [mbind outcome_bind]. rewrite Hp. cbn [get mbind outcome_bind].
  destruct (represents_str _ _ _ _ Hr) as (b & Hb & Hs & _). unfold buf_at. rewrite Ho. cbn [mbind option_bind]. rewrite Hb.
  cbn [mbind option_bind]. rewrite Hs. cbn [get mbind outcome_bind]. by rewrite gg_buffer_eq_decide.
Qed.
End responses.

(** C15: A configuration value that is a string is copied to the caller's buffer,
    whose length becomes that of the string; a response without a value, a value
    that is not a string and a buffer that is too small are refused with the
    error of each, and nothing outside of the buffer is written. *)
Theorem config_string_exact (R : Z -> Prop) (m : mem) (dst : option BufPtr) (final_key : option bytes) (resp : GgMap)
    (kvs : list (bytes * jvalue)) :
  (forall x, R x -> 0 < x) -> (forall a n, inside R a n -> n <= UINT16_MAX) -> json_map_at R m resp kvs ->
  (forall buf, dst = Some buf -> 0 < data buf /\ 0 <= len buf <= UINT32_MAX /\ data buf + len buf <= SIZE_MAX /\
     mapped m (data buf) (len buf) /\ forall x, R x -> ~ zrange (data buf) (data buf + len buf) x) ->
  exists o m', copy_config_buf m dst final_key resp = (o, m') /\ o <> Stuck /\
    changes (fun x => exists buf, dst = Some buf /\ zrange (data buf) (data buf + len buf) x) m m' /\
    config_string_copied final_key kvs dst o m'.
Proof. intros Rpos Rsize. by apply copy_buf_run. Qed.

Lemma mapped_all (m : mem) a n : bool_decide (Forall (fun y => is_Some (m !! y)) (seqZ a n)) = true -> mapped m a n.
Proof. intros Hall%bool_decide_eq_true x Hx. rewrite Forall_forall in Hall. apply Hall, elem_of_seqZ. lia. Qed.

(** The response [{"value":{"k":"hi"}}] to a request for [k]. *)
Definition string_response_mem : mem :=
  put (put (put (zeroed 4096 64) 10 (GG_STR "valuekhi"))
    200 (string_pair (mkBuf 15 1) (mkBuf 16 2)))
    100 (default [] (o ← gg_obj_map (mkMap 200 1); gg_kv (mkBuf 10 5) o)).
Definition string_response : list (bytes * jvalue) := [(GG_STR "value", JObj [(GG_STR "k", JStr (GG_STR "hi"))])].

Lemma string_response_at : json_map_at (zrange 1 1000) string_response_mem (mkMap 100 1) string_response.
Proof.
  assert (forall k a n, 1 <= a -> a + n <= 100 -> inside (apart (zrange 1 1000) 100 k) a n) as H1.
  { intros k a n Ha Hn x Hx. unfold apart, zrange. lia. }
  assert (forall k k' a n, 1 <= a -> a + n <= 100 -> inside (apart (apart (zrange 1 1000) 100 k) 200 k') a n) as H2.
  { intros k k' a n Ha Hn x Hx. unfold apart, zrange. lia. }
  split; [done|]. split; [intros x Hx; change (100 <= x < 121) in Hx; unfold zrange; lia|]. cbn [string_response members_at]. split; [|done].
  eexists. split; [by vm_compute|]. split.
  { split; [by vm_compute|]. split; [by vm_compute|]. by apply H1; vm_compute. }
  cbn [snd]. rewrite represents_JObj. exists 200. split; [by vm_compute|]. split.
  { intros x Hx. change (200 <= x < 221) in Hx. change (apart (zrange 1 1000) 100 21 x). unfold apart, zrange. lia. }
  cbn [members_at]. split; [|done]. eexists. split; [by vm_compute|]. split.
  { split; [by vm_compute|]. split; [by vm_compute|]. by apply H2; vm_compute. }
  eexists. split; [by vm_compute|]. split; [by vm_compute|]. split; [by vm_compute|]. by apply H2; vm_compute.
Qed.

Lemma config_string_exact_witness :
  exists o m', copy_config_buf string_response_mem (Some (mkBuf 4096 64)) (Some (GG_STR "k")) (mkMap 100 1) = (o, m') /\ o <> Stuck /\
    changes (fun x => exists buf, Some (mkBuf 4096 64) = Some buf /\ zrange (data buf) (data buf + len buf) x) string_response_mem m' /\
    config_string_copied (Some (GG_STR "k")) string_response (Some (mkBuf 4096 64)) o m'.
Proof.
  refine (config_string_exact (zrange 1 1000) string_response_mem (Some (mkBuf 4096 64)) (Some (GG_STR "k")) (mkMap 100 1)
    string_response _ _ string_response_at _).
  - intros x Hx. unfold zrange in Hx. lia.
  - intros a n Hi. destruct (Z_le_gt_dec n UINT16_MAX) as [?|Hn]; [done|]. unfold UINT16_MAX in *.
    assert (zrange 1 1000 a) as H1 by (apply Hi; lia). assert (zrange 1 1000 (a + 1000)) as H2 by (apply Hi; lia).
    unfold zrange in *. lia.
  - intros buf [= <-]. split_and!; [by vm_compute|by vm_compute|by vm_compute|by vm_compute|by apply mapped_all; vm_compute|].
    unfold zrange. cbn [data len]. lia.
Defined.

(** ** The callbacks

    [CopyObjectCtx] and [CopyBufferCtx] are structures of pointers in the frame
    of the caller; [GgBuffer] and [GgArena] are structures of a pointer and
    sizes. *)

Definition read_u32 (m : mem) (a : Z) : option Z := bs ← loadz m a 4; Some (le_val bs).

Definition read_arena (m : mem) (a : Z) : option GgArena :=
  mem ← read_ptr m a; capacity ← read_u32 m (a + 8); index ← read_u32 m (a + 12); Some (mkArena mem capacity index).
Definition arena_bytes (a : GgArena) : bytes :=
  le_bytes 8 (arena_mem a) ++ (le_bytes 4 (capacity a) ++ le_bytes 4 (index a)).

(** [*final_key], if the pointer is not null. *)
Definition read_final_key (m : mem) (p : Z) : option (option bytes) :=
  if p =? NULL then Some None else b ← read_buffer m p; bs ← buf_bytes m b; Some (Some bs).

Section callbacks.
Context {W : Type}.

Definition copy_config_obj_callback (ctx : Z) (result : GgMap) : sysm (client W) unit :=
  on_mem (fun w m =>
    value ← read_ptr m ctx;
    alloc ← read_ptr m (ctx + 8);
    final_key ← read_ptr m (ctx + 16);
    final_key ← read_final_key m final_key;
    arena ← (if alloc =? NULL then Some None else a ← read_arena m alloc; Some (Some a));
    let '(o, m, arena) := copy_config_obj m value arena final_key result in
    m ← match arena with Some a => store m alloc (arena_bytes a) | None => Some m end;
    Some (o, w, m)).

Definition copy_config_buf_callback (ctx : Z) (result : GgMap) : sysm (client W) unit :=
  on_mem (fun w m =>
    value ← read_ptr m ctx;
    final_key ← read_ptr m (ctx + 8);
    final_key ← read_final_key m final_key;
    dst ← (if value =? NULL then Some None else b ← read_buffer m value; Some (Some b));
    let '(o, m) := copy_config_buf m dst final_key result in
    m ← match o with Ok (Some b) => store m value (buffer_bytes b) | _ => Some m end;
    Some (_ ← o; Ok tt, w, m)).

Definition restart_component_callback (ctx : Z) (result : GgMap) : sysm (client W) unit :=
  m ← gets cmem; lift_out (restart_component_response_handler m result).

Lemma response_callbacks_close ctx map :
  keeps only_closes (copy_config_obj_callback ctx map) /\ keeps only_closes (copy_config_buf_callback ctx map) /\
  keeps only_closes (restart_component_callback ctx map).
Proof. split_and!; unfold copy_config_obj_callback, copy_config_buf_callback, restart_component_callback; frames. Qed.
End callbacks.

(** *** The structures *)

Lemma read_ptr_ext (m m' : mem) a : (forall x, a <= x < a + 8 -> m' !! x = m !! x) -> read_ptr m' a = read_ptr m a.
Proof. intros H. unfold read_ptr. by rewrite (loadz_ext m m') by exact H. Qed.

Lemma read_buffer_ext (m m' : mem) a : (forall x, a <= x < a + 16 -> m' !! x = m !! x) -> read_buffer m' a = read_buffer m a.
Proof. intros H. unfold read_buffer. rewrite !(read_ptr_ext m m'); [done|intros x Hx; apply H; lia..]. Qed.

Lemma read_arena_ext (m m' : mem) a : (forall x, a <= x < a + 16 -> m' !! x = m !! x) -> read_arena m' a = read_arena m a.
Proof.
  intros H. unfold read_arena, read_u32. rewrite (read_ptr_ext m m') by (intros x Hx; apply H; lia).
  rewrite !(loadz_ext m m'); [done|intros x Hx; apply H; lia..].
Qed.

Lemma zlen_arena_bytes a : zlen (arena_bytes a) = 16.
Proof. unfold arena_bytes. rewrite !zlen_app, !zlen_le_bytes. lia. Qed.

Lemma read_arena_store m m' p a : arena_ok a -> store m p (arena_bytes a) = Some m' -> read_arena m' p = Some a.
Proof.
  intros (Hm & Hi & Hc & Hs) Hst. apply loadz_store_same in Hst. rewrite zlen_arena_bytes in Hst.
  unfold read_arena, read_ptr, read_u32, arena_bytes in *.
  pose proof (loadz_sub _ _ _ _ 0 8 Hst ltac:(lia) ltac:(lia) ltac:(lia)) as H0.
  pose proof (loadz_sub _ _ _ _ 8 4 Hst ltac:(lia) ltac:(lia) ltac:(lia)) as H1.
  pose proof (loadz_sub _ _ _ _ 12 4 Hst ltac:(lia) ltac:(lia) ltac:(lia)) as H2.
  rewrite Z.add_0_r in H0. rewrite H0, H1, H2. cbn [mbind option_bind].
  rewrite zdrop_0, ztake_app_exact by (by rewrite zlen_le_bytes). rewrite zdrop_app_exact by (by rewrite zlen_le_bytes).
  rewrite ztake_app_exact by (by rewrite zlen_le_bytes).
  rewrite app_assoc, zdrop_app_exact by (by rewrite zlen_app, !zlen_le_bytes).
  rewrite ztake_all by (rewrite zlen_le_bytes; lia).
  unfold SIZE_MAX, UINT32_MAX in *. rewrite (le_val_bytes 8), !(le_val_bytes 4) by (cbn; lia). by destruct a.
Qed.

(** ** A request for a value *)

(** The context of a request: where the value goes, the arena, and the last key
    with its [GgBuffer]. *)
Record config_request := mkConfigRequest { rq_ctx : Z; rq_value : Z; rq_alloc : Z; rq_key : option (Z * BufPtr * bytes) }.
Definition key_bytes (q : config_request) : option bytes := snd <$> rq_key q.

(** What the callback only reads, and what it writes besides the arena's block. *)
Definition rq_reads (q : config_request) (x : Z) : Prop :=
  zrange (rq_ctx q) (rq_ctx q + 24) x \/
  match rq_key q with
  | None => False
  | Some (p, b, _) => zrange p (p + 16) x \/ zrange (data b) (data b + len b) x
  end.
Definition rq_dst (q : config_request) (x : Z) : Prop :=
  rq_value q <> NULL /\ zrange (rq_value q) (rq_value q + sizeof_GgObject) x.
Definition rq_struct (q : config_request) : Z -> Prop := zrange (rq_alloc q) (rq_alloc q + 16).

(** It is in memory, with an arena. *)
Record requested (q : config_request) (m : mem) (a : GgArena) : Prop := {
  rq_at_value : read_ptr m (rq_ctx q) = Some (rq_value q);
  rq_at_alloc : read_ptr m (rq_ctx q + 8) = Some (rq_alloc q);
  rq_at_key : exists p, read_ptr m (rq_ctx q + 16) = Some p /\
    match rq_key q with
    | None => p = NULL
    | Some (p', b, bs) => p = p' /\ p <> NULL /\ read_buffer m p = Some b /\ buf_bytes m b = Some bs /\ 0 <= len b
    end;
  rq_at_arena : rq_alloc q <> NULL /\ read_arena m (rq_alloc q) = Some a /\ arena_ok a;
  rq_block : mapped m (arena_mem a) (capacity a);
  rq_dst_mapped : rq_value q <> NULL -> mapped m (rq_value q) sizeof_GgObject;
}.

(** These parts are apart from each other, and from a region. *)
Record request_apart (q : config_request) (a : GgArena) (R : Z -> Prop) : Prop := {
  apart_region : forall x, rq_reads q x \/ rq_dst q x \/ rq_struct q x \/ zrange (arena_mem a) (arena_mem a + capacity a) x -> ~ R x;
  apart_reads : forall x, rq_reads q x -> ~ (rq_dst q x \/ rq_struct q x \/ zrange (arena_mem a) (arena_mem a + capacity a) x);
  apart_dst : forall x, rq_dst q x -> ~ (rq_struct q x \/ zrange (arena_mem a) (arena_mem a + capacity a) x);
  apart_struct : forall x, rq_struct q x -> ~ zrange (arena_mem a) (arena_mem a + capacity a) x;
}.

(** What is read of a request stays the same where the memory does. *)
Lemma requested_frame q m m' a a' : requested q m a -> (forall x, rq_reads q x -> m' !! x = m !! x) ->
  (forall x n, mapped m x n -> mapped m' x n) -> arena_mem a' = arena_mem a -> capacity a' = capacity a -> arena_ok a' ->
  read_arena m' (rq_alloc q) = Some a' -> requested q m' a'.
Proof.
  intros [H1 H2 (p & Hp & Hk) (Hne & _) Hb Hd] Hsame Hmap Hm Hc Ha Hr.
  assert (forall k, 0 <= k <= 16 -> read_ptr m' (rq_ctx q + k) = read_ptr m (rq_ctx q + k)) as Hctx.
  { intros k Hk'. apply read_ptr_ext. intros x Hx. apply Hsame. left. unfold zrange. lia. }
  split.
  - rewrite <- (Z.add_0_r (rq_ctx q)), Hctx by lia. by rewrite Z.add_0_r.
  - by rewrite Hctx.
  - exists p. rewrite Hctx by lia. split; [done|]. unfold rq_reads in Hsame. destruct (rq_key q) as [[[p' b] bs]|]; [|done].
    destruct Hk as (-> & Hnn & Hb' & Hbs & Hl). split_and!; try done.
    + rewrite (read_buffer_ext m m'); [done|]. intros x Hx. apply Hsame. right; left. exact Hx.
    + unfold buf_bytes in *. rewrite (loadz_ext m m'); [done|]. intros x Hx. apply Hsame. right; right. exact Hx.
  - done.
  - rewrite Hm, Hc. by apply Hmap.
  - intros Hv. by apply Hmap, Hd.
Qed.

Lemma requested_changes q m m' a R : requested q m a -> request_apart q a R -> changes R m m' -> requested q m' a.
Proof.
  intros Hq Hap Hch. assert (forall x, rq_reads q x \/ rq_struct q x -> m' !! x = m !! x) as Hsame.
  { intros x Hx. apply Hch. apply (apart_region _ _ _ Hap). tauto. }
  apply (requested_frame q m m' a a Hq); [auto|by intros x n; apply (changes_mapped _ _ _ _ _ Hch)|done|done|apply Hq|].
  rewrite (read_arena_ext m m'); [apply Hq|]. intros x Hx. apply Hsame. right. exact Hx.
Qed.

Section request.
Context {W : Type} (R : Z -> Prop) (Rpos : forall x, R x -> 0 < x) (Rsize : forall a n, inside R a n -> n <= UINT16_MAX).
Context (q : config_request).

(** What the callback does with a response. *)
Definition answered_with (kvs : list (bytes * jvalue)) (a : GgArena) (o : outcome unit) (m m' : mem) : Prop :=
  exists a', requested q m' a' /\ extends a a' /\
    changes (fun x => R x \/ rq_dst q x \/ rq_struct q x \/ unused a x) m m' /\
    config_copied (key_bytes q) kvs (rq_value q) a o m' a'.

Lemma copy_obj_callback_run (c : client W) a map kvs :
  requested q (cmem c) a -> request_apart q a R -> json_map_at R (cmem c) map kvs ->
  exists o m', copy_config_obj_callback (rq_ctx q) map c = (o, with_mem (sys c) m' c) /\ o <> Stuck /\
    answered_with kvs a o (cmem c) m'.
Proof using Rpos Rsize.
  intros Hq Hap Hm. pose proof Hq as [Hv Hal (p & Hp & Hk) (Hne & Har & Ha) Hb Hd].
  assert (forall x, unused a x -> zrange (arena_mem a) (arena_mem a + capacity a) x) as Hun.
  { intros x Hx. destruct Ha as (_ & ? & _). unfold unused, zrange in *. lia. }
  destruct (copy_obj_run R Rpos Rsize (cmem c) a (rq_value q) (key_bytes q) map kvs Hm Ha Hb) as (o & m1 & a1 & Hrun & Hext & Hns & Hch & Hres).
  { intros x Hx Hz. apply (apart_region _ _ _ Hap x); [tauto|done]. }
  { exact Hd. }
  { intros x Hx Hnn. split; [apply (apart_region _ _ _ Hap x); right; left; by split|].
    intros Hu. apply (apart_dst _ _ _ Hap x); [by split|]. right. by apply Hun. }
  pose proof Hext as (Ha1 & Hm1 & Hc1 & Hi1).
  assert (mapped m1 (rq_alloc q) (zlen (arena_bytes a1))) as Hms.
  { rewrite zlen_arena_bytes. eapply changes_mapped; [exact Hch|]. intros x Hx. clear -Har Hx. unfold read_arena, read_ptr, read_u32 in Har.
    destruct (loadz (cmem c) (rq_alloc q) 8) eqn:E1; [|done]. cbn [mbind option_bind] in Har.
    destruct (loadz (cmem c) (rq_alloc q + 8) 4) eqn:E2; [|done]. cbn [mbind option_bind] in Har.
    destruct (loadz (cmem c) (rq_alloc q + 12) 4) eqn:E3; [|done].
    apply loadz_is_mapped in E1, E2, E3. destruct (Z_lt_le_dec x (rq_alloc q + 8)); [apply E1; lia|].
    destruct (Z_lt_le_dec x (rq_alloc q + 12)); [apply E2; lia|apply E3; lia]. }
  destruct (store_Some _ _ _ Hms) as [m2 Hst]. pose proof (store_changes _ _ _ _ Hst) as Hch2. rewrite zlen_arena_bytes in Hch2.
  assert (changes (fun x => R x \/ rq_dst q x \/ rq_struct q x \/ unused a x) (cmem c) m2) as Hchanges.
  { eapply changes_trans; (eapply changes_sub; [eassumption|]); unfold rq_dst, rq_struct; intros x Hx; tauto. }
  exists o, m2. split; [|split; [exact Hns|]].
  { unfold copy_config_obj_callback, on_mem. rewrite Hv, Hal, Hp. cbn [mbind option_bind].
    assert (read_final_key (cmem c) p = Some (key_bytes q)) as ->.
    { unfold read_final_key, key_bytes. destruct (rq_key q) as [[[p' b] bs]|]; [|by rewrite Hk].
      destruct Hk as (-> & Hnn & -> & Hbs & _). rewrite (proj2 (Z.eqb_neq _ _)) by done. cbn [mbind option_bind]. by rewrite Hbs. }
    cbn [mbind option_bind]. rewrite (proj2 (Z.eqb_neq (rq_alloc q) NULL)) by done. rewrite Har. cbn [mbind option_bind].
    rewrite Hrun, Hst. by cbn [mbind option_bind]. }
  exists a1. split; [|split; [exact Hext|split; [exact Hchanges|]]].
  - apply (requested_frame q (cmem c) m2 a a1 Hq); try done.
    + intros x Hx. apply Hchanges. intros [HRx|Hw].
      * apply (apart_region _ _ _ Hap x); [tauto|done].
      * apply (apart_reads _ _ _ Hap x Hx). destruct Hw as [?|[?|?]]; [tauto..|]. right; right. by apply Hun.
    + intros x n. by apply (changes_mapped _ _ _ _ _ Hchanges).
    + by eapply read_arena_store.
  - unfold config_copied in *. destruct (config_value (key_bytes q) kvs) as [v|]; [|done].
    destruct (rq_value q =? NULL) eqn:Hnull; zify_bool; [done|]. cbv zeta in *. destruct (_ && _); [|done].
    destruct Hres as (-> & H4 & obj & Hobj & Hrep). split; [done|]. split; [done|]. exists obj. split.
    + unfold read_obj in *. rewrite <- Hobj. apply (changes_loadz _ _ _ _ _ Hch2). intros x Hx Hs.
      apply (apart_dst _ _ _ Hap x); [by split|]. by left.
    + eapply represents_frame; [done| |exact Hrep]. intros x Hx. apply Hch2. intros Hs.
      apply (apart_struct _ _ _ Hap x Hs). destruct Ha as (_ & ? & _), Ha1 as (_ & ? & _). unfold zrange in *. lia.
Qed.
End request.

Lemma request_apart_sub q a a' (R R' : Z -> Prop) : request_apart q a R -> (forall x, R' x -> R x) ->
  arena_mem a' = arena_mem a -> capacity a' = capacity a -> request_apart q a' R'.
Proof.
  intros [H1 H2 H3 H4] HR Hm Hc. split; rewrite ?Hm, ?Hc; try done. intros x Hx HR'. by apply (H1 x Hx), HR.
Qed.

(** ** From the connection to the arena *)

Section delivery.
Context `{env : ClientEnv W} (to_f64 : bytes -> Z * bool) `{!ReceivingLayout to_f64}.
Abbreviation client := (client W).
Implicit Types c : client.

(** What the client asks of its callbacks: the copy keeps the request in
    memory, with some of the arena used up. *)
Definition config_room (q : config_request) (m : mem) : Prop :=
  receiving_room m /\ exists a, requested q m a /\ request_apart q a recv_frame.

Lemma config_room_frame q m m' : config_room q m -> changes recv_frame m m' -> config_room q m'.
Proof using Type.
  intros (Hr & a & Hq & Hap) Hch. split; [by eapply receiving_room_changes|]. exists a. split; [|done].
  by eapply requested_changes.
Qed.

Lemma copy_config_obj_safe q map kvs c : config_room q (cmem c) -> json_map_at recv_region (cmem c) map kvs ->
  wp (copy_config_obj_callback (rq_ctx q) map) (kept (config_room q)) c.
Proof using All.
  intros (Hr & a & Hq & Hap) Hm.
  destruct (copy_obj_callback_run recv_region (recv_region_positive to_f64) (recv_region_size to_f64) q c a map kvs Hq
    (request_apart_sub _ _ _ _ _ Hap (fun x Hx => or_introl Hx) eq_refl eq_refl) Hm) as (o & m' & Hrun & Hns & a' & Hq' & (_ & Hma & Hca & _) & Hch & _).
  assert (config_room q m') as Hroom.
  { split; [by eapply receiving_room_changes|]. exists a'. split; [done|]. by eapply request_apart_sub. }
  destruct o as [[]|e|]; [| |done].
  - eapply (wp_same _ (mret tt) _ c (with_mem (sys c) m' c)); [by rewrite Hrun|by apply wp_ret].
  - eapply (wp_same _ (fail e) _ c (with_mem (sys c) m' c)); [by rewrite Hrun|by apply wp_fail].
Qed.

(** C9: The response to a request for a configuration value, once it is next on
    the connection, ends the call that asked for it: the caller's object denotes
    the value of the response (of its only entry, if that has the last key of the
    request) as a deep copy in the caller's arena, of which exactly the size of
    the value is used up, and the call succeeds; or the call has the error that
    says why not, when the response has no value, the value has too many parts or
    levels, or the arena no room. *)
Theorem config_value_delivered (I : mem -> Prop) `{!SafeCallbacks I} `{!WellBehaved env} conn `{!FdReads os conn}
    hs pl rest ch kvs x call q a c :
  (forall map, result_fn (result_callback (call_ctx call)) (response_ctx (call_ctx call)) map =
     copy_config_obj_callback (rq_ctx q) map) ->
  requested q (cmem c) a -> request_apart q a recv_frame ->
  incoming to_f64 conn hs pl rest ch kvs c -> client_ok c -> I (cmem c) ->
  entries (abs c) !! stream_id ch = Some (Pending x) -> calls c !! x = Some call ->
  result_callback (call_ctx call) <> NULL ->
  exists w o a' c', dispatch_incoming_packet conn c = (Ok tt, c') /\
    sr_rel (r := gg_socket_reader os retries conn) w rest /\
    calls c' = answered x call (response_code call ch o) (calls c) /\ requested q (cmem c') a' /\ extends a a' /\
    changes (fun y => recv_frame y \/ rq_dst q y \/ rq_struct q y \/ unused a y) (cmem c) (cmem c') /\
    config_copied (key_bytes q) kvs (rq_value q) a o (cmem c') a'.
Proof using All.
  intros Hfn Hq Hap Hin Hc HI Ht Hcall Hrf.
  destruct (response_delivered_run to_f64 I conn hs pl rest ch kvs x call c Hin Hc HI Ht Hcall Hrf)
    as (w & c' & Hrun & Hs & o & c1 & (m & map & Hch & Hat & Hcb) & Hmem & _ & Hcalls).
  rewrite Hfn in Hcb. pose proof (requested_changes _ _ _ _ _ Hq Hap Hch) as Hqm.
  destruct (copy_obj_callback_run recv_region (recv_region_positive to_f64) (recv_region_size to_f64) q (with_mem w m c) a map kvs Hqm
    (request_apart_sub _ _ _ _ _ Hap (fun x Hx => or_introl Hx) eq_refl eq_refl) Hat) as (o' & m' & Hrun' & _ & a' & Hq' & Hext & Hch' & Hres).
  rewrite Hrun' in Hcb. injection Hcb as -> <-. cbn [cmem with_mem] in *.
  exists w, o, a', c'. rewrite Hmem. split_and!; try done.
  eapply changes_trans; (eapply changes_sub; [eassumption|]); unfold recv_frame; intros y Hy; tauto.
Qed.
End delivery.

(** ** An example: a request for the key [k] *)

Definition config_env : ClientEnv (nat * bytes) := {|
  os := @os _ reading_env; sos := @sos _ reading_env; retries := @retries _ reading_env;
  format_f64 := @format_f64 _ reading_env; strtod := @strtod _ reading_env; pruned := @pruned _ reading_env;
  ipc_recv_mem := @ipc_recv_mem _ reading_env; ipc_recv_decode_mem := @ipc_recv_decode_mem _ reading_env;
  ipc_send_mem := @ipc_send_mem _ reading_env; params_obj := @params_obj _ reading_env;
  json_frame := @json_frame _ reading_env; result_obj := @result_obj _ reading_env; token_kv := @token_kv _ reading_env;
  result_fn := fun _ _ => copy_config_obj_callback 2000;
  error_fn := fun _ _ _ _ => mret tt;
  sub_fn := fun _ _ _ _ _ _ => mret tt;
|}.

Definition example_request : config_request := mkConfigRequest 2000 2080 2060 (Some (2030, mkBuf 2050 1, GG_STR "k")).
Definition example_arena : GgArena := mkArena 2100 200 3.
Definition request_mem : mem :=
  put (put (put (put (zeroed 2000 400) 2000 (le_bytes 8 2080 ++ le_bytes 8 2060 ++ le_bytes 8 2030))
    2030 (buffer_bytes (mkBuf 2050 1))) 2050 (GG_STR "k")) 2060 (arena_bytes example_arena).

Lemma request_in_mem : requested example_request request_mem example_arena.
Proof.
  split.
  - by vm_compute.
  - by vm_compute.
  - exists 2030. split; [by vm_compute|]. split; [done|]. split; [done|]. split; [by vm_compute|]. split; by vm_compute.
  - split; [done|]. split; by vm_compute.
  - by apply mapped_all; vm_compute.
  - intros _. by apply mapped_all; vm_compute.
Qed.

Lemma requested_mono q m m' a : requested q m a -> m ⊆ m' -> requested q m' a.
Proof.
  intros [H1 H2 (p & Hp & Hk) (Hne & Har & Ha) Hb Hd] Hsub.
  assert (forall x n bs, loadz m x n = Some bs -> loadz m' x n = Some bs) as Hl by (intros x n bs; by apply loadz_mono).
  assert (forall x z, read_ptr m x = Some z -> read_ptr m' x = Some z) as Hrp.
  { unfold read_ptr. intros x z (bs & Hx & Hz)%bind_Some. by rewrite (Hl _ _ _ Hx). }
  assert (forall x z, read_u32 m x = Some z -> read_u32 m' x = Some z) as Hru.
  { unfold read_u32. intros x z (bs & Hx & Hz)%bind_Some. by rewrite (Hl _ _ _ Hx). }
  split; [by apply Hrp|by apply Hrp|..].
  - exists p. split; [by apply Hrp|]. destruct (rq_key q) as [[[p' b] bs]|]; [|done].
    destruct Hk as (-> & Hnn & Hb' & Hbs & Hlen). split_and!; [done|done| |by apply Hl|done].
    unfold read_buffer in *. apply bind_Some in Hb' as (d & Hd' & (l & Hl' & Hb')%bind_Some).
    by rewrite (Hrp _ _ Hd'), (Hrp _ _ Hl').
  - split; [done|]. split; [|done]. unfold read_arena in *.
    apply bind_Some in Har as (d & Hd' & (l & Hl' & (i & Hi & Har)%bind_Some)%bind_Some).
    cbn [mbind option_bind]. by rewrite (Hrp _ _ Hd'), (Hru _ _ Hl'), (Hru _ _ Hi).
  - intros x Hx. destruct (Hb x Hx) as [y Hy]. exists y. by eapply lookup_weaken.
  - intros Hv x Hx. destruct (Hd Hv x Hx) as [y Hy]. exists y. by eapply lookup_weaken.
Qed.

(** The memory of the client, with the request, and what is next on its
    connection. *)
Definition configured (bs : bytes) (c : client (nat * bytes)) : client (nat * bytes) :=
  with_mem (1%nat, bs) (request_mem ∪ reading_mem) c.

Lemma configured_apart : request_apart example_request example_arena (recv_frame (env := config_env)).
Proof.
  split; intros x; unfold rq_reads, rq_dst, rq_struct, recv_frame, recv_region, zrange, NULL, sizeof_GgObject, decode_size;
    cbn -[Z.add Z.le Z.lt]; unfold GG_IPC_MAX_MSG_LEN, sizeof_GgObject, GG_MAX_OBJECT_SUBOBJECTS; lia.
Qed.

Lemma configured_room bs c : config_room (env := config_env) example_request (cmem (configured bs c)).
Proof.
  cbn [configured cmem with_mem]. pose proof request_in_mem as Hq. pose proof reading_room as [H1 H2 H3].
  revert Hq H1 H2 H3. generalize request_mem reading_mem. intros m1 m2 Hq H1 H2 H3. split.
  - split; intros x Hx; apply lookup_union_is_Some; right; [by apply H1|by apply H2|by apply H3].
  - exists example_arena. split; [|apply configured_apart]. eapply requested_mono; [exact Hq|]. by apply map_union_subseteq_l.
Qed.

Lemma config_layout : ReceivingLayout (env := config_env) (fun _ => (0, false)).
Proof. pose proof reading_layout as H. destruct H. by split. Qed.

Lemma config_callbacks : WellBehaved config_env.
Proof.
  split; intros; [|by apply keeps_ret; apply _..]. apply (proj1 (response_callbacks_close 2000 r)).
Qed.

Lemma config_safe : SafeCallbacks (env := config_env) (config_room (env := config_env) example_request).
Proof.
  pose proof config_layout. split.
  - by intros m [? _].
  - apply (config_room_frame (env := config_env)).
  - intros f x map kvs c _ HI Hm. exact (copy_config_obj_safe (env := config_env) (fun _ => (0, false)) example_request map kvs c HI Hm).
  - intros. by apply wp_ret.
  - intros. by apply wp_ret.
Qed.

(** The response [{"value":{"k":"hi"}}]. *)
Definition config_payload : bytes :=
  GG_STR "{" ++ quoted "value" ++ GG_STR ":{" ++ quoted "k" ++ GG_STR ":" ++ quoted "hi" ++ GG_STR "}}".
Definition config_object : list (bytes * jvalue) := [(GG_STR "value", JObj [(GG_STR "k", JStr (GG_STR "hi"))])].

Lemma config_incoming c :
  incoming (env := config_env) (fun _ => (0, false)) 3 (message_headers []) config_payload [] example_ch config_object
    (configured (packet (message_headers []) config_payload ++ []) c).
Proof.
  split.
  - exists 1%nat. split; [done|]. cbn. lia.
  - by apply (bool_decide_eq_true _); vm_compute.
  - by apply (bool_decide_eq_true _); vm_compute.
  - by vm_compute.
  - by vm_compute.
  - done.
  - eexists. by vm_compute.
Qed.

Lemma configured_ok bs c : client_ok c -> client_ok (configured bs c).
Proof. intros Hc. by apply (mem_only_ok c); [|eexists _, _]. Qed.

Lemma config_value_delivered_witness :
  let c := configured (packet (message_headers []) config_payload ++ []) (awaiting 42 NULL) in
  config_value (key_bytes example_request) config_object = Some (JStr (GG_STR "hi")) /\
  exists w o a' c', dispatch_incoming_packet (H := config_env) 3 c = (Ok tt, c') /\
    sr_rel (r := gg_socket_reader (@os _ config_env) (@retries _ config_env) 3) w [] /\
    calls c' = answered 5000 example_call (response_code example_call example_ch o) (calls c) /\
    requested example_request (cmem c') a' /\ extends example_arena a' /\
    changes (fun y => recv_frame (env := config_env) y \/ rq_dst example_request y \/ rq_struct example_request y \/ unused example_arena y)
      (cmem c) (cmem c') /\
    config_copied (key_bytes example_request) config_object (rq_value example_request) example_arena o (cmem c') a'.
Proof.
  intros c. split; [by vm_compute|]. pose proof config_layout. pose proof config_safe. pose proof config_callbacks.
  refine (config_value_delivered (env := config_env) (fun _ => (0, false)) (config_room (env := config_env) example_request)
    3 (message_headers []) config_payload [] example_ch config_object 5000 example_call example_request example_arena c
    _ _ _ _ _ _ _ _ _).
  - done.
  - eapply requested_mono; [exact request_in_mem|]. by apply map_union_subseteq_l.
  - exact configured_apart.
  - apply config_incoming.
  - exact (configured_ok _ _ (proj1 awaiting_ok)).
  - apply configured_room.
  - by vm_compute.
  - by vm_compute.
  - done.
Defined.
