(* ===== verification/Sending.v ===== *)
(** What the client sends: the packet of a call on the connection's descriptor
    is the EventStream encoding of its headers and of the JSON text of its
    parameters.

    The theorems compose the encoders ([EsEncode], [JsonEncode]) with writing
    to a descriptor ([File]) and with the registration of a call
    ([Registry]). What is known of the memory is a [view], a part of it: the
    values that are sent, and nothing of the buffers that sending writes to. *)

From S2P Require Import Prelude Memory Buffer Io EsDecode EsEncode Object Map Visit Vector JsonEncode File Socket Streams Client Registry.

(** ** Values in a view *)

(** The object bytes [o] are the root of a tree whose parts are in memory. *)
Definition val_at (m : mem) (t : otree) (o : GgObject) : Prop :=
  unpack o = Some (tree_val t) /\
  match t with
  | TList p ts => items_at m p ts 0
  | TMap p kvs => pairs_at m p kvs 0
  | _ => True
  end.

Lemma val_at_obj m t o a : read_obj m a = Some o -> val_at m t o -> obj_at m t a.
Proof.
  intros Ho [Hu Hp]. destruct t as [|b|z|z|b|p ts|p kvs];
    try (split; [rewrite Ho; exact Hu|done]).
  - apply obj_at_list. split; [rewrite Ho; exact Hu|exact Hp].
  - apply obj_at_map. split; [rewrite Ho; exact Hu|exact Hp].
Qed.

Lemma items_at_mono m m' p ts i : m ⊆ m' -> items_at m p ts i -> items_at m' p ts i.
Proof.
  intros Hm. revert i. induction ts as [|t ts IH]; intros i; [done|]. cbn [items_at]. intros [H1 H2].
  split; [by eapply obj_at_mono|by apply IH].
Qed.

Lemma pairs_at_mono m m' p kvs i : m ⊆ m' -> pairs_at m p kvs i -> pairs_at m' p kvs i.
Proof.
  intros Hm. revert i. induction kvs as [|[k t] kvs IH]; intros i; [done|]. cbn [pairs_at].
  intros (Hk & H1 & H2). split; [|split; [by eapply obj_at_mono|by apply IH]].
  destruct (read_kv m (map_kv p i)) as [kv|] eqn:Hr; [|done]. unfold read_kv in *.
  by rewrite (loadz_mono _ _ _ _ _ Hm Hr).
Qed.

Lemma val_at_mono m m' t o : m ⊆ m' -> val_at m t o -> val_at m' t o.
Proof.
  intros Hm [Hu Hp]. split; [done|].
  destruct t; try done; [by eapply items_at_mono|by eapply pairs_at_mono].
Qed.

(** The view does not know these addresses. *)
Definition fresh (m : mem) (a n : Z) : Prop := forall x, zrange a (a + n) x -> m !! x = None.

Lemma fresh_put m a bs b n : fresh m b n -> disj a (zlen bs) b n -> fresh (put m a bs) b n.
Proof.
  intros Hf Hd x Hx. unfold disj, zrange in *. rewrite put_lookup. unfold over.
  rewrite decide_False by lia. by apply Hf.
Qed.

(** Extending a view by what is stored outside of it. *)
Lemma put_view m a bs : fresh m a (zlen bs) -> m ⊆ put m a bs.
Proof.
  intros Hf. apply map_subseteq_spec. intros x y Hx. rewrite put_lookup. unfold over.
  rewrite decide_False; [done|]. intros Hin. rewrite Hf in Hx; [done|unfold zrange; lia].
Qed.

Lemma store_view view m a bs m' : view ⊆ m -> store m a bs = Some m' -> put view a bs ⊆ m'.
Proof.
  intros Hv Hs. apply map_subseteq_spec. intros x y. apply store_spec in Hs as [_ Hx].
  rewrite put_lookup, Hx. unfold over. case_decide; [done|]. intros. by eapply lookup_weaken.
Qed.

(** A change outside of the view. *)
Lemma changes_view (W : Z -> Prop) view m m' :
  view ⊆ m -> changes W m m' -> (forall x, W x -> view !! x = None) -> view ⊆ m'.
Proof.
  intros Hv [Hc _] Hw. apply map_subseteq_spec. intros x y Hx. rewrite Hc; [by eapply lookup_weaken|].
  intros Hin. by rewrite Hw in Hx.
Qed.

Lemma zlen_packet hs pl : zlen (packet hs pl) = 16 + zlen (headers_bytes hs) + zlen pl.
Proof. unfold packet, packet_prelude, packet_data, prelude_bytes. zlen_lia. Qed.

Section sending.
Context `{env : ClientEnv W}.
Abbreviation client := (client W).
Implicit Types c : client.

(** ** Packets *)

Section conn.
Context (conn : Z) `{!FdWrites os conn}.

Lemma ipc_send_packet_run {V} hs (payload : GgReader V) v v' bs F P c out k :
  fw_rel (sys c) out k -> (k <= retries)%nat ->
  yields (mkBuf ipc_send_mem GG_IPC_MAX_MSG_LEN) F P payload v bs v' GG_ERR_NOMEM -> P (cmem c) ->
  mapped (cmem c) ipc_send_mem GG_IPC_MAX_MSG_LEN -> Forall valid_header hs ->
  exists m', changes (fun x => F x \/ zrange ipc_send_mem (ipc_send_mem + GG_IPC_MAX_MSG_LEN) x) (cmem c) m' /\
    if 16 + zlen (headers_bytes hs) + zlen bs <=? GG_IPC_MAX_MSG_LEN then
      exists w' k', ipc_send_packet conn hs payload v c = (Ok tt, with_mem w' m' c) /\
        fw_rel w' (out ++ packet hs bs) k' /\ (k' <= k)%nat
    else ipc_send_packet conn hs payload v c = (Fail GG_ERR_NOMEM, with_mem (sys c) m' c).
Proof.
  intros Hw Hk Hy HP Hm Hv. unfold ipc_send_packet. case_if.
  - destruct (eventstream_encode_fit payload v v' bs _ ipc_send_mem GG_IPC_MAX_MSG_LEN F P Hy (cmem c) hs Hv HP Hm)
      as (m' & He & Hl & Hc); [by vm_compute|done|]. exists m'. split; [exact Hc|].
    pose proof (zlen_packet hs bs) as Hz.
    destruct (write_loop_all os conn (retries + length (packet hs bs)) (sys c) out k (packet hs bs) Hw)
      as (w' & k' & Hwr & Hw' & Hk').
    { unfold SIZE_MAX, GG_IPC_MAX_MSG_LEN in *. lia. } { unfold zlen. lia. }
    exists w', k'. split; [|done]. unfold mbind, sysm_bind. unfold on_mem at 1. rewrite He.
    cbn [mbind option_bind]. unfold ended_with at 1. rewrite bool_decide_true by done.
    unfold gets, need, lift_out. cbn [cmem with_mem]. unfold buf_bytes. cbn [data len]. rewrite Hl.
    cbn [get]. unfold on_mem. cbn [sys cmem with_mem]. unfold gg_socket_write, gg_file_write. rewrite Hwr. done.
  - destruct (eventstream_encode_small payload v v' bs _ ipc_send_mem GG_IPC_MAX_MSG_LEN F P Hy (cmem c) hs Hv HP Hm)
      as (err & w'' & m' & b' & He & Herr & Hc); [by vm_compute|done|]. exists m'. split; [exact Hc|].
    assert (err = GG_ERR_NOMEM) as -> by by destruct Herr.
    unfold mbind, sysm_bind. unfold on_mem at 1. rewrite He. done.
Qed.

(** The buffers and stack frames that sending an object uses. *)
Record sending_room (view m : mem) : Prop := {
  room_obj : params_obj <> NULL;
  room_fresh_obj : fresh view params_obj sizeof_GgObject;
  room_fresh_frame : fresh view json_frame sizeof_GgObject;
  room_fresh_send : fresh view ipc_send_mem GG_IPC_MAX_MSG_LEN;
  room_frame : disj params_obj sizeof_GgObject json_frame sizeof_GgObject;
  room_send : disj params_obj sizeof_GgObject ipc_send_mem GG_IPC_MAX_MSG_LEN;
  room_frame_send : disj json_frame sizeof_GgObject ipc_send_mem GG_IPC_MAX_MSG_LEN;
  room_map_obj : mapped m params_obj sizeof_GgObject;
  room_map_frame : mapped m json_frame sizeof_GgObject;
  room_map_send : mapped m ipc_send_mem GG_IPC_MAX_MSG_LEN;
}.

(** Where sending an object writes. *)
Definition sending_frame (x : Z) : Prop :=
  zrange params_obj (params_obj + sizeof_GgObject) x \/ zrange json_frame (json_frame + sizeof_GgObject) x \/
  zrange ipc_send_mem (ipc_send_mem + GG_IPC_MAX_MSG_LEN) x.

Lemma sending_frame_fresh view m x : sending_room view m -> sending_frame x -> view !! x = None.
Proof.
  intros H. unfold sending_frame. intros [Hx|[Hx|Hx]]; [by apply (room_fresh_obj _ _ H)|
    by apply (room_fresh_frame _ _ H)|by apply (room_fresh_send _ _ H)].
Qed.

Lemma sending_room_changes view W' m m' : sending_room view m -> changes W' m m' -> sending_room view m'.
Proof. intros [] Hc. split; try done; by eapply changes_mapped. Qed.

Lemma send_object_run hs t o view c out k :
  fw_rel (sys c) out k -> (k <= retries)%nat -> Forall valid_header hs ->
  view ⊆ cmem c -> sending_room view (cmem c) -> zlen o = sizeof_GgObject ->
  val_at view t o -> printable format_f64 view t -> within_limits t = true ->
  let text := json_text format_f64 view t in
  exists m', changes sending_frame (cmem c) m' /\
    if 16 + zlen (headers_bytes hs) + zlen text <=? GG_IPC_MAX_MSG_LEN then
      exists w' k', send_object conn hs o c = (Ok tt, with_mem w' m' c) /\
        fw_rel w' (out ++ packet hs text) k' /\ (k' <= k)%nat
    else send_object conn hs o c = (Fail GG_ERR_NOMEM, with_mem (sys c) m' c).
Proof.
  intros Hw Hk Hh Hv Hroom Ho Hat Hp Hlim text. pose proof Hroom as [Hne Hf1 Hf2 Hf3 Hd1 Hd2 Hd3 Hm1 Hm2 Hm3].
  destruct (store_Some (cmem c) params_obj o) as [m1 Hs]; [by rewrite Ho|].
  pose proof (store_changes _ _ _ _ Hs) as Hc1. rewrite Ho in Hc1. set (view' := put view params_obj o).
  assert (view ⊆ view') as Hv' by (apply put_view; by rewrite Ho).
  assert (view' ⊆ m1) as Hv1 by by apply (store_view view (cmem c) params_obj o).
  assert (obj_at view' t params_obj) as Hat'.
  { apply (val_at_obj _ _ o); [unfold read_obj; rewrite <- Ho; apply loadz_put|by eapply val_at_mono]. }
  destruct (json_text_mono format_f64 view view' t Hv' Hp) as [Hp' Ht].
  pose proof (json_reader_yields format_f64 json_frame params_obj (mkBuf ipc_send_mem GG_IPC_MAX_MSG_LEN) view' t
    Hat' Hp' Hlim Hne) as Hy. rewrite Ht in Hy. cbn [data len] in Hy.
  assert (fresh view' json_frame sizeof_GgObject) as Hf2' by (apply fresh_put; by rewrite ?Ho).
  assert (fresh view' ipc_send_mem GG_IPC_MAX_MSG_LEN) as Hf3' by (apply fresh_put; by rewrite ?Ho).
  destruct (ipc_send_packet_run hs _ _ _ _ _ _ (with_mem (sys c) m1 c) out k Hw Hk (Hy Hf2' Hf3' Hd3))
    as (m' & Hc & Hrun).
  { split; [done|by eapply changes_mapped]. }
  { by eapply changes_mapped. }
  { done. }
  exists m'. cbn [cmem with_mem] in Hc. split.
  { apply (changes_trans _ _ m1); (eapply changes_sub; [eassumption|]); unfold sending_frame; intros x; tauto. }
  assert (send_object conn hs o c =
    ipc_send_packet conn hs (Some (obj_read format_f64 json_frame)) params_obj (with_mem (sys c) m1 c)) as ->.
  { unfold send_object, mbind, sysm_bind. unfold store_local, on_mem. rewrite Hs. cbn [mbind option_bind].
    unfold need, lift_out, gg_json_reader. by rewrite (proj2 (Z.eqb_neq _ _)) by done. }
  revert Hrun. fold text. case_if; [|done]. intros (w' & k' & -> & Hw' & Hk'). by exists w', k'.
Qed.
End conn.
(** ** Calls *)

Definition params_tree (r : request) (kvs : list (BufPtr * otree)) : otree := TMap (pairs (params r)) kvs.

(** The memory holds the parameters of a request. *)
Record request_at (view : mem) (r : request) (kvs : list (BufPtr * otree)) : Prop := {
  req_map : objval_ok (VMap (params r));
  req_len : map_len (params r) = zlen kvs;
  req_pairs : pairs_at view (pairs (params r)) kvs 0;
  req_printable : printable format_f64 view (params_tree r kvs);
  req_limits : within_limits (params_tree r kvs) = true;
  req_operation : zlen (operation r) <= UINT16_MAX /\ bytes_ok (operation r);
  req_type : zlen (service_model_type r) <= UINT16_MAX /\ bytes_ok (service_model_type r);
}.

(** What a call sends, on the stream [id]. *)
Definition call_packet (view : mem) (id : Z) (r : request) (kvs : list (BufPtr * otree)) : bytes :=
  packet (call_headers id (operation r) (service_model_type r)) (json_text format_f64 view (params_tree r kvs)).

Lemma request_object view r kvs : request_at view r kvs ->
  exists o, gg_obj_map (params r) = Some o /\ zlen o = sizeof_GgObject /\ val_at view (params_tree r kvs) o.
Proof.
  intros [Hm Hl Hp _ _ _ _]. destruct (pack_fits _ Hm) as [o Ho]. exists o. split; [exact Ho|].
  destruct (pack_layout _ _ Hm Ho) as (bs & ty & Hbs & -> & _). split.
  { rewrite zlen_app, Hbs. done. }
  split; [|done]. rewrite (unpack_pack _ _ Hm Ho). cbn [params_tree tree_val]. rewrite <- Hl. by destruct (params r).
Qed.

Lemma call_headers_valid id op smt :
  1 <= id < 2147483647 -> zlen op <= UINT16_MAX /\ bytes_ok op -> zlen smt <= UINT16_MAX /\ bytes_ok smt ->
  Forall valid_header (call_headers id op smt).
Proof.
  intros Hid Hop Hsmt. unfold call_headers.
  assert (forall n v, is_byteb (zlen n) && forallb is_byteb n = true -> valid_value v -> valid_header (mkHeader n v)) as Hh.
  { intros n v [Hn Hb]%andb_true_iff Hv. apply is_byteb_spec in Hn. unfold is_byte in Hn. split_and!; [|  |done].
    - cbn [name]. unfold UINT8_MAX. lia.
    - apply Forall_forall. intros b Hin. apply is_byteb_spec. by eapply forallb_forall, list_elem_of_In. }
  repeat (apply Forall_cons; split; [apply Hh; [by vm_compute|cbn [valid_value]]|]); [by vm_compute|by vm_compute|lia|done|done|constructor].
Qed.

(** Where the call's handle is stored. *)
Definition handle_room (view m : mem) (r : request) : Prop :=
  sub_handle r <> NULL ->
  mapped m (sub_handle r) 4 /\ fresh view (sub_handle r) 4 /\
  forall x, zrange (sub_handle r) (sub_handle r + 4) x -> ~ sending_frame x.

(** The handle of the slot [i], as the caller finds it. *)
Definition handle_stored (r : request) (m : mem) (handle : Z) : Prop :=
  sub_handle r <> NULL -> loadz m (sub_handle r) 4 = Some (le_bytes 4 handle).

Definition call_frame (r : request) (x : Z) : Prop :=
  sending_frame x \/ (sub_handle r <> NULL /\ zrange (sub_handle r) (sub_handle r + 4) x).

Lemma store_handle_run ctx i sl r s c view :
  streams_ok s -> slot_at s i = Some sl -> view ⊆ cmem c -> handle_room view (cmem c) r ->
  exists m, changes (call_frame r) (cmem c) m /\ view ⊆ m /\ handle_stored r m (handle_of i (slot_gen sl)) /\
    (if negb (sub_handle r =? NULL) then
       handle ← on_streams (fun s => h ← get_current_handle s i; Some (h, s));
       store_local (sub_handle r) (le_bytes 4 handle)
     else mret tt) (begun c ctx i r s) = (Ok tt, with_mem (sys c) m (begun c ctx i r s)).
Proof.
  intros Hok Hsl Hv Hh. case_if; zify_bool.
  - destruct (Hh E) as (Hm & Hf & _).
    destruct (store_Some (cmem c) (sub_handle r) (le_bytes 4 (handle_of i (slot_gen sl)))) as [m Hs].
    { by rewrite zlen_le_bytes. }
    pose proof (store_changes _ _ _ _ Hs) as Hc. rewrite zlen_le_bytes in Hc. exists m. split_and!.
    + eapply changes_sub; [exact Hc|]. intros x Hx. right. done.
    + by eapply changes_view.
    + intros _. apply loadz_store_same in Hs. by rewrite zlen_le_bytes in Hs.
    + unfold mbind, sysm_bind, on_streams. cbn [streams begun with_calls with_streams].
      rewrite (current_handle _ _ _ Hok Hsl). cbn [option_bind].
      unfold store_local, on_mem. cbn [sys cmem begun with_calls with_streams with_next].
      rewrite Hs. done.
  - exists (cmem c). split; [apply changes_refl|]. split; [done|]. split; [by intros ?|]. by destruct c.
Qed.

Section call.
Context (conn : Z) `{!FdWrites os conn}.

Lemma begin_rest_run ctx i sl r s kvs view c out k :
  streams_ok s -> slot_at s i = Some sl -> 1 <= next_stream_id c < 2147483647 -> ipc_conn_fd c = conn ->
  fw_rel (sys c) out k -> (k <= retries)%nat ->
  view ⊆ cmem c -> sending_room view (cmem c) -> handle_room view (cmem c) r -> request_at view r kvs ->
  exists m, changes (call_frame r) (cmem c) m /\ handle_stored r m (handle_of i (slot_gen sl)) /\
    if zlen (call_packet view (next_stream_id c) r kvs) <=? GG_IPC_MAX_MSG_LEN then
      exists w k', begin_rest ctx i (next_stream_id c) r (begun c ctx i r s) =
          (Ok tt, with_mem w m (begun c ctx i r s)) /\
        fw_rel w (out ++ call_packet view (next_stream_id c) r kvs) k' /\ (k' <= k)%nat
    else
      begin_rest ctx i (next_stream_id c) r (begun c ctx i r s) =
        (_ ← clear_index i; _ ← on_calls (delete ctx); fail GG_ERR_NOMEM)
          (with_mem (sys c) m (begun c ctx i r s)).
Proof.
  intros Hok Hsl Hid Hconn Hw Hk Hv Hroom Hhr Hr.
  destruct (store_handle_run ctx i sl r s c view Hok Hsl Hv Hhr) as (m1 & Hc1 & Hv1 & Hgot & Hst).
  destruct (request_object _ _ _ Hr) as (o & Ho & Hzo & Hat).
  set (hs := call_headers (next_stream_id c) (operation r) (service_model_type r)).
  assert (Forall valid_header hs) as Hhs by (apply call_headers_valid; [done|apply Hr..]).
  destruct (send_object_run conn hs (params_tree r kvs) o view (with_mem (sys c) m1 (begun c ctx i r s)) out k)
    as (m2 & Hc2 & Hrun); [done|done|done|done| |done|done|apply Hr|apply Hr|].
  { by eapply sending_room_changes. }
  exists m2. cbn [cmem with_mem] in Hc2. split.
  { apply (changes_trans _ _ m1); [done|]. eapply changes_sub; [exact Hc2|]. by left. }
  split.
  { intros Hne. rewrite <- (Hgot Hne). apply (changes_loadz _ _ _ _ _ Hc2). by apply (Hhr Hne). }
  unfold call_packet. rewrite zlen_packet. fold hs.
  assert (begin_rest ctx i (next_stream_id c) r (begun c ctx i r s) =
    (ret ← attempt (send_object conn hs o);
     match ret with
     | inl e => _ ← clear_index i; _ ← on_calls (delete ctx); fail e
     | inr _ => mret tt
     end) (with_mem (sys c) m1 (begun c ctx i r s))) as ->.
  { unfold begin_rest. unfold mbind at 1, sysm_bind at 1. rewrite Hst.
    unfold mbind at 1, sysm_bind at 1, need at 1, lift_out at 1. rewrite Ho. cbn [get].
    rewrite gets_bind. change (ipc_conn_fd (with_mem (sys c) m1 (begun c ctx i r s))) with (ipc_conn_fd c).
    by rewrite Hconn. }
  unfold mbind at 1 4, sysm_bind at 1 4, attempt. revert Hrun. case_if.
  - intros (w & k' & -> & Hw' & Hk'). by exists w, k'.
  - by intros ->.
Qed.
End call.
(** What has become of a call: [p] was written to the connection and the call is
    registered with the callbacks of its request in a slot that the handle of the
    caller stands for, or [p] does not fit in the buffer for sending, nothing was
    written and nothing stays registered. *)
Definition call_sent c (ctx : Z) (r : request) (out p : bytes) `{!FdWrites os (ipc_conn_fd c)} (o : outcome unit) c' : Prop :=
  client_ok c' /\
  if zlen p <=? GG_IPC_MAX_MSG_LEN then
    o = Ok tt /\ (exists k', fw_rel (sys c') (out ++ p) k') /\
    abs c' = mkReg (<[next_stream_id c := Pending ctx]> (entries (abs c))) (<[ctx := None]> (statuses (abs c)))
               (next_stream_id c + 1) /\
    exists i handle, calls c' = <[ctx := mkWaiting (initial_ctx r) i]> (calls c) /\
      handle_stored r (cmem c') handle /\ validate_handle (streams c') handle = Ok i
  else
    o = Fail GG_ERR_NOMEM /\ sys c' = sys c /\ calls c' = calls c /\
    abs c' = mkReg (entries (abs c)) (statuses (abs c)) (next_stream_id c + 1).

(** The client can make the call of [ctx] on the thread [tid]. *)
Record can_call c (tid ctx : Z) : Prop := {
  can_ok : client_ok c;
  can_connected : connected c = true;
  can_thread : recv_thread_id c <> tid;
  can_fresh : calls c !! ctx = None;
  can_id : next_stream_id c < 2147483647;
  can_slot : (size (reg_of (streams c)) < 16)%nat;
}.

(** A call sends its request: one packet, or nothing if it is too long. *)
Lemma call_sends c tid ctx r kvs view out k `{!FdWrites os (ipc_conn_fd c)} :
  can_call c tid ctx ->
  view ⊆ cmem c -> sending_room view (cmem c) -> handle_room view (cmem c) r -> request_at view r kvs ->
  fw_rel (sys c) out k -> (k <= retries)%nat ->
  exists o c', ggipc_subscribe_begin tid ctx r c = (o, c') /\ changes (call_frame r) (cmem c) (cmem c') /\
    call_sent c ctx r out (call_packet view (next_stream_id c) r kvs) o c'.
Proof.
  intros [Hc Hconn Htid Hfresh Hn Hfree] Hv Hroom Hhr Hr Hw Hk. set (p := call_packet view (next_stream_id c) r kvs).
  destruct (begin_registers c tid ctx r Hc Hconn Htid Hn Hfree) as (i & sl & s & Hsl & Hid & Hu & ->).
  pose proof (ok_next _ Hc) as Hnext.
  destruct (begin_rest_run (ipc_conn_fd c) ctx i _ r s kvs view c out k (proj1 Hu) (slot_updated_at _ _ _ _ Hu)
    ltac:(lia) eq_refl Hw Hk Hv Hroom Hhr Hr) as (m & Hm & Hgot & Hrun). fold p in Hrun.
  destruct (begun_ok c ctx i sl _ r s Hc Hfresh Hsl Hid Hu) as [_ Hbegun].
  pose proof (fun o c' => begin_sends c ctx i sl _ r s o c' Hc Hfresh Hsl Hid Hu) as Hsends.
  revert Hrun. case_if.
  - intros (w & k' & Hb & Hw' & _). destruct (Hsends _ _ Hb) as [Hok [[_ Habs]|(e & ? & _)]]; [done| |done].
    eexists _, _. split_and!; [exact Hb|exact Hm|]. split; [exact Hok|].
    rewrite (proj2 (Z.leb_le _ _)) by exact E. split_and!; [done|by exists k'|by rewrite Habs, Hbegun|].
    eexists i, _. split_and!; [done|exact Hgot|]. cbn [streams with_mem begun with_calls with_streams slot_gen].
    rewrite (validate_handle_of _ _ _ _ (proj1 Hu) (slot_updated_at _ _ _ _ Hu)) by (apply (uwrap_range 16); lia).
    cbn [slot_gen]. by rewrite Z.eqb_refl.
  - intros Hb.
    assert (slot_at (streams (with_mem (sys c) m (begun c ctx i r s))) i =
      Some (mkSlot (next_stream_id c) (uwrap 16 (slot_gen sl + 1)) (mkHandler NULL ctx NULL))) as Hat
      by exact (slot_updated_at _ _ _ _ Hu).
    destruct (clear_index_bind _ _ _ _ _ (eq_sym Hb) (proj1 Hu) Hat) as (s5 & _ & H5). rewrite on_calls_bind in H5.
    destruct (Hsends _ _ (eq_sym H5)) as [Hok [[? _]|(e & _ & Habs)]]; [done|done|].
    eexists _, _. split_and!; [exact (eq_sym H5)|exact Hm|]. split; [exact Hok|].
    rewrite (proj2 (Z.leb_gt _ _)) by (fold p; lia). split_and!; try done.
    cbn [calls with_calls with_streams with_mem begun]. by apply delete_insert_id.
Qed.

End sending.

(** *** The example's descriptors *)

#[export] Program Instance example_writes fd : FdWrites example_os fd := {
  fw_rel := fun w out k => concat w = out;
}.
Next Obligation.
  intros fd w out k bs <- Hne. right. exists (w ++ [bs]), (zlen bs). split_and!; [done| |lia|].
  - pose proof (zlen_nonneg bs). assert (zlen bs <> 0) by (by intros ?%zlen_zero). lia.
  - rewrite ztake_all by lia. rewrite concat_app. cbn [concat]. by rewrite app_nil_r.
Qed.
