(* ===== verification/Requests.v ===== *)
(** The requests of the operations of the interface ([src/ipc/client/]).

    Each operation builds its parameters in local arrays and calls
    [ggipc_subscribe] with them. Here the JSON text of the parameters that it
    builds is given for each operation, and composed with [Sending]: what is
    written to the connection is the packet with that text. *)

From S2P Require Import Prelude Memory Double Buffer Io EsDecode Object Map Visit Arena Vector Base64 JsonEncode File Socket Streams Client Registry Util IpcCalls Sending.

(** ** The room for local arrays

    Regions of memory that the view does not know, apart from each other. *)

Record room (view m : mem) (rs : list (Z * Z)) : Prop := {
  room_view : view ⊆ m;
  room_fresh : Forall (fun r => fresh view r.1 r.2) rs;
  room_mapped : Forall (fun r => mapped m r.1 r.2) rs;
  room_apart : ForallOrdPairs (fun r s => disj r.1 r.2 s.1 s.2) rs;
}.

Lemma disj_sym a n b k : disj a n b k -> disj b k a n.
Proof. unfold disj. tauto. Qed.

Lemma room_tail view m r rs : room view m (r :: rs) -> room view m rs.
Proof. intros [Hv Hf Hm Ha]. inversion Hf; inversion Hm; inversion Ha; subst. by split. Qed.

Lemma room_perm view m rs rs' : rs ≡ₚ rs' -> room view m rs -> room view m rs'.
Proof.
  intros Hp [Hv Hf Hm Ha]. split; [done|by rewrite <- Hp|by rewrite <- Hp|].
  clear Hv Hf Hm. induction Hp as [|r rs1 rs2 Hp IH|r s rs1|rs1 rs2 rs3 _ IH1 _ IH2].
  - done.
  - inversion Ha as [|? ? H1 H2]; subst. constructor; [by rewrite <- Hp|by apply IH].
  - inversion Ha as [|? ? H1 H2]; subst. inversion H1; inversion H2; subst.
    constructor; [constructor; [by apply disj_sym|done]|by constructor].
  - auto.
Qed.

(** Storing in the first region: its contents are known then. *)
Lemma room_store view m a n rs bs :
  room view m ((a, n) :: rs) -> zlen bs <= n ->
  exists m', store m a bs = Some m' /\ room (put view a bs) m' rs /\ view ⊆ put view a bs /\
    changes (zrange a (a + n)) m m'.
Proof.
  intros [Hv Hf Hm Ha] Hn. inversion Hf as [|? ? Hf1 Hf2]; inversion Hm as [|? ? Hm1 Hm2];
    inversion Ha as [|? ? Ha1 Ha2]; subst. cbn [fst snd] in *.
  destruct (store_Some m a bs) as [m' Hs]; [intros x Hx; apply Hm1; lia|]. exists m'.
  pose proof (store_changes _ _ _ _ Hs) as Hc. split_and!; [done| | |].
  - split; [by eapply store_view| | |done].
    + apply Forall_forall. intros r Hr. rewrite Forall_forall in Hf2, Ha1. apply fresh_put; [by apply Hf2|].
      specialize (Ha1 _ Hr). cbn [fst snd] in Ha1. unfold disj in *. lia.
    + eapply Forall_impl; [exact Hm2|]. intros r. by apply changes_mapped with (1 := Hc).
  - apply put_view. intros x Hx. apply Hf1. unfold zrange in *. lia.
  - eapply changes_sub; [exact Hc|]. unfold zrange. lia.
Qed.

(** ** Values and their text *)

Definition json_object (members : list (bytes * bytes)) : bytes :=
  GG_STR "{" ++ join (GG_STR ",") ((fun kv => json_string kv.1 ++ GG_STR ":" ++ kv.2) <$> members) ++ GG_STR "}".

Definition json_list (elems : list bytes) : bytes :=
  GG_STR "[" ++ join (GG_STR ",") elems ++ GG_STR "]".

(** A pair of a map: its key in memory and its contents, and the value. *)
Record member := mkMember { mkey : BufPtr; mname : bytes; mtree : otree; mobj : GgObject; mtext : bytes }.

Definition member_kv (m : member) : GgKV := ptr_len_bytes (data (mkey m)) (len (mkey m)) ++ mobj m.
Definition member_tree (m : member) : BufPtr * otree := (mkey m, mtree m).
Definition member_text (m : member) : bytes * bytes := (mname m, mtext m).

Section values.
Context (format_f64 : Z -> bytes).

(** The object [o] holds a tree that the encoder prints as [text]. *)
Record value_at (view : mem) (t : otree) (o : GgObject) (text : bytes) : Prop := {
  value_val : val_at view t o;
  value_len : zlen o = sizeof_GgObject;
  value_printable : printable format_f64 view t;
  value_text : json_text format_f64 view t = text;
}.

Lemma value_mono view view' t o text : view ⊆ view' -> value_at view t o text -> value_at view' t o text.
Proof.
  intros Hv [Hat Hl Hp Ht]. destruct (json_text_mono format_f64 view view' t Hv Hp) as [Hp' Ht'].
  split; [by eapply val_at_mono|done|done|by rewrite Ht'].
Qed.

(** A value that is packed. *)
Lemma value_pack view t :
  objval_ok (tree_val t) -> printable format_f64 view t ->
  match t with
  | TList p ts => items_at view p ts 0
  | TMap p kvs => pairs_at view p kvs 0
  | _ => True
  end ->
  exists o, pack (tree_val t) = Some o /\ value_at view t o (json_text format_f64 view t).
Proof.
  intros Hok Hp Hparts. destruct (pack_fits _ Hok) as [o Ho]. exists o. split; [done|].
  destruct (pack_layout _ _ Hok Ho) as (bs & ty & Hbs & Hlay & _). split; [|by rewrite Hlay, zlen_app, Hbs|done|done].
  split; [by apply unpack_pack|done].
Qed.

Lemma value_buf view b bs :
  objval_ok (VBuf b) -> buf_bytes view b = Some bs ->
  exists o, gg_obj_buf b = Some o /\ value_at view (TBuf b) o (json_string bs).
Proof.
  intros Hok Hb. destruct (value_pack view (TBuf b) Hok) as (o & Ho & Hv); [by eexists|done|].
  exists o. split; [exact Ho|]. cbn [text_of] in Hv. unfold buf_text in Hv. by rewrite Hb in Hv.
Qed.

Record member_ok (view : mem) (m : member) : Prop := {
  member_key : objval_ok (VBuf (mkey m));
  member_name : buf_bytes view (mkey m) = Some (mname m);
  member_value : value_at view (mtree m) (mobj m) (mtext m);
}.

Lemma member_mono view view' m : view ⊆ view' -> member_ok view m -> member_ok view' m.
Proof. intros Hv [Hk Hn Hm]. split; [done|by eapply buf_bytes_mono|by eapply value_mono]. Qed.

Lemma zlen_member view m : member_ok view m -> zlen (member_kv m) = sizeof_GgKV.
Proof. intros [_ _ [_ Hl _ _]]. unfold member_kv. rewrite zlen_app, zlen_ptr_len_bytes, Hl. done. Qed.

(** The pairs of an array, one by one. *)
Definition members_stored (view : mem) (a : Z) (ms : list member) : Prop :=
  forall i m, rd ms i = Some m -> loadz view (map_kv a i) sizeof_GgKV = Some (member_kv m).

Lemma members_pairs view a ms : Forall (member_ok view) ms -> members_stored view a ms ->
  pairs_at view a (member_tree <$> ms) 0.
Proof.
  intros Hok Hst. assert (forall pre, (forall i m, rd (pre ++ ms) i = Some m -> zlen pre <= i ->
      loadz view (map_kv a i) sizeof_GgKV = Some (member_kv m)) ->
    pairs_at view a (member_tree <$> ms) (zlen pre)) as H; [|exact (H [] (fun i m Hi _ => Hst i m Hi))].
  clear Hst. induction Hok as [|m ms Hm Hok IH]; intros pre Hst; [done|]. cbn [fmap list_fmap pairs_at member_tree].
  assert (loadz view (map_kv a (zlen pre)) sizeof_GgKV = Some (member_kv m)) as Hkv.
  { apply Hst; [|done]. rewrite rd_app_r by lia. by rewrite Z.sub_diag. }
  pose proof (zlen_member _ _ Hm) as Hz. destruct Hm as [Hk Hn Hv]. pose proof Hk as [Hk1 Hk2].
  split_and!.
  - unfold read_kv. rewrite Hkv. cbn [fmap option_fmap option_map]. f_equal. by apply gg_kv_key_layout.
  - apply (val_at_obj _ _ (mobj m)); [|apply Hv]. unfold member_kv in Hkv, Hz. rewrite <- Hz, zlen_app in Hkv.
    apply loadz_split in Hkv as [_ Hobj]. rewrite zlen_ptr_len_bytes, (value_len _ _ _ _ Hv) in Hobj.
    unfold read_obj, map_elem, gg_kv_val. by rewrite <- Z.add_assoc.
  - replace (zlen pre + 1) with (zlen (pre ++ [m])) by zlen_lia. apply IH. intros i m' Hi Hle.
    apply Hst; [by rewrite <- app_assoc in Hi|]. rewrite zlen_app in Hle. zlen_lia.
Qed.
Lemma value_members view a ms :
  objval_ok (VMap (mkMap a (zlen ms))) -> Forall (member_ok view) ms -> members_stored view a ms ->
  exists o, gg_obj_map (mkMap a (zlen ms)) = Some o /\
    value_at view (TMap a (member_tree <$> ms)) o (json_object (member_text <$> ms)).
Proof.
  intros Hok Hms Hst.
  assert (zlen (member_tree <$> ms) = zlen ms) as Hz by (unfold zlen; by rewrite length_fmap).
  destruct (value_pack view (TMap a (member_tree <$> ms))) as (o & Ho & Hv).
  - cbn [tree_val]. by rewrite Hz.
  - cbn [readable]. apply foldr_Forall, Forall_fmap. eapply Forall_impl; [exact Hms|]. intros m Hm.
    split; [by eexists; apply Hm|apply Hm].
  - by apply members_pairs.
  - exists o. split; [cbn [pack tree_val] in Ho; by rewrite Hz in Ho|].
    replace (json_object (member_text <$> ms)) with (json_text format_f64 view (TMap a (member_tree <$> ms))); [done|].
    cbn [text_of]. unfold json_object. do 3 f_equal. rewrite <- !list_fmap_compose.
    apply list_fmap_ext. intros i m Hi. rewrite Forall_lookup in Hms. destruct (Hms _ _ Hi) as [_ Hn Hv'].
    cbn [compose member_tree member_text fst snd]. unfold buf_text. rewrite Hn. cbn [default from_option id].
    by rewrite (value_text _ _ _ _ Hv').
Qed.
Lemma zlen_members view ms : Forall (member_ok view) ms ->
  zlen (concat (member_kv <$> ms)) = sizeof_GgKV * zlen ms.
Proof.
  induction 1 as [|m ms Hm _ IH]; [done|]. cbn [fmap list_fmap concat].
  rewrite zlen_app, IH, (zlen_member _ _ Hm), zlen_cons. lia.
Qed.

Lemma members_loaded view view' a ms :
  Forall (member_ok view) ms -> loadz view' a (sizeof_GgKV * zlen ms) = Some (concat (member_kv <$> ms)) ->
  members_stored view' a ms.
Proof.
  intros Hms. revert a. induction Hms as [|m ms Hm Hms IH]; intros a Hl i m' Hi.
  { apply rd_Some in Hi. unfold zlen in Hi. cbn in Hi. lia. }
  cbn [fmap list_fmap concat] in Hl. pose proof (zlen_member _ _ Hm) as Hz.
  pose proof (zlen_members _ _ Hms) as Hzs.
  rewrite zlen_cons in Hl. replace (sizeof_GgKV * (1 + zlen ms))
    with (zlen (member_kv m) + zlen (concat (member_kv <$> ms))) in Hl by (rewrite Hz, Hzs; lia).
  apply loadz_split in Hl as [H1 H2]. rewrite Hz in H1, H2. rewrite Hzs in H2. unfold map_kv.
  destruct (decide (i = 0)) as [->|Hne].
  - injection Hi as <-. by rewrite Z.mul_0_r, Z.add_0_r.
  - pose proof (rd_Some _ _ _ Hi). rewrite rd_cons in Hi by lia.
    specialize (IH _ H2 _ _ Hi). unfold map_kv in IH.
    by replace (a + sizeof_GgKV + sizeof_GgKV * (i - 1)) with (a + sizeof_GgKV * i) in IH by lia.
Qed.

(** *** Lists of keys *)

Definition key_text (view : mem) (key : BufPtr) (bs : bytes) : Prop :=
  objval_ok (VBuf key) /\ buf_bytes view key = Some bs.

Lemma keys_items view a keys texts :
  Forall2 (key_text view) keys texts ->
  loadz view a (sizeof_GgObject * zlen keys) = Some (concat (key_obj <$> keys)) ->
  items_at view a (TBuf <$> keys) 0.
Proof.
  assert (forall i, Forall2 (key_text view) keys texts ->
    loadz view (list_elem a i) (sizeof_GgObject * zlen keys) = Some (concat (key_obj <$> keys)) ->
    items_at view a (TBuf <$> keys) i) as H.
  2: { intros Hk Hl. apply H; [done|]. unfold list_elem. by rewrite Z.mul_0_r, Z.add_0_r. }
  intros i Hk. revert i. induction Hk as [|key bs keys texts [Hok Hb] Hk IH]; intros i Hl; [done|].
  cbn [fmap list_fmap items_at concat] in *. destruct Hok as [Hd Hlen]. destruct (key_obj_buf key Hlen) as [Ho Hz].
  assert (zlen (concat (key_obj <$> keys)) = sizeof_GgObject * zlen keys) as Hzs.
  { apply zlen_key_objs. clear -Hk. by induction Hk as [|? ? ? ? [[_ ?] _] _ ?]; constructor. }
  rewrite zlen_cons in Hl. replace (sizeof_GgObject * (1 + zlen keys))
    with (zlen (key_obj key) + zlen (concat (key_obj <$> keys))) in Hl by (rewrite Hz, Hzs; lia).
  apply loadz_split in Hl as [H1 H2]. rewrite Hz in H1, H2. rewrite Hzs in H2. split.
  - apply (val_at_obj _ _ (key_obj key)); [exact H1|]. split; [|done].
    by apply (unpack_pack (VBuf key)).
  - apply IH. unfold list_elem in *. by replace (a + sizeof_GgObject * (i + 1)) with
      (a + sizeof_GgObject * i + sizeof_GgObject) by lia.
Qed.

Lemma value_keys view a keys texts :
  objval_ok (VList (mkList a (zlen keys))) -> Forall2 (key_text view) keys texts ->
  loadz view a (sizeof_GgObject * zlen keys) = Some (concat (key_obj <$> keys)) ->
  exists o, gg_obj_list (mkList a (zlen keys)) = Some o /\
    value_at view (TList a (TBuf <$> keys)) o (json_list (json_string <$> texts)).
Proof.
  intros Hok Hk Hl. assert (zlen (TBuf <$> keys) = zlen keys) as Hz by (unfold zlen; by rewrite length_fmap).
  destruct (value_pack view (TList a (TBuf <$> keys))) as (o & Ho & Hv).
  - cbn [tree_val]. by rewrite Hz.
  - cbn [readable]. apply foldr_Forall, Forall_fmap. clear -Hk.
    induction Hk as [|key bs ? ? [_ Hb] _ IH]; constructor; [by eexists|done].
  - by eapply keys_items.
  - exists o. split; [cbn [pack tree_val] in Ho; by rewrite Hz in Ho|].
    replace (json_list (json_string <$> texts)) with (json_text format_f64 view (TList a (TBuf <$> keys))); [done|].
    cbn [text_of]. unfold json_list. do 3 f_equal. clear -Hk.
    induction Hk as [|key bs ? ? [_ Hb] _ IH]; [done|]. cbn [fmap list_fmap text_of]. f_equal; [|exact IH].
    unfold buf_text. by rewrite Hb.
Qed.
End values.

(** ** Building requests *)

Definition in_regions (rs : list (Z * Z)) (x : Z) : Prop := Exists (fun r => zrange r.1 (r.1 + r.2) x) rs.

(** A variable of the caller, unless the pointer is null. *)
Definition out_regions (p n : Z) : list (Z * Z) := if p =? NULL then [] else [(p, n)].

(** The strings of the parameters. *)
Definition literals : list bytes :=
  GG_STR <$> ["state"; "RUNNING"; "ERRORED"; "componentName"; "topic"; "publishMessage"; "message"; "jsonMessage";
    "binaryMessage"; "topicName"; "payload"; "qos"; "keyPath"; "timestamp"; "valueToMerge"; ""]%string.

Definition name_ok (s : bytes) : bool := (zlen s <=? UINT16_MAX) && forallb is_byteb s.

Lemma name_ok_spec s : name_ok s = true -> zlen s <= UINT16_MAX /\ bytes_ok s.
Proof.
  unfold name_ok. intros [Hl Hb]%andb_true_iff. split; [by apply Z.leb_le|].
  apply Forall_forall. intros b Hin. apply is_byteb_spec. by eapply forallb_forall, list_elem_of_In.
Qed.

Section requests.
Context `{env : ClientEnv W}.
Abbreviation client := (client W).
Implicit Types c : client.
Context (addr : ipc_handler -> Z) (lit : bytes -> Z).
Context (args_mem inner_mem outer_mem path_mem qos_mem ipc_b64_encode_mem : Z).
(** The variables of the caller that the operation may write to: before and
    after the call was sent. *)
Context (res out : list (Z * Z)).

Definition sending_regions : list (Z * Z) :=
  [(params_obj, sizeof_GgObject); (json_frame, sizeof_GgObject); (ipc_send_mem, GG_IPC_MAX_MSG_LEN)].

(** The local arrays and the static buffer for encoding. *)
Definition local_arrays : list (Z * Z) :=
  [(args_mem, sizeof_GgKV * 3); (inner_mem, sizeof_GgKV); (outer_mem, sizeof_GgKV);
   (path_mem, sizeof_GgObject * 14); (qos_mem, 1)].
Definition local_regions : list (Z * Z) := local_arrays ++ (ipc_b64_encode_mem, GG_IPC_MAX_MSG_LEN) :: res.

Definition regions (ls : list (Z * Z)) : list (Z * Z) := sending_regions ++ ls ++ out.
Definition op_frame : Z -> Prop := in_regions (regions local_regions).

Lemma room_sending view m ls : params_obj <> NULL -> room view m (regions ls) -> sending_room view m.
Proof using Type.
  intros Hne [Hv Hf Hm Ha]. unfold regions, sending_regions in *. cbn [app] in *. rewrite !Forall_cons in Hf, Hm.
  destruct Hf as (Hf1 & Hf2 & Hf3 & _), Hm as (Hm1 & Hm2 & Hm3 & _).
  inversion Ha as [|? ? H1 Ha1]; inversion Ha1 as [|? ? H2 _]; subst. rewrite !Forall_cons in H1. rewrite Forall_cons in H2.
  destruct H1 as [H12 [H13 _]], H2 as [H23 _]. by split.
Qed.

Lemma room_out view m ls r : room view m (regions ls) -> r ∈ out -> mapped m r.1 r.2 /\ fresh view r.1 r.2.
Proof using Type.
  intros [_ Hf Hm _] Hr. rewrite Forall_forall in Hf, Hm. unfold regions in *.
  split; [apply Hm|apply Hf]; set_solver.
Qed.

Lemma room_out_apart view m ls r x : room view m (regions ls) -> r ∈ out -> zrange r.1 (r.1 + r.2) x ->
  ~ in_regions sending_regions x.
Proof using Type.
  intros Hr [out' Hp]%elem_of_Permutation Hx.
  assert (regions ls ≡ₚ r :: sending_regions ++ ls ++ out') as Hperm.
  { unfold regions. rewrite Hp, !app_assoc. by rewrite <- Permutation_middle. }
  destruct (room_perm _ _ _ _ Hperm Hr) as [_ _ _ Ha]. inversion Ha as [|? ? Hd _]; subst.
  unfold in_regions. rewrite Exists_exists. intros (s & Hs & Hxs). rewrite Forall_forall in Hd.
  specialize (Hd s ltac:(set_solver)). unfold disj, zrange in *. lia.
Qed.

(** From [c0], only memory of the operation has changed; [view] is what is
    known of it, and [ls] is the room that is left for locals. *)
Record prepared (c0 : client) (view : mem) (ls : list (Z * Z)) (c : client) : Prop := {
  prep_same : c = with_mem (sys c0) (cmem c) c0;
  prep_room : room view (cmem c) (regions ls);
  prep_changes : changes op_frame (cmem c0) (cmem c);
  prep_in : forall x, in_regions ls x -> op_frame x;
}.

Lemma prepared_start c view : room view (cmem c) (regions local_regions) -> prepared c view local_regions c.
Proof using Type.
  intros Hr. split; [by destruct c|done|apply changes_refl|].
  intros x Hx. unfold op_frame, in_regions, regions. rewrite !Exists_app. by right; left.
Qed.

Lemma ok_bind {A B} (f : sysm client A) (k : A -> sysm client B) c a c1 :
  f c = (Ok a, c1) -> (f ≫= k) c = k a c1.
Proof using Type. unfold mbind, sysm_bind. by intros ->. Qed.

(** Storing in a region of the locals or of the caller. *)
Lemma prepared_store c0 view ls c i a n bs :
  prepared c0 view ls c -> ls !! i = Some (a, n) -> zlen bs <= n ->
  exists m, store (cmem c) a bs = Some m /\ prepared c0 (put view a bs) (delete i ls) (with_mem (sys c) m c) /\
    view ⊆ put view a bs.
Proof using Type.
  intros [H1 H2 H3 H4] Hi Hn. assert (regions ls ≡ₚ (a, n) :: regions (delete i ls)) as Hperm.
  { unfold regions. apply delete_Permutation in Hi. rewrite Hi at 1. cbn [app]. by rewrite <- Permutation_middle. }
  assert (forall x, in_regions ls x <-> in_regions ((a, n) :: delete i ls) x) as Hin.
  { intros x. unfold in_regions. pose proof (delete_Permutation _ _ _ Hi) as Hd. by rewrite Hd at 1. }
  destruct (room_store _ _ _ _ _ _ (room_perm _ _ _ _ Hperm H2) Hn) as (m & Hs & Hr & Hv & Hc).
  exists m. split; [done|]. split; [|done]. split; cbn [cmem with_mem].
  - by rewrite H1.
  - done.
  - apply (changes_trans _ _ (cmem c)); [done|]. eapply changes_sub; [exact Hc|].
    intros x Hx. apply H4, Hin. by left.
  - intros x Hx. apply H4, Hin. by right.
Qed.

(** A part of the first region. *)
Lemma prepared_split c0 view a n k ls c :
  0 <= n -> 0 <= k -> prepared c0 view ((a, n + k) :: ls) c -> prepared c0 view ((a, n) :: (a + n, k) :: ls) c.
Proof using Type.
  intros Hn Hk [H1 [Hv Hf Hm Ha] H3 H4]. unfold regions in *.
  assert (forall b j s, a <= b -> b + j <= a + (n + k) -> disj a (n + k) s.1 s.2 -> disj b j s.1 s.2) as Hd1
    by (intros b j s; unfold disj; lia).
  assert (forall b j s, a <= b -> b + j <= a + (n + k) -> disj s.1 s.2 a (n + k) -> disj s.1 s.2 b j) as Hd2
    by (intros b j s; unfold disj; lia).
  split; [done| |done|].
  - unfold regions. cbn [app] in *. rewrite Forall_app, !Forall_cons in Hf. rewrite Forall_app, !Forall_cons in Hm.
    destruct Hf as (Hf1 & Hf2 & Hf3), Hm as (Hm1 & Hm2 & Hm3). cbn [fst snd] in *. split.
    + done.
    + rewrite Forall_app, !Forall_cons. split; [done|]. cbn [fst snd].
      split; [|split; [|done]]; intros x Hx; apply Hf2; unfold zrange in *; lia.
    + rewrite Forall_app, !Forall_cons. split; [done|]. cbn [fst snd].
      split; [|split; [|done]]; intros x Hx; apply Hm2; lia.
    + clear Hf1 Hm1. revert Ha. generalize sending_regions. intros pre Ha.
      induction pre as [|r pre IH]; cbn [app] in *; inversion Ha as [|? ? Hr Ha']; subst.
      * constructor; [constructor|constructor; [|done]]; cbn [fst snd] in *.
        -- unfold disj. lia.
        -- eapply Forall_impl; [exact Hr|]. intros s. apply Hd1; lia.
        -- eapply Forall_impl; [exact Hr|]. intros s. apply Hd1; lia.
      * constructor; [|by apply IH]. rewrite Forall_app, !Forall_cons. rewrite Forall_app, Forall_cons in Hr. destruct Hr as (Hr1 & Hr2 & Hr3).
        cbn [fst snd] in *. split; [done|]. split; [|split; [|done]]; (eapply Hd2; [..|exact Hr2]); lia.
  - intros x Hx. apply H4. unfold in_regions in *. rewrite !Exists_cons in *. cbn [fst snd] in *.
    unfold zrange in *. destruct Hx as [?|[?|?]]; [left; lia|left; lia|by right].
Qed.

Lemma store_local_run c0 view ls c i a n bs :
  prepared c0 view ls c -> ls !! i = Some (a, n) -> zlen bs <= n ->
  exists c', store_local a bs c = (Ok tt, c') /\ prepared c0 (put view a bs) (delete i ls) c' /\ view ⊆ put view a bs.
Proof using Type.
  intros Hp Hi Hn. destruct (prepared_store _ _ _ _ _ _ _ _ Hp Hi Hn) as (m & Hs & Hp' & Hv).
  exists (with_mem (sys c) m c). split; [|done]. unfold store_local, on_mem. by rewrite Hs.
Qed.

(** A string literal is in the view. *)
Definition lit_ok (view : mem) (s : bytes) : Prop := key_text view (LIT lit s) s.

Lemma lit_ok_mono view view' s : view ⊆ view' -> lit_ok view s -> lit_ok view' s.
Proof using Type. intros Hv [Hok Hb]. split; [done|by eapply buf_bytes_mono]. Qed.

Definition literal (key : bytes) (t : otree) (o : GgObject) (text : bytes) : member :=
  mkMember (LIT lit key) key t o text.

Lemma literal_ok view key t o text :
  lit_ok view key -> value_at format_f64 view t o text -> member_ok format_f64 view (literal key t o text).
Proof using Type. intros [Hok Hb] Hv. by split. Qed.

Lemma pair_run view key t o text c :
  lit_ok view key -> value_at format_f64 view t o text ->
  pair lit key (Some o) c = (Ok (member_kv (literal key t o text)), c).
Proof using Type.
  intros [[Hd Hl] _] [_ Hz _ _]. unfold pair. unfold need, mbind, sysm_bind, lift_out. cbn [get].
  by rewrite gg_kv_layout.
Qed.

(** A map in a local array. *)
Lemma local_map_run c0 view ls c i a n ms :
  prepared c0 view ls c -> ls !! i = Some (a, n) -> sizeof_GgKV * zlen ms <= n ->
  objval_ok (VMap (mkMap a (zlen ms))) -> Forall (member_ok format_f64 view) ms ->
  exists c' view' o, local_map a (member_kv <$> ms) c = (Ok (mkMap a (zlen ms)), c') /\
    prepared c0 view' (delete i ls) c' /\ view ⊆ view' /\ gg_obj_map (mkMap a (zlen ms)) = Some o /\
    value_at format_f64 view' (TMap a (member_tree <$> ms)) o (json_object (member_text <$> ms)).
Proof using Type.
  intros Hp Hi Hn Hok Hms. pose proof (zlen_members _ _ _ Hms) as Hz.
  destruct (store_local_run c0 view ls c i a n (concat (member_kv <$> ms)) Hp Hi) as (c' & Hs & Hp' & Hv); [lia|].
  assert (Forall (member_ok format_f64 (put view a (concat (member_kv <$> ms)))) ms) as Hms'.
  { eapply Forall_impl; [exact Hms|]. intros m. by apply member_mono. }
  destruct (value_members format_f64 _ a ms Hok Hms') as (o & Ho & Hval).
  { apply (members_loaded format_f64 view); [done|]. rewrite <- Hz. apply loadz_put. }
  eexists c', _, o. split_and!; [|exact Hp'|done|done|exact Hval].
  unfold local_map. rewrite (ok_bind _ _ _ _ _ Hs). unfold mret, sysm_ret. unfold zlen at 1. by rewrite length_fmap.
Qed.

(** ** What an operation asks for *)

(** The operation builds the request [r] with parameters of this text, and
    then only subscribes. *)
Definition asks (c0 : client) (view0 : mem) (f : (request -> sysm client unit) -> sysm client unit)
    (r : request) (text : bytes) : Prop :=
  exists c view ls kvs, (forall subscribe, f subscribe c0 = subscribe r c) /\
    prepared c0 view ls c /\ view0 ⊆ view /\ request_at view r kvs /\
    json_text format_f64 view (params_tree r kvs) = text.

Lemma asks_intro c0 view0 f r kvs o text c view ls :
  (forall subscribe, f subscribe c0 = subscribe r c) -> prepared c0 view ls c -> view0 ⊆ view ->
  objval_ok (VMap (params r)) -> map_len (params r) = zlen kvs ->
  value_at format_f64 view (params_tree r kvs) o text ->
  within_limits (params_tree r kvs) = true ->
  name_ok (operation r) && name_ok (service_model_type r) = true ->
  asks c0 view0 f r text.
Proof using Type.
  intros Hf Hp Hv Hok Hl [[_ Hat] _ Hpr Ht] Hw [Hop Hty]%andb_true_iff.
  exists c, view, ls, kvs. split_and!; try done. split; try done; by apply name_ok_spec.
Qed.

Section operation.
(** The operation was called in [c0] and has come to [c]. *)
Context (c0 c : client) (view0 view : mem) (lits : Forall (lit_ok view0) literals) (Hview : view0 ⊆ view).
Context (more : list (Z * Z)) (start : prepared c0 view (local_arrays ++ more) c).
Context (addresses : Forall (fun a => 0 <= a <= SIZE_MAX)
  [args_mem; inner_mem; outer_mem; path_mem; qos_mem; ipc_b64_encode_mem]).

Lemma lit_at view' s : view ⊆ view' -> bool_decide (s ∈ literals) = true -> lit_ok view' s.
Proof using All.
  intros Hv Hin%bool_decide_eq_true. apply (lit_ok_mono view0); [by etrans|]. by apply (proj1 (Forall_forall _ _) lits).
Qed.

Lemma map_fits a n : a ∈ [args_mem; inner_mem; outer_mem; path_mem; qos_mem; ipc_b64_encode_mem] ->
  0 <= n <= UINT16_MAX -> objval_ok (VMap (mkMap a n)).
Proof using All.
  intros Hin Hn. split; [|done]. by apply (proj1 (Forall_forall _ _) addresses).
Qed.

(** The last step of an operation: the array of its arguments. *)
Lemma args_asks view1 ls i n c1 ms r f :
  prepared c0 view1 ls c1 -> view ⊆ view1 -> ls !! i = Some (args_mem, n) -> sizeof_GgKV * zlen ms <= n ->
  zlen ms <= UINT16_MAX -> Forall (member_ok format_f64 view1) ms ->
  params r = mkMap args_mem (zlen ms) -> within_limits (TMap args_mem (member_tree <$> ms)) = true ->
  name_ok (operation r) && name_ok (service_model_type r) = true ->
  (forall subscribe c', local_map args_mem (member_kv <$> ms) c1 = (Ok (mkMap args_mem (zlen ms)), c') ->
     f subscribe c0 = subscribe r c') ->
  asks c0 view0 f r (json_object (member_text <$> ms)).
Proof using All.
  intros Hp Hv Hi Hn Hlen Hms Hr Hw Hnames Hf. pose proof (zlen_nonneg ms).
  assert (objval_ok (VMap (mkMap args_mem (zlen ms)))) as Hok.
  { apply map_fits; [by left|lia]. }
  destruct (local_map_run c0 view1 ls c1 i args_mem n ms Hp Hi Hn Hok Hms)
    as (c' & view' & o & Hrun & Hp' & Hv' & Ho & Hval).
  assert (params_tree r (member_tree <$> ms) = TMap args_mem (member_tree <$> ms)) as Htree
    by (unfold params_tree; by rewrite Hr).
  apply (asks_intro _ _ _ _ (member_tree <$> ms) o _ c' view' (delete i ls)); rewrite ?Htree, ?Hr; try done.
  - intros subscribe. by apply Hf.
  - by do 2 (etrans; [eassumption|]).
  - unfold zlen. by rewrite length_fmap.
Qed.

Definition update_state_request : request :=
  mkRequest (GG_STR "aws.greengrass#UpdateState") (GG_STR "aws.greengrass#UpdateStateRequest")
    (mkMap args_mem 1) NULL (addr UPDATE_STATE_ERROR) NULL NULL NULL NULL NULL.

Lemma update_state_asks f (running : bool) :
  (forall subscribe, f subscribe c0 = ggipc_update_state subscribe addr lit args_mem (if running then 0 else 1) c) ->
  asks c0 view0 f update_state_request
    (json_object [(GG_STR "state", json_string (if running then GG_STR "RUNNING" else GG_STR "ERRORED"))]).
Proof using All.
  intros Hf. set (s := if running then GG_STR "RUNNING" else GG_STR "ERRORED").
  assert (lit_ok view s) as [Hok Hb] by (destruct running; by apply lit_at).
  destruct (value_buf format_f64 view (LIT lit s) s Hok Hb) as (o & Ho & Hv).
  assert (lit_ok view (GG_STR "state")) as Hk by by apply lit_at.
  apply (args_asks view (local_arrays ++ more) 0 (sizeof_GgKV * 3) c
    [literal (GG_STR "state") (TBuf (LIT lit s)) o (json_string s)]); try done.
  - by constructor; [apply literal_ok|].
  - intros subscribe c' Hrun. rewrite Hf. unfold ggipc_update_state.
    assert (forall A (g : bytes -> A) (h : A), match (if (if running then 0 else 1) =? 0 then Some (GG_STR "RUNNING")
         else if (if running then 0 else 1) =? 1 then Some (GG_STR "ERRORED") else None) with
         | Some s => g s | None => h end = g s) as -> by by destruct running.
    rewrite Ho, (ok_bind _ _ _ _ _ (pair_run view (GG_STR "state") _ _ _ _ Hk Hv)).
    by rewrite (ok_bind _ _ _ _ _ Hrun).
Qed.
Definition restart_component_request : request :=
  mkRequest (GG_STR "aws.greengrass#RestartComponent") (GG_STR "aws.greengrass#RestartComponentRequest")
    (mkMap args_mem 1) (addr RESTART_COMPONENT_RESPONSE) (addr RESTART_COMPONENT_ERROR) NULL NULL NULL NULL NULL.

Lemma restart_component_asks f name text :
  key_text view name text ->
  (forall subscribe, f subscribe c0 = ggipc_restart_component subscribe addr lit args_mem name c) ->
  asks c0 view0 f restart_component_request
    (json_object [(GG_STR "componentName", json_string text)]).
Proof using All.
  intros [Hok Hb] Hf. destruct (value_buf format_f64 view name text Hok Hb) as (o & Ho & Hv).
  assert (lit_ok view (GG_STR "componentName")) as Hk by by apply lit_at.
  apply (args_asks view (local_arrays ++ more) 0 (sizeof_GgKV * 3) c
    [literal (GG_STR "componentName") (TBuf name) o (json_string text)]); try done.
  - by constructor; [apply literal_ok|].
  - intros subscribe c' Hrun. rewrite Hf. unfold ggipc_restart_component.
    rewrite Ho, (ok_bind _ _ _ _ _ (pair_run view (GG_STR "componentName") _ _ _ _ Hk Hv)).
    by rewrite (ok_bind _ _ _ _ _ Hrun).
Qed.

(** *** Publishing *)

Definition publish_to_topic_request : request :=
  mkRequest (GG_STR "aws.greengrass#PublishToTopic") (GG_STR "aws.greengrass#PublishToTopicRequest")
    (mkMap args_mem 2) NULL (addr PUBLISH_TO_TOPIC_ERROR) NULL NULL NULL NULL NULL.

(** A tree with this many levels and subobjects less than the limits. *)
Definition leaves_room (t : otree) (depth subobjects : Z) : Prop :=
  tree_depth t + depth <= GG_MAX_OBJECT_DEPTH /\ tree_subobjects t + subobjects <= GG_MAX_OBJECT_SUBOBJECTS.

Lemma publish_common_asks view1 ls i c1 f topic topic_text publish_message t o text :
  prepared c0 view1 ls c1 -> view ⊆ view1 -> ls !! i = Some (args_mem, sizeof_GgKV * 3) ->
  key_text view topic topic_text -> gg_obj_map publish_message = Some o -> value_at format_f64 view1 t o text ->
  leaves_room t 1 4 ->
  (forall subscribe, f subscribe c0 = publish_to_topic_common subscribe addr lit args_mem topic publish_message c1) ->
  asks c0 view0 f publish_to_topic_request
    (json_object [(GG_STR "topic", json_string topic_text); (GG_STR "publishMessage", text)]).
Proof using All.
  intros Hp Hv Hi [Hok Hb] Ho Hval [Hd Hs] Hf. apply (buf_bytes_mono _ _ _ _ Hv) in Hb.
  destruct (value_buf format_f64 view1 topic topic_text Hok Hb) as (o1 & Ho1 & Hval1).
  assert (lit_ok view1 (GG_STR "topic")) as Hk1 by by apply lit_at.
  assert (lit_ok view1 (GG_STR "publishMessage")) as Hk2 by by apply lit_at.
  apply (args_asks view1 ls i (sizeof_GgKV * 3) c1
    [literal (GG_STR "topic") (TBuf topic) o1 (json_string topic_text); literal (GG_STR "publishMessage") t o text]);
    try done.
  - constructor; [by apply literal_ok|]. by constructor; [apply literal_ok|].
  - unfold within_limits. cbn [fmap list_fmap member_tree literal mkey mtree tree_depth tree_subobjects foldr snd].
    change (zlen [_; _]) with 2. unfold GG_MAX_OBJECT_DEPTH, GG_MAX_OBJECT_SUBOBJECTS in *.
    apply andb_true_iff. split; apply Z.leb_le; lia.
  - intros subscribe c' Hrun. rewrite Hf. unfold publish_to_topic_common.
    rewrite Ho1, (ok_bind _ _ _ _ _ (pair_run view1 (GG_STR "topic") _ _ _ _ Hk1 Hval1)).
    rewrite Ho, (ok_bind _ _ _ _ _ (pair_run view1 (GG_STR "publishMessage") _ _ _ _ Hk2 Hval)).
    by rewrite (ok_bind _ _ _ _ _ Hrun).
Qed.

(** A map of a single pair. *)
Lemma nested_map_run view1 ls c1 i a n key t o text :
  prepared c0 view1 ls c1 -> view ⊆ view1 -> ls !! i = Some (a, n) -> sizeof_GgKV <= n ->
  a ∈ [args_mem; inner_mem; outer_mem; path_mem; qos_mem; ipc_b64_encode_mem] ->
  bool_decide (key ∈ literals) = true -> value_at format_f64 view1 t o text ->
  exists c' view' t' o',
    (forall B (K : GgMap -> sysm client B),
       (kv ← pair lit key (Some o); inner ← local_map a [kv]; K inner) c1 = K (mkMap a 1) c') /\
    prepared c0 view' (delete i ls) c' /\ view1 ⊆ view' /\ gg_obj_map (mkMap a 1) = Some o' /\
    value_at format_f64 view' t' o' (json_object [(key, text)]) /\
    (forall d n, leaves_room t (d + 1) (n + 2) -> leaves_room t' d n).
Proof using All.
  intros Hp Hv Hi Hn Ha Hkey Hval. assert (lit_ok view1 key) as Hk by by apply lit_at.
  destruct (local_map_run c0 view1 ls c1 i a n [literal key t o text] Hp Hi) as (c' & view' & o' & Hr & Hp' & Hv' & Ho & Hval').
  { done. } { by apply map_fits. } { by constructor; [apply literal_ok|]. }
  exists c', view', (TMap a (member_tree <$> [literal key t o text])), o'.
  split_and!; [|done|done|exact Ho|exact Hval'|].
  - intros B K. rewrite (ok_bind _ _ _ _ _ (pair_run view1 key _ _ _ _ Hk Hval)). by rewrite (ok_bind _ _ _ _ _ Hr).
  - intros d k. unfold leaves_room. cbn [fmap list_fmap member_tree literal mkey mtree tree_depth tree_subobjects foldr snd].
    change (zlen [_]) with 1. pose proof (tree_depth_pos t). lia.
Qed.

(** A message in two nested maps. *)
Lemma publish_message_asks f kind topic topic_text (message : option GgObject) t o text :
  bool_decide (kind ∈ literals) = true ->
  key_text view topic topic_text -> message = Some o -> value_at format_f64 view t o text -> leaves_room t 3 8 ->
  (forall subscribe, f subscribe c0 =
    (kv ← pair lit (GG_STR "message") message;
     inner ← local_map inner_mem [kv];
     kv ← pair lit kind (gg_obj_map inner);
     publish_message ← local_map outer_mem [kv];
     publish_to_topic_common subscribe addr lit args_mem topic publish_message) c) ->
  asks c0 view0 f publish_to_topic_request
    (json_object [(GG_STR "topic", json_string topic_text);
       (GG_STR "publishMessage", json_object [(kind, json_object [(GG_STR "message", text)])])]).
Proof using All.
  intros Hkind Htopic -> Hval Hroom Hf.
  destruct (nested_map_run view (local_arrays ++ more) c 1 inner_mem sizeof_GgKV (GG_STR "message") t o text)
    as (c1 & view1 & t1 & o1 & Hr1 & Hp1 & Hv1 & Ho1 & Hval1 & Hroom1); [done|done|done|done|set_solver|done|done|].
  destruct (nested_map_run view1 _ c1 1 outer_mem sizeof_GgKV kind t1 o1
    (json_object [(GG_STR "message", text)]) Hp1 Hv1)
    as (c2 & view2 & t2 & o2 & Hr2 & Hp2 & Hv2 & Ho2 & Hval2 & Hroom2); [done|done|set_solver|done|exact Hval1|].
  apply (publish_common_asks view2 (delete 1%nat (delete 1%nat (local_arrays ++ more))) 0 c2 f topic topic_text
    (mkMap outer_mem 1) t2 o2
    (json_object [(kind, json_object [(GG_STR "message", text)])]) Hp2); [by etrans|done|done|exact Ho2|exact Hval2|by apply Hroom2, Hroom1|].
  intros subscribe. by rewrite Hf, Hr1, Ho1, Hr2.
Qed.

Lemma publish_json_asks f topic topic_text payload t o text :
  key_text view topic topic_text -> gg_obj_map payload = Some o -> value_at format_f64 view t o text ->
  leaves_room t 3 8 ->
  (forall subscribe, f subscribe c0 =
     ggipc_publish_to_topic_json subscribe addr lit args_mem inner_mem outer_mem topic payload c) ->
  asks c0 view0 f publish_to_topic_request
    (json_object [(GG_STR "topic", json_string topic_text);
       (GG_STR "publishMessage", json_object [(GG_STR "jsonMessage", json_object [(GG_STR "message", text)])])]).
Proof using All.
  intros Htopic Ho Hval Hroom Hf.
  by apply (publish_message_asks _ (GG_STR "jsonMessage") topic topic_text (gg_obj_map payload) t o text).
Qed.

Lemma publish_binary_b64_asks f topic topic_text payload text :
  key_text view topic topic_text -> key_text view payload text ->
  (forall subscribe, f subscribe c0 =
     ggipc_publish_to_topic_binary_b64 subscribe addr lit args_mem inner_mem outer_mem topic payload c) ->
  asks c0 view0 f publish_to_topic_request
    (json_object [(GG_STR "topic", json_string topic_text);
       (GG_STR "publishMessage",
         json_object [(GG_STR "binaryMessage", json_object [(GG_STR "message", json_string text)])])]).
Proof using All.
  intros Htopic [Hok Hb] Hf. destruct (value_buf format_f64 view payload text Hok Hb) as (o & Ho & Hval).
  by apply (publish_message_asks _ (GG_STR "binaryMessage") topic topic_text (gg_obj_buf payload) (TBuf payload) o (json_string text)).
Qed.
(** *** AWS IoT Core *)

(** The quality of service is sent as a digit in a local byte. *)
Lemma qos_run qos :
  exists c' view' o, store_local qos_mem [uwrap 8 (qos + 48)] c = (Ok tt, c') /\
    prepared c0 view' (delete 4%nat (local_arrays ++ more)) c' /\ view ⊆ view' /\
    gg_obj_buf (mkBuf qos_mem 1) = Some o /\
    value_at format_f64 view' (TBuf (mkBuf qos_mem 1)) o (json_string [uwrap 8 (qos + 48)]).
Proof using All.
  destruct (store_local_run c0 view _ c 4 qos_mem 1 [uwrap 8 (qos + 48)] start) as (c' & Hs & Hp & Hv); [done|done|].
  destruct (value_buf format_f64 (put view qos_mem [uwrap 8 (qos + 48)]) (mkBuf qos_mem 1) [uwrap 8 (qos + 48)])
    as (o & Ho & Hval).
  - split; [|done]. apply (proj1 (Forall_forall _ _) addresses). set_solver.
  - apply loadz_put.
  - by eexists c', _, o.
Qed.

Definition publish_to_iot_core_request : request :=
  mkRequest (GG_STR "aws.greengrass#PublishToIoTCore") (GG_STR "aws.greengrass#PublishToIoTCoreRequest")
    (mkMap args_mem 3) NULL (addr PUBLISH_TO_IOT_CORE_ERROR) NULL NULL NULL NULL NULL.

Lemma publish_iot_core_asks f topic topic_text payload text qos :
  key_text view topic topic_text -> key_text view payload text ->
  (forall subscribe, f subscribe c0 =
     ggipc_publish_to_iot_core_b64 subscribe addr lit args_mem qos_mem topic payload qos c) ->
  asks c0 view0 f publish_to_iot_core_request
    (json_object [(GG_STR "topicName", json_string topic_text); (GG_STR "payload", json_string text);
       (GG_STR "qos", json_string [uwrap 8 (qos + 48)])]).
Proof using All.
  intros [Hok1 Hb1] [Hok2 Hb2] Hf. destruct (qos_run qos) as (c1 & view1 & o3 & Hr1 & Hp1 & Hv1 & Ho3 & Hval3).
  destruct (value_buf format_f64 view1 topic topic_text Hok1 (buf_bytes_mono _ _ _ _ Hv1 Hb1)) as (o1 & Ho1 & Hval1).
  destruct (value_buf format_f64 view1 payload text Hok2 (buf_bytes_mono _ _ _ _ Hv1 Hb2)) as (o2 & Ho2 & Hval2).
  assert (lit_ok view1 (GG_STR "topicName")) as Hk1 by by apply lit_at.
  assert (lit_ok view1 (GG_STR "payload")) as Hk2 by by apply lit_at.
  assert (lit_ok view1 (GG_STR "qos")) as Hk3 by by apply lit_at.
  apply (args_asks view1 (delete 4%nat (local_arrays ++ more)) 0 (sizeof_GgKV * 3) c1
    [literal (GG_STR "topicName") (TBuf topic) o1 (json_string topic_text);
     literal (GG_STR "payload") (TBuf payload) o2 (json_string text);
     literal (GG_STR "qos") (TBuf (mkBuf qos_mem 1)) o3 (json_string [uwrap 8 (qos + 48)])]); try done.
  - repeat (constructor; [by apply literal_ok|]). constructor.
  - intros subscribe c' Hrun. rewrite Hf. unfold ggipc_publish_to_iot_core_b64.
    rewrite (ok_bind _ _ _ _ _ Hr1).
    rewrite Ho1, (ok_bind _ _ _ _ _ (pair_run view1 (GG_STR "topicName") _ _ _ _ Hk1 Hval1)).
    rewrite Ho2, (ok_bind _ _ _ _ _ (pair_run view1 (GG_STR "payload") _ _ _ _ Hk2 Hval2)).
    rewrite Ho3, (ok_bind _ _ _ _ _ (pair_run view1 (GG_STR "qos") _ _ _ _ Hk3 Hval3)).
    by rewrite (ok_bind _ _ _ _ _ Hrun).
Qed.

(** *** Subscriptions *)

Definition subscribe_to_topic_request (callback ctx handle : Z) : request :=
  mkRequest (GG_STR "aws.greengrass#SubscribeToTopic") (GG_STR "aws.greengrass#SubscribeToTopicRequest")
    (mkMap args_mem 1) NULL (addr SUBSCRIBE_TO_TOPIC_ERROR) NULL (addr SUBSCRIBE_TO_TOPIC_RESPONSE) callback ctx handle.

Lemma subscribe_to_topic_asks f topic topic_text callback ctx handle :
  key_text view topic topic_text ->
  (forall subscribe, f subscribe c0 = ggipc_subscribe_to_topic subscribe addr lit args_mem topic callback ctx handle c) ->
  asks c0 view0 f (subscribe_to_topic_request callback ctx handle)
    (json_object [(GG_STR "topic", json_string topic_text)]).
Proof using All.
  intros [Hok Hb] Hf. destruct (value_buf format_f64 view topic topic_text Hok Hb) as (o & Ho & Hv).
  assert (lit_ok view (GG_STR "topic")) as Hk by by apply lit_at.
  apply (args_asks view (local_arrays ++ more) 0 (sizeof_GgKV * 3) c
    [literal (GG_STR "topic") (TBuf topic) o (json_string topic_text)]); try done.
  - by constructor; [apply literal_ok|].
  - intros subscribe c' Hrun. rewrite Hf. unfold ggipc_subscribe_to_topic.
    rewrite Ho, (ok_bind _ _ _ _ _ (pair_run view (GG_STR "topic") _ _ _ _ Hk Hv)).
    by rewrite (ok_bind _ _ _ _ _ Hrun).
Qed.

Definition subscribe_to_iot_core_request (callback ctx handle : Z) : request :=
  mkRequest (GG_STR "aws.greengrass#SubscribeToIoTCore") (GG_STR "aws.greengrass#SubscribeToIoTCoreRequest")
    (mkMap args_mem 2) NULL (addr SUBSCRIBE_TO_IOT_CORE_ERROR) NULL (addr SUBSCRIBE_TO_IOT_CORE_RESPONSE)
    callback ctx handle.

Lemma subscribe_to_iot_core_asks f topic topic_text qos callback ctx handle :
  key_text view topic topic_text -> qos <= 2 ->
  (forall subscribe, f subscribe c0 =
     ggipc_subscribe_to_iot_core subscribe addr lit args_mem qos_mem topic qos callback ctx handle c) ->
  asks c0 view0 f (subscribe_to_iot_core_request callback ctx handle)
    (json_object [(GG_STR "topicName", json_string topic_text); (GG_STR "qos", json_string [uwrap 8 (qos + 48)])]).
Proof using All.
  intros [Hok1 Hb1] Hqos Hf. destruct (qos_run qos) as (c1 & view1 & o2 & Hr1 & Hp1 & Hv1 & Ho2 & Hval2).
  destruct (value_buf format_f64 view1 topic topic_text Hok1 (buf_bytes_mono _ _ _ _ Hv1 Hb1)) as (o1 & Ho1 & Hval1).
  assert (lit_ok view1 (GG_STR "topicName")) as Hk1 by by apply lit_at.
  assert (lit_ok view1 (GG_STR "qos")) as Hk2 by by apply lit_at.
  apply (args_asks view1 (delete 4%nat (local_arrays ++ more)) 0 (sizeof_GgKV * 3) c1
    [literal (GG_STR "topicName") (TBuf topic) o1 (json_string topic_text);
     literal (GG_STR "qos") (TBuf (mkBuf qos_mem 1)) o2 (json_string [uwrap 8 (qos + 48)])]); try done.
  - repeat (constructor; [by apply literal_ok|]). constructor.
  - intros subscribe c' Hrun. rewrite Hf. unfold ggipc_subscribe_to_iot_core. rewrite (proj2 (Z.ltb_ge _ _)) by done.
    rewrite (ok_bind _ _ _ _ _ Hr1).
    rewrite Ho1, (ok_bind _ _ _ _ _ (pair_run view1 (GG_STR "topicName") _ _ _ _ Hk1 Hval1)).
    rewrite Ho2, (ok_bind _ _ _ _ _ (pair_run view1 (GG_STR "qos") _ _ _ _ Hk2 Hval2)).
    by rewrite (ok_bind _ _ _ _ _ Hrun).
Qed.
(** *** Configuration *)

(** A key path in its local array. *)
Lemma path_list_run view1 ls c1 i keys texts :
  prepared c0 view1 ls c1 -> ls !! i = Some (path_mem, sizeof_GgObject * 14) ->
  Forall2 (key_text view1) keys texts -> zlen keys <= 14 ->
  exists c' view' o, path_list path_mem keys c1 = (Ok (Some o), c') /\
    prepared c0 view' (delete i ls) c' /\ view1 ⊆ view' /\
    value_at format_f64 view' (TList path_mem (TBuf <$> keys)) o (json_list (json_string <$> texts)).
Proof using All.
  intros Hp Hi Hk Hn. pose proof (zlen_nonneg keys).
  assert (Forall key_ok keys) as Hok by (clear -Hk; induction Hk as [|? ? ? ? [[_ ?] _] _ ?]; by constructor).
  pose proof (zlen_key_objs keys Hok) as Hz.
  destruct (prepared_store c0 view1 ls c1 i path_mem _ (concat (key_obj <$> keys)) Hp Hi) as (m & Hs & Hp' & Hv).
  { unfold sizeof_GgObject in *. lia. }
  assert (mapped (cmem c1) path_mem (sizeof_GgObject * 14)) as Hm.
  { destruct Hp as [_ [_ _ Hm _] _ _]. rewrite Forall_forall in Hm. apply (Hm (path_mem, sizeof_GgObject * 14)).
    unfold regions. apply list_elem_of_lookup_2 in Hi. set_solver. }
  pose proof (push_path_ok path_mem c1 0 14 keys ltac:(lia) Hm Hok) as Hpush.
  rewrite Z.add_0_l, (proj2 (Z.leb_le _ _)) in Hpush by done. destruct Hpush as (m' & Hs' & Hpush).
  rewrite Z.mul_0_r, Z.add_0_r, Hs in Hs'. injection Hs' as <-.
  set (view' := put view1 path_mem (concat (key_obj <$> keys))) in *.
  destruct (value_keys format_f64 view' path_mem keys texts) as (o & Ho & Hval).
  - split; [|cbn; unfold UINT16_MAX; lia]. apply (proj1 (Forall_forall _ _) addresses). set_solver.
  - eapply Forall2_impl; [exact Hk|]. intros key bs [Hkey Hb]. split; [done|by eapply buf_bytes_mono].
  - rewrite <- Hz. apply loadz_put.
  - exists (with_mem (sys c1) m c1), view', o. split_and!; [|done|done|done].
    unfold path_list. change (GG_MAX_OBJECT_DEPTH - 1) with 14. rewrite (ok_bind _ _ _ _ _ Hpush).
    rewrite bool_decide_true by done. cbn [negb ov_list]. by rewrite Ho.
Qed.

(** The arguments that were pushed on the vector of arguments so far. *)
Record pushed (view1 : mem) (ls : list (Z * Z)) (c1 : client) (ms : list member) : Prop := {
  pushed_prep : prepared c0 view1 ((args_mem + sizeof_GgKV * zlen ms, sizeof_GgKV * (3 - zlen ms)) :: ls) c1;
  pushed_ok : Forall (member_ok format_f64 view1) ms;
  pushed_at : members_stored view1 args_mem ms;
}.

Lemma members_stored_mono view1 view2 a ms : view1 ⊆ view2 -> members_stored view1 a ms -> members_stored view2 a ms.
Proof using Type. intros Hv Hst i m Hi. eapply loadz_mono; [exact Hv|by apply Hst]. Qed.

Lemma pushed_start ls c1 view1 :
  prepared c0 view1 ((args_mem, sizeof_GgKV * 3) :: ls) c1 -> pushed view1 ls c1 [].
Proof using All.
  intros Hp. split; [|constructor|by intros i m Hi; apply rd_Some in Hi; unfold zlen in Hi; cbn in Hi; lia].
  change (zlen []) with 0. by rewrite Z.mul_0_r, Z.add_0_r.
Qed.

(** A key path that is built between the pushes. *)
Lemma pushed_path view1 ls c1 ms i keys texts :
  pushed view1 ls c1 ms -> view ⊆ view1 -> ls !! i = Some (path_mem, sizeof_GgObject * 14) ->
  Forall2 (key_text view) keys texts -> zlen keys <= 14 ->
  exists c' view' o, path_list path_mem keys c1 = (Ok (Some o), c') /\ pushed view' (delete i ls) c' ms /\
    view1 ⊆ view' /\
    value_at format_f64 view' (TList path_mem (TBuf <$> keys)) o (json_list (json_string <$> texts)).
Proof using All.
  intros [Hp Hok Hst] Hv Hi Hk Hn.
  destruct (path_list_run view1 _ c1 (S i) keys texts Hp Hi) as (c' & view' & o & Hr & Hp' & Hv' & Hval); [|done|].
  { eapply Forall2_impl; [exact Hk|]. intros key bs [Hkey Hb]. split; [done|by eapply buf_bytes_mono]. }
  exists c', view', o. split_and!; [done| |done|done]. split; [exact Hp'| |by eapply members_stored_mono].
  eapply Forall_impl; [exact Hok|]. intros m. by apply member_mono.
Qed.

Lemma push_arg_run view1 ls c1 ms m :
  pushed view1 ls c1 ms -> zlen ms < 2 -> member_ok format_f64 view1 m ->
  exists c' view', push_arg (mkKVVec (mkMap args_mem (zlen ms)) 2) (member_kv m) c1 =
      (Ok (mkKVVec (mkMap args_mem (zlen (ms ++ [m]))) 2), c') /\
    pushed view' ls c' (ms ++ [m]) /\ view1 ⊆ view'.
Proof using All.
  intros [Hp Hok Hst] Hn Hm. pose proof (zlen_nonneg ms). pose proof (zlen_member _ _ _ Hm) as Hz.
  replace (sizeof_GgKV * (3 - zlen ms)) with (sizeof_GgKV + sizeof_GgKV * (2 - zlen ms)) in Hp by lia.
  apply prepared_split in Hp; [|by vm_compute|unfold sizeof_GgKV; lia].
  destruct (prepared_store c0 view1 _ c1 0 _ _ (member_kv m) Hp eq_refl) as (m1 & Hs & Hp1 & Hv1); [lia|].
  set (view' := put view1 (args_mem + sizeof_GgKV * zlen ms) (member_kv m)) in *.
  exists (with_mem (sys c1) m1 c1), view'. split_and!; [|split|done].
  - unfold push_arg, on_mem, gg_kv_vec_push. cbn [kv_map map_len pairs kv_capacity].
    rewrite (proj2 (Z.leb_gt _ _)) by lia. rewrite Hs. cbn [mbind option_bind]. by rewrite zlen_app.
  - cbn [delete list_delete] in Hp1. rewrite zlen_app. change (zlen [m]) with 1.
    replace (args_mem + sizeof_GgKV * (zlen ms + 1)) with (args_mem + sizeof_GgKV * zlen ms + sizeof_GgKV) by lia.
    by replace (3 - (zlen ms + 1)) with (2 - zlen ms) by lia.
  - apply Forall_app. split; [|by constructor; [eapply member_mono|]].
    eapply Forall_impl; [exact Hok|]. intros m'. by apply member_mono.
  - intros i m' Hi. pose proof (rd_Some _ _ _ Hi) as Hr. rewrite zlen_app in Hr. change (zlen [m]) with 1 in Hr.
    destruct (decide (i < zlen ms)).
    + rewrite rd_app_l in Hi by lia. eapply loadz_mono; [exact Hv1|by apply Hst].
    + rewrite rd_app_r in Hi by lia. replace (i - zlen ms) with 0 in Hi by lia. injection Hi as <-.
      unfold map_kv. replace i with (zlen ms) by lia. pose proof (loadz_put view1 (args_mem + sizeof_GgKV * zlen ms) (member_kv m)) as Hl.
      by rewrite Hz in Hl.
Qed.

Lemma pushed_asks view1 ls c1 ms r f :
  pushed view1 ls c1 ms -> view ⊆ view1 -> zlen ms <= 2 ->
  params r = mkMap args_mem (zlen ms) -> within_limits (TMap args_mem (member_tree <$> ms)) = true ->
  name_ok (operation r) && name_ok (service_model_type r) = true ->
  (forall subscribe, f subscribe c0 = subscribe r c1) ->
  asks c0 view0 f r (json_object (member_text <$> ms)).
Proof using All.
  intros [Hp Hok Hst] Hv Hn Hr Hw Hnames Hf. pose proof (zlen_nonneg ms).
  assert (objval_ok (VMap (mkMap args_mem (zlen ms)))) as Hmap.
  { apply map_fits; [by left|unfold UINT16_MAX; lia]. }
  destruct (value_members format_f64 view1 args_mem ms Hmap Hok Hst) as (o & _ & Hval).
  assert (params_tree r (member_tree <$> ms) = TMap args_mem (member_tree <$> ms)) as Htree
    by (unfold params_tree; by rewrite Hr).
  eapply (asks_intro _ _ _ _ (member_tree <$> ms) o _ c1 view1); rewrite ?Htree, ?Hr; try done.
  - by etrans.
  - unfold zlen. by rewrite length_fmap.
Qed.

(** A pair whose value is a key path. *)
Definition path_member (keys : list BufPtr) (texts : list bytes) (o : GgObject) : member :=
  literal (GG_STR "keyPath") (TList path_mem (TBuf <$> keys)) o (json_list (json_string <$> texts)).

Lemma path_depth keys : tree_depth (TList path_mem (TBuf <$> keys)) <= 2.
Proof using Type.
  cbn [tree_depth]. assert (foldr (fun t d => Z.max (tree_depth t) d) 0 (TBuf <$> keys) <= 1); [|lia].
  induction keys as [|key keys IH]; [done|]. cbn [fmap list_fmap foldr tree_depth]. lia.
Qed.

Lemma path_subobjects keys : tree_subobjects (TList path_mem (TBuf <$> keys)) = zlen keys.
Proof using Type.
  cbn [tree_subobjects]. assert (foldr (fun t n => tree_subobjects t + n) 0 (TBuf <$> keys) = 0) as ->.
  { induction keys as [|key keys IH]; [done|]. cbn [fmap list_fmap foldr tree_subobjects]. lia. }
  unfold zlen. rewrite length_fmap. lia.
Qed.

(** The size of arguments that are a key path and buffers. *)
Lemma path_args_limits ms1 keys texts o ms2 :
  Forall (fun m => exists b, mtree m = TBuf b) (ms1 ++ ms2) -> zlen (ms1 ++ ms2) <= 2 -> zlen keys <= 14 ->
  within_limits (TMap args_mem (member_tree <$> ms1 ++ path_member keys texts o :: ms2)) = true.
Proof using Type.
  intros Hms Hn Hk. unfold within_limits. cbn [tree_depth tree_subobjects].
  assert (zlen (member_tree <$> ms1 ++ path_member keys texts o :: ms2) = zlen (ms1 ++ ms2) + 1) as ->.
  { unfold zlen. rewrite length_fmap, !length_app. cbn [length]. lia. }
  assert (foldr (fun kv d => Z.max (tree_depth kv.2) d) 0 (member_tree <$> ms1 ++ path_member keys texts o :: ms2) <= 2 /\
    foldr (fun kv n => tree_subobjects kv.2 + n) 0 (member_tree <$> ms1 ++ path_member keys texts o :: ms2) <= 14) as [Hd Hs].
  2: { unfold GG_MAX_OBJECT_DEPTH, GG_MAX_OBJECT_SUBOBJECTS. apply andb_true_iff. split; apply Z.leb_le; lia. }
  assert (forall ms, Forall (fun m => exists b, mtree m = TBuf b) ms ->
    foldr (fun kv d => Z.max (tree_depth kv.2) d) 0 (member_tree <$> ms) <= 1 /\
    foldr (fun kv n => tree_subobjects kv.2 + n) 0 (member_tree <$> ms) = 0) as Hbuf.
  { induction 1 as [|m ms [b Hb] _ IH]; [done|]. cbn [fmap list_fmap foldr member_tree snd]. rewrite Hb.
    cbn [tree_depth tree_subobjects]. lia. }
  clear Hn. induction ms1 as [|m ms1 IH]; cbn [app fmap list_fmap foldr member_tree snd] in *.
  - change (mtree (path_member keys texts o)) with (TList path_mem (TBuf <$> keys)).
    pose proof (path_depth keys). rewrite path_subobjects. destruct (Hbuf _ Hms). unfold member_tree in *. lia.
  - inversion Hms as [|? ? [b Hb] Hms']; subst. rewrite Hb. cbn [tree_depth tree_subobjects].
    destruct (IH Hms'). unfold member_tree in *. lia.
Qed.

Definition get_config_request (result_callback result_ctx n : Z) : request :=
  mkRequest (GG_STR "aws.greengrass#GetConfiguration") (GG_STR "aws.greengrass#GetConfigurationRequest")
    (mkMap args_mem n) result_callback (addr GET_CONFIG_ERROR) result_ctx NULL NULL NULL NULL.

Definition component_members (component : option bytes) : list (bytes * bytes) :=
  match component with
  | Some name => [(GG_STR "componentName", json_string name)]
  | None => []
  end.

Definition args_count {A} (component : option A) : Z := match component with Some _ => 2 | None => 1 end.

Definition optional_text (view : mem) (b : option BufPtr) (text : option bytes) : Prop :=
  option_Forall2 (key_text view) b text.

(** The optional argument [componentName]. *)
Lemma push_component_run view1 ls c1 ms component name :
  pushed view1 ls c1 ms -> view ⊆ view1 -> zlen ms < 2 -> optional_text view component name ->
  exists c' view' ms',
    (forall B (K : GgKVVec -> sysm client B), (args ← match component with
            | None => mret (mkKVVec (mkMap args_mem (zlen ms)) 2)
            | Some component =>
                kv ← pair lit (GG_STR "componentName") (gg_obj_buf component);
                push_arg (mkKVVec (mkMap args_mem (zlen ms)) 2) kv
            end; K args) c1 = K (mkKVVec (mkMap args_mem (zlen (ms ++ ms'))) 2) c') /\
    pushed view' ls c' (ms ++ ms') /\ view1 ⊆ view' /\
    member_text <$> ms' = component_members name /\ zlen ms' = zlen (component_members name) /\
    Forall (fun m => exists b, mtree m = TBuf b) ms'.
Proof using All.
  intros Hp Hv Hn Hname. destruct Hname as [component name [Hok Hb]|].
  - destruct (value_buf format_f64 view1 component name Hok (buf_bytes_mono _ _ _ _ Hv Hb)) as (o & Ho & Hval).
    assert (lit_ok view1 (GG_STR "componentName")) as Hk by by apply lit_at.
    destruct (push_arg_run view1 ls c1 ms (literal (GG_STR "componentName") (TBuf component) o (json_string name)) Hp Hn)
      as (c' & view' & Hr & Hp' & Hv'); [by apply literal_ok|].
    exists c', view', [literal (GG_STR "componentName") (TBuf component) o (json_string name)].
    split_and!; [|done|done|done|done|by constructor; [eexists|]].
    intros B K. refine (ok_bind _ _ _ _ _ _).
    by rewrite Ho, (ok_bind _ _ _ _ _ (pair_run view1 (GG_STR "componentName") _ _ _ _ Hk Hval)).
  - exists c1, view1, []. rewrite app_nil_r. by split_and!.
Qed.

Lemma get_config_asks f keys texts component name result_callback result_ctx :
  Forall2 (key_text view) keys texts -> zlen keys <= 14 -> optional_text view component name ->
  (forall subscribe, f subscribe c0 = ggipc_get_config_common subscribe addr lit args_mem path_mem
     keys component result_callback result_ctx c) ->
  asks c0 view0 f (get_config_request result_callback result_ctx (args_count name))
    (json_object ((GG_STR "keyPath", json_list (json_string <$> texts)) :: component_members name)).
Proof using All.
  intros Hkeys Hn Hname Hf.
  destruct (pushed_path view _ c [] 2 keys texts (pushed_start _ c view start) ltac:(done) eq_refl Hkeys Hn)
    as (c1 & view1 & o1 & Hr1 & Hp1 & Hv1 & Hval1).
  assert (lit_ok view1 (GG_STR "keyPath")) as Hk by by apply lit_at.
  destruct (push_arg_run view1 _ c1 [] (path_member keys texts o1) Hp1) as (c2 & view2 & Hr2 & Hp2 & Hv2);
    [done|by apply literal_ok|]. cbn [app] in *.
  destruct (push_component_run view2 _ c2 _ component name Hp2) as (c3 & view3 & ms & Hr3 & Hp3 & Hv3 & Hms & Hl & Hsize);
    [by etrans|done|done|].
  assert (zlen (path_member keys texts o1 :: ms) = args_count name) as Hz.
  { rewrite zlen_cons, Hl. by destruct name. }
  assert (json_object ((GG_STR "keyPath", json_list (json_string <$> texts)) :: component_members name) =
    json_object (member_text <$> (path_member keys texts o1 :: ms))) as -> by (cbn [fmap list_fmap]; by rewrite Hms).
  cbn [app] in Hp3. apply (pushed_asks view3 _ c3 _ _ _ Hp3).
  - by do 2 (etrans; [eassumption|]).
  - rewrite Hz. by destruct name.
  - by rewrite Hz.
  - apply (path_args_limits []); [done|cbn [app]; rewrite Hl; by destruct name|done].
  - done.
  - intros subscribe. rewrite Hf. unfold ggipc_get_config_common. rewrite (ok_bind _ _ _ _ _ Hr1).
    rewrite (ok_bind _ _ _ _ _ (pair_run view1 (GG_STR "keyPath") _ _ _ _ Hk Hval1)).
    rewrite (ok_bind _ _ _ _ _ Hr2). rewrite Hr3. unfold call, get_config_request. cbn [kv_map app]. by rewrite Hz.
Qed.

Definition subscribe_to_configuration_update_request (callback ctx handle n : Z) : request :=
  mkRequest (GG_STR "aws.greengrass#SubscribeToConfigurationUpdate")
    (GG_STR "aws.greengrass#SubscribeToConfigurationUpdateRequest")
    (mkMap args_mem n) NULL (addr SUBSCRIBE_TO_CONFIGURATION_UPDATE_ERROR) NULL
    (addr SUBSCRIBE_TO_CONFIGURATION_UPDATE_RESPONSE) callback ctx handle.

Lemma subscribe_to_configuration_update_asks f keys texts component name callback ctx handle :
  Forall2 (key_text view) keys texts -> zlen keys <= 14 -> optional_text view component name ->
  (forall subscribe, f subscribe c0 = ggipc_subscribe_to_configuration_update subscribe addr lit args_mem path_mem
     component keys callback ctx handle c) ->
  asks c0 view0 f (subscribe_to_configuration_update_request callback ctx handle (args_count name))
    (json_object (component_members name ++ [(GG_STR "keyPath", json_list (json_string <$> texts))])).
Proof using All.
  intros Hkeys Hn Hname Hf.
  destruct (push_component_run view _ c [] component name (pushed_start _ c view start) ltac:(done) ltac:(done) Hname)
    as (c1 & view1 & ms & Hr1 & Hp1 & Hv1 & Hms & Hl & Hsize). cbn [app] in *.
  destruct (pushed_path view1 _ c1 _ 2 keys texts Hp1 Hv1 eq_refl Hkeys Hn)
    as (c2 & view2 & o2 & Hr2 & Hp2 & Hv2 & Hval2).
  assert (lit_ok view2 (GG_STR "keyPath")) as Hk by (apply lit_at; [by etrans|done]).
  destruct (push_arg_run view2 _ c2 _ (path_member keys texts o2) Hp2) as (c3 & view3 & Hr3 & Hp3 & Hv3);
    [rewrite Hl; by destruct name|by apply literal_ok|].
  assert (zlen (ms ++ [path_member keys texts o2]) = args_count name) as Hz.
  { rewrite zlen_app, Hl. by destruct name. }
  assert (json_object (component_members name ++ [(GG_STR "keyPath", json_list (json_string <$> texts))]) =
    json_object (member_text <$> (ms ++ [path_member keys texts o2]))) as -> by (by rewrite fmap_app, Hms).
  apply (pushed_asks view3 _ c3 _ _ _ Hp3).
  - by do 2 (etrans; [eassumption|]).
  - rewrite Hz. by destruct name.
  - by rewrite Hz.
  - apply (path_args_limits ms); rewrite ?app_nil_r; [done|rewrite Hl; by destruct name|done].
  - done.
  - intros subscribe. rewrite Hf. unfold ggipc_subscribe_to_configuration_update.
    change (mkKVVec (mkMap args_mem 0) 2) with (mkKVVec (mkMap args_mem (zlen (@nil member))) 2).
    rewrite Hr1. rewrite (ok_bind _ _ _ _ _ Hr2).
    rewrite (ok_bind _ _ _ _ _ (pair_run view2 (GG_STR "keyPath") _ _ _ _ Hk Hval2)).
    rewrite (ok_bind _ _ _ _ _ Hr3). unfold subscribe_to_configuration_update_request. cbn [kv_map]. by rewrite Hz.
Qed.
(** *** Updating the configuration *)

Definition update_config_request : request :=
  mkRequest (GG_STR "aws.greengrass#UpdateConfiguration") (GG_STR "aws.greengrass#UpdateConfigurationRequest")
    (mkMap args_mem 3) NULL (addr UPDATE_CONFIG_ERROR) NULL NULL NULL NULL NULL.

Definition update_config_members (keys : list bytes) (time value : bytes) : list (bytes * bytes) :=
  [(GG_STR "keyPath", json_list (json_string <$> keys)); (GG_STR "timestamp", time); (GG_STR "valueToMerge", value)].

(** What follows when the path and the map are known. *)
Definition update_config_rest (subscribe : request -> sysm client unit) (key_path : list BufPtr) (time : Z)
    (value_to_merge : GgObject) : sysm client unit :=
  path ← path_list path_mem key_path;
  kv1 ← pair lit (GG_STR "keyPath") path;
  kv2 ← pair lit (GG_STR "timestamp") (Some (gg_obj_f64 time));
  kv3 ← pair lit (GG_STR "valueToMerge") (Some value_to_merge);
  args ← local_map args_mem [kv1; kv2; kv3];
  call subscribe (GG_STR "aws.greengrass#UpdateConfiguration") (GG_STR "aws.greengrass#UpdateConfigurationRequest")
    args NULL (addr UPDATE_CONFIG_ERROR) NULL.

Lemma update_config_args_asks view1 ls c1 i j keys texts time t o text f :
  prepared c0 view1 ls c1 -> view ⊆ view1 -> ls !! i = Some (path_mem, sizeof_GgObject * 14) ->
  delete i ls !! j = Some (args_mem, sizeof_GgKV * 3) ->
  Forall2 (key_text view) keys texts -> zlen keys <= 14 ->
  0 <= time < 2 ^ 64 -> zlen (format_f64 time) <= 25 -> value_at format_f64 view1 t o text -> leaves_room t 1 20 ->
  (forall subscribe, f subscribe c0 = update_config_rest subscribe keys time o c1) ->
  asks c0 view0 f update_config_request (json_object (update_config_members texts (format_f64 time) text)).
Proof using All.
  intros Hp Hv Hi Hj Hkeys Hn Htime Hfmt Hval [Hd Hs] Hf.
  destruct (path_list_run view1 ls c1 i keys texts Hp Hi) as (c2 & view2 & o1 & Hr2 & Hp2 & Hv2 & Hval1); [|done|].
  { eapply Forall2_impl; [exact Hkeys|]. intros key bs [Hkey Hb]. split; [done|by eapply buf_bytes_mono]. }
  assert (view ⊆ view2) as Hv' by by etrans.
  assert (lit_ok view2 (GG_STR "keyPath")) as Hk1 by by apply lit_at.
  assert (lit_ok view2 (GG_STR "timestamp")) as Hk2 by by apply lit_at.
  assert (lit_ok view2 (GG_STR "valueToMerge")) as Hk3 by by apply lit_at.
  assert (value_at format_f64 view2 (TF64 time) (gg_obj_f64 time) (format_f64 time)) as Hval2.
  { destruct (value_pack format_f64 view2 (TF64 time)) as (o2 & Ho2 & Hv2'); [done|done|done|].
    by injection Ho2 as <-. }
  apply (value_mono _ _ _ _ _ _ Hv2) in Hval.
  apply (args_asks view2 (delete i ls) j (sizeof_GgKV * 3) c2
    [path_member keys texts o1; literal (GG_STR "timestamp") (TF64 time) (gg_obj_f64 time) (format_f64 time);
     literal (GG_STR "valueToMerge") t o text]); try done.
  - repeat (constructor; [by apply literal_ok|]). constructor.
  - unfold within_limits, path_member. pose proof (path_depth keys) as Hd1. pose proof (path_subobjects keys) as Hs1.
    revert Hd1 Hs1. generalize (TList path_mem (TBuf <$> keys)). intros path Hd1 Hs1. pose proof (tree_depth_pos t).
    cbn [fmap list_fmap member_tree literal mkey mtree tree_depth tree_subobjects foldr snd]. change (zlen [_; _; _]) with 3.
    unfold GG_MAX_OBJECT_DEPTH, GG_MAX_OBJECT_SUBOBJECTS in *. apply andb_true_iff. split; apply Z.leb_le; lia.
  - intros subscribe c' Hrun. rewrite Hf. unfold update_config_rest. rewrite (ok_bind _ _ _ _ _ Hr2).
    rewrite (ok_bind _ _ _ _ _ (pair_run view2 (GG_STR "keyPath") _ _ _ _ Hk1 Hval1)).
    rewrite (ok_bind _ _ _ _ _ (pair_run view2 (GG_STR "timestamp") _ _ _ _ Hk2 Hval2)).
    rewrite (ok_bind _ _ _ _ _ (pair_run view2 (GG_STR "valueToMerge") _ _ _ _ Hk3 Hval)).
    by rewrite (ok_bind _ _ _ _ _ Hrun).
Qed.
(** A value that is not a map is merged under the last key of the path. *)
Definition is_map (t : otree) : bool := match t with TMap _ _ => true | _ => false end.

Definition merge_path {A} (t : otree) (path : list A) : list A := if is_map t then path else removelast path.

Definition merge_text (t : otree) (texts : list bytes) (text : bytes) : bytes :=
  if is_map t then text else json_object [(default [] (last texts), text)].

Lemma val_at_type m t o : val_at m t o -> exists ty, gg_obj_type o = Some ty /\ bool_decide (ty = GG_TYPE_MAP) = is_map t.
Proof using Type.
  intros [Hu _]. unfold unpack in Hu. destruct (gg_obj_type o) as [ty|]; [|done]. exists ty. split; [done|].
  cbn [mbind option_bind] in Hu.
  destruct ty; try (apply fmap_Some in Hu as (? & _ & Hu)); by destruct t.
Qed.

Lemma last_forall2 {A B} (R : A -> B -> Prop) (xs : list A) (ys : list B) :
  Forall2 R xs ys -> xs <> [] ->
  exists x y, last xs = Some x /\ last ys = Some y /\ R x y /\ Forall2 R (removelast xs) (removelast ys).
Proof using Type.
  induction 1 as [|x y xs ys Hxy Hs IH]; [done|]. intros _. destruct Hs as [|x' y' xs ys Hxy' Hs].
  - by exists x, y.
  - destruct (IH ltac:(done)) as (u & v & Hu & Hv & Huv & Hr). exists u, v. split_and!; [done|done|done|].
    by constructor.
Qed.

Definition negative_time (timestamp : option timespec) : bool :=
  match timestamp with Some t => (tv_sec t <? 0) || (tv_nsec t <? 0) | None => false end.

Definition time_bits (timestamp : option timespec) : Z :=
  match timestamp with Some t => timestamp_double t | None => 0 end.

Lemma time_bits_range timestamp : 0 <= time_bits timestamp < 2 ^ 64.
Proof using Type. destruct timestamp; [apply bits_of_range|done]. Qed.

Lemma update_config_start timestamp keys texts o t text :
  Forall2 (key_text view) keys texts -> (is_map t = false -> keys <> []) ->
  value_at format_f64 view t o text -> negative_time timestamp = false ->
  exists c1 view1 ls i j t' o',
    (forall subscribe,
       ggipc_update_config subscribe addr lit args_mem inner_mem path_mem keys timestamp o c =
       update_config_rest subscribe (merge_path t keys) (time_bits timestamp) o' c1) /\
    prepared c0 view1 ls c1 /\ view ⊆ view1 /\ ls !! i = Some (path_mem, sizeof_GgObject * 14) /\
    delete i ls !! j = Some (args_mem, sizeof_GgKV * 3) /\
    value_at format_f64 view1 t' o' (merge_text t texts text) /\ (leaves_room t 2 22 -> leaves_room t' 1 20).
Proof using All.
  intros Hkeys Hne Hval Htime. unfold ggipc_update_config, negative_time in *. rewrite Htime.
  destruct (val_at_type _ _ _ (value_val _ _ _ _ _ Hval)) as (ty & Hty & Hmap). unfold merge_path, merge_text.
  rewrite Hty. assert (forall B (k : GgObjectType -> sysm client B), (need (Some ty) ≫= k) c = k ty c) as Hneed by done.
  destruct (is_map t).
  - exists c, view, (local_arrays ++ more), 3%nat, 0%nat, t, o. split_and!; try done; [|unfold leaves_room; lia].
    intros subscribe. by rewrite Hneed, Hmap.
  - destruct (last_forall2 _ _ _ Hkeys (Hne eq_refl)) as (key & bs & Hlast & -> & [Hok Hb] & Hinit).
    assert (member_ok format_f64 view (mkMember key bs t o text)) as Hm by done.
    destruct (local_map_run c0 view _ c 1 inner_mem sizeof_GgKV [mkMember key bs t o text] start)
      as (c1 & view1 & o1 & Hr1 & Hp1 & Hv1 & Ho1 & Hval1); [done|done|by apply map_fits; [set_solver|]|by constructor|].
    eexists c1, view1, _, 2%nat, 0%nat, _, o1. split_and!; [|exact Hp1|done|done|done|exact Hval1|].
    2: { pose proof (tree_depth_pos t). unfold leaves_room.
      cbn [fmap list_fmap member_tree mkey mtree tree_depth tree_subobjects foldr snd]. change (zlen [_]) with 1. lia. }
    intros subscribe. rewrite Hneed, Hmap, Hlast.
    assert ((pair_to_merge ← need (gg_kv key o); map ← local_map inner_mem [pair_to_merge];
      value_to_merge ← need (gg_obj_map map); mret (removelast keys, value_to_merge)) c =
      (Ok (removelast keys, o1), c1)) as Hinner.
    { rewrite gg_kv_layout by (apply Hok || apply Hval).
      refine (eq_trans (ok_bind (need (Some (member_kv (mkMember key bs t o text)))) _ c _ c eq_refl) _).
      rewrite (ok_bind _ _ _ _ _ Hr1). change (zlen [_]) with 1 in Ho1. change (zlen [_]) with 1. by rewrite Ho1. }
    by rewrite (ok_bind _ _ _ _ _ Hinner).
Qed.

Lemma merge_path_texts t keys texts :
  Forall2 (key_text view) keys texts -> (is_map t = false -> keys <> []) ->
  Forall2 (key_text view) (merge_path t keys) (merge_path t texts).
Proof using Type.
  intros Hk Hne. unfold merge_path. destruct (is_map t); [done|].
  by destruct (last_forall2 _ _ _ Hk (Hne eq_refl)) as (? & ? & _ & _ & _ & ?).
Qed.

Lemma update_config_asks f timestamp keys texts o t text :
  Forall2 (key_text view) keys texts -> zlen (merge_path t keys) <= 14 -> (is_map t = false -> keys <> []) ->
  value_at format_f64 view t o text -> leaves_room t 2 22 -> negative_time timestamp = false ->
  let time := time_bits timestamp in
  zlen (format_f64 time) <= 25 ->
  (forall subscribe, f subscribe c0 =
     ggipc_update_config subscribe addr lit args_mem inner_mem path_mem keys timestamp o c) ->
  asks c0 view0 f update_config_request
    (json_object (update_config_members (merge_path t texts) (format_f64 time) (merge_text t texts text))).
Proof using All.
  intros Hkeys Hn Hne Hval Hroom Hts time Hfmt Hf. pose proof (time_bits_range timestamp) as Htime. fold time in Htime.
  destruct (update_config_start timestamp keys texts o t text)
    as (c1 & view1 & ls & i & j & t' & o' & Hrun & Hp & Hv & Hi & Hj & Hval' & Hroom'); [done..|].
  eapply (update_config_args_asks view1 ls c1 i j (merge_path t keys) (merge_path t texts) time t' o'); try done;
    [by apply merge_path_texts|by apply Hroom'|]. intros subscribe. by rewrite Hf, Hrun.
Qed.
End operation.
(** *** Binary payloads *)

Lemma encode_payload_run c0 view c payload bs :
  prepared c0 view local_regions c -> buf_bytes view payload = Some bs -> bytes_ok bs ->
  0 < ipc_b64_encode_mem /\ ipc_b64_encode_mem + GG_IPC_MAX_MSG_LEN <= SIZE_MAX ->
  (zlen bs + 2) / 3 * 4 <= GG_IPC_MAX_MSG_LEN ->
  exists c' view' b64, encode_payload ipc_b64_encode_mem payload c = (Ok b64, c') /\
    prepared c0 view' (local_arrays ++ res) c' /\ view ⊆ view' /\ key_text view' b64 (base64_enc bs).
Proof using All.
  intros Hp Hb Hok Haddr Hn. pose proof (zlen_nonneg bs). pose proof (zlen_base64_enc bs) as Hz.
  destruct (prepared_store c0 view local_regions c 5 ipc_b64_encode_mem GG_IPC_MAX_MSG_LEN (base64_enc bs) Hp)
    as (m & Hs & Hp' & Hv); [done|lia|].
  pose proof (prep_room _ _ _ _ Hp) as [Hview _ Hm _].
  assert (mapped (cmem c) ipc_b64_encode_mem GG_IPC_MAX_MSG_LEN) as Hmap.
  { rewrite Forall_forall in Hm. apply (Hm (ipc_b64_encode_mem, GG_IPC_MAX_MSG_LEN)). unfold regions, local_regions.
    set_solver. }
  change (gg_arena_init (mkBuf ipc_b64_encode_mem GG_IPC_MAX_MSG_LEN)) with (mkArena ipc_b64_encode_mem GG_IPC_MAX_MSG_LEN 0).
  pose proof (gg_base64_encode_run (cmem c) bs (mkArena ipc_b64_encode_mem GG_IPC_MAX_MSG_LEN 0) Hok) as Hrun.
  cbn [arena_mem capacity index] in Hrun. cbv zeta in Hrun. rewrite !Z.add_0_r, Z.sub_0_r in Hrun.
  rewrite bool_decide_true in Hrun by done. rewrite <- !Hz in Hrun.
  assert (zlen (base64_enc bs) <= GG_IPC_MAX_MSG_LEN) as Hmax by lia. unfold GG_IPC_MAX_MSG_LEN, SIZE_MAX in *.
  destruct Hrun as (m' & He & Hs').
  { unfold arena_ok. cbn [arena_mem capacity index]. unfold UINT32_MAX, SIZE_MAX. lia. }
  { done. } { unfold UINT32_MAX. dlia. }
  assert (m' = m) as -> by congruence.
  exists (with_mem (sys c) m c), (put view ipc_b64_encode_mem (base64_enc bs)), (mkBuf ipc_b64_encode_mem (zlen (base64_enc bs))).
  split_and!; [|exact Hp'|done|].
  - unfold encode_payload, on_mem. rewrite (buf_bytes_mono _ _ _ _ Hview Hb). cbn [mbind option_bind].
    change (gg_arena_init (mkBuf ipc_b64_encode_mem GG_IPC_MAX_MSG_LEN)) with (mkArena ipc_b64_encode_mem 10000 0).
    rewrite He. done.
  - split; [|apply loadz_put]. split; cbn [data len]; unfold SIZE_MAX, UINT16_MAX; pose proof (zlen_nonneg (base64_enc bs)); lia.
Qed.
End requests.
