(* ===== verification/Api.v ===== *)
(** The application's interface ([include/gg/ipc/client.h]) as a whole: what each
    operation sends, or why it refuses to send.

    The abstract specification of the interface is the relation [op_sends]: an
    operation, the request that it makes, and the JSON text of the request,
    written with the contents of the application's arguments. The theorems
    refine it to the packets that are written to the connection. *)

From S2P Require Import Prelude Memory Buffer Io EsDecode EsEncode Object Map Visit Arena Vector Base64 JsonEncode File Socket Streams Client Registry Util IpcCalls Sending Requests.

(** The calls that an application can make. *)
Inductive ipc_op :=
  | UpdateState (state : Z)
  | RestartComponent (component_name : BufPtr)
  | PublishToTopicJson (topic : BufPtr) (payload : GgMap)
  | PublishToTopicBinary (topic payload : BufPtr)
  | PublishToTopicBinaryB64 (topic b64_payload : BufPtr)
  | PublishToIotCore (topic_name payload : BufPtr) (qos : Z)
  | PublishToIotCoreB64 (topic_name b64_payload : BufPtr) (qos : Z)
  | GetConfig (key_path : list BufPtr) (component_name : option BufPtr) (value : Z)
  | GetConfigStr (key_path : list BufPtr) (component_name : option BufPtr) (value : Z)
  | UpdateConfig (key_path : list BufPtr) (timestamp : option timespec) (value_to_merge : GgObject)
  | SubscribeToTopic (topic : BufPtr) (callback ctx handle : Z)
  | SubscribeToIotCore (topic_filter : BufPtr) (qos callback ctx handle : Z)
  | SubscribeToConfigurationUpdate (component_name : option BufPtr) (key_path : list BufPtr)
      (callback ctx handle : Z).

(** The variable that receives the subscription's handle, and the one that
    receives the configuration value, as an object or as a buffer. *)
Definition op_handle (op : ipc_op) : Z :=
  match op with
  | SubscribeToTopic _ _ _ handle | SubscribeToIotCore _ _ _ _ handle
  | SubscribeToConfigurationUpdate _ _ _ _ handle => handle
  | _ => NULL
  end.

Definition op_value (op : ipc_op) : Z := match op with GetConfig _ _ value => value | _ => NULL end.
Definition op_buffer (op : ipc_op) : Z := match op with GetConfigStr _ _ value => value | _ => NULL end.

Section api.
Context `{env : ClientEnv W}.
Abbreviation client := (client W).
Implicit Types c : client.
Context (addr : ipc_handler -> Z) (lit : bytes -> Z).
Context (args_mem inner_mem outer_mem path_mem qos_mem ctx_mem ipc_b64_encode_mem : Z).

Definition op_run (subscribe : request -> sysm client unit) (op : ipc_op) : sysm client unit :=
  match op with
  | UpdateState state => ggipc_update_state subscribe addr lit args_mem state
  | RestartComponent name => ggipc_restart_component subscribe addr lit args_mem name
  | PublishToTopicJson topic payload =>
      ggipc_publish_to_topic_json subscribe addr lit args_mem inner_mem outer_mem topic payload
  | PublishToTopicBinary topic payload =>
      ggipc_publish_to_topic_binary subscribe addr lit args_mem inner_mem outer_mem ipc_b64_encode_mem topic payload
  | PublishToTopicBinaryB64 topic payload =>
      ggipc_publish_to_topic_binary_b64 subscribe addr lit args_mem inner_mem outer_mem topic payload
  | PublishToIotCore topic payload qos =>
      ggipc_publish_to_iot_core subscribe addr lit args_mem qos_mem ipc_b64_encode_mem topic payload qos
  | PublishToIotCoreB64 topic payload qos =>
      ggipc_publish_to_iot_core_b64 subscribe addr lit args_mem qos_mem topic payload qos
  | GetConfig keys component value =>
      ggipc_get_config subscribe addr lit args_mem path_mem ctx_mem keys component value
  | GetConfigStr keys component value =>
      ggipc_get_config_str subscribe addr lit args_mem path_mem ctx_mem keys component value
  | UpdateConfig keys timestamp value =>
      ggipc_update_config subscribe addr lit args_mem inner_mem path_mem keys timestamp value
  | SubscribeToTopic topic callback ctx handle =>
      ggipc_subscribe_to_topic subscribe addr lit args_mem topic callback ctx handle
  | SubscribeToIotCore topic qos callback ctx handle =>
      ggipc_subscribe_to_iot_core subscribe addr lit args_mem qos_mem topic qos callback ctx handle
  | SubscribeToConfigurationUpdate component keys callback ctx handle =>
      ggipc_subscribe_to_configuration_update subscribe addr lit args_mem path_mem component keys callback ctx handle
  end.

(** ** The specification *)

Definition qos_text (qos : Z) : bytes := json_string [uwrap 8 (qos + 48)].

Definition message_text (kind topic message : bytes) : bytes :=
  json_object [(GG_STR "topic", json_string topic);
    (GG_STR "publishMessage", json_object [(kind, json_object [(GG_STR "message", message)])])].

Definition iot_core_text (topic payload : bytes) (qos : Z) : bytes :=
  json_object [(GG_STR "topicName", json_string topic); (GG_STR "payload", json_string payload); (GG_STR "qos", qos_text qos)].

Definition path_text (keys : list bytes) : bytes := json_list (json_string <$> keys).

(** A payload whose encoding fits in the static buffer. *)
Definition encodable (bs : bytes) : Prop := bytes_ok bs /\ (zlen bs + 2) / 3 * 4 <= GG_IPC_MAX_MSG_LEN.

Definition time_ok (timestamp : option timespec) : Prop :=
  negative_time timestamp = false /\ zlen (format_f64 (time_bits timestamp)) <= 25.

Inductive op_sends (view : mem) : ipc_op -> request -> bytes -> Prop :=
  | sends_running :
      op_sends view (UpdateState 0) (update_state_request addr args_mem)
        (json_object [(GG_STR "state", json_string (GG_STR "RUNNING"))])
  | sends_errored :
      op_sends view (UpdateState 1) (update_state_request addr args_mem)
        (json_object [(GG_STR "state", json_string (GG_STR "ERRORED"))])
  | sends_restart name text :
      key_text view name text ->
      op_sends view (RestartComponent name) (restart_component_request addr args_mem)
        (json_object [(GG_STR "componentName", json_string text)])
  | sends_publish_json topic topic_text payload o t text :
      key_text view topic topic_text -> gg_obj_map payload = Some o -> value_at format_f64 view t o text ->
      leaves_room t 3 8 ->
      op_sends view (PublishToTopicJson topic payload) (publish_to_topic_request addr args_mem)
        (message_text (GG_STR "jsonMessage") topic_text text)
  | sends_publish_binary topic topic_text payload bs :
      key_text view topic topic_text -> buf_bytes view payload = Some bs -> encodable bs ->
      op_sends view (PublishToTopicBinary topic payload) (publish_to_topic_request addr args_mem)
        (message_text (GG_STR "binaryMessage") topic_text (json_string (base64_enc bs)))
  | sends_publish_binary_b64 topic topic_text payload text :
      key_text view topic topic_text -> key_text view payload text ->
      op_sends view (PublishToTopicBinaryB64 topic payload) (publish_to_topic_request addr args_mem)
        (message_text (GG_STR "binaryMessage") topic_text (json_string text))
  | sends_publish_iot topic topic_text payload bs qos :
      key_text view topic topic_text -> buf_bytes view payload = Some bs -> encodable bs ->
      op_sends view (PublishToIotCore topic payload qos) (publish_to_iot_core_request addr args_mem)
        (iot_core_text topic_text (base64_enc bs) qos)
  | sends_publish_iot_b64 topic topic_text payload text qos :
      key_text view topic topic_text -> key_text view payload text ->
      op_sends view (PublishToIotCoreB64 topic payload qos) (publish_to_iot_core_request addr args_mem)
        (iot_core_text topic_text text qos)
  | sends_get_config keys texts component name value :
      Forall2 (key_text view) keys texts -> zlen keys <= 14 -> optional_text view component name ->
      op_sends view (GetConfig keys component value)
        (get_config_request addr args_mem (addr COPY_CONFIG_OBJ) ctx_mem (args_count name))
        (json_object ((GG_STR "keyPath", path_text texts) :: component_members name))
  | sends_get_config_str keys texts component name value :
      Forall2 (key_text view) keys texts -> zlen keys <= 14 -> optional_text view component name ->
      op_sends view (GetConfigStr keys component value)
        (get_config_request addr args_mem (addr COPY_CONFIG_BUF) ctx_mem (args_count name))
        (json_object ((GG_STR "keyPath", path_text texts) :: component_members name))
  | sends_update_config keys texts timestamp o t text :
      Forall2 (key_text view) keys texts -> zlen (merge_path t keys) <= 14 -> (is_map t = false -> keys <> []) ->
      value_at format_f64 view t o text -> leaves_room t 2 22 -> time_ok timestamp ->
      op_sends view (UpdateConfig keys timestamp o) (update_config_request addr args_mem)
        (json_object (update_config_members (merge_path t texts) (format_f64 (time_bits timestamp))
           (merge_text t texts text)))
  | sends_subscribe_topic topic text callback ctx handle :
      key_text view topic text ->
      op_sends view (SubscribeToTopic topic callback ctx handle)
        (subscribe_to_topic_request addr args_mem callback ctx handle)
        (json_object [(GG_STR "topic", json_string text)])
  | sends_subscribe_iot topic text qos callback ctx handle :
      key_text view topic text -> qos <= 2 ->
      op_sends view (SubscribeToIotCore topic qos callback ctx handle)
        (subscribe_to_iot_core_request addr args_mem callback ctx handle)
        (json_object [(GG_STR "topicName", json_string text); (GG_STR "qos", qos_text qos)])
  | sends_subscribe_config component name keys texts callback ctx handle :
      Forall2 (key_text view) keys texts -> zlen keys <= 14 -> optional_text view component name ->
      op_sends view (SubscribeToConfigurationUpdate component keys callback ctx handle)
        (subscribe_to_configuration_update_request addr args_mem callback ctx handle (args_count name))
        (json_object (component_members name ++ [(GG_STR "keyPath", path_text texts)])).

(** Calls that are refused before anything is sent. *)
Inductive op_refuses (view : mem) : ipc_op -> GgError -> Prop :=
  | refuses_state state : state <> 0 -> state <> 1 -> op_refuses view (UpdateState state) GG_ERR_INVALID
  | refuses_qos topic qos callback ctx handle :
      2 < qos -> op_refuses view (SubscribeToIotCore topic qos callback ctx handle) GG_ERR_INVALID
  | refuses_time keys timestamp o :
      negative_time timestamp = true -> op_refuses view (UpdateConfig keys timestamp o) GG_ERR_UNSUPPORTED
  | refuses_root timestamp t o :
      negative_time timestamp = false -> val_at view t o -> is_map t = false ->
      op_refuses view (UpdateConfig [] timestamp o) GG_ERR_INVALID
  | refuses_update_path keys texts timestamp o t text :
      Forall2 (key_text view) keys texts -> 14 < zlen (merge_path t keys) ->
      value_at format_f64 view t o text -> negative_time timestamp = false ->
      op_refuses view (UpdateConfig keys timestamp o) GG_ERR_NOMEM
  | refuses_get_path keys texts component value :
      Forall2 (key_text view) keys texts -> 14 < zlen keys ->
      op_refuses view (GetConfig keys component value) GG_ERR_NOMEM
  | refuses_get_str_path keys texts component value :
      Forall2 (key_text view) keys texts -> 14 < zlen keys ->
      op_refuses view (GetConfigStr keys component value) GG_ERR_NOMEM
  | refuses_subscribe_path keys texts component name callback ctx handle :
      Forall2 (key_text view) keys texts -> 14 < zlen keys -> optional_text view component name ->
      op_refuses view (SubscribeToConfigurationUpdate component keys callback ctx handle) GG_ERR_NOMEM
  | refuses_binary topic payload bs :
      buf_bytes view payload = Some bs -> bytes_ok bs -> zlen bs <= UINT32_MAX ->
      GG_IPC_MAX_MSG_LEN < (zlen bs + 2) / 3 * 4 ->
      op_refuses view (PublishToTopicBinary topic payload) GG_ERR_NOMEM
  | refuses_iot topic payload bs qos :
      buf_bytes view payload = Some bs -> bytes_ok bs -> zlen bs <= UINT32_MAX ->
      GG_IPC_MAX_MSG_LEN < (zlen bs + 2) / 3 * 4 ->
      op_refuses view (PublishToIotCore topic payload qos) GG_ERR_NOMEM.

(** The variables of the caller that are written: before the request is sent,
    when it is sent, and after it failed. *)
Definition op_res (op : ipc_op) : list (Z * Z) := out_regions (op_value op) sizeof_GgObject.
Definition op_out (op : ipc_op) : list (Z * Z) := out_regions (op_handle op) 4.
Definition op_str (op : ipc_op) : list (Z * Z) := out_regions (op_buffer op) sizeof_GgBuffer.

Abbreviation op_locals op := (local_regions args_mem inner_mem outer_mem path_mem qos_mem ipc_b64_encode_mem (op_res op)).
Abbreviation body_frame op := (op_frame args_mem inner_mem outer_mem path_mem qos_mem ipc_b64_encode_mem (op_res op) (op_out op)).
Abbreviation frame op :=
  (op_frame args_mem inner_mem outer_mem path_mem qos_mem ipc_b64_encode_mem (op_res op) (op_str op ++ op_out op)).

(** The caller's buffer for a configuration string: empty after a failure, and
    untouched otherwise, for the callback that will fill it. *)
Definition op_left (op : ipc_op) (o : outcome unit) (m m' : mem) : Prop :=
  op_buffer op <> NULL ->
  match o with
  | Ok _ => forall x, zrange (op_buffer op) (op_buffer op + sizeof_GgBuffer) x -> m' !! x = m !! x
  | _ => read_buffer m' (op_buffer op) = Some (mkBuf (lit []) 0)
  end.

(** The memory that an operation uses. *)
Record op_room (view m : mem) (op : ipc_op) : Prop := {
  oproom_regions : room view m (regions (op_str op ++ op_out op) (op_locals op));
  oproom_literals : Forall (lit_ok lit view) literals;
  oproom_addresses : Forall (fun a => 0 <= a <= SIZE_MAX)
    [args_mem; inner_mem; outer_mem; path_mem; qos_mem; ipc_b64_encode_mem];
  oproom_encode : 0 < ipc_b64_encode_mem /\ ipc_b64_encode_mem + GG_IPC_MAX_MSG_LEN <= SIZE_MAX;
  oproom_object : params_obj <> NULL;
}.

(** ** What follows a failure

    All of an operation, but for the caller's buffer that becomes empty. *)

Definition op_body (subscribe : request -> sysm client unit) (op : ipc_op) : sysm client unit :=
  match op with
  | GetConfigStr keys component _ =>
      ggipc_get_config_common subscribe addr lit args_mem path_mem keys component (addr COPY_CONFIG_BUF) ctx_mem
  | _ => op_run subscribe op
  end.

Lemma op_room_body view m op : op_room view m op ->
  room view m (regions (op_out op) (op_locals op)) /\
  forall r, r ∈ op_str op -> mapped m r.1 r.2 /\ forall x, zrange r.1 (r.1 + r.2) x -> ~ body_frame op x.
Proof.
  intros [Hr _ _ _ _]. unfold op_str, out_regions in *. destruct (op_buffer op =? NULL); cbn [app] in *.
  - split; [done|]. by intros r ?%not_elem_of_nil.
  - set (q := (op_buffer op, sizeof_GgBuffer)) in *.
    assert (regions (q :: op_out op) (op_locals op) ≡ₚ q :: regions (op_out op) (op_locals op)) as Hp.
    { unfold regions. rewrite !app_assoc. by rewrite <- Permutation_middle. }
    apply (room_perm _ _ _ _ Hp) in Hr. split; [by eapply room_tail|]. intros r ->%list_elem_of_singleton.
    destruct Hr as [_ _ Hm Ha]. split; [by inversion Hm|].
    intros x Hx. unfold op_frame, in_regions. rewrite Exists_exists. intros (s & Hs & Hxs).
    inversion Ha as [|? ? Hd _]; subst. rewrite Forall_forall in Hd. specialize (Hd _ Hs). unfold disj, zrange in *. lia.
Qed.

Lemma body_frame_sub op x : body_frame op x -> frame op x.
Proof. unfold op_frame, in_regions, regions. rewrite !Exists_app. tauto. Qed.

Lemma read_buffer_store (m m' : mem) p b : objval_ok (VBuf b) -> store m p (buffer_bytes b) = Some m' -> read_buffer m' p = Some b.
Proof.
  intros [Hd Hl] Hst. apply loadz_store_same in Hst. unfold read_buffer, read_ptr, buffer_bytes in *.
  rewrite zlen_app, !zlen_le_bytes in Hst.
  pose proof (loadz_sub _ _ _ _ 0 8 Hst ltac:(lia) ltac:(lia) ltac:(lia)) as H0.
  pose proof (loadz_sub _ _ _ _ 8 8 Hst ltac:(lia) ltac:(lia) ltac:(lia)) as H1.
  rewrite Z.add_0_r in H0. rewrite H0, H1. cbn [mbind option_bind].
  rewrite zdrop_0, ztake_app_exact, zdrop_app_exact by (by rewrite zlen_le_bytes).
  rewrite ztake_all by (rewrite zlen_le_bytes; lia).
  unfold SIZE_MAX, UINT16_MAX in *. rewrite !(le_val_bytes 8) by (cbn; lia). by destruct b.
Qed.

Lemma op_run_body view subscribe op c o c' :
  op_room view (cmem c) op -> op_body subscribe op c = (o, c') -> o <> Stuck ->
  changes (body_frame op) (cmem c) (cmem c') ->
  exists m, op_run subscribe op c = (o, with_mem (sys c') m c') /\ changes (frame op) (cmem c) m /\
    op_left op o (cmem c) m /\ (op_buffer op = NULL -> m = cmem c').
Proof.
  intros Hroom Hrun Ho Hch. destruct (op_room_body _ _ _ Hroom) as [_ Hq]. pose proof Hroom as [_ Hlit _ _ _].
  assert (changes (frame op) (cmem c) (cmem c')) as Hch' by (eapply changes_sub; [exact Hch|apply body_frame_sub]).
  assert ((op_body subscribe op = op_run subscribe op /\ op_buffer op = NULL) \/
    exists keys component value, op = GetConfigStr keys component value)
    as [[Hsame Hnone]|(keys & component & value & ->)] by (destruct op; eauto).
  - exists (cmem c'). rewrite <- Hsame. split; [rewrite Hrun; by destruct c'|]. split; [done|].
    split; [|done]. by intros ?.
  - cbn [op_body] in Hrun. cbn [op_run]. unfold ggipc_get_config_str, mbind at 1, sysm_bind at 1, attempt at 1.
    rewrite Hrun. unfold op_left, op_str, out_regions in *. cbn [op_buffer] in *.
    destruct o as [[]|e|]; [| |done].
    + exists (cmem c'). split; [by destruct c'|]. split; [done|]. split; [|done]. intros Hne x Hx.
      rewrite (proj2 (Z.eqb_neq _ _)) in Hq by done. destruct (Hq _ (list_elem_of_here _ _)) as [_ Hout].
      apply Hch. by apply Hout.
    + destruct (value =? NULL) eqn:Hnull; zify_bool; cbn [negb].
      * exists (cmem c'). split; [by destruct c'|]. by split_and!.
      * destruct (Hq _ (list_elem_of_here _ _)) as [Hm _]. cbn [fst snd] in Hm.
        assert (lit_ok lit view []) as [[Hkey _] _] by (eapply Forall_forall; [exact Hlit|by apply (bool_decide_unpack _)]).
        destruct (store_Some (cmem c') value (buffer_bytes (LIT lit []))) as [m Hst].
        { unfold buffer_bytes. rewrite zlen_app, !zlen_le_bytes. by eapply changes_mapped. }
        exists m. split; [|split; [|split; [|done]]].
        -- unfold mbind, sysm_bind, store_local, on_mem. by rewrite Hst.
        -- apply (changes_trans _ _ (cmem c')); [done|]. eapply changes_sub; [by eapply store_changes|].
           intros x Hx. unfold op_frame, in_regions, regions. rewrite !Exists_app. do 2 right. left.
           by left.
        -- intros _. by apply (read_buffer_store _ _ _ (LIT lit [])) in Hst.
Qed.

(** ** Refinement *)

Lemma op_start c view op :
  op_room view (cmem c) op ->
  prepared args_mem inner_mem outer_mem path_mem qos_mem ipc_b64_encode_mem (op_res op) (op_out op) c view
    (local_arrays args_mem inner_mem outer_mem path_mem qos_mem ++ (ipc_b64_encode_mem, GG_IPC_MAX_MSG_LEN) :: op_res op) c.
Proof. intros H. by apply prepared_start, op_room_body. Qed.

(** Asking after a payload was encoded. *)
Lemma encoded_asks view op r text c payload bs (f : BufPtr -> (request -> sysm client unit) -> sysm client unit) :
  op_room view (cmem c) op -> buf_bytes view payload = Some bs -> encodable bs ->
  (forall c' view' b64, prepared args_mem inner_mem outer_mem path_mem qos_mem ipc_b64_encode_mem (op_res op) (op_out op)
     c view' (local_arrays args_mem inner_mem outer_mem path_mem qos_mem ++ op_res op) c' ->
   view ⊆ view' -> key_text view' b64 (base64_enc bs) ->
   asks args_mem inner_mem outer_mem path_mem qos_mem ipc_b64_encode_mem (op_res op) (op_out op) c view
     (fun subscribe _ => f b64 subscribe c') r text) ->
  asks args_mem inner_mem outer_mem path_mem qos_mem ipc_b64_encode_mem (op_res op) (op_out op) c view
    (fun subscribe => b64 ← encode_payload ipc_b64_encode_mem payload; f b64 subscribe) r text.
Proof.
  intros Hroom Hb [Hok Hn] Hf. pose proof (op_start _ _ _ Hroom) as Hstart. destruct Hroom as [_ Hlit Haddr Henc _].
  destruct (encode_payload_run addr lit _ _ _ _ _ _ _ _ c view c payload bs Hstart Hb Hok Henc Hn)
    as (c' & view' & b64 & Hr & Hp & Hv & Hb64).
  destruct (Hf c' view' b64 Hp Hv Hb64) as (c1 & view1 & ls & kvs & Hrun & Hrest).
  exists c1, view1, ls, kvs. split; [|exact Hrest]. intros subscribe. by rewrite (ok_bind _ _ _ _ _ Hr).
Qed.

Lemma key_text_mono view view' key bs : view ⊆ view' -> key_text view key bs -> key_text view' key bs.
Proof. intros Hv [Hok Hb]. split; [done|by eapply buf_bytes_mono]. Qed.

Lemma keys_text_mono view view' keys texts :
  view ⊆ view' -> Forall2 (key_text view) keys texts -> Forall2 (key_text view') keys texts.
Proof. intros Hv Hk. eapply Forall2_impl; [exact Hk|]. intros key bs. by apply key_text_mono. Qed.

Lemma optional_text_mono view view' b text : view ⊆ view' -> optional_text view b text -> optional_text view' b text.
Proof. intros Hv [key bs Hk|]; constructor. by eapply key_text_mono. Qed.

Abbreviation prep op := (prepared args_mem inner_mem outer_mem path_mem qos_mem ipc_b64_encode_mem (op_res op) (op_out op)).
Abbreviation locals := (local_arrays args_mem inner_mem outer_mem path_mem qos_mem).

(** Asking for a configuration value: the result is null first. *)
Lemma get_config_start view keys component value c :
  let op := GetConfig keys component value in
  op_room view (cmem c) op ->
  exists c' view' more,
    (forall subscribe, op_body subscribe op c =
       ggipc_get_config_common subscribe addr lit args_mem path_mem keys component (addr COPY_CONFIG_OBJ) ctx_mem c') /\
    prep op c view' (locals ++ more) c' /\ view ⊆ view'.
Proof.
  intros op Hroom. pose proof (op_start _ _ _ Hroom) as Hstart.
  unfold op, op_body, op_run, ggipc_get_config. destruct (decide (value = NULL)) as [->|Hne].
  - by exists c, view, ((ipc_b64_encode_mem, GG_IPC_MAX_MSG_LEN) :: op_res op).
  - assert (op_res op = [(value, sizeof_GgObject)]) as Hres.
    { unfold op_res, out_regions. cbn [op op_value]. by rewrite (proj2 (Z.eqb_neq _ _)). }
    destruct (store_local_run _ _ _ _ _ _ _ _ c view _ c 6 value sizeof_GgObject GG_OBJ_NULL Hstart)
      as (c' & Hs & Hp & Hv); [by rewrite Hres|done|].
    assert (delete 6%nat (locals ++ (ipc_b64_encode_mem, GG_IPC_MAX_MSG_LEN) :: op_res op) =
      locals ++ [(ipc_b64_encode_mem, GG_IPC_MAX_MSG_LEN)]) as Hls by by rewrite Hres.
    rewrite Hls in Hp. eexists c', _, _. split_and!; [|exact Hp|exact Hv].
    intros subscribe. rewrite (proj2 (Z.eqb_neq _ _)) by done. cbn [negb]. by rewrite (ok_bind _ _ _ _ _ Hs).
Qed.

(** The operation asks for what the specification says. *)
Lemma op_asks view op r text c :
  op_room view (cmem c) op -> op_sends view op r text ->
  asks args_mem inner_mem outer_mem path_mem qos_mem ipc_b64_encode_mem (op_res op) (op_out op) c view
    (fun subscribe => op_body subscribe op) r text.
Proof.
  intros Hroom. pose proof (op_start _ _ _ Hroom) as Hstart. pose proof Hroom as [_ Hlit Haddr Henc _].
  assert (view ⊆ view) as Hv by done. intros Hsends. destruct Hsends.
  - eapply update_state_asks with (running := true); eauto.
  - eapply update_state_asks with (running := false); eauto.
  - eapply restart_component_asks; eauto.
  - eapply publish_json_asks; eauto.
  - eapply encoded_asks; [exact Hroom|eassumption..|]. intros c' view' b64 Hp Hv' Hb64.
    eapply publish_binary_b64_asks; eauto using key_text_mono.
  - eapply publish_binary_b64_asks; eauto.
  - eapply (encoded_asks view _ _ _ _ _ _ (fun b64 subscribe =>
      ggipc_publish_to_iot_core_b64 subscribe addr lit args_mem qos_mem topic b64 qos)); [exact Hroom|eassumption..|].
    intros c' view' b64 Hp Hv' Hb64. eapply publish_iot_core_asks; eauto using key_text_mono.
  - eapply publish_iot_core_asks; eauto.
  - destruct (get_config_start view keys component value c Hroom) as (c' & view' & more & Hrun & Hp & Hv').
    eapply (get_config_asks addr lit _ _ _ _ _ _ _ _ c c' view view' Hlit Hv' more Hp Haddr);
      eauto using keys_text_mono, optional_text_mono.
  - eapply (get_config_asks addr lit _ _ _ _ _ _ _ _ c c view view Hlit Hv _ Hstart Haddr); eauto.
  - destruct H4. eapply update_config_asks; eauto.
  - eapply subscribe_to_topic_asks; eauto.
  - eapply subscribe_to_iot_core_asks; eauto.
  - eapply subscribe_to_configuration_update_asks; eauto.
Qed.

Lemma op_sends_handle view op r text : op_sends view op r text -> sub_handle r = op_handle op.
Proof. by destruct 1. Qed.

Lemma can_call_mem c m tid ctx : can_call c tid ctx -> can_call (with_mem (sys c) m c) tid ctx.
Proof. intros [[Hs Hn Hp] ? ? ? ? ?]. by split. Qed.

(** Where the call's handle is stored. *)
Lemma op_handle_room op view m ls r :
  sub_handle r = op_handle op -> room view m (regions (op_out op) ls) -> handle_room view m r.
Proof.
  intros Hh Hr. unfold handle_room. rewrite Hh. intros Hne.
  assert ((op_handle op, 4) ∈ op_out op) as Hin.
  { unfold op_out, out_regions. rewrite (proj2 (Z.eqb_neq _ _)) by done. by left. }
  destruct (room_out (op_out op) view m ls (op_handle op, 4) Hr Hin) as [Hm Hf]. split_and!; [done..|].
  intros x Hx Hs. apply (room_out_apart (op_out op) view m ls _ x Hr Hin Hx).
  unfold in_regions, sending_regions. rewrite !Exists_cons. unfold sending_frame in Hs. cbn [fst snd]. tauto.
Qed.

Lemma call_frame_op op r x : sub_handle r = op_handle op -> call_frame r x -> body_frame op x.
Proof.
  intros Hh. unfold call_frame, op_frame, in_regions, regions. rewrite !Exists_app, Hh. intros [Hx|[Hne Hx]].
  - left. unfold sending_regions. rewrite !Exists_cons. unfold sending_frame in Hx. cbn [fst snd]. tauto.
  - right; right. unfold op_out, out_regions. rewrite (proj2 (Z.eqb_neq _ _)) by done. by left.
Qed.

Lemma call_sent_not_stuck c ctx r out p `{!FdWrites os (ipc_conn_fd c)} o c' : call_sent c ctx r out p o c' -> o <> Stuck.
Proof. intros [_ H]. case_match; by destruct H as [-> _]. Qed.

Lemma call_sent_mem c m0 ctx r out p `{!FdWrites os (ipc_conn_fd c)} o c' m :
  (sub_handle r <> NULL -> m = cmem c') ->
  call_sent (with_mem (sys c) m0 c) ctx r out p o c' -> call_sent c ctx r out p o (with_mem (sys c') m c').
Proof.
  intros Hm [Hok H]. split; [by destruct Hok|]. case_match; [|exact H].
  destruct H as (Ho & Hw & Habs & i & handle & Hcalls & Hstored & Hvalid). split_and!; [done..|].
  exists i, handle. split_and!; [done| |done]. intros Hne. cbn [cmem with_mem]. rewrite (Hm Hne). by apply Hstored.
Qed.

Lemma op_handle_buffer op : op_handle op <> NULL -> op_buffer op = NULL.
Proof. by destruct op. Qed.

(** C3: the interface sends what it is specified to send. On a connected client
    with a free stream, every call of the interface within the limits of its
    arguments registers itself, with the callbacks of its request, leaves the
    caller a handle for its slot where it subscribes, and writes exactly one packet to the connection:
    the EventStream encoding of the headers of its request and of the JSON text
    that the specification gives for the contents of the arguments. A packet
    that is too long is refused with [GG_ERR_NOMEM] and leaves no trace. Only
    the call's own buffers and variables are written; the caller's buffer for a
    configuration string is left as it is for the response, and empty when the
    request is refused. *)
Theorem op_sends_packet c tid ctx op r text view out k `{!FdWrites os (ipc_conn_fd c)} :
  can_call c tid ctx -> op_room view (cmem c) op -> op_sends view op r text ->
  fw_rel (sys c) out k -> (k <= retries)%nat ->
  exists o c', op_run (ggipc_subscribe_begin tid ctx) op c = (o, c') /\
    changes (frame op) (cmem c) (cmem c') /\ op_left op o (cmem c) (cmem c') /\
    call_sent c ctx r out (packet (call_headers (next_stream_id c) (operation r) (service_model_type r)) text) o c'.
Proof.
  intros Hcan Hroom Hsends Hw Hk.
  destruct (op_room_body _ _ _ Hroom) as [Hroom' _].
  destruct (op_asks _ _ _ _ _ Hroom Hsends) as (c1 & view1 & ls & kvs & Hrun & [Hc1 Hr1 Hch _] & Hv & Hreq & <-).
  pose proof (op_sends_handle _ _ _ _ Hsends) as Hh. remember (cmem c1) as m eqn:Hm. clear Hm. subst c1.
  destruct (call_sends (with_mem (sys c) m c) tid ctx r kvs view1 out k) as (o & c' & Hb & Hc & Hsent);
    [by apply can_call_mem|apply Hr1|eapply room_sending; [apply Hroom|exact Hr1]|by eapply op_handle_room|done|done|done|].
  destruct (op_run_body view (ggipc_subscribe_begin tid ctx) op c o c') as (m' & Hrun' & Hch' & Hleft & Hsame);
    [done|by rewrite Hrun|by eapply (call_sent_not_stuck (with_mem (sys c) m c)), Hsent| |].
  { apply (changes_trans _ _ m); [done|]. eapply changes_sub; [exact Hc|]. intros x. by apply call_frame_op. }
  exists o, (with_mem (sys c') m' c'). split_and!; [exact Hrun'|exact Hch'|exact Hleft|]. apply (call_sent_mem c m); [|done].
  intros Hne. by apply Hsame, op_handle_buffer; rewrite <- Hh.
Qed.

(** ** Refusals *)

(** A run that fails before it subscribes, and its body. *)
Definition refused op (c : client) (f : sysm client unit) (e : GgError) : Prop :=
  exists m, f c = (Fail e, with_mem (sys c) m c) /\ changes (frame op) (cmem c) m /\ op_left op (Fail e) (cmem c) m.

Definition body_refused op (c : client) (f : sysm client unit) (e : GgError) : Prop :=
  exists m, f c = (Fail e, with_mem (sys c) m c) /\ changes (body_frame op) (cmem c) m.

Lemma refused_body c op view subscribe e :
  op_room view (cmem c) op -> body_refused op c (op_body subscribe op) e -> refused op c (op_run subscribe op) e.
Proof.
  intros Hroom (m & Hrun & Hch).
  destruct (op_run_body view subscribe op c (Fail e) (with_mem (sys c) m c) Hroom Hrun) as (m' & Hr & Hc & Hl & _); [done..|].
  by exists m'.
Qed.

Lemma refused_at op c f e : f c = (Fail e, c) -> body_refused op c f e.
Proof. intros Hf. exists (cmem c). split; [rewrite Hf; by destruct c|apply changes_refl]. Qed.

(** A path that is too long, at any point of an operation. *)
Lemma path_refused op c0 view ls i c keys texts f (k : option GgObject -> sysm client unit) :
  prep op c0 view ls c -> ls !! i = Some (path_mem, sizeof_GgObject * 14) ->
  14 < zlen keys -> Forall2 (key_text view) keys texts ->
  f c0 = (path ← path_list path_mem keys; k path) c -> body_refused op c0 f GG_ERR_NOMEM.
Proof.
  intros [Hc Hr Hch Hin] Hi Hn Hk Hf. unfold body_refused. rewrite Hf.
  assert (Forall key_ok keys) as Hok by (clear -Hk; by induction Hk as [|? ? ? ? [[_ ?] _] _ ?]; constructor).
  assert (mapped (cmem c) path_mem (sizeof_GgObject * 14)) as Hm.
  { destruct Hr as [_ _ Hm _]. rewrite Forall_forall in Hm. apply (Hm (path_mem, sizeof_GgObject * 14)).
    unfold regions. apply list_elem_of_lookup_2 in Hi. set_solver. }
  pose proof (push_path_ok path_mem c 0 14 keys ltac:(lia) Hm Hok) as Hp. rewrite Z.add_0_l in Hp.
  rewrite (proj2 (Z.leb_gt _ _)) in Hp by done. destruct Hp as (vec & m & Hp & Hc').
  exists m. split.
  - assert (path_list path_mem keys c = (Fail GG_ERR_NOMEM, with_mem (sys c0) m c0)) as Hpath.
    { unfold path_list. change (GG_MAX_OBJECT_DEPTH - 1) with 14. rewrite (ok_bind _ _ _ _ _ Hp), Hc. by destruct c0. }
    unfold mbind, sysm_bind. by rewrite Hpath.
  - apply (changes_trans _ _ (cmem c)); [done|]. eapply changes_sub; [exact Hc'|]. intros x Hx. apply Hin.
    unfold in_regions. apply Exists_exists. exists (path_mem, sizeof_GgObject * 14).
    split; [by eapply list_elem_of_lookup_2|exact Hx].
Qed.

Lemma encode_refused op c view payload bs (f : BufPtr -> sysm client unit) :
  op_room view (cmem c) op -> buf_bytes view payload = Some bs -> bytes_ok bs -> zlen bs <= UINT32_MAX ->
  GG_IPC_MAX_MSG_LEN < (zlen bs + 2) / 3 * 4 ->
  body_refused op c (b64 ← encode_payload ipc_b64_encode_mem payload; f b64) GG_ERR_NOMEM.
Proof.
  intros Hroom Hb Hok Hl Hn. pose proof Hroom as [[Hview _ Hm _] _ _ Henc _].
  apply refused_at.
  assert (mapped (cmem c) ipc_b64_encode_mem GG_IPC_MAX_MSG_LEN) as Hmap.
  { rewrite Forall_forall in Hm. apply (Hm (ipc_b64_encode_mem, GG_IPC_MAX_MSG_LEN)). unfold regions, local_regions.
    set_solver. }
  pose proof (gg_base64_encode_run (cmem c) bs (mkArena ipc_b64_encode_mem GG_IPC_MAX_MSG_LEN 0) Hok) as Hrun.
  cbn [arena_mem capacity index] in Hrun. cbv zeta in Hrun. rewrite Z.sub_0_r in Hrun.
  rewrite bool_decide_false in Hrun by lia.
  assert (arena_ok (mkArena ipc_b64_encode_mem GG_IPC_MAX_MSG_LEN 0)) as Ha.
  { unfold arena_ok. cbn [arena_mem capacity index]. unfold UINT32_MAX, GG_IPC_MAX_MSG_LEN, SIZE_MAX in *. lia. }
  specialize (Hrun Ha Hmap Hl). unfold encode_payload, mbind at 1, sysm_bind, on_mem.
  rewrite (buf_bytes_mono _ _ _ _ Hview Hb). cbn [mbind option_bind].
  change (gg_arena_init (mkBuf ipc_b64_encode_mem GG_IPC_MAX_MSG_LEN)) with (mkArena ipc_b64_encode_mem GG_IPC_MAX_MSG_LEN 0).
  rewrite Hrun. by destruct c.
Qed.

Lemma update_path_refused view keys texts timestamp o t text subscribe c :
  let op := UpdateConfig keys timestamp o in
  op_room view (cmem c) op -> Forall2 (key_text view) keys texts -> 14 < zlen (merge_path t keys) ->
  value_at format_f64 view t o text -> negative_time timestamp = false ->
  body_refused op c (op_body subscribe op) GG_ERR_NOMEM.
Proof.
  intros op Hroom Hk Hn Hval Hts. pose proof (op_start _ _ _ Hroom) as Hstart. pose proof Hroom as [_ Hlit Haddr _ _].
  assert (is_map t = false -> keys <> []) as Hne.
  { intros Ht ->. unfold merge_path in Hn. rewrite Ht in Hn. done. }
  destruct (update_config_start addr lit _ _ _ _ _ _ _ _ c c view view Hlit ltac:(done) _ Hstart Haddr
    timestamp keys texts o t text Hk Hne Hval Hts)
    as (c1 & view1 & ls & i & j & t' & o' & Hrun & Hp & Hv & Hi & _).
  eapply (path_refused op c view1 ls i c1); [exact Hp|exact Hi|exact Hn| |exact (Hrun subscribe)].
  eapply keys_text_mono; [exact Hv|by apply merge_path_texts].
Qed.

Lemma get_path_refused view keys texts component value subscribe c :
  let op := GetConfig keys component value in
  op_room view (cmem c) op -> Forall2 (key_text view) keys texts -> 14 < zlen keys ->
  body_refused op c (op_body subscribe op) GG_ERR_NOMEM.
Proof.
  intros op Hroom Hk Hn. destruct (get_config_start _ _ _ _ _ Hroom) as (c' & view' & more & Hrun & Hp & Hv).
  eapply (path_refused op c view' _ 3 c'); [exact Hp|done|exact Hn| |exact (Hrun subscribe)].
  by eapply keys_text_mono.
Qed.

Lemma get_str_path_refused view keys texts component value subscribe c :
  let op := GetConfigStr keys component value in
  op_room view (cmem c) op -> Forall2 (key_text view) keys texts -> 14 < zlen keys ->
  body_refused op c (op_body subscribe op) GG_ERR_NOMEM.
Proof.
  intros op Hroom Hk Hn. by eapply (path_refused op c view _ 3 c); [by apply op_start|..].
Qed.

Lemma subscribe_path_refused view keys texts component name callback ctx handle subscribe c :
  let op := SubscribeToConfigurationUpdate component keys callback ctx handle in
  op_room view (cmem c) op -> Forall2 (key_text view) keys texts -> 14 < zlen keys -> optional_text view component name ->
  body_refused op c (op_body subscribe op) GG_ERR_NOMEM.
Proof.
  intros op Hroom Hk Hn Hname. pose proof (op_start _ _ _ Hroom) as Hstart. pose proof Hroom as [_ Hlit Haddr _ _].
  pose proof (pushed_start addr lit _ _ _ _ _ _ _ _ c c view view Hlit ltac:(done) _ Hstart Haddr _ c view Hstart) as Hpush.
  destruct (push_component_run addr lit _ _ _ _ _ _ _ _ c c view view Hlit ltac:(done) _ Hstart Haddr
    view _ c [] component name Hpush) as (c1 & view1 & ms & Hrun & [Hp _ _] & Hv & _); [done|done|done|].
  eapply (path_refused op c view1 _ 3 c1); [exact Hp|done|exact Hn|by eapply keys_text_mono|].
  unfold op, op_body, op_run, ggipc_subscribe_to_configuration_update.
  change (mkKVVec (mkMap args_mem 0) 2) with (mkKVVec (mkMap args_mem (zlen (@nil member))) 2). by rewrite Hrun.
Qed.

End api.

(** ** An example: publishing [{"a":true}] to the topic [t] *)

(** The pair at 1400, its key at 1450. *)
Definition sent_view : mem :=
  put (put ∅ 1450 [97]) 1400 (default [] (gg_kv (mkBuf 1450 1) (gg_obj_bool true))).

Lemma sent_view_fresh a n : 1500 <= a \/ a + n <= 1400 -> fresh sent_view a n.
Proof.
  intros Ha x Hx. unfold zrange in Hx. unfold sent_view. rewrite !put_lookup. unfold over.
  rewrite decide_False by (vm_compute zlen; lia). rewrite put_lookup. unfold over.
  by rewrite decide_False by (vm_compute zlen; lia).
Qed.

Lemma union_mapped (m1 m2 : mem) a n : mapped m1 a n \/ mapped m2 a n -> mapped (m1 ∪ m2) a n.
Proof. intros [H|H] x Hx; apply lookup_union_is_Some; [left|right]; by apply H. Qed.

(** The literals one after another. *)
Fixpoint literal_offset (s : bytes) (ss : list bytes) : Z :=
  match ss with
  | [] => 0
  | s' :: ss => if bool_decide (s = s') then 0 else zlen s' + literal_offset s ss
  end.

Definition api_lit (s : bytes) : Z := 2000 + literal_offset s literals.

(** The literals at 2000 and the topic at 2500, with the pair at 1400. *)
Definition api_view : mem := put (put sent_view 2500 [116]) 2000 (concat literals).

Definition api_mem : mem := api_view ∪ (zeroed 1000 200 ∪ (zeroed 3000 600 ∪ zeroed 300000 30000)).

Definition api_client : client (list bytes) := mkClient 3 4 77 1 init_streams ∅ api_mem [].

Abbreviation api_run := (op_run (fun _ => 8000) api_lit 3000 3100 3200 3300 3500 NULL 320000).

Lemma api_view_fresh a n :
  (a + n <= 1400 \/ 1500 <= a) /\ (a + n <= 2000 \/ 2600 <= a) -> fresh api_view a n.
Proof.
  intros Ha. assert (zlen (concat literals) <= 300) as Hl by (by vm_compute). unfold api_view.
  apply fresh_put; [apply fresh_put; [apply sent_view_fresh; lia|]|]; unfold disj; [change (zlen [116]) with 1; lia|].
  pose proof (zlen_nonneg (concat literals)). lia.
Qed.

Lemma api_mem_mapped a n :
  (1000 <= a /\ a + n <= 1200) \/ (3000 <= a /\ a + n <= 3600) \/ (300000 <= a /\ a + n <= 330000) -> mapped api_mem a n.
Proof.
  intros Ha. apply union_mapped. right.
  pose proof (zeroed_mapped 1000 200) as H1. pose proof (zeroed_mapped 3000 600) as H2.
  pose proof (zeroed_mapped 300000 30000) as H3.
  destruct Ha as [Ha|[Ha|Ha]]; apply union_mapped; [left|right; apply union_mapped; left|right; apply union_mapped; right];
    intros x Hx; [apply H1|apply H2|apply H3]; lia.
Qed.

Lemma api_client_can_call : can_call api_client 1 5000.
Proof. split; [by apply initial_ok|done..|]. apply (bool_decide_unpack _). by vm_compute. Qed.

Ltac per_region := repeat match goal with
  | |- ForallOrdPairs _ _ => constructor
  | |- Forall _ _ => constructor
  end.

Lemma api_room op : op_res op = [] -> op_out op = [] -> op_str op = [] \/ op_str op = [(3520, sizeof_GgBuffer)] ->
  op_room api_lit 3000 3100 3200 3300 3500 320000 api_view api_mem op.
Proof.
  intros Hres Hout Hstr. split.
  - rewrite Hres, Hout, app_nil_r. unfold regions, sending_regions, local_regions, local_arrays.
    cbn [app]. unfold sizeof_GgObject, sizeof_GgKV, GG_IPC_MAX_MSG_LEN, sizeof_GgBuffer in *.
    destruct Hstr as [-> | ->]; cbn [app]; split.
    all: try apply map_union_subseteq_l.
    all: per_region; first [apply api_view_fresh|apply api_mem_mapped|unfold disj]; cbn; lia.
  - assert (forallb (fun s => bool_decide (buf_bytes api_view (LIT api_lit s) = Some s) &&
      (0 <=? api_lit s) && (api_lit s <=? 3000) && (zlen s <=? 20)) literals = true) as Hall by by vm_compute.
    apply Forall_forall. intros s Hs. eapply forallb_forall in Hall; [|by apply list_elem_of_In].
    apply andb_true_iff in Hall as [[[Hb H1]%andb_true_iff H2]%andb_true_iff H3]. apply bool_decide_eq_true in Hb.
    split; [|done]. pose proof (zlen_nonneg s). split; cbn [data len LIT]; unfold SIZE_MAX, UINT16_MAX; lia.
  - per_region; unfold SIZE_MAX; lia.
  - unfold SIZE_MAX, GG_IPC_MAX_MSG_LEN. lia.
  - done.
Qed.

(** The topic and the payload of the example. *)
Definition api_publish : ipc_op := PublishToTopicJson (mkBuf 2500 1) (mkMap 1400 1).

Definition api_publish_text : bytes :=
  message_text (GG_STR "jsonMessage") [116] (json_object [([97], GG_STR "true")]).

Lemma api_publish_sends :
  op_sends (fun _ => 8000) 3000 NULL api_view api_publish
    (publish_to_topic_request (fun _ => 8000) 3000) api_publish_text.
Proof.
  destruct (value_members format_f64 api_view 1400
    [mkMember (mkBuf 1450 1) [97] (TBool true) (gg_obj_bool true) (GG_STR "true")]) as (o & Ho & Hval).
  - by split.
  - constructor; [|constructor]. split; [by split|by vm_compute|]. split; [by split|by vm_compute|done|by vm_compute].
  - intros i m Hi. pose proof (rd_Some _ _ _ Hi) as Hr. change (zlen [_]) with 1 in Hr. assert (i = 0) as -> by lia.
    injection Hi as <-. by vm_compute.
  - eapply sends_publish_json; [|exact Ho|exact Hval|].
    + split; [by split|by vm_compute].
    + by split.
Qed.

Lemma op_sends_packet_witness :
  exists o c', api_run (ggipc_subscribe_begin 1 5000) api_publish api_client = (o, c') /\ o = Ok tt /\
    concat (sys c') = packet (call_headers 1 (GG_STR "aws.greengrass#PublishToTopic")
      (GG_STR "aws.greengrass#PublishToTopicRequest")) api_publish_text.
Proof.
  destruct (op_sends_packet (fun _ => 8000) api_lit 3000 3100 3200 3300 3500 NULL 320000
    api_client 1 5000 api_publish _ _ api_view [] 0 api_client_can_call (api_room api_publish eq_refl eq_refl (or_introl eq_refl))
    api_publish_sends) as (o & c' & Hb & _ & _ & _ & Hsent); [done|done|].
  exists o, c'. split; [exact Hb|]. revert Hsent.
  rewrite zlen_packet, (proj2 (Z.leb_le _ _)) by by vm_compute. intros (-> & [k' Hw] & _). split; [done|exact Hw].
Defined.

(** Reading a string at a path of fifteen keys: the caller's buffer becomes
    empty. *)
Definition api_get : ipc_op := GetConfigStr (repeat (mkBuf 2500 1) 15) None 3520.

